(* ===== verification/_CoqProject ===== *)
-Q . S2P
Prelude.v
Tables.v
Intents.v
Leases.v
Cursors.v
Journal.v
Pending.v
Budget.v
Catalog.v
Governance.v
Provenance.v
Artifacts.v
AtomicState.v
Worklist.v
Evidence.v
Lineage.v
Resolution.v
MergePlans.v
Restoration.v
Merge.v
MergeCommit.v
MergeGroups.v
Candidates.v
Review.v
ReviewHistory.v
ReviewEvidence.v
ScopeCache.v
Relatedness.v
Access.v
AccessPolicy.v
AccessStore.v
AccessControl.v
