(* ===== verification/Prelude.v ===== *)
(** * PowerContext core: a verification library

    PowerContext keeps, per Scope, an append-only journal of Sources and the Artifacts
    derived from it (Memory, Experience, Topic Memory, Handoffs ...).  Capturing a
    Source wakes the processing bindings of its Scope; a Supervisor holding a fenced
    Lease scans the woken bindings and starts Workers; a Worker plans a window of the
    journal, asks a model what to keep, and commits Artifact revisions together with
    its cursor.  Proposals that need a human decision wait as Candidates; Artifacts are
    merged and restored in groups; every request passes access control.  This library
    models those parts of [src/src/powercontext] (paths below are relative to it) and
    proves what makes them correct.

    ** Parts

    Values and transactions
    - [Prelude] (this file): exceptions, [result] for Python calls that may raise, [M]
      for a call inside a transaction over tables, Python text as code points, insertion
      ordered dicts, and the facts about lists, options and runs that all parts share;
    - [Tables]: the processing tables of [builtin/persistence/tables.py], their CHECK
      constraints, and the state [pdb] of a processing transaction;
    - [Catalog]: the Artifact tables and the values of [artifacts/models.py].

    Processing
    - [Journal]: [persistence/sources.py], capture of a batch and reads of the journal;
      it wakes bindings through [Intents];
    - [Intents]: [persistence/processing_intents.py], coalesced wakeups;
    - [Leases]: [persistence/supervision.py], the fenced Supervisor Lease and scan state;
    - [Cursors]: [persistence/cursors.py], [triggers/source_window.py] and the window
      transactions of [runtime/relational.py] and [runtime/atomic_memory_processing.py];
    - [Pending]: [persistence/processing.py], the durable dirty set and automatic waves;
    - [Budget]: [persistence/topic_memory_budget.py], work charged before it is done;
    - [Relatedness]: [artifacts/topic_memory/relatedness.py], union-find over proposals;
    - [ScopeCache]: [runtime/_scope_cache.py], the LRU of Scope resources.

    Artifacts
    - [Artifacts]: [persistence/artifacts.py], revisions under one head per identity;
      it uses [Governance] ([persistence/artifact_governance.py], lifecycle transitions)
      and [Provenance] (the publication walk);
    - [MergePlans], [Restoration], [Merge]: [artifacts/merge_models.py],
      [merge_restoration.py] and [merge.py], planning and committing changes, merges and
      restorations; [MergeCommit] and [MergeGroups] hold what a commit and a merge
      followed by an undo do;
    - [Candidates]: [persistence/candidates.py] with [review/models.py], the Inbox;
    - [Review]: [review/service.py], the checks a proposal, a revision and an approval
      pass and the publication of approved content through [Artifacts]; the other
      components it calls are the class [Collaborators].  [ReviewHistory] holds what its
      operations do to the tables and the histories of their transactions;
    - [AtomicState]: [persistence/atomic_memory.py], the states of a Memory over its head;
    - [Worklist], [Evidence]: [evidence/resolver.py], [models.py] and [selection.py], the
      lineage of what a review or a model cites: its validation ([Lineage] proves what it
      guarantees), its manifest and the choice of a model ([Resolution]);
      [ReviewEvidence] composes the review service with it.

    Access control, [server/authz]
    - [Access]: [models.py] and [profiles.py], actions, roles, resources and their keys;
    - [AccessPolicy]: the decisions of [service.py] and [casbin.py];
    - [AccessStore]: [repository.py], relationships, receipts, revision and audit log;
    - [AccessControl]: the requests of [service.py] as sequences of store transactions.

    Operations keep their names; a Python method [m] of a repository is the definition
    [m] of the part's Module, a table row is a Record of the same fields, and a table is a
    [gmap] from its primary key.  The parameters of a Section are what the source takes
    from elsewhere: SHA-256, serialisation, the text of a timestamp, the clock, [uuid4], the enforcer of
    the casbin package, the model providers, the callbacks of a caller.

    ** What the theorems show

    - No work is lost or done twice: [dirty_survives_acknowledge], [signal_survives],
      [wave_deletes_only_frozen], [capture_wakes_bindings], [windows_exactly_once],
      [trigger_drains]; the journal is complete and append-only ([journal_refines_log],
      [journal_window_complete]).
    - One leader at a time, and a deposed one is stopped: [lease_mutual_exclusion],
      [lease_fencing], [lease_takeover]; likewise for attempts on a work budget
      ([superseded_attempt_stops]), which never exceeds its ceilings ([budget_ceilings]).
    - Artifact histories are contiguous and immutable, and no update is lost
      ([history_contiguous], [history_immutable], [one_revision_per_base],
      [revise_effect]); provenance walks end and are exact ([provenance_exact]).
    - Merges: [merge_inputs_round_trip], [commit_window_effect], [merge_undo_roundtrip],
      [restoration_plan_exact], [inspected_well_planned], [transition_keeps_merge_targets].
    - Candidates refine an abstract Inbox and are decided once: [candidates_refine_spec],
      [candidate_decided_once].
    - Review, of Experiences and Skills: proposals and revisions are checked
      ([proposal_is_checked], [revision_is_checked]); an approval publishes exactly what was
      reviewed, with the reviewer's authority, and writes nothing else
      ([approval_publishes_review]), at most once however approvals overlap
      ([approved_once]); what is approved stays published as it was
      ([approved_is_published]).  A rejected Candidate of any Family but Profile is never
      approved ([rejected_never_published]).
    - Evidence: a validated lineage is authorized and admissible throughout, and its roots
      are exact ([validated_lineage], [approval_rests_on_lineage]); a manifest is bounded
      and describes what is stored, also when it is replayed against a pinned one
      ([resolution_within_limits], [resolution_is_snapshot]); a model's selection is
      supported by what it was shown ([selection_is_supported]); the traversals end
      ([evidence_terminates]).  A Memory's state is the same in Python and in SQL
      ([sql_state_agrees]) and its transitions read back ([transition_reads_back]).
    - Access: nobody grants or takes away what he may not administer, whatever is written
      in between and with either provider ([grant_requires_authority],
      [change_requires_authority]); refusals are logged and change nothing; the two
      providers agree on relationships that fit the roles of the service
      ([providers_agree]), and the listing agrees with the built-in point decisions
      ([listing_matches_decisions]); bindings, owners,
      presets and single-holder roles are settled as promised ([binding_lifecycle],
      [owner_is_settled], [preset_is_final], [one_holder], [create_replays]), and the
      revision identifies the policy ([revision_identifies_policy]).
    - Pure algorithms: [related_components_exact], [cache_spares_active].

    ** Conventions and bounds

    A transaction is atomic and runs against the latest committed state; an exception
    carries no state, since it rolls the transaction back.  Histories are step relations
    over transactions, in any order and of any length, so every interleaving of callers is
    covered at the granularity of transactions.  Where the source reads, awaits and then
    writes in one call, the writes of others appear explicitly: [meanwhile] in
    [Leases.try_acquire] and [AccessControl], [between], [during] and [after] in
    [Review.approve], [waits] in [Evidence.validate] and [Evidence.resolve].  An INSERT that another transaction can race
    is serialised by the lock the source takes first; the race inside a single unlocked
    read-then-insert of the journal head is not modelled.  A failed bulk insert leaves
    nothing.  Rows a query does not order come in an order of the database's own.

    Integers are Python's and unbounded.  Durations are microseconds, the resolution of
    [timedelta], and instants are naive UTC.  Payloads are kept decoded: the enrichment of
    native headers is not visible on decoded values, and a payload that does not decode is
    an explicit case where the source tells it apart.  The foreign keys of Candidates to
    Scopes are left to the database: an unknown Scope would only turn a success into an
    [IntegrityError].  Vectors of one model have one dimension.  A Merge is that of the
    base service, without the additions of the Atomic Memory subclass; references in the
    legacy Family name [memory] are not validated again.

    Recursion that is not structural takes fuel, and theorems show that the fuel given is
    enough: a provenance walk makes at most one round more than there are publications; a
    restoration follows at most as many heads as exist; the union-find follows at most as
    many parents as the index; the cache evicts at most as many Scopes as it holds; the
    window trigger needs at most one activation per Source; a walk over evidence pushes
    every stored child at most once for each reference and owner, and a search along the
    edges of a graph every edge once ([Worklist.to_push]); the depth of a resolution is
    its own limit.

    ** Not modelled, and why

    Framework glue and I/O: the HTTP and MCP server, the command line, the desktop and
    gateway, clients, generated schemas, observability, engines and migrations.  Calls of
    model providers and parsers (inference adapters, the code graph) are third-party
    behaviour; the code that drives them is modelled up to the call.  The application
    facade [runtime/application.py] only dispatches.  Portability bundles, the dream
    scheduler, Handoff reports, prepared context, the signing of merge previews and the
    read-back of a restoration's outcome are left out for their size, not for a reason of
    principle; likewise the Inbox pages and evidence inspection of the review service,
    whose package store, search projections and writers of Memory,
    Topic Memory, Handoffs, Prompts and Profiles are assumed only ([Writers]) to keep
    what is stored and to approve no Experience or Skill; of access control the signed page cursors, the prefetched decision batches,
    deferred audits and the Handoff receipt identities. *)

From stdpp Require Export prelude gmap sorting strings.
From Stdlib Require Export ZArith Lia.

(** ** Exceptions

    One constructor per Python exception class the modelled code raises; the
    string tells the raise sites of a class apart. *)

Inductive exn :=
  | ValueError (msg : string)
  | RuntimeError (msg : string)
  | IntegrityError (table : string)
  | InvalidArtifactReferenceError (field : string)
  | RevisionConflictError (current : Z)
  | ArtifactFamilyMismatchError
  | RepositoryNotFoundError (kind : string)
  | InvalidRepositoryArgumentError (field : string)
  | StoredPayloadConflictError (kind : string)
  | InvalidStoredPayloadError (kind : string)
  | InvalidArtifactLifecycleError (msg : string)
  | InvalidPublicationLineageError (issue : string)
  | GenerationConflictError (expected actual : option Z)
  | ArtifactProcessingLeadershipLostError (generation : Z)
  | SourceNotEligibleError
  | WorkingNoteUnavailableError
  | TopicMemoryGenerationError (code : list Z) (estimated effective : option Z)
  | ArtifactMergeConflictError (msg : string)
  | ArtifactMergeRelationError (msg : string)
  | InvalidArtifactMergeStateError (msg : string)
  | InvalidArtifactMergePreviewError (msg : string)
  | ArtifactMergePreviewExpiredError (msg : string)
  | ArtifactMergePreviewStaleError (msg : string)
  | InvalidInferenceOutputError (msg : string)
  | RedundantAtomicMemoryRevisionError (target : list Z)
  | AtomicMemoryConflictError (msg : string)
  | AtomicMemoryRelationError (msg : string)
  | PolicyError (msg : string)
  | IdentityMismatchError (kind : string)
  | InvalidStoredColumnError (column : string)
  | CandidateNotFoundError
  | CandidateConflictError (expected_version current_version : Z)
  | CandidateTerminalError (status : string)
  | InvalidCandidateError (field : string)
  | ArtifactTargetConflictError
  | EvidenceResolutionError (code : string)
  | AccessIdentityRequiredError
  | AccessDeniedError
  | AccessBindingNotFoundError
  | AccessUnavailableError (code : string)
  | AccessConflictError (code : string)
  | AccessInvalidRequestError (code : string)
  | OutOfFuel.

#[export] Instance exn_eq_dec : EqDecision exn.
Proof. solve_decision. Defined.

(** ** Fallible computations and transactions

    [result A] is a Python call that returns or raises.  [M S A] is a call inside
    a transaction over tables [S]: an exception carries no state, because the
    caller's transaction is rolled back. *)

Inductive result (A : Type) :=
  | Ok (a : A)
  | Err (e : exn).
Arguments Ok {A} a.
Arguments Err {A} e.

#[export] Instance result_eq_dec `{EqDecision A} : EqDecision (result A).
Proof. solve_decision. Defined.

#[export] Instance result_ret : MRet result := @Ok.
#[export] Instance result_bind : MBind result := λ A B k m,
  match m with Ok a => k a | Err e => Err e end.

Definition M (S A : Type) : Type := S → result (A * S).

#[export] Instance M_ret {S} : MRet (M S) := λ A a s, Ok (a, s).
#[export] Instance M_bind {S} : MBind (M S) := λ A B k m s,
  match m s with Ok (a, s') => k a s' | Err e => Err e end.

(** [raise e] and [if cond: raise e], in either monad. *)
Definition raise_if (P : Prop) `{Decision P} (e : exn) : result unit :=
  if decide P then Err e else Ok tt.

(** A read of the tables that may raise. *)
Definition reads {S A} (f : S → result A) : M S A := λ s,
  match f s with Ok a => Ok (a, s) | Err e => Err e end.
Definition gets {S A} (f : S → A) : M S A := λ s, Ok (f s, s).
Definition modifies {S} (f : S → S) : M S unit := λ s, Ok (tt, f s).
Definition lift {S A} (r : result A) : M S A := λ s,
  match r with Ok a => Ok (a, s) | Err e => Err e end.

(** A [for] loop whose body may raise or write. *)
Fixpoint for_each {S A} (f : A → M S unit) (l : list A) : M S unit :=
  match l with
  | [] => mret tt
  | x :: l' => f x ;; for_each f l'
  end.
Fixpoint check_each {A} (f : A → result unit) (l : list A) : result unit :=
  match l with
  | [] => Ok tt
  | x :: l' => _ ← f x; check_each f l'
  end.
Fixpoint map_result {A B} (f : A → result B) (l : list A) : result (list B) :=
  match l with
  | [] => Ok []
  | x :: l' => y ← f x; ys ← map_result f l'; Ok (y :: ys)
  end.

Section monad_laws.
  Context {S : Type}.

Lemma result_bind_ok {A B} (m : result A) (k : A → result B) b :
    (m ≫= k) = Ok b ↔ ∃ a, m = Ok a ∧ k a = Ok b.
  Proof. destruct m; simpl; split; naive_solver. Qed.

Lemma M_bind_ok {A B} (m : M S A) (k : A → M S B) s r :
    (m ≫= k) s = Ok r ↔ ∃ a s', m s = Ok (a, s') ∧ k a s' = Ok r.
  Proof.
    unfold mbind, M_bind. destruct (m s) as [[a s']|e]; split; naive_solver.
  Qed.

Lemma raise_if_ok (P : Prop) `{Decision P} e u : raise_if P e = Ok u ↔ ¬ P.
  Proof. unfold raise_if. destruct u. case_decide; naive_solver. Qed.

Lemma raise_if_skip (P : Prop) `{Decision P} e : ¬ P → raise_if P e = Ok tt.
  Proof. intros. unfold raise_if. by rewrite decide_False. Qed.

Lemma reads_ok {A} (f : S → result A) s a s' :
    reads f s = Ok (a, s') ↔ f s = Ok a ∧ s' = s.
  Proof. unfold reads. destruct (f s); naive_solver. Qed.

Lemma gets_ok {A} (f : S → A) s a s' : gets f s = Ok (a, s') ↔ a = f s ∧ s' = s.
  Proof. unfold gets. naive_solver. Qed.

Lemma modifies_ok (f : S → S) s u s' : modifies f s = Ok (u, s') ↔ s' = f s.
  Proof. unfold modifies. destruct u. naive_solver. Qed.

Lemma lift_ok {A} (r : result A) (s : S) a s' :
    lift r s = Ok (a, s') ↔ r = Ok a ∧ s' = s.
  Proof. unfold lift. destruct r; naive_solver. Qed.

Lemma M_ret_ok {A} (a : A) (s : S) b s' :
    (mret a : M S A) s = Ok (b, s') ↔ b = a ∧ s' = s.
  Proof. unfold mret, M_ret. naive_solver. Qed.

Lemma check_each_ok {A} (f : A → result unit) l u :
    check_each f l = Ok u ↔ Forall (λ x, f x = Ok tt) l.
  Proof.
    destruct u. induction l as [|x l IH]; simpl; [split; auto|].
    rewrite result_bind_ok, Forall_cons, <- IH. split.
    - intros ([] & ? & ?); auto.
    - intros [? ?]. eauto.
  Qed.

Lemma map_result_ok {A B} (f : A → result B) l ys :
    map_result f l = Ok ys ↔ Forall2 (λ x y, f x = Ok y) l ys.
  Proof.
    revert ys. induction l as [|x l IH]; intros ys; simpl.
    - split; [injection 1 as <-; constructor|]. by inversion 1.
    - rewrite result_bind_ok. split.
      + intros (y & Hy & H). apply result_bind_ok in H as (ys' & Hys & H).
        injection H as <-. constructor; [done|]. by apply IH.
      + inversion 1 as [|? y ? ys' Hy Hys]; subst. exists y. split; [done|].
        apply result_bind_ok. exists ys'. split; [by apply IH|done].
  Qed.

Lemma map_result_total {A B} (f : A → result B) (g : A → B) l :
    (∀ x, x ∈ l → f x = Ok (g x)) → map_result f l = Ok (g <$> l).
  Proof.
    intros Hf. apply map_result_ok. induction l as [|x l IH]; simpl; constructor.
    - apply Hf. left.
    - apply IH. intros y Hy. apply Hf. by right.
  Qed.

  (** A property of every written state carries over a [for] loop. *)
Lemma for_each_preserves {A} (P : S → Prop) (f : A → M S unit) l s s' :
    (∀ x s u s', x ∈ l → P s → f x s = Ok (u, s') → P s') →
    P s → for_each f l s = Ok (tt, s') → P s'.
  Proof.
    revert s. induction l as [|x l IH]; intros s Hf Hs; simpl.
    - intros [_ ->]%M_ret_ok. done.
    - intros (u & s1 & H1 & H2)%M_bind_ok.
      eapply IH; [|eapply Hf; [left|exact Hs|exact H1]|exact H2].
      intros y ? ? ? Hy. apply Hf. by right.
  Qed.
End monad_laws.

(** Invert a successful run into the runs of its parts. *)
Ltac run_step :=
  match goal with
  | H : Err _ = Ok _ |- _ => discriminate H
  | H : Ok _ = Ok _ |- _ => injection H as H; subst
  | H : (_, _) = (_, _) |- _ => injection H as H; subst
  | H : mret _ = Ok _ |- _ => injection H as H; subst
  | H : mret _ _ = Ok (_, _) |- _ => apply M_ret_ok in H as [? ->]; subst
  | H : (_ ≫= _) = Ok _ |- _ => apply result_bind_ok in H as (? & ? & H)
  | H : (_ ≫= _) _ = Ok _ |- _ => apply M_bind_ok in H as (? & ? & ? & H)
  | H : raise_if _ _ = Ok _ |- _ => apply raise_if_ok in H
  | H : reads _ _ = Ok (_, _) |- _ => apply reads_ok in H as [H ->]
  | H : gets _ _ = Ok (_, _) |- _ => apply gets_ok in H as [-> ->]
  | H : modifies _ _ = Ok (_, _) |- _ => apply modifies_ok in H as ->
  | H : lift _ _ = Ok (_, _) |- _ => apply lift_ok in H as [H ->]
  | H : unit |- _ => destruct H
  end.
Ltac run := repeat run_step; simpl in *.

(** ** Text

    A Python [str] is its list of code points.  [len] is [length], equality and
    ordering are those of code point sequences, [str.strip] removes the code
    points for which [str.isspace] holds. *)

Notation text := (list Z).

Definition str (s : string) : text :=
  (λ a, Z.of_nat (Ascii.nat_of_ascii a)) <$> String.list_ascii_of_string s.

Lemma str_inj a b : str a = str b → a = b.
Proof.
  unfold str. intros H. rewrite <- (String.string_of_list_ascii_of_string a), <- (String.string_of_list_ascii_of_string b). f_equal.
  eapply list_fmap_eq_inj; [|exact H]. intros c d Hc%Nat2Z.inj.
  rewrite <- (Ascii.ascii_nat_embedding c), <- (Ascii.ascii_nat_embedding d). by f_equal.
Qed.

(** The code points whose bidirectional type or category makes [str.isspace] true. *)
Definition space_ranges : list (Z * Z) :=
  [(9, 13); (28, 32); (133, 133); (160, 160); (5760, 5760); (8192, 8202);
   (8232, 8233); (8239, 8239); (8287, 8287); (12288, 12288)]%Z.
Definition is_space (c : Z) : bool :=
  existsb (λ '(lo, hi), (lo <=? c)%Z && (c <=? hi)%Z) space_ranges.

Fixpoint lstrip (t : text) : text :=
  match t with
  | [] => []
  | c :: t' => if is_space c then lstrip t' else t
  end.
Definition rstrip (t : text) : text := reverse (lstrip (reverse t)).
Definition strip (t : text) : text := rstrip (lstrip t).

Definition len (t : text) : Z := Z.of_nat (length t).

(** Python's [<=] on strings: the first differing code point decides. *)
Fixpoint text_leb (a b : text) : bool :=
  match a, b with
  | [], _ => true
  | _ :: _, [] => false
  | x :: a', y :: b' => if (x <? y)%Z then true else if (y <? x)%Z then false else text_leb a' b'
  end.
Definition text_le (a b : text) : Prop := text_leb a b = true.
#[export] Instance text_le_dec : RelDecision text_le := λ a b, bool_eq_dec _ _.

#[export] Instance text_le_trans : Transitive text_le.
Proof.
  intros a. induction a as [|x a IH]; intros [|y b] [|z c]; unfold text_le; simpl; try done.
  destruct (Z.ltb_spec x y), (Z.ltb_spec y z), (Z.ltb_spec x z),
    (Z.ltb_spec y x), (Z.ltb_spec z y), (Z.ltb_spec z x); try done; try lia.
  apply IH.
Qed.

#[export] Instance text_le_total : Total text_le.
Proof.
  intros a. induction a as [|x a IH]; intros [|y b]; unfold text_le; simpl; auto.
  destruct (Z.ltb_spec x y), (Z.ltb_spec y x); auto. apply IH.
Qed.

#[export] Instance text_le_antisymm : AntiSymm (=) text_le.
Proof.
  intros a. induction a as [|x a IH]; intros [|y b]; unfold text_le; simpl; try done.
  destruct (Z.ltb_spec x y), (Z.ltb_spec y x); try done; try lia.
  intros ? ?. f_equal; [lia|]. by apply IH.
Qed.

(** [sorted(keys)] over distinct strings. *)
Definition sorted_text (l : list text) : list text := merge_sort text_le l.

Lemma sorted_text_elem l x : x ∈ sorted_text l ↔ x ∈ l.
Proof. unfold sorted_text. by rewrite merge_sort_Permutation. Qed.

Lemma sorted_text_NoDup l : NoDup l → NoDup (sorted_text l).
Proof. unfold sorted_text. by rewrite merge_sort_Permutation. Qed.

Lemma sorted_text_sorted l : StronglySorted text_le (sorted_text l).
Proof. apply StronglySorted_merge_sort; apply _. Qed.

(** ** Identifiers shared by the repositories

    [not value.strip() or value != value.strip()], then the length limit. *)

Definition MAX_SCOPE_ID_LENGTH : Z := 256.
Definition MAX_ARTIFACT_FAMILY_LENGTH : Z := 128.
Definition MAX_ARTIFACT_ID_LENGTH : Z := 128.
Definition MAX_BINDING_NAME_LENGTH : Z := 128.
Definition SELECTION_BATCH_SIZE : nat := 500.

Definition trimmed (value : text) : Prop := strip value ≠ [] ∧ value = strip value.
#[export] Instance trimmed_dec value : Decision (trimmed value) := _.

Definition require_identifier (field : string) (value : text) (maximum : Z) : result unit :=
  raise_if (¬ trimmed value) (InvalidRepositoryArgumentError field) ;;
  raise_if (maximum < len value)%Z (InvalidRepositoryArgumentError field).

(** ** Collections *)

(** [dict.fromkeys] and [set]-guarded loops: keep the first occurrence. *)
Section nub.
  Context `{EqDecision A}.

Fixpoint nub_from (seen : list A) (l : list A) : list A :=
    match l with
    | [] => []
    | x :: l' => if decide (x ∈ seen) then nub_from seen l' else x :: nub_from (x :: seen) l'
    end.
Definition nub (l : list A) : list A := nub_from [] l.

Lemma nub_from_elem seen l x : x ∈ nub_from seen l ↔ x ∈ l ∧ x ∉ seen.
  Proof.
    revert seen. induction l as [|y l IH]; intros seen; simpl.
    - split; [by intros ?%not_elem_of_nil|by intros [?%not_elem_of_nil _]].
    - case_decide as Hy; rewrite ?elem_of_cons, IH, ?elem_of_cons.
      + split; [tauto|]. intros [[-> | ?] ?]; tauto.
      + destruct (decide (x = y)) as [->|]; tauto.
  Qed.

Lemma nub_elem l x : x ∈ nub l ↔ x ∈ l.
  Proof. unfold nub. rewrite nub_from_elem. pose proof (not_elem_of_nil x). tauto. Qed.

Lemma nub_NoDup l : NoDup (nub l).
  Proof.
    unfold nub. generalize (@nil A). induction l as [|y l IH]; intros seen; simpl.
    - constructor.
    - case_decide; [done|]. constructor; [|done]. rewrite nub_from_elem, elem_of_cons. tauto.
  Qed.

Lemma nub_from_id seen l : NoDup l → (∀ x, x ∈ l → x ∉ seen) → nub_from seen l = l.
  Proof.
    revert seen. induction l as [|y l IH]; intros seen Hl Hs; simpl; [done|].
    apply NoDup_cons in Hl as [Hy Hl].
    rewrite decide_False by (apply Hs; left). f_equal. apply IH; [done|].
    intros x Hx [->|Hin]%elem_of_cons; [done|]. by apply (Hs x); [right|].
  Qed.

Lemma nub_id l : NoDup l → nub l = l.
  Proof. intros. apply nub_from_id; [done|]. intros x _. apply not_elem_of_nil. Qed.
End nub.

(** Insertion-ordered dictionaries. *)
Notation dict K V := (list (K * V)).
Section dict.
  Context {K V : Type} `{EqDecision K}.
  Implicit Types (d : dict K V) (k : K) (v : V).

Fixpoint dget (k : K) d : option V :=
    match d with
    | [] => None
    | (k', v) :: d' => if decide (k = k') then Some v else dget k d'
    end.
  (** Assignment keeps the position of a key already present. *)
Fixpoint dset (k : K) (v : V) d : dict K V :=
    match d with
    | [] => [(k, v)]
    | (k', v') :: d' => if decide (k = k') then (k, v) :: d' else (k', v') :: dset k v d'
    end.
Definition ddel (k : K) d : dict K V := filter (λ p, p.1 ≠ k) d.
Definition dset_all (l : list (K * V)) d : dict K V := foldl (λ d p, dset p.1 p.2 d) d l.

Lemma dget_dset k k' v d : dget k (dset k' v d) = if decide (k = k') then Some v else dget k d.
  Proof. induction d as [|[j w] d IH]; simpl; repeat (case_decide; simpl; subst); congruence. Qed.

Lemma dget_ddel k k' d : dget k (ddel k' d) = if decide (k = k') then None else dget k d.
  Proof.
    induction d as [|[j w] d IH]; simpl; [by case_decide|].
    unfold ddel in *. rewrite filter_cons. simpl.
    repeat (case_decide; simpl; subst); try congruence.
  Qed.

Lemma dget_elem k v d : dget k d = Some v → (k, v) ∈ d.
  Proof. induction d as [|[j w] d IH]; simpl; [done|]. case_decide; intros; simplify_eq; set_solver. Qed.

Lemma dget_is_Some k d : is_Some (dget k d) ↔ k ∈ d.*1.
  Proof.
    induction d as [|[j w] d IH]; simpl.
    - split; [by intros [? ?]|by intros ?%not_elem_of_nil].
    - case_decide; subst; rewrite elem_of_cons; [naive_solver|]. rewrite IH. naive_solver.
  Qed.

Lemma dget_None k d : dget k d = None ↔ k ∉ d.*1.
  Proof. rewrite <- dget_is_Some, <- eq_None_not_Some. done. Qed.

Lemma dget_app k d d' : dget k (d ++ d') = match dget k d with Some v => Some v | None => dget k d' end.
  Proof. induction d as [|[j w] d IH]; simpl; [done|]. by case_decide. Qed.

Lemma dset_keys k v d : (dset k v d).*1 = if decide (k ∈ d.*1) then d.*1 else d.*1 ++ [k].
  Proof.
    induction d as [|[j w] d IH]; [done|]. cbn [dset]. rewrite !fmap_cons. cbn [fst].
    destruct (decide (k = j)) as [->|Hkj].
    { rewrite decide_True; [done|]. left. }
    rewrite fmap_cons, IH. cbn [fst]. destruct (decide (k ∈ d.*1)) as [Hk|Hk].
    - rewrite decide_True; [done|]. by right.
    - rewrite decide_False; [done|]. by intros [?|?]%elem_of_cons.
  Qed.

Lemma dset_NoDup k v d : NoDup d.*1 → NoDup (dset k v d).*1.
  Proof.
    intros H. rewrite dset_keys. destruct (decide (k ∈ d.*1)) as [|Hk]; [done|].
    apply NoDup_app. split; [done|]. split; [|apply NoDup_singleton].
    by intros x Hx ->%list_elem_of_singleton.
  Qed.

Lemma ddel_elem k p d : p ∈ ddel k d ↔ p ∈ d ∧ p.1 ≠ k.
  Proof. unfold ddel. rewrite list_elem_of_filter. tauto. Qed.

Lemma ddel_NoDup k d : NoDup d.*1 → NoDup (ddel k d).*1.
  Proof.
    unfold ddel. induction d as [|[j w] d IH]; simpl; [done|].
    intros [Hj Hd]%NoDup_cons. rewrite filter_cons. case_decide; simpl; [|auto].
    constructor; [|auto]. intros (p & -> & Hp)%list_elem_of_fmap.
    apply list_elem_of_filter in Hp as [_ Hp]. apply Hj.
    apply list_elem_of_fmap. eauto.
  Qed.

Lemma dget_Some_elem k v d : NoDup d.*1 → (k, v) ∈ d → dget k d = Some v.
  Proof.
    induction d as [|[j w] d IH]; simpl; [set_solver|].
    intros [Hj Hd]%NoDup_cons [Heq|Hin]%elem_of_cons.
    { injection Heq as -> ->. by rewrite decide_True. }
    rewrite decide_False; [by apply IH|]. intros ->. apply Hj.
    apply list_elem_of_fmap. by exists (j, v).
  Qed.
End dict.

(** Consequences of a list of successful calls, element by element. *)
Lemma Forall2_in {A B} (P Q : A → B → Prop) l k :
  Forall2 P l k → (∀ x y, x ∈ l → P x y → Q x y) → Forall2 Q l k.
Proof.
  induction 1 as [|x y l k Hxy Hlk IH]; intros H; constructor.
  - apply H; [left|done].
  - apply IH. intros a b Ha. apply H. by right.
Qed.

Lemma Forall2_elem_l {A B} (P : A → B → Prop) l k x : Forall2 P l k → x ∈ l → ∃ y, y ∈ k ∧ P x y.
Proof.
  induction 1 as [|z y l k Hzy Hlk IH]; [by intros ?%not_elem_of_nil|].
  intros [->|Hx]%elem_of_cons; [exists y; split; [left|done]|].
  destruct (IH Hx) as (y' & ? & ?). exists y'. split; [by right|done].
Qed.

Lemma sublist_sorted {A} (R : relation A) (l k : list A) :
  l `sublist_of` k → StronglySorted R k → StronglySorted R l.
Proof.
  induction 1 as [|x l k Hl IH|x l k Hl IH]; [done|..]; intros [Hk Hx]%StronglySorted_inv; [|by apply IH].
  constructor; [by apply IH|]. rewrite Forall_forall in Hx |- *. intros y Hy. apply Hx.
  by eapply elem_of_sublist.
Qed.

(** The outputs of a checked loop are its inputs' images, in order. *)
Lemma omap_sublist {A B C D} (f : A → result B) (g : B → option C) (h : C → D) (key : A → D) l out :
  Forall2 (λ x y, f x = Ok y) l out →
  (∀ x y z, f x = Ok y → g y = Some z → h z = key x) →
  (h <$> omap g out) `sublist_of` (key <$> l).
Proof.
  intros H Hk. induction H as [|x y l out Hxy Hl IH]; csimpl; [constructor|].
  destruct (g y) as [z|] eqn:Hz; csimpl; [|by constructor]. rewrite (Hk x y z) by done. by constructor.
Qed.

Lemma Forall2_elem_r {A B} (P : A → B → Prop) l k y : Forall2 P l k → y ∈ k → ∃ x, x ∈ l ∧ P x y.
Proof.
  induction 1 as [|x z l k Hxz Hlk IH]; [by intros ?%not_elem_of_nil|].
  intros [->|Hy]%elem_of_cons; [exists x; split; [left|done]|].
  destruct (IH Hy) as (x' & ? & ?). exists x'. split; [by right|done].
Qed.

Lemma concat_elem_inv {A} (x : A) (ls : list (list A)) : x ∈ concat ls → ∃ l, l ∈ ls ∧ x ∈ l.
Proof.
  induction ls as [|l ls IH]; simpl; [by intros ?%not_elem_of_nil|].
  intros [Hx|Hx]%elem_of_app; [exists l; split; [left|done]|].
  destruct (IH Hx) as (l' & ? & ?). exists l'. split; [by right|done].
Qed.

Lemma concat_omap {A B} (f : A → option B) (ls : list (list A)) :
  concat ((λ l : list A, (omap f l : list B)) <$> ls) = omap f (concat ls).
Proof. induction ls as [|l ls IH]; [done|]. rewrite fmap_cons. cbn [concat]. by rewrite omap_app, IH. Qed.

Lemma fmap_omap {A B C} (f : A → option B) (g : B → C) (l : list A) :
  g <$> (omap f l : list B) = omap (λ x, g <$> f x) l.
Proof. induction l as [|x l IH]; [done|]. csimpl. destruct (f x); csimpl; by rewrite <- IH. Qed.

(** [range(0, len(l), n)] slices. *)
Fixpoint batches_aux {A} (fuel n : nat) (l : list A) : list (list A) :=
  match fuel, l with
  | O, _ | _, [] => []
  | S fuel', _ => take n l :: batches_aux fuel' n (drop n l)
  end.
Definition batches {A} (n : nat) (l : list A) : list (list A) := batches_aux (length l) n l.

Lemma batches_concat {A} n (l : list A) : 0 < n → concat (batches n l) = l.
Proof.
  intros Hn. unfold batches. assert (Hf : length l ≤ length l) by lia.
  revert Hf. generalize (length l) at 2 3 as fuel. intros fuel. revert l.
  induction fuel as [|fuel IH]; intros l Hf.
  - by destruct l; simpl in *; [|lia].
  - destruct l as [|x l]; [done|]. simpl. rewrite IH.
    + apply take_drop.
    + rewrite length_drop. simpl in *. lia.
Qed.

Create HintDb store.
#[export] Hint Resolve nub_NoDup sorted_text_NoDup : store.

(** ** Hoare-style reasoning about both outcomes

    [wp m s Q E]: run from [s], the call either returns [a] in a state [s'] with
    [Q a s'], or raises an exception that satisfies [E]. *)
Section wp.
  Context {S : Type}.

Definition wp {A} (m : M S A) (s : S) (Q : A → S → Prop) (E : exn → Prop) : Prop :=
    match m s with Ok (a, s') => Q a s' | Err e => E e end.

Lemma wp_bind {A B} (m : M S A) (k : A → M S B) s Q E :
    wp m s (λ a s', wp (k a) s' Q E) E → wp (m ≫= k) s Q E.
  Proof. unfold wp, mbind, M_bind. by destruct (m s) as [[a s']|e]. Qed.

Lemma wp_mono {A} (m : M S A) s (Q Q' : A → S → Prop) (E E' : exn → Prop) :
    (∀ a s', Q a s' → Q' a s') → (∀ e, E e → E' e) → wp m s Q E → wp m s Q' E'.
  Proof. unfold wp. intros HQ HE. destruct (m s) as [[a s']|e]; auto. Qed.

Lemma wp_ret {A} (a : A) s (Q : A → S → Prop) E : Q a s → wp (mret a) s Q E.
  Proof. done. Qed.

Lemma wp_gets {A} (f : S → A) s Q E : Q (f s) s → wp (gets f) s Q E.
  Proof. done. Qed.

Lemma wp_modifies (f : S → S) s Q E : Q tt (f s) → wp (modifies f) s Q E.
  Proof. done. Qed.

Lemma wp_reads {A} (f : S → result A) s Q E :
    (∀ a, f s = Ok a → Q a s) → (∀ e, f s = Err e → E e) → wp (reads f) s Q E.
  Proof. unfold wp, reads. destruct (f s); auto. Qed.

Lemma wp_lift {A} (r : result A) s Q E :
    (∀ a, r = Ok a → Q a s) → (∀ e, r = Err e → E e) → wp (lift r) s Q E.
  Proof. unfold wp, lift. destruct r; auto. Qed.

Lemma wp_raise_if (P : Prop) `{Decision P} e s (Q : unit → S → Prop) (E : exn → Prop) :
    (P → E e) → (¬ P → Q tt s) → wp (lift (raise_if P e)) s Q E.
  Proof. intros HE HQ. unfold wp, lift, raise_if. case_decide; auto. Qed.

Lemma wp_for_each {A} (f : A → M S unit) l s (I : S → Prop) (E : exn → Prop) :
    (∀ x s, x ∈ l → I s → wp (f x) s (λ _ s', I s') E) →
    I s → wp (for_each f l) s (λ _ s', I s') E.
  Proof.
    revert s. induction l as [|x l IH]; intros s Hf Hs; simpl; [done|].
    apply wp_bind. eapply wp_mono; [|done|apply Hf; [left|done]].
    intros u s' Hs'. apply IH; [|done]. intros y t Hy. apply Hf. by right.
  Qed.

Lemma wp_Ok {A} (m : M S A) s Q E a s' : wp m s Q E → m s = Ok (a, s') → Q a s'.
  Proof. unfold wp. intros H Hm. by rewrite Hm in H. Qed.

Lemma wp_Err {A} (m : M S A) s Q E e : wp m s Q E → m s = Err e → E e.
  Proof. unfold wp. intros H Hm. by rewrite Hm in H. Qed.
End wp.

Lemma result_bind_err {A B} (m : result A) (k : A → result B) e :
  (m ≫= k) = Err e ↔ m = Err e ∨ ∃ a, m = Ok a ∧ k a = Err e.
Proof. destruct m; simpl; split; naive_solver. Qed.

Lemma raise_if_err (P : Prop) `{Decision P} e e' : raise_if P e = Err e' ↔ P ∧ e' = e.
Proof. unfold raise_if. case_decide; naive_solver. Qed.

Lemma check_each_err {A} (f : A → result unit) l e :
  check_each f l = Err e → ∃ x, x ∈ l ∧ f x = Err e.
Proof.
  induction l as [|x l IH]; simpl; [done|].
  rewrite result_bind_err. intros [H|(_ & _ & H)]; [by exists x; split; [left|]|].
  destruct (IH H) as (y & ? & ?). exists y. split; [by right|done].
Qed.

Lemma map_result_err {A B} (f : A → result B) l e :
  map_result f l = Err e → ∃ x, x ∈ l ∧ f x = Err e.
Proof.
  induction l as [|x l IH]; simpl; [done|].
  rewrite result_bind_err. intros [H|(y & _ & H)]; [by exists x; split; [left|]|].
  apply result_bind_err in H as [H|(? & _ & ?)]; [|done].
  destruct (IH H) as (z & ? & ?). exists z. split; [by right|done].
Qed.

Lemma M_bind_err {S A B} (m : M S A) (k : A → M S B) s e :
  (m ≫= k) s = Err e ↔ m s = Err e ∨ ∃ a s', m s = Ok (a, s') ∧ k a s' = Err e.
Proof. unfold mbind, M_bind. destruct (m s) as [[a s']|e']; split; naive_solver. Qed.

Lemma lift_err {S A} (r : result A) (s : S) e : lift r s = Err e ↔ r = Err e.
Proof. unfold lift. destruct r; naive_solver. Qed.

Lemma reads_err {S A} (f : S → result A) s e : reads f s = Err e ↔ f s = Err e.
Proof. unfold reads. destruct (f s); naive_solver. Qed.

Lemma require_identifier_err field value maximum e :
  require_identifier field value maximum = Err e → e = InvalidRepositoryArgumentError field.
Proof.
  unfold require_identifier. rewrite result_bind_err. intros [H|(? & _ & H)].
  all: by apply raise_if_err in H as [_ ->].
Qed.

(** ** Runs that never exhaust the model's fuel *)
Section fuel.
Definition fueled {A} (r : result A) : Prop := r ≠ Err OutOfFuel.
Definition fueledM {S A} (m : M S A) : Prop := ∀ s, fueled (m s).

Lemma fueled_ok {A} (a : A) : fueled (Ok a).
  Proof. done. Qed.
Lemma fueled_err {A} e : e ≠ OutOfFuel → fueled (Err e : result A).
  Proof. by intros ? [= ->]. Qed.
Lemma fueled_raise_if (P : Prop) `{Decision P} e : e ≠ OutOfFuel → fueled (raise_if P e).
  Proof. intros ? [_ ?]%raise_if_err. congruence. Qed.
Lemma fueled_bind {A B} (m : result A) (k : A → result B) :
    fueled m → (∀ a, fueled (k a)) → fueled (m ≫= k).
  Proof. intros Hm Hk [?|(a & _ & ?)]%result_bind_err; [by apply Hm|by apply (Hk a)]. Qed.
Lemma fueled_check_each {A} (f : A → result unit) l : (∀ x, fueled (f x)) → fueled (check_each f l).
  Proof. intros Hf (x & _ & Hx)%check_each_err. by apply (Hf x). Qed.
Lemma fueled_map_result {A B} (f : A → result B) l : (∀ x, fueled (f x)) → fueled (map_result f l).
  Proof. intros Hf (x & _ & Hx)%map_result_err. by apply (Hf x). Qed.

Lemma fueledM_ret {S A} (a : A) : fueledM (mret a : M S A).
  Proof. done. Qed.
Lemma fueledM_bind {S A B} (m : M S A) (k : A → M S B) :
    fueledM m → (∀ a, fueledM (k a)) → fueledM (m ≫= k).
  Proof. intros Hm Hk s [?|(a & s' & _ & ?)]%M_bind_err; [by apply (Hm s)|by apply (Hk a s')]. Qed.
Lemma fueledM_lift {S A} (r : result A) : fueled r → fueledM (lift r : M S A).
  Proof. intros Hr s ?%lift_err. by apply Hr. Qed.
Lemma fueledM_reads {S A} (f : S → result A) : (∀ s, fueled (f s)) → fueledM (reads f).
  Proof. intros Hf s H%(proj1 (reads_err _ _ _)). by apply (Hf s). Qed.
Lemma fueledM_gets {S A} (f : S → A) : fueledM (gets f).
  Proof. done. Qed.
Lemma fueledM_modifies {S} (f : S → S) : fueledM (modifies f).
  Proof. done. Qed.
End fuel.
#[export] Hint Resolve fueled_ok fueled_err fueled_raise_if fueledM_ret fueledM_gets fueledM_modifies : fuel.
#[export] Hint Resolve fueled_check_each fueled_map_result fueledM_lift fueledM_reads : fuel.

(** Descend through binds and case distinctions to calls known to be fueled. *)
Ltac fuel_step :=
  first
    [ progress eauto with fuel nocore
    | apply fueled_err; discriminate
    | apply fueled_raise_if; discriminate
    | apply fueled_bind; [|intros ?]
    | apply fueledM_bind; [|intros ?]
    | apply fueledM_lift
    | apply fueledM_reads; intros ?
    | apply fueled_check_each; intros ?
    | apply fueled_map_result; intros ?
    | case_match ].
Ltac fuel := repeat fuel_step.

(** Walk through a transaction body. *)
Ltac wp_step :=
  first
    [ apply wp_bind
    | apply wp_ret
    | apply wp_gets
    | apply wp_modifies
    | apply wp_raise_if; [intros ?|intros ?]
    | apply wp_reads; [intros ? ?|intros ? ?]
    | apply wp_lift; [intros ? ?|intros ? ?] ].

(** *** Sorted selections *)

Section filters.
  Context {A : Type} (P : A → Prop) `{!∀ x, Decision (P x)}.

Lemma filter_all (l : list A) : (∀ x, x ∈ l → P x) → filter P l = l.
  Proof.
    induction l as [|x l IH]; intros Hl; [done|]. rewrite filter_cons, decide_True.
    - f_equal. apply IH. intros y Hy. apply Hl. by right.
    - apply Hl. left.
  Qed.

Lemma filter_none (l : list A) : (∀ x, x ∈ l → ¬ P x) → filter P l = [].
  Proof.
    induction l as [|x l IH]; intros Hl; [done|]. rewrite filter_cons, decide_False.
    - apply IH. intros y Hy. apply Hl. by right.
    - apply Hl. left.
  Qed.
End filters.

Section keyset.
  Context {A : Type} (R : relation A) `{!RelDecision R, !Transitive R, !Total R}.

  (** A selection of a sorted table is sorted: filtering commutes with sorting
      when the order tells the rows apart. *)
Lemma merge_sort_filter (P : A → Prop) `{!∀ x, Decision (P x)} (l : list A) :
    (∀ x y, x ∈ l → y ∈ l → R x y → R y x → x = y) →
    merge_sort R (filter P l) = filter P (merge_sort R l).
  Proof.
    intros Hanti. apply StronglySorted_unique_strong with R.
    - intros x y Hx Hy Hxy Hyx. rewrite merge_sort_Permutation in Hx.
      apply list_elem_of_filter in Hx as [_ Hx]. apply list_elem_of_filter in Hy as [_ Hy].
      rewrite merge_sort_Permutation in Hy. by apply Hanti.
    - apply StronglySorted_merge_sort; apply _.
    - assert (Hs : StronglySorted R (merge_sort R l)) by (apply StronglySorted_merge_sort; apply _).
      clear Hanti. induction Hs as [|x l' Hl IH Hx]; [rewrite filter_nil; constructor|].
      rewrite filter_cons. destruct (decide (P x)); [|exact IH]. constructor; [exact IH|].
      rewrite Forall_forall in Hx |- *. intros y [_ Hy]%list_elem_of_filter. by apply Hx.
    - by rewrite !merge_sort_Permutation.
  Qed.
End keyset.
