(* ===== verification/Tables.v ===== *)
(** * Processing tables

    The rows of the processing tables of [builtin/persistence/tables.py] that
    the Supervisor, the Workers and the publishers share, each with its CHECK
    constraints, and the state [pdb] that a processing transaction runs over.
    A write that breaks a CHECK, a primary key or a unique constraint raises
    [IntegrityError], as the database does. *)

From S2P Require Import Prelude.
Local Open Scope Z_scope.

(** [connection.dialect.name]. *)
Inductive dialect := sqlite | mysql | other_dialect.
#[export] Instance dialect_eq_dec : EqDecision dialect.
Proof. solve_decision. Defined.

(** [pc_artifact_processing_intents], keyed by binding and Scope. *)
Record intent := mkIntent {
  pending_sequence : Z;
  dirty_generation : Z;
  clean_generation : Z;
  requested_generation : Z;
  handled_generation : Z;
  last_auto_scan_generation : Z;
  consecutive_dream_attempts : Z
}.
#[export] Instance intent_eq_dec : EqDecision intent.
Proof. solve_decision. Defined.

Definition intent_check (r : intent) : Prop :=
  0 < pending_sequence r ∧
  (0 ≤ clean_generation r ∧ clean_generation r ≤ dirty_generation r) ∧
  (0 ≤ handled_generation r ∧ handled_generation r ≤ requested_generation r) ∧
  0 ≤ last_auto_scan_generation r.
#[export] Instance intent_check_dec r : Decision (intent_check r).
Proof. unfold intent_check. apply _. Defined.

(** [pc_artifact_processing_binding_states], keyed by binding; the columns the
    Supervisor reads and writes. *)
Record binding_state := mkBindingState {
  last_auto_wave_completed_at : option Z;
  last_schedule_checkpoint_at : option Z;
  scan_generation : Z;
  scan_in_progress : bool;
  scan_upper_pending_sequence : option Z
}.
#[export] Instance binding_state_eq_dec : EqDecision binding_state.
Proof. solve_decision. Defined.

(** [pc_artifact_processing_pending], keyed by binding and Scope. *)
Record pending := mkPending {
  source_through : Z;
  flush_generation : Z;
  handled_flush_generation : Z
}.
#[export] Instance pending_eq_dec : EqDecision pending.
Proof. solve_decision. Defined.

Definition pending_check (r : pending) : Prop :=
  1 ≤ source_through r ∧ 0 ≤ flush_generation r ∧ 0 ≤ handled_flush_generation r ∧
  handled_flush_generation r ≤ flush_generation r.
#[export] Instance pending_check_dec r : Decision (pending_check r).
Proof. unfold pending_check. apply _. Defined.

(** [pc_artifact_processing_auto_wave_targets], keyed by wave, binding and Scope. *)
Record wave_target := mkTarget { target_through : Z; completed : bool }.
#[export] Instance wave_target_eq_dec : EqDecision wave_target.
Proof. solve_decision. Defined.

(** [pc_artifact_processing_leases], keyed by Supervisor group. *)
Record lease := mkLease {
  holder_id : text;
  supervisor_generation : Z;
  lease_expires_at : option Z
}.
#[export] Instance lease_eq_dec : EqDecision lease.
Proof. solve_decision. Defined.

(** [pc_source_cursors], keyed by Scope and binding: the sequence its payload
    decodes to, when it decodes, and the compare-and-swap generation. *)
Record cursor_row := mkCursor { cursor_payload : option Z; cursor_generation : Z }.
#[export] Instance cursor_row_eq_dec : EqDecision cursor_row.
Proof. solve_decision. Defined.

(** [pc_topic_memory_work_budgets], keyed by Scope, binding and frontier. *)
Record budget := mkBudget {
  b_source_through : Z;
  attempt_id : text;
  attempts : Z;
  requests : Z;
  tokens : Z;
  failure_code : text;
  attempt_source_through : option Z;
  started_at : option Z;
  finished_at : option Z;
  last_error_code : option text;
  b_supervisor_group : option text;
  b_supervisor_generation : option Z;
  b_holder_id : option text
}.
#[export] Instance budget_eq_dec : EqDecision budget.
Proof. solve_decision. Defined.

Definition budget_check (source_after : Z) (r : budget) : Prop :=
  (0 ≤ source_after ∧ source_after < b_source_through r) ∧
  (0 < attempts r ∧ 0 ≤ requests r ∧ 0 ≤ tokens r) ∧
  match attempt_source_through r with
  | None => True
  | Some n => source_after < n ∧ n ≤ b_source_through r
  end.
#[export] Instance budget_check_dec n r : Decision (budget_check n r).
Proof. unfold budget_check. destruct (attempt_source_through r); apply _. Defined.

(** [pc_topic_memory_work_blocks]: the columns [record_topic_memory_work_failure] reads. *)
Record work_block := mkBlock {
  block_attempt_id : text;
  block_scope_id : text;
  block_binding_name : text;
  block_source_after : Z
}.
#[export] Instance work_block_eq_dec : EqDecision work_block.
Proof. solve_decision. Defined.

(** [ContentSourceTarget]: the Artifact revision a system Source is bound to. *)
Record source_target := mkSourceTarget {
  target_scope_id : text;
  target_family : text;
  target_artifact_id : text;
  target_revision : Z
}.
#[export] Instance source_target_eq_dec : EqDecision source_target.
Proof. solve_decision. Defined.

(** The [expires_at] entry of a Working Note's metadata: absent, not an aware
    ISO timestamp, or an instant. *)
Inductive expiry := NoExpiry | InvalidExpiry | ExpiresAt (instant : Z).
#[export] Instance expiry_eq_dec : EqDecision expiry.
Proof. solve_decision. Defined.

(** [ContentSource]; the other columns of the payload are its canonical JSON. *)
Record content_source := mkContentSource {
  content_payload : text;
  expires_at : expiry;
  working_note : bool;
  internal : option source_target;
  handoff_receipt : bool
}.
#[export] Instance content_source_eq_dec : EqDecision content_source.
Proof. solve_decision. Defined.

(** A decoded Source: the built-in captured content, or an adapter's own class. *)
Inductive source :=
  | ContentSource (c : content_source)
  | AdapterSource (payload : text).
#[export] Instance source_eq_dec : EqDecision source.
Proof. solve_decision. Defined.

(** [pc_sources], keyed by Scope, type and id. *)
Record source_row := mkSourceRow { source_value : source; journal_position : Z }.
#[export] Instance source_row_eq_dec : EqDecision source_row.
Proof. solve_decision. Defined.

(** [pc_memory_source_windows], keyed by Scope. *)
Record window_hint := mkWindowHint { hint_through : Z; window_limit : Z }.
#[export] Instance window_hint_eq_dec : EqDecision window_hint.
Proof. solve_decision. Defined.

(** The tables one processing transaction sees, with the database clock;
    [p_plugins]: the bindings with a plugin and the Scopes its manifest names. *)
Record pdb := mkPdb {
  p_dialect : dialect;
  p_now : Z;
  p_sequence : option Z;
  p_intents : gmap (text * text) intent;
  p_states : gmap text binding_state;
  p_pending : gmap (text * text) pending;
  p_targets : gmap (text * text * text) wave_target;
  p_leases : gmap text lease;
  p_cursors : gmap (text * text) cursor_row;
  p_heads : gmap text Z;
  p_sources : gmap (text * text * text) source_row;
  p_windows : gmap text window_hint;
  p_budgets : gmap (text * text * Z) budget;
  p_blocks : list work_block;
  p_plugins : list (text * option (list text))
}.

Definition set_sequence (v : option Z) (s : pdb) : pdb :=
  mkPdb (p_dialect s) (p_now s) v (p_intents s) (p_states s) (p_pending s) (p_targets s)
    (p_leases s) (p_cursors s) (p_heads s) (p_sources s) (p_windows s) (p_budgets s)
    (p_blocks s) (p_plugins s).
Definition set_intents (v : gmap (text * text) intent) (s : pdb) : pdb :=
  mkPdb (p_dialect s) (p_now s) (p_sequence s) v (p_states s) (p_pending s) (p_targets s)
    (p_leases s) (p_cursors s) (p_heads s) (p_sources s) (p_windows s) (p_budgets s)
    (p_blocks s) (p_plugins s).
Definition set_states (v : gmap text binding_state) (s : pdb) : pdb :=
  mkPdb (p_dialect s) (p_now s) (p_sequence s) (p_intents s) v (p_pending s) (p_targets s)
    (p_leases s) (p_cursors s) (p_heads s) (p_sources s) (p_windows s) (p_budgets s)
    (p_blocks s) (p_plugins s).
Definition set_pending (v : gmap (text * text) pending) (s : pdb) : pdb :=
  mkPdb (p_dialect s) (p_now s) (p_sequence s) (p_intents s) (p_states s) v (p_targets s)
    (p_leases s) (p_cursors s) (p_heads s) (p_sources s) (p_windows s) (p_budgets s)
    (p_blocks s) (p_plugins s).
Definition set_targets (v : gmap (text * text * text) wave_target) (s : pdb) : pdb :=
  mkPdb (p_dialect s) (p_now s) (p_sequence s) (p_intents s) (p_states s) (p_pending s) v
    (p_leases s) (p_cursors s) (p_heads s) (p_sources s) (p_windows s) (p_budgets s)
    (p_blocks s) (p_plugins s).
Definition set_leases (v : gmap text lease) (s : pdb) : pdb :=
  mkPdb (p_dialect s) (p_now s) (p_sequence s) (p_intents s) (p_states s) (p_pending s)
    (p_targets s) v (p_cursors s) (p_heads s) (p_sources s) (p_windows s) (p_budgets s)
    (p_blocks s) (p_plugins s).
Definition set_cursors (v : gmap (text * text) cursor_row) (s : pdb) : pdb :=
  mkPdb (p_dialect s) (p_now s) (p_sequence s) (p_intents s) (p_states s) (p_pending s)
    (p_targets s) (p_leases s) v (p_heads s) (p_sources s) (p_windows s) (p_budgets s)
    (p_blocks s) (p_plugins s).
Definition set_journal_heads (v : gmap text Z) (s : pdb) : pdb :=
  mkPdb (p_dialect s) (p_now s) (p_sequence s) (p_intents s) (p_states s) (p_pending s)
    (p_targets s) (p_leases s) (p_cursors s) v (p_sources s) (p_windows s) (p_budgets s)
    (p_blocks s) (p_plugins s).
Definition set_source_rows (v : gmap (text * text * text) source_row) (s : pdb) : pdb :=
  mkPdb (p_dialect s) (p_now s) (p_sequence s) (p_intents s) (p_states s) (p_pending s)
    (p_targets s) (p_leases s) (p_cursors s) (p_heads s) v (p_windows s) (p_budgets s)
    (p_blocks s) (p_plugins s).
Definition set_windows (v : gmap text window_hint) (s : pdb) : pdb :=
  mkPdb (p_dialect s) (p_now s) (p_sequence s) (p_intents s) (p_states s) (p_pending s)
    (p_targets s) (p_leases s) (p_cursors s) (p_heads s) (p_sources s) v (p_budgets s)
    (p_blocks s) (p_plugins s).
Definition set_budgets (v : gmap (text * text * Z) budget) (s : pdb) : pdb :=
  mkPdb (p_dialect s) (p_now s) (p_sequence s) (p_intents s) (p_states s) (p_pending s)
    (p_targets s) (p_leases s) (p_cursors s) (p_heads s) (p_sources s) (p_windows s) v
    (p_blocks s) (p_plugins s).
Definition set_blocks (v : list work_block) (s : pdb) : pdb :=
  mkPdb (p_dialect s) (p_now s) (p_sequence s) (p_intents s) (p_states s) (p_pending s)
    (p_targets s) (p_leases s) (p_cursors s) (p_heads s) (p_sources s) (p_windows s)
    (p_budgets s) v (p_plugins s).

(** The tables of a fresh database. *)
Definition empty_pdb (d : dialect) : pdb := mkPdb d 0 None ∅ ∅ ∅ ∅ ∅ ∅ ∅ ∅ ∅ ∅ [] [].

(** The Scope and binding columns both bound an identifier. *)
Definition require_key (scope_id binding_name : text) : result unit :=
  require_identifier "scope_id" scope_id MAX_SCOPE_ID_LENGTH ;;
  require_identifier "binding_name" binding_name MAX_BINDING_NAME_LENGTH.

Definition require_nonnegative (field : string) (value : Z) : result unit :=
  raise_if (value < 0) (InvalidRepositoryArgumentError field).
