(* ===== verification/Intents.v ===== *)
(** * Processing intents

    [builtin/persistence/processing_intents.py]: the coalesced invocation counters
    of a (binding, Scope) pair and their independent dirty counters. *)

From S2P Require Import Prelude Tables.
Local Open Scope Z_scope.

Module Intents.

(** ** Row writes *)

Definition put_intent (k : text * text) (r : intent) : M pdb unit := λ s,
  if decide (intent_check r)
  then Ok (tt, set_intents (<[k := r]> (p_intents s)) s)
  else Err (IntegrityError "intents").

(** [insert]: the primary key and the unique [pending_sequence] must be free. *)
Definition insert_intent (k : text * text) (sequence : Z) : M pdb unit := λ s,
  if decide (p_intents s !! k = None ∧
             map_Forall (λ _ r, pending_sequence r ≠ sequence) (p_intents s))
  then put_intent k (mkIntent sequence 0 0 0 0 0 0) s
  else Err (IntegrityError "intents").

(** [update ... where] on a primary key writes the row, if there is one. *)
Definition update_intent (k : text * text) (f : intent → intent) : M pdb unit := λ s,
  match p_intents s !! k with
  | Some r => put_intent k (f r) s
  | None => Ok (tt, s)
  end.

(** ** [ArtifactProcessingIntentRepository] *)

(** The no-op UPDATE and [FOR UPDATE] only take locks. *)
Definition load (scope_id binding_name : text) : M pdb (option intent) := reads (λ s,
  require_key scope_id binding_name ;;
  Ok (p_intents s !! (binding_name, scope_id))).

(** [cast(StoredArtifactProcessingIntent, await self.load(...))]. *)
Definition load_row (scope_id binding_name : text) : M pdb intent :=
  row ← load scope_id binding_name;
  match row with Some r => mret r | None => lift (Err (RuntimeError "no intent row")) end.

Definition seed_sequence : M pdb unit := λ s,
  match p_dialect s with
  | other_dialect => Err (InvalidRepositoryArgumentError "dialect")
  | _ => Ok (tt, match p_sequence s with None => set_sequence (Some 0) s | Some _ => s end)
  end.

Definition advance_sequence (n : Z) : M pdb unit :=
  modifies (λ s, set_sequence ((λ v, v + n) <$> p_sequence s) s).

Definition current_sequence : M pdb Z := λ s,
  match p_sequence s with
  | Some v => Ok (v, s)
  | None => Err (RuntimeError "no sequence row")
  end.

Definition ensure (scope_id binding_name : text) : M pdb intent :=
  current ← load scope_id binding_name;
  match current with
  | Some r => mret r
  | None =>
      seed_sequence ;;
      current ← load scope_id binding_name;
      match current with
      | Some r => mret r
      | None =>
          advance_sequence 1 ;;
          allocated ← current_sequence;
          insert_intent (binding_name, scope_id) allocated ;;
          load_row scope_id binding_name
      end
  end.

Definition registered (scope_id : text) (names : list text) (s : pdb) : list text :=
  filter (λ name, is_Some (p_intents s !! (name, scope_id))) names.

(** Insert the missing bindings at the end of the allocated block, in order. *)
Fixpoint insert_missing (scope_id : text) (names : list text) (sequence : Z) : M pdb unit :=
  match names with
  | [] => mret tt
  | name :: names' =>
      insert_intent (name, scope_id) sequence ;; insert_missing scope_id names' (sequence + 1)
  end.

Definition dirty (increment : Z) (r : intent) : intent :=
  mkIntent (pending_sequence r) (dirty_generation r + increment) (clean_generation r)
    (requested_generation r) (handled_generation r) (last_auto_scan_generation r)
    (consecutive_dream_attempts r).

(** Register the bindings that have no row yet, under the sequence lock. *)
Definition register_missing (scope_id : text) (names : list text) : M pdb unit :=
  existing ← gets (registered scope_id names);
  if decide (length existing = length names) then mret tt else
    seed_sequence ;;
    existing ← gets (registered scope_id names);
    let missing := filter (λ name, name ∉ existing) names in
    if decide (missing = []) then mret tt else
      advance_sequence (Z.of_nat (length missing)) ;;
      end_ ← current_sequence;
      insert_missing scope_id missing (end_ - Z.of_nat (length missing) + 1).

Definition mark_dirty_many (scope_id : text) (binding_names : list text) (increment : Z) : M pdb unit :=
  let names := nub binding_names in
  if decide (names = []) then mret tt else
    lift (raise_if (increment < 1) (InvalidRepositoryArgumentError "increment")) ;;
    lift (check_each (require_key scope_id) names) ;;
    register_missing scope_id names ;;
    for_each (λ name, update_intent (name, scope_id) (dirty increment)) names.

Definition mark_dirty (scope_id binding_name : text) : M pdb intent :=
  mark_dirty_many scope_id [binding_name] 1 ;; load_row scope_id binding_name.

Definition bump_request (r : intent) : intent :=
  mkIntent (pending_sequence r) (dirty_generation r) (clean_generation r)
    (requested_generation r + 1) (handled_generation r) (last_auto_scan_generation r)
    (consecutive_dream_attempts r).

Definition request (scope_id binding_name : text) : M pdb intent :=
  ensure scope_id binding_name ;;
  update_intent (binding_name, scope_id) bump_request ;;
  load_row scope_id binding_name.

Definition settle (generation clean : Z) (dream : bool) (r : intent) : intent :=
  mkIntent (pending_sequence r) (dirty_generation r) clean
    (requested_generation r) (Z.max (handled_generation r) generation)
    (last_auto_scan_generation r)
    (if dream then Z.min (consecutive_dream_attempts r + 1) 4 else 0).

Definition acknowledge (scope_id binding_name : text) (generation : Z)
    (clean : option Z) (dream : bool) : M pdb intent :=
  lift (require_nonnegative "generation" generation) ;;
  current ← load scope_id binding_name;
  match current with
  | None => lift (Err (InvalidRepositoryArgumentError "generation"))
  | Some r =>
      lift (raise_if (requested_generation r < generation)
              (InvalidRepositoryArgumentError "generation")) ;;
      if decide (generation ≤ handled_generation r) then mret r else
        cleaned ← lift (match clean with
                        | None => Ok (clean_generation r)
                        | Some c =>
                            require_nonnegative "clean_generation" c ;;
                            raise_if (dirty_generation r < c)
                              (InvalidRepositoryArgumentError "clean_generation") ;;
                            Ok (Z.max (clean_generation r) c)
                        end);
        update_intent (binding_name, scope_id) (settle generation cleaned dream) ;;
        load_row scope_id binding_name
  end.

Record observation := mkObservation { pending_count : nat; observed_at : Z }.

Definition pending_observation (binding_name : text) : M pdb observation := reads (λ s,
  require_identifier "binding_name" binding_name MAX_BINDING_NAME_LENGTH ;;
  Ok (mkObservation
        (length (filter (λ '((b, _), r), b = binding_name ∧ handled_generation r < requested_generation r)
                   (map_to_list (p_intents s))))
        (p_now s))).

(** Rows ordered by their sequence. *)
Definition sequence_le (a b : (text * text) * intent) : Prop :=
  pending_sequence a.2 ≤ pending_sequence b.2.
#[export] Instance sequence_le_dec : RelDecision sequence_le :=
  λ a b, Z.le_dec _ _.

Definition scan_matches (binding_name : text) (after : Z) (upper : option Z)
    (requested_only dirty_only : bool) (kr : (text * text) * intent) : Prop :=
  kr.1.1 = binding_name ∧ after < pending_sequence kr.2 ∧
  match upper with Some u => pending_sequence kr.2 ≤ u | None => True end ∧
  (requested_only = true → handled_generation kr.2 < requested_generation kr.2) ∧
  (dirty_only = true → clean_generation kr.2 < dirty_generation kr.2).
#[export] Instance scan_matches_dec b a u ro d kr : Decision (scan_matches b a u ro d kr).
Proof. unfold scan_matches. destruct u; apply _. Defined.

(** The selected rows [order_by(pending_sequence)]. *)
Definition scan_rows (binding_name : text) (after : Z) (upper : option Z)
    (requested_only dirty_only : bool) (s : pdb) : list ((text * text) * intent) :=
  merge_sort sequence_le
    (filter (scan_matches binding_name after upper requested_only dirty_only)
       (map_to_list (p_intents s))).

Definition scan (binding_name : text) (after : Z) (limit : Z) (requested_only dirty_only : bool)
    (upper : option Z) : M pdb (list ((text * text) * intent)) := reads (λ s,
  require_identifier "binding_name" binding_name MAX_BINDING_NAME_LENGTH ;;
  require_nonnegative "after_sequence" after ;;
  raise_if (limit < 1) (InvalidRepositoryArgumentError "limit") ;;
  match upper with Some u => require_nonnegative "upper_sequence" u | None => Ok tt end ;;
  Ok (take (Z.to_nat limit) (scan_rows binding_name after upper requested_only dirty_only s))).

(** [func.max(pending_sequence) ... or 0]. *)
Definition max_sequence (binding_name : text) : M pdb Z := reads (λ s,
  require_identifier "binding_name" binding_name MAX_BINDING_NAME_LENGTH ;;
  Ok (map_fold (λ k r acc, if decide (k.1 = binding_name) then Z.max (pending_sequence r) acc else acc)
        0 (p_intents s))).

Definition admitted (requested scan : Z) (r : intent) : intent :=
  mkIntent (pending_sequence r) (dirty_generation r) (clean_generation r)
    requested (handled_generation r) scan (consecutive_dream_attempts r).

Definition admit_member (scope_id binding_name : text) (generation : Z) : M pdb intent :=
  lift (require_nonnegative "scan_generation" generation) ;;
  state ← gets (λ s, p_states s !! binding_name);
  match state with
  | None => lift (Err (InvalidRepositoryArgumentError "scan_generation"))
  | Some st =>
      lift (raise_if (scan_in_progress st = false ∨ scan_generation st ≠ generation)
              (InvalidRepositoryArgumentError "scan_generation")) ;;
      current ← load scope_id binding_name;
      match current with
      | None => lift (Err (InvalidRepositoryArgumentError "scope_id"))
      | Some r =>
          lift (raise_if (default 0 (scan_upper_pending_sequence st) < pending_sequence r)
                  (InvalidRepositoryArgumentError "scope_id")) ;;
          if decide (generation ≤ last_auto_scan_generation r) then mret r else
            let requested :=
              if decide (clean_generation r < dirty_generation r ∧
                         requested_generation r = handled_generation r)
              then requested_generation r + 1 else requested_generation r in
            update_intent (binding_name, scope_id) (admitted requested generation) ;;
            load_row scope_id binding_name
      end
  end.

(** ** Well-formed intent tables

    The CHECK constraints, the uniqueness of [pending_sequence], and the fact
    that the singleton sequence row bounds every sequence handed out. *)

Record wf (s : pdb) : Prop := {
  wf_check : map_Forall (λ _ r, intent_check r) (p_intents s);
  wf_unique : ∀ k1 k2 r1 r2, p_intents s !! k1 = Some r1 → p_intents s !! k2 = Some r2 →
    pending_sequence r1 = pending_sequence r2 → k1 = k2;
  wf_bound : ∀ k r, p_intents s !! k = Some r →
    ∃ v, p_sequence s = Some v ∧ pending_sequence r ≤ v;
  wf_nonneg : ∀ v, p_sequence s = Some v → 0 ≤ v
}.

(** Rows are retained, keep their sequence, and their counters never go back. *)
Definition row_le (r r' : intent) : Prop :=
  pending_sequence r' = pending_sequence r ∧
  dirty_generation r ≤ dirty_generation r' ∧ clean_generation r ≤ clean_generation r' ∧
  requested_generation r ≤ requested_generation r' ∧
  handled_generation r ≤ handled_generation r' ∧
  last_auto_scan_generation r ≤ last_auto_scan_generation r'.
Definition grows (s s' : pdb) : Prop :=
  ∀ k r, p_intents s !! k = Some r → ∃ r', p_intents s' !! k = Some r' ∧ row_le r r'.

(** The other tables and the clock may change at any time between operations. *)
Definition same_intents (s s' : pdb) : Prop :=
  p_intents s' = p_intents s ∧ p_sequence s' = p_sequence s.

#[export] Instance row_le_preorder : PreOrder row_le.
Proof. split; [intros r|intros r1 r2 r3]; unfold row_le; lia. Qed.

#[export] Instance grows_preorder : PreOrder grows.
Proof.
  split.
  - intros s k r H. by exists r.
  - intros s1 s2 s3 H1 H2 k r H. destruct (H1 _ _ H) as (r2 & Hr2 & ?).
    destruct (H2 _ _ Hr2) as (r3 & ? & ?). exists r3. split; [done|]. by etrans.
Qed.

Lemma empty_wf d : wf (empty_pdb d).
Proof. by split; simpl. Qed.

(** *** Row writes *)

Lemma put_intent_ok k r s u s' :
  put_intent k r s = Ok (u, s') ↔ intent_check r ∧ s' = set_intents (<[k := r]> (p_intents s)) s.
Proof. unfold put_intent. destruct u. case_decide; naive_solver. Qed.

Lemma put_intent_wf k r0 r s :
  wf s → p_intents s !! k = Some r0 → intent_check r → pending_sequence r = pending_sequence r0 →
  wf (set_intents (<[k := r]> (p_intents s)) s).
Proof.
  intros [Hc Hu Hb Hn] Hk Hr Hseq. split; simpl; [|intros k1 k2 r1 r2|intros k' r'|done].
  - by apply map_Forall_insert_2.
  - rewrite !lookup_insert. repeat case_decide; subst; [done|..]; intros H1 H2 Heq; simplify_eq.
    + eapply Hu; [exact Hk|exact H2|congruence].
    + eapply Hu; [exact H1|exact Hk|congruence].
    + by eapply Hu.
  - rewrite lookup_insert. case_decide; intros L; simplify_eq; [|by apply (Hb _ _ L)].
    rewrite Hseq. eauto.
Qed.

Lemma put_intent_grows k r0 r s :
  p_intents s !! k = Some r0 → row_le r0 r → grows s (set_intents (<[k := r]> (p_intents s)) s).
Proof.
  intros Hk Hr k' r' Hk'. simpl. rewrite lookup_insert. case_decide; simplify_eq; [by exists r|].
  by exists r'.
Qed.

(** ** What an operation may do to the tables *)

Definition argument_error (e : exn) : Prop := ∃ field, e = InvalidRepositoryArgumentError field.

Definition frame (s s' : pdb) : Prop :=
  set_intents ∅ (set_sequence None s') = set_intents ∅ (set_sequence None s).

Record advanced (s s' : pdb) : Prop := {
  adv_wf : wf s';
  adv_grows : grows s s';
  adv_frame : frame s s'
}.

Lemma advanced_refl s : wf s → advanced s s.
Proof. intros. by split. Qed.

Lemma advanced_trans s1 s2 s3 : advanced s1 s2 → advanced s2 s3 → advanced s1 s3.
Proof.
  intros [_ G1 F1] [W2 G2 F2]. split; [done|by etrans|]. unfold frame in *. congruence.
Qed.

Lemma advanced_states s s' : advanced s s' → p_states s' = p_states s.
Proof. intros [_ _ F]. by injection F. Qed.

Lemma advanced_dialect s s' : advanced s s' → p_dialect s' = p_dialect s.
Proof. intros [_ _ F]. by injection F. Qed.

Lemma require_key_error scope_id binding_name e :
  require_key scope_id binding_name = Err e → argument_error e.
Proof.
  unfold require_key. rewrite result_bind_err.
  intros [H|(_ & _ & H)]; apply require_identifier_err in H as ->; by eexists.
Qed.

Lemma require_nonnegative_error field v e : require_nonnegative field v = Err e → argument_error e.
Proof. intros [_ ->]%raise_if_err. by eexists. Qed.

Lemma load_key_wp scope_id binding_name s (Q : option intent → pdb → Prop) :
  (require_key scope_id binding_name = Ok tt → Q (p_intents s !! (binding_name, scope_id)) s) →
  wp (load scope_id binding_name) s Q argument_error.
Proof.
  intros HQ. apply wp_reads.
  - intros a H. run. by apply HQ.
  - intros e [H|(_ & _ & H)]%result_bind_err; [by eapply require_key_error|done].
Qed.

Lemma load_wp scope_id binding_name s (Q : option intent → pdb → Prop) :
  Q (p_intents s !! (binding_name, scope_id)) s → wp (load scope_id binding_name) s Q argument_error.
Proof. intros HQ. by apply load_key_wp. Qed.

Lemma load_row_wp scope_id binding_name s r (Q : intent → pdb → Prop) :
  p_intents s !! (binding_name, scope_id) = Some r → Q r s →
  wp (load_row scope_id binding_name) s Q argument_error.
Proof. intros Hr HQ. apply wp_bind, load_wp. by rewrite Hr. Qed.

(** A write that keeps the row checks and moves the counters forward never
    meets a database constraint. *)
Lemma update_intent_wp k f s :
  wf s →
  (∀ r, p_intents s !! k = Some r → intent_check r → intent_check (f r) ∧ row_le r (f r)) →
  wp (update_intent k f) s
    (λ _ s', advanced s s' ∧ p_intents s' = alter f k (p_intents s)) argument_error.
Proof.
  intros Hwf Hf. unfold wp, update_intent, put_intent.
  destruct (p_intents s !! k) as [r|] eqn:Hk.
  - destruct (Hf r) as [Hc Hle]; [done|by apply (wf_check _ Hwf k)|].
    rewrite decide_True by done. split.
    + split; [|by eapply put_intent_grows|done]. eapply put_intent_wf; eauto. apply Hle.
    + simpl. apply map_eq. intros i. rewrite lookup_insert, lookup_alter.
      case_decide; subst; [by rewrite Hk|done].
  - split; [by apply advanced_refl|]. symmetry. apply alter_id. naive_solver.
Qed.

(** *** Registration under the sequence lock *)

Definition below (n : Z) (s : pdb) : Prop :=
  ∀ k r, p_intents s !! k = Some r → pending_sequence r < n.

Lemma wf_below s v : wf s → p_sequence s = Some v → below (v + 1) s.
Proof. intros Hwf Hv k r Hk. destruct (wf_bound _ Hwf _ _ Hk) as (v' & ? & ?). simplify_eq. lia. Qed.

Lemma seed_sequence_wp s :
  wf s →
  wp seed_sequence s
    (λ _ s', advanced s s' ∧ p_intents s' = p_intents s ∧ is_Some (p_sequence s')) argument_error.
Proof.
  intros Hwf. unfold wp, seed_sequence. destruct (p_dialect s); [..|by eexists].
  all: destruct (p_sequence s) eqn:Hs; split_and!; rewrite ?Hs; simpl; eauto using advanced_refl.
  all: split; simpl; [|intros k r ?; by exists r|done]; destruct Hwf as [Hc Hu Hb Hn].
  all: split; simpl; [done|done| |by intros ? [= <-]].
  all: intros k r Hk; destruct (Hb _ _ Hk) as (? & ? & ?); congruence.
Qed.

Lemma insert_intent_spec k n s v :
  wf s → p_intents s !! k = None → below n s → 0 < n → p_sequence s = Some v → n ≤ v →
  ∃ s', insert_intent k n s = Ok (tt, s') ∧ advanced s s' ∧ below (n + 1) s' ∧
    p_sequence s' = Some v ∧
    p_intents s' = <[k := mkIntent n 0 0 0 0 0 0]> (p_intents s).
Proof.
  intros Hwf Hk Hn Hpos Hv Hle. unfold insert_intent, put_intent.
  rewrite decide_True.
  2:{ split; [done|]. intros k' r' Hk'. specialize (Hn _ _ Hk'). lia. }
  rewrite decide_True by (unfold intent_check; simpl; lia).
  eexists. split; [done|]. split_and!; try done.
  - split; [|intros k' r' Hk'; exists r'; simpl; split; [|done]|done].
    + destruct Hwf as [Hc Hu Hb Hn']. split; simpl; [|intros k1 k2 r1 r2|intros k' r'|done].
      * apply map_Forall_insert_2; [unfold intent_check; simpl; lia|done].
      * rewrite !lookup_insert. repeat case_decide; intros L1 L2 Heq; simplify_eq; try done.
        -- apply Hn in L2. simpl in *. lia.
        -- apply Hn in L1. simpl in *. lia.
        -- by eapply Hu.
      * rewrite lookup_insert. case_decide; intros L; simplify_eq; [|by eapply Hb].
        by exists v.
    + rewrite lookup_insert_ne; [done|]. intros ->. congruence.
  - intros k' r'. simpl. rewrite lookup_insert. case_decide; intros L; simplify_eq; simpl; [lia|].
    specialize (Hn _ _ L). lia.
Qed.

(** Registration leaves the existing rows alone and adds rows with zero counters. *)
Definition registers (scope_id : text) (names : list text) (s s' : pdb) : Prop :=
  ∀ k, p_intents s' !! k = p_intents s !! k ∨
    (p_intents s !! k = None ∧ k.1 ∈ names ∧ k.2 = scope_id ∧
     ∃ n, p_intents s' !! k = Some (mkIntent n 0 0 0 0 0 0)).

Lemma insert_missing_spec scope_id names n s v :
  wf s → NoDup names → (∀ name, name ∈ names → p_intents s !! (name, scope_id) = None) →
  below n s → 0 < n → p_sequence s = Some v → n + Z.of_nat (length names) - 1 ≤ v →
  ∃ s', insert_missing scope_id names n s = Ok (tt, s') ∧ advanced s s' ∧
    registers scope_id names s s' ∧
    (∀ name, name ∈ names → is_Some (p_intents s' !! (name, scope_id))).
Proof.
  revert n s. induction names as [|name names IH]; intros n s Hwf Hnd Habs Hb Hn Hv Hle.
  - exists s. split_and!; [done|by apply advanced_refl|by intros k; left|by intros ? ?%not_elem_of_nil].
  - apply NoDup_cons in Hnd as [Hname Hnd]. simpl in Hle.
    destruct (insert_intent_spec (name, scope_id) n s v) as (s1 & H1 & A1 & B1 & V1 & E1);
      [done|by apply Habs; left|done|done|done|lia|].
    destruct (IH (n + 1) s1) as (s2 & H2 & A2 & G2 & R2); try done; [by apply A1| |lia|lia|].
    { intros name' Hin. rewrite E1, lookup_insert_ne; [by apply Habs; right|].
      intros [= ->]. done. }
    exists s2. split_and!; [|by eapply advanced_trans| |].
    + simpl. unfold mbind, M_bind. by rewrite H1.
    + intros k. destruct (G2 k) as [E2|(E2 & Hin & Hsc & m & Em)]; rewrite E1 in E2.
      * rewrite E2, lookup_insert. case_decide; [subst|by left]. right.
        split_and!; [by apply Habs; left|left|done|by eexists].
      * rewrite lookup_insert in E2. case_decide; [done|]. right.
        split_and!; [done|by right|done|by exists m].
    + intros name' [->|Hin]%elem_of_cons; [|by apply R2].
      destruct (adv_grows _ _ A2 (name, scope_id) (mkIntent n 0 0 0 0 0 0)) as (r & Hr & _).
      { by rewrite E1, lookup_insert_eq. }
      by eexists.
Qed.

Lemma registered_spec scope_id names s name :
  name ∈ registered scope_id names s ↔ name ∈ names ∧ is_Some (p_intents s !! (name, scope_id)).
Proof. unfold registered. rewrite list_elem_of_filter. tauto. Qed.

Lemma registered_full scope_id names s :
  length (registered scope_id names s) = length names →
  ∀ name, name ∈ names → is_Some (p_intents s !! (name, scope_id)).
Proof.
  unfold registered. intros Hlen. cut (Forall (λ name, is_Some (p_intents s !! (name, scope_id))) names).
  { by rewrite Forall_forall. }
  induction names as [|x names IH]; [constructor|]. rewrite filter_cons in Hlen.
  case_decide; simpl in Hlen.
  - constructor; [done|]. apply IH. lia.
  - pose proof (length_filter (λ name, is_Some (p_intents s !! (name, scope_id))) names). lia.
Qed.

(** *** The operations *)

Lemma ensure_wp scope_id binding_name s :
  wf s →
  wp (ensure scope_id binding_name) s
    (λ r s', advanced s s' ∧ p_intents s' !! (binding_name, scope_id) = Some r) argument_error.
Proof.
  intros Hwf. unfold ensure. apply wp_bind, load_wp.
  destruct (p_intents s !! (binding_name, scope_id)) as [r|] eqn:Hk.
  { apply wp_ret. split; [by apply advanced_refl|done]. }
  apply wp_bind. eapply wp_mono; [|done|by apply seed_sequence_wp].
  intros _ s1 (A1 & E1 & [v Hv]). apply wp_bind, load_wp. rewrite E1, Hk.
  apply wp_bind, wp_modifies, wp_bind. unfold wp at 1, current_sequence. rewrite Hv. simpl.
  destruct (adv_wf _ _ A1) as [Hc Hu Hb Hn].
  destruct (insert_intent_spec (binding_name, scope_id) (v + 1) (set_sequence (Some (v + 1)) s1) (v + 1))
    as (s2 & H2 & A2 & _ & _ & E2); simpl; try lia; try done; [|by rewrite E1| |specialize (Hn _ Hv); lia|].
  { split; simpl; [done|done| |intros ? [= <-]; specialize (Hn _ Hv); lia].
    intros k r Hr. destruct (Hb _ _ Hr) as (v' & Hv' & ?). exists (v + 1). split; [done|].
    rewrite Hv in Hv'. injection Hv' as ->. lia. }
  { by apply (wf_below s1). }
  apply wp_bind. unfold wp at 1. rewrite H2.
  eapply load_row_wp; [by rewrite E2, lookup_insert_eq|].
  split; [|by rewrite E2, lookup_insert_eq].
  eapply advanced_trans; [exact A1|]. destruct A2 as [W2 G2 F2]. by split.
Qed.

Lemma register_missing_wp scope_id names s :
  wf s → NoDup names →
  wp (register_missing scope_id names) s
    (λ _ s', advanced s s' ∧ registers scope_id names s s' ∧
       ∀ name, name ∈ names → is_Some (p_intents s' !! (name, scope_id)))
    argument_error.
Proof.
  intros Hwf Hnd. unfold register_missing. apply wp_bind, wp_gets.
  destruct (decide _) as [Hlen|_].
  { apply wp_ret. split_and!; [by apply advanced_refl|by intros k; left|by apply registered_full]. }
  apply wp_bind. eapply wp_mono; [|done|by apply seed_sequence_wp].
  intros _ s1 (A1 & E1 & [v Hv]). apply wp_bind, wp_gets.
  set (missing := filter _ names).
  assert (Hmiss : ∀ name, name ∈ missing ↔ name ∈ names ∧ p_intents s1 !! (name, scope_id) = None).
  { intros name. unfold missing. rewrite list_elem_of_filter, registered_spec, eq_None_not_Some. tauto. }
  assert (Hrest : ∀ s2, grows s1 s2 → (∀ name, name ∈ missing → is_Some (p_intents s2 !! (name, scope_id))) →
    ∀ name, name ∈ names → is_Some (p_intents s2 !! (name, scope_id))).
  { intros s2 G Hm name Hin. destruct (p_intents s1 !! (name, scope_id)) as [r|] eqn:Hr.
    - destruct (G _ _ Hr) as (r' & ? & _). by eexists.
    - apply Hm. by apply Hmiss. }
  destruct (decide (missing = [])) as [Hnil|Hnil].
  { apply wp_ret. split_and!; [done|intros k; left; by rewrite E1|]. apply Hrest; [done|].
    rewrite Hnil. by intros ? ?%not_elem_of_nil. }
  apply wp_bind, wp_modifies, wp_bind. unfold wp at 1, current_sequence. rewrite Hv. simpl.
  destruct (adv_wf _ _ A1) as [Hc Hu Hb Hn]. specialize (Hn _ Hv).
  set (n := Z.of_nat (length missing)).
  destruct (insert_missing_spec scope_id missing (v + n - n + 1) (set_sequence (Some (v + n)) s1) (v + n))
    as (s2 & H2 & A2 & G2' & R2); simpl; try lia; try done.
  { split; simpl; [done|done| |intros ? [= <-]; lia].
    intros k r Hr. destruct (Hb _ _ Hr) as (v' & Hv' & ?). exists (v + n). split; [done|].
    rewrite Hv in Hv'. injection Hv' as ->. lia. }
  { by apply NoDup_filter. }
  { intros name Hin. by apply Hmiss. }
  { replace (v + n - n + 1) with (v + 1) by lia. exact (wf_below s1 v (adv_wf _ _ A1) Hv). }
  unfold wp. rewrite H2. destruct A2 as [W2 G2 F2]. split_and!.
  - eapply advanced_trans; [exact A1|]. by split.
  - intros k. destruct (G2' k) as [E2|(E2 & Hin & ?)]; simpl in E2; rewrite E1 in E2; [by left|].
    right. split_and!; try done; [|naive_solver..]. by apply Hmiss in Hin as [? _].
  - apply Hrest; [exact G2|exact R2].
Qed.

Lemma dirty_le increment r :
  0 < increment → intent_check r → intent_check (dirty increment r) ∧ row_le r (dirty increment r).
Proof. unfold intent_check, row_le. destruct r; simpl. lia. Qed.

Lemma mark_all_wp scope_id names increment s :
  wf s → 0 < increment → NoDup names →
  wp (for_each (λ name, update_intent (name, scope_id) (dirty increment)) names) s
    (λ _ s', advanced s s' ∧
       ∀ b sc, p_intents s' !! (b, sc) =
         if decide (sc = scope_id ∧ b ∈ names) then dirty increment <$> p_intents s !! (b, sc)
         else p_intents s !! (b, sc)) argument_error.
Proof.
  intros Hwf Hinc Hnd. revert s Hwf. induction Hnd as [|name names Hname Hnd IH]; intros s Hwf.
  - apply wp_ret. split; [by apply advanced_refl|]. intros b sc.
    rewrite decide_False; [done|]. by intros [_ ?%not_elem_of_nil].
  - cbn [for_each]. apply wp_bind. eapply wp_mono; [|done|apply update_intent_wp; [done|]].
    2:{ intros r _ Hc. by apply dirty_le. }
    intros ? s1 [A1 E1]. eapply wp_mono; [|done|apply (IH s1), A1].
    intros ? s2 [A2 E2]. split; [by eapply advanced_trans|]. intros b sc.
    rewrite E2, E1. destruct (decide (b = name ∧ sc = scope_id)) as [[-> ->]|Hk].
    + rewrite lookup_alter_eq. rewrite decide_False by tauto.
      rewrite decide_True; [done|]. split; [done|left].
    + rewrite lookup_alter_ne by naive_solver.
      destruct (decide (sc = scope_id ∧ b ∈ names)) as [[-> Hb]|Hb].
      * rewrite decide_True; [done|]. split; [done|by right].
      * rewrite decide_False; [done|]. intros [-> [->|?]%elem_of_cons]; tauto.
Qed.

Definition zero_intent : intent := mkIntent 0 0 0 0 0 0 0.

(** The effect of marking: every named row gains [increment] once, a row that
    did not exist starts from zero counters, other rows are untouched. *)
Definition marks (scope_id : text) (names : list text) (increment : Z) (s s' : pdb) : Prop :=
  ∀ b sc,
    if decide (sc = scope_id ∧ b ∈ names) then
      ∃ r, p_intents s' !! (b, sc) = Some (dirty increment r) ∧
        match p_intents s !! (b, sc) with
        | Some r0 => r = r0
        | None => r = mkIntent (pending_sequence r) 0 0 0 0 0 0
        end
    else p_intents s' !! (b, sc) = p_intents s !! (b, sc).

Lemma mark_dirty_many_wp scope_id names increment s :
  wf s →
  wp (mark_dirty_many scope_id names increment) s
    (λ _ s', advanced s s' ∧ marks scope_id names increment s s' ∧ (names ≠ [] → 0 < increment))
    argument_error.
Proof.
  intros Hwf. unfold mark_dirty_many. destruct (decide (nub names = [])) as [Hnil|Hnil].
  { assert (names = []) as ->.
    { destruct names as [|x names]; [done|]. assert (Hx : x ∈ nub (x :: names)) by (rewrite nub_elem; left).
      rewrite Hnil in Hx. by apply not_elem_of_nil in Hx. }
    apply wp_ret. split_and!; [by apply advanced_refl| |done]. intros b sc.
    rewrite decide_False; [done|]. by intros [_ ?%not_elem_of_nil]. }
  apply wp_bind, wp_raise_if; [by eexists|]. intros Hinc. apply wp_bind, wp_lift.
  2:{ intros e (x & _ & H)%check_each_err. by eapply require_key_error. }
  intros _ _. apply wp_bind.
  eapply wp_mono; [|done|apply register_missing_wp; [done|apply nub_NoDup]].
  intros _ s1 (A1 & R1 & X1).
  eapply wp_mono; [|done|apply mark_all_wp; [apply A1|lia|apply nub_NoDup]].
  intros ? s2 [A2 E2]. split_and!; [by eapply advanced_trans| |lia].
  intros b sc. specialize (E2 b sc).
  rewrite (decide_ext _ (sc = scope_id ∧ b ∈ names)) in E2 by (by rewrite nub_elem).
  destruct (decide (sc = scope_id ∧ b ∈ names)) as [[-> Hb]|Hb].
  - destruct (X1 b) as [r1 Hr1]; [by apply nub_elem|]. rewrite Hr1 in E2.
    exists r1. split; [done|].
    destruct (R1 (b, scope_id)) as [E|(E & _ & _ & n & En)]; rewrite Hr1 in *.
    + by rewrite <- E.
    + rewrite E. by injection En as ->.
  - rewrite E2. destruct (R1 (b, sc)) as [E|(E & Hin & Hsc & _)]; [done|].
    simpl in Hin, Hsc. rewrite !nub_elem in Hin. destruct Hb. by split.
Qed.

(** A row write through [update_intent], followed by the readback. *)
Lemma update_then_load_wp scope_id binding_name f r s :
  wf s → p_intents s !! (binding_name, scope_id) = Some r →
  intent_check (f r) → row_le r (f r) →
  wp (update_intent (binding_name, scope_id) f ;; load_row scope_id binding_name) s
    (λ r' s', advanced s s' ∧ r' = f r ∧
       p_intents s' = <[(binding_name, scope_id) := f r]> (p_intents s)) argument_error.
Proof.
  intros Hwf Hr Hc Hle. apply wp_bind. eapply wp_mono; [|done|apply update_intent_wp; [done|]].
  - intros u s' [A E]. assert (E' : p_intents s' = <[(binding_name, scope_id) := f r]> (p_intents s)).
    { rewrite E. apply map_eq. intros i. rewrite lookup_alter, lookup_insert.
      case_decide; subst; [by rewrite Hr|done]. }
    eapply load_row_wp; [by rewrite E', lookup_insert_eq|done].
  - intros r' Hr' _. simplify_eq. done.
Qed.

Lemma request_wp scope_id binding_name s :
  wf s →
  wp (request scope_id binding_name) s
    (λ r s', advanced s s' ∧ p_intents s' !! (binding_name, scope_id) = Some r ∧
       handled_generation r < requested_generation r) argument_error.
Proof.
  intros Hwf. unfold request. apply wp_bind.
  eapply wp_mono; [|done|by apply ensure_wp]. intros r s1 [A1 Hr].
  assert (Hc : intent_check r) by (apply (wf_check _ (adv_wf _ _ A1) _ _ Hr)).
  eapply wp_mono; [|done|apply (update_then_load_wp _ _ _ r); [apply A1|done|..]].
  - intros r' s2 (A2 & -> & E2). split_and!; [by eapply advanced_trans|by rewrite E2, lookup_insert_eq|].
    unfold intent_check in Hc. simpl. lia.
  - unfold intent_check in *. simpl. lia.
  - unfold row_le. simpl. lia.
Qed.

Lemma acknowledge_wp scope_id binding_name generation clean dream s :
  wf s →
  wp (acknowledge scope_id binding_name generation clean dream) s
    (λ r s', advanced s s' ∧ ∃ r0, p_intents s !! (binding_name, scope_id) = Some r0 ∧
       generation ≤ requested_generation r0 ∧ p_intents s' !! (binding_name, scope_id) = Some r ∧
       (if decide (generation ≤ handled_generation r0) then r = r0 ∧ s' = s
        else r = settle generation (Z.max (clean_generation r0) (default 0 clean)) dream r0))
    argument_error.
Proof.
  intros Hwf. unfold acknowledge. apply wp_bind, wp_raise_if; [by eexists|intros Hg].
  apply wp_bind, load_wp. destruct (p_intents s !! _) as [r0|] eqn:Hr0; [|by eexists].
  assert (Hc : intent_check r0) by (apply (wf_check _ Hwf _ _ Hr0)).
  apply wp_bind, wp_raise_if; [by eexists|intros Hreq].
  destruct (decide (generation ≤ handled_generation r0)) as [Hh|Hh].
  { apply wp_ret. split; [by apply advanced_refl|]. exists r0. rewrite decide_True by done.
    split_and!; try done. lia. }
  apply wp_bind, wp_lift.
  - intros c Hclean. assert (c = Z.max (clean_generation r0) (default 0 clean) ∧
      clean_generation r0 ≤ c ≤ dirty_generation r0) as [-> Hle].
    { unfold intent_check in Hc. destruct clean as [cg|]; simpl in *; [|simplify_eq; lia].
      unfold require_nonnegative in Hclean. run. lia. }
    eapply wp_mono; [|done|apply (update_then_load_wp _ _ _ r0); [done|done|..]].
    + intros r s' (A & -> & E). split; [done|]. exists r0. rewrite decide_False by done.
      split_and!; try done; [lia|]. by rewrite E, lookup_insert_eq.
    + unfold intent_check in *. simpl. lia.
    + unfold row_le. simpl. lia.
  - destruct clean as [cg|]; [|done]. intros e He.
    apply result_bind_err in He as [He|(_ & _ & He)]; [by eapply require_nonnegative_error|].
    apply result_bind_err in He as [[_ ->]%raise_if_err|(_ & _ & He)]; [by eexists|done].
Qed.

Definition admission (generation : Z) (r : intent) : intent :=
  if decide (generation ≤ last_auto_scan_generation r) then r
  else admitted (if decide (clean_generation r < dirty_generation r ∧
                            requested_generation r = handled_generation r)
                 then requested_generation r + 1 else requested_generation r) generation r.

Lemma admit_wp scope_id binding_name generation s :
  wf s →
  wp (admit_member scope_id binding_name generation) s
    (λ r s', advanced s s' ∧ ∃ r0 st, p_intents s !! (binding_name, scope_id) = Some r0 ∧
       p_states s !! binding_name = Some st ∧ scan_in_progress st = true ∧
       scan_generation st = generation ∧
       pending_sequence r0 ≤ default 0 (scan_upper_pending_sequence st) ∧
       r = admission generation r0 ∧
       p_intents s' = <[(binding_name, scope_id) := r]> (p_intents s) ∧
       0 ≤ generation ∧ require_key scope_id binding_name = Ok tt) argument_error.
Proof.
  intros Hwf. unfold admit_member. apply wp_bind, wp_raise_if; [by eexists|intros Hg].
  apply wp_bind, wp_gets. destruct (p_states s !! binding_name) as [st|] eqn:Hst; [|by eexists].
  apply wp_bind, wp_raise_if; [by eexists|intros Hcur].
  assert (scan_in_progress st = true ∧ scan_generation st = generation) as [Hp Hgen].
  { split; [destruct (scan_in_progress st)|destruct (decide (scan_generation st = generation))]; tauto. }
  apply wp_bind, load_key_wp. intros Hkey. destruct (p_intents s !! _) as [r0|] eqn:Hr0; [|by eexists].
  assert (Hc : intent_check r0) by (apply (wf_check _ Hwf _ _ Hr0)).
  apply wp_bind, wp_raise_if; [by eexists|intros Hup].
  unfold admission. destruct (decide (generation ≤ last_auto_scan_generation r0)) as [Hl|Hl] eqn:Hd.
  - apply wp_ret. split; [by apply advanced_refl|]. exists r0, st. rewrite Hd.
    split_and!; try done; [lia| |lia]. by rewrite insert_id.
  - eapply wp_mono; [|done|apply (update_then_load_wp _ _ _ r0); [done|done|..]].
    + intros r s' (A & -> & E). split; [done|]. exists r0, st. rewrite Hd. split_and!; try done; lia.
    + unfold intent_check in *. simpl. repeat case_decide; lia.
    + unfold row_le. simpl. repeat case_decide; lia.
Qed.

(** ** Reachable tables

    Any interleaving of the operations and of changes to the other tables. *)

Inductive op :=
  | Ensure (scope_id binding_name : text)
  | MarkDirtyMany (scope_id : text) (names : list text) (increment : Z)
  | Request (scope_id binding_name : text)
  | Acknowledge (scope_id binding_name : text) (generation : Z) (clean : option Z) (dream : bool)
  | Admit (scope_id binding_name : text) (generation : Z).

Definition run_op (o : op) : M pdb unit :=
  match o with
  | Ensure sc b => ensure sc b ;; mret tt
  | MarkDirtyMany sc names n => mark_dirty_many sc names n
  | Request sc b => request sc b ;; mret tt
  | Acknowledge sc b g c d => acknowledge sc b g c d ;; mret tt
  | Admit sc b g => admit_member sc b g ;; mret tt
  end.

Inductive step : pdb → pdb → Prop :=
  | step_op o s s' : run_op o s = Ok (tt, s') → step s s'
  | step_elsewhere s s' : same_intents s s' → step s s'.

Lemma run_op_wp o s : wf s → wp (run_op o) s (λ _ s', advanced s s') argument_error.
Proof.
  intros Hwf. destruct o; simpl; try apply wp_bind.
  - eapply wp_mono; [|done|by apply ensure_wp]. by intros ? ? [].
  - eapply wp_mono; [|done|by apply mark_dirty_many_wp]. by intros ? ? [].
  - eapply wp_mono; [|done|by apply request_wp]. by intros ? ? [].
  - eapply wp_mono; [|done|by apply acknowledge_wp]. by intros ? ? [].
  - eapply wp_mono; [|done|by apply admit_wp]. by intros ? ? [].
Qed.

Lemma step_wf_grows s s' : wf s → step s s' → wf s' ∧ grows s s'.
Proof.
  intros Hwf Hst. revert Hwf. destruct Hst as [o t t' H|t t' [Hi Hs]]; intros Hwf.
  - by destruct (wp_Ok _ _ _ _ _ _ (run_op_wp o t Hwf) H) as [? ? _].
  - destruct Hwf as [Hc Hu Hb Hn]. split; [split; rewrite ?Hi, ?Hs; done|].
    intros k r Hr. exists r. by rewrite Hi.
Qed.

Lemma steps_wf_grows s s' : wf s → rtc step s s' → wf s' ∧ grows s s'.
Proof.
  intros Hwf H. induction H as [|s1 s2 s3 H1 _ IH]; [done|].
  destruct (step_wf_grows _ _ Hwf H1) as [W G]. destruct (IH W) as [W' G'].
  split; [done|by etrans].
Qed.

(** In every reachable state of the intent tables the CHECK constraints
    hold, sequence IDs are unique, and the sequence row bounds them. *)
Theorem intents_invariant d s : rtc step (empty_pdb d) s → wf s.
Proof. intros H. by apply (steps_wf_grows _ _ (empty_wf d)) in H as [? _]. Qed.

(** Rows survive every interleaving with the same sequence ID, and no
    generation counter (dirty, clean, requested, handled, last scan) ever goes
    back. *)
Theorem intents_monotone s s' k r :
  wf s → rtc step s s' → p_intents s !! k = Some r →
  ∃ r', p_intents s' !! k = Some r' ∧ row_le r r'.
Proof. intros Hwf H Hr. by apply (steps_wf_grows _ _ Hwf) in H as [_ G]; apply G. Qed.

(** From a well-formed state an operation either succeeds or rejects its
    arguments: it never meets a table constraint and never reads a missing row. *)
Theorem intents_no_integrity_error o s e :
  wf s → run_op o s = Err e → ∃ field, e = InvalidRepositoryArgumentError field.
Proof. intros Hwf H. by apply (wp_Err _ _ _ _ _ (run_op_wp o s Hwf)) in H. Qed.

(** Marking dirty counts every named binding once, however often it is
    named and whether or not it was registered, and touches no other row. *)
Theorem mark_dirty_many_effect scope_id names increment s s' :
  wf s → mark_dirty_many scope_id names increment s = Ok (tt, s') →
  ∀ b sc,
    if decide (sc = scope_id ∧ b ∈ names) then
      ∃ r, p_intents s' !! (b, sc) = Some (dirty increment r) ∧
        match p_intents s !! (b, sc) with
        | Some r0 => r = r0
        | None => r = mkIntent (pending_sequence r) 0 0 0 0 0 0
        end
    else p_intents s' !! (b, sc) = p_intents s !! (b, sc).
Proof.
  intros Hwf H.
  destruct (wp_Ok _ _ _ _ _ _ (mark_dirty_many_wp scope_id names increment s Hwf) H) as (_ & E & _).
  exact E.
Qed.

(** C1: No wakeup is lost.  A Worker that read dirty counter [d] acknowledges
    with [clean_generation = d]; input committed after that read leaves the row
    dirty, so the next scan that finds it idle admits it again. *)
Theorem dirty_survives_acknowledge scope_id binding_name names increment d generation dream
    s s1 s2 s3 r r2 r' :
  wf s → p_intents s !! (binding_name, scope_id) = Some r → d ≤ dirty_generation r →
  binding_name ∈ names → mark_dirty_many scope_id names increment s = Ok (tt, s1) →
  rtc step s1 s2 → p_intents s2 !! (binding_name, scope_id) = Some r2 →
  clean_generation r2 ≤ d →
  acknowledge scope_id binding_name generation (Some d) dream s2 = Ok (r', s3) →
  clean_generation r' < dirty_generation r' ∧
  ∀ scan, last_auto_scan_generation r' < scan → requested_generation r' = handled_generation r' →
    requested_generation (admission scan r') = requested_generation r' + 1.
Proof.
  intros Hwf Hr Hd Hin Hmark Hsteps Hr2 Hclean Hack.
  destruct (wp_Ok _ _ _ _ _ _ (mark_dirty_many_wp scope_id names increment s Hwf) Hmark)
    as ([W1 _ _] & E1 & Hinc).
  assert (0 < increment) by (apply Hinc; intros ->; by apply not_elem_of_nil in Hin).
  specialize (E1 binding_name scope_id). rewrite decide_True, Hr in E1 by done.
  destruct E1 as (? & Hr1 & ->).
  destruct (steps_wf_grows _ _ W1 Hsteps) as [W2 G2].
  destruct (G2 _ _ Hr1) as (r2' & Hr2' & Hle). simplify_eq.
  destruct (wp_Ok _ _ _ _ _ _ (acknowledge_wp _ _ _ _ _ _ W2) Hack) as (_ & r0 & Hr0 & _ & _ & Hr').
  rewrite Hr2 in Hr0. injection Hr0 as <-.
  assert (Hlt : clean_generation r' < dirty_generation r').
  { unfold row_le in Hle. simpl in Hle. case_decide; [destruct Hr' as [-> _]; lia|].
    rewrite Hr'. simpl. lia. }
  split; [done|]. intros scan Hscan Hidle. unfold admission.
  rewrite decide_False by lia. simpl. by rewrite decide_True.
Qed.

(** Admission of a frozen scan is idempotent and coalesces: a second
    admission with the same scan generation changes nothing, and the two together
    add at most one outstanding invocation. *)
Theorem admit_idempotent scope_id binding_name generation s r s1 :
  wf s → admit_member scope_id binding_name generation s = Ok (r, s1) →
  admit_member scope_id binding_name generation s1 = Ok (r, s1) ∧
  ∃ r0, p_intents s !! (binding_name, scope_id) = Some r0 ∧
    requested_generation r0 ≤ requested_generation r ≤ requested_generation r0 + 1.
Proof.
  intros Hwf H.
  destruct (wp_Ok _ _ _ _ _ _ (admit_wp _ _ _ _ Hwf) H)
    as (A & r0 & st & Hr0 & Hst & Hp & Hg & Hup & -> & E & Hge & Hkey).
  split.
  - assert (Hseq : pending_sequence (admission generation r0) = pending_sequence r0).
    { unfold admission. by case_decide. }
    assert (Hlast : generation ≤ last_auto_scan_generation (admission generation r0)).
    { unfold admission. case_decide; simpl; lia. }
    unfold admit_member, load, mbind, M_bind, lift, gets, reads, require_nonnegative, raise_if.
    rewrite decide_False by lia. rewrite (advanced_states _ _ A), Hst.
    rewrite decide_False by (rewrite Hp, Hg; intros [?|?]; done).
    rewrite Hkey. simpl. rewrite E, lookup_insert_eq. rewrite decide_False by lia.
    by rewrite decide_True.
  - exists r0. split; [done|]. unfold admission. repeat case_decide; simpl; lia.
Qed.

(** *** Keyset pages *)

#[export] Instance sequence_le_trans : Transitive sequence_le.
Proof. intros a b c. unfold sequence_le. lia. Qed.
#[export] Instance sequence_le_total : Total sequence_le.
Proof. intros a b. unfold sequence_le. lia. Qed.

Lemma scan_rows_elem b after upper ro dro s kr :
  kr ∈ scan_rows b after upper ro dro s ↔
  p_intents s !! kr.1 = Some kr.2 ∧ scan_matches b after upper ro dro kr.
Proof.
  unfold scan_rows. rewrite merge_sort_Permutation, list_elem_of_filter.
  destruct kr as [k r]. rewrite elem_of_map_to_list. simpl. tauto.
Qed.

Lemma scan_rows_sorted b after upper ro dro s :
  StronglySorted sequence_le (scan_rows b after upper ro dro s).
Proof. apply StronglySorted_merge_sort; apply _. Qed.

Lemma rows_antisymm s x y :
  wf s → x ∈ map_to_list (p_intents s) → y ∈ map_to_list (p_intents s) →
  pending_sequence x.2 = pending_sequence y.2 → x = y.
Proof.
  destruct x as [kx rx], y as [ky ry]. rewrite !elem_of_map_to_list. simpl.
  intros Hwf Hx Hy Heq. assert (kx = ky) as -> by (by eapply (wf_unique _ Hwf)). congruence.
Qed.

(** The rows after a row of the selection are the tail of the selection. *)
Lemma scan_rows_after b after upper ro dro s kr l1 l2 :
  wf s → scan_rows b after upper ro dro s = l1 ++ kr :: l2 →
  scan_rows b (pending_sequence kr.2) upper ro dro s = l2.
Proof.
  intros Hwf Hl.
  assert (Hkr : p_intents s !! kr.1 = Some kr.2 ∧ scan_matches b after upper ro dro kr).
  { apply scan_rows_elem. rewrite Hl. apply elem_of_app. right. left. }
  transitivity (filter (λ x : (text * text) * intent, pending_sequence kr.2 < pending_sequence x.2)
    (scan_rows b after upper ro dro s)).
  - unfold scan_rows at 2. rewrite <- merge_sort_filter; [|apply _..|].
    + unfold scan_rows. f_equal. rewrite list_filter_filter. apply list_filter_iff.
      intros x. destruct Hkr as [_ Hkr]. unfold scan_matches in *. intuition lia.
    + intros x y [_ Hx]%list_elem_of_filter [_ Hy]%list_elem_of_filter.
      unfold sequence_le. intros ? ?. apply (rows_antisymm s); [done..|lia].
  - pose proof (scan_rows_sorted b after upper ro dro s) as Hs.
    assert (Hin : ∀ x, x ∈ l1 ++ kr :: l2 → x ∈ map_to_list (p_intents s)).
    { intros [k r] H. rewrite <- Hl in H. apply scan_rows_elem in H as [H _].
      by apply elem_of_map_to_list. }
    assert (Hnd : NoDup (l1 ++ kr :: l2)).
    { rewrite <- Hl. unfold scan_rows. rewrite merge_sort_Permutation.
      apply NoDup_filter, NoDup_map_to_list. }
    rewrite Hl in *. apply StronglySorted_app in Hs as (Hcross & _ & Hs).
    apply StronglySorted_inv in Hs as [_ Hs]. rewrite Forall_forall in Hs.
    apply NoDup_app in Hnd as (_ & _ & [Hnkr _]%NoDup_cons).
    rewrite filter_app, filter_cons, decide_False by lia.
    assert (Hl2 : filter (λ x : (text * text) * intent, pending_sequence kr.2 < pending_sequence x.2) l2 = l2).
    { apply filter_all. intros x Hx. specialize (Hs _ Hx). unfold sequence_le in Hs.
      destruct (decide (pending_sequence kr.2 = pending_sequence x.2)) as [Heq|]; [|lia].
      destruct Hnkr. rewrite (rows_antisymm s kr x); try done; apply Hin; set_solver. }
    rewrite Hl2. cut (filter (λ x : (text * text) * intent, pending_sequence kr.2 < pending_sequence x.2) l1 = []);
      [by intros ->|].
    apply filter_none. intros x Hx. specialize (Hcross x kr Hx).
    unfold sequence_le in Hcross. apply Z.le_ngt, Hcross. left.
Qed.

(** Keyset paging of a binding's intents neither skips nor repeats a row: a
    page is the next [limit] selected rows in sequence order, and continuing
    after its last sequence selects exactly the remaining ones. *)
Theorem scan_pages b after limit ro dro upper s page s' kr :
  wf s → scan b after limit ro dro upper s = Ok (page, s') → last page = Some kr →
  s' = s ∧ Z.of_nat (length page) ≤ limit ∧
  (∀ x, x ∈ page → p_intents s !! x.1 = Some x.2 ∧ scan_matches b after upper ro dro x) ∧
  scan_rows b after upper ro dro s = page ++ scan_rows b (pending_sequence kr.2) upper ro dro s.
Proof.
  intros Hwf H Hlast. unfold scan in H. apply reads_ok in H as [H ->]. run.
  split_and!; [done|rewrite length_take; lia| |].
  - intros x Hx. apply scan_rows_elem. rewrite <- (take_drop (Z.to_nat limit) (scan_rows _ _ _ _ _ _)).
    apply elem_of_app. by left.
  - apply last_Some in Hlast as [l1 Hl1].
    assert (Hsplit : scan_rows b after upper ro dro s =
      l1 ++ kr :: drop (Z.to_nat limit) (scan_rows b after upper ro dro s)).
    { rewrite <- (take_drop (Z.to_nat limit) (scan_rows b after upper ro dro s)) at 1.
      rewrite Hl1. by rewrite <- app_assoc. }
    rewrite (scan_rows_after _ _ _ _ _ _ _ _ _ Hwf Hsplit). by rewrite take_drop.
Qed.

(** ** Concrete runs *)

(** Run operations in order, stopping at the first that raises. *)
Definition after_ops (l : list op) (s : pdb) : pdb :=
  match for_each run_op l s with Ok (_, s') => s' | Err _ => s end.

Lemma after_ops_reachable l s : rtc step s (after_ops l s).
Proof.
  unfold after_ops. destruct (for_each run_op l s) as [[[] s']|e] eqn:H; [|apply rtc_refl].
  revert s H. induction l as [|o l IH]; intros s H; cbn [for_each] in H; run; [apply rtc_refl|].
  eapply rtc_l; [by eapply step_op|]. by apply IH.
Qed.

Lemma after_ops_wf l d : wf (after_ops l (empty_pdb d)).
Proof. apply (steps_wf_grows _ _ (empty_wf d)), after_ops_reachable. Qed.

Definition scope_a : text := [1].
Definition memory_binding : text := [1].
Definition topic_binding : text := [2].

(** Two bindings marked dirty by one captured Source, then a manual request. *)
Definition demo : pdb :=
  after_ops [MarkDirtyMany scope_a [memory_binding; topic_binding; memory_binding] 1;
             Request scope_a memory_binding] (empty_pdb sqlite).

Example demo_row :
  p_intents demo !! (memory_binding, scope_a) = Some (mkIntent 1 1 0 1 0 0 0).
Proof. vm_compute. reflexivity. Qed.

(** An automatic scan of the topic binding is in progress. *)
Definition demo_scan : pdb :=
  set_states {[ topic_binding := mkBindingState None None 1 true (Some 2) ]} demo.

Lemma set_states_wf st s : wf s → wf (set_states st s).
Proof. by intros [??? ?]; split. Qed.

Lemma demo_wf : wf demo.
Proof. unfold demo. apply after_ops_wf. Qed.

Lemma demo_scan_wf : wf demo_scan.
Proof. unfold demo_scan. apply set_states_wf, demo_wf. Qed.

Lemma intents_invariant_witness : wf demo.
Proof. apply (intents_invariant sqlite), after_ops_reachable. Defined.

Lemma intents_monotone_witness :
  ∃ r', p_intents (after_ops [Acknowledge scope_a memory_binding 1 (Some 1) false] demo)
          !! (memory_binding, scope_a) = Some r' ∧ row_le (mkIntent 1 1 0 1 0 0 0) r'.
Proof.
  apply (intents_monotone demo); [apply demo_wf|apply after_ops_reachable|].
  vm_compute. reflexivity.
Defined.

Lemma intents_no_integrity_error_witness :
  ∃ field, InvalidRepositoryArgumentError "generation" = InvalidRepositoryArgumentError field.
Proof.
  apply (intents_no_integrity_error (Acknowledge scope_a memory_binding 7 None false) demo).
  - apply demo_wf.
  - vm_compute. reflexivity.
Defined.

Definition marked_demo : pdb := after_ops [MarkDirtyMany scope_a [memory_binding] 3] demo.

Lemma mark_dirty_many_effect_witness :
  ∃ r, p_intents marked_demo !! (memory_binding, scope_a) = Some (dirty 3 r).
Proof.
  assert (H : mark_dirty_many scope_a [memory_binding] 3 demo = Ok (tt, marked_demo))
    by (vm_compute; reflexivity).
  pose proof (mark_dirty_many_effect _ _ _ _ _ demo_wf H memory_binding scope_a) as E.
  rewrite decide_True in E by (split; [done|left]). destruct E as (r & E & _). by exists r.
Defined.

Lemma dirty_survives_acknowledge_witness :
  clean_generation (mkIntent 1 4 1 1 1 0 0) < dirty_generation (mkIntent 1 4 1 1 1 0 0).
Proof.
  apply (dirty_survives_acknowledge scope_a memory_binding [memory_binding] 3 1 1 false
    demo marked_demo marked_demo
    (after_ops [Acknowledge scope_a memory_binding 1 (Some 1) false] marked_demo)
    (mkIntent 1 1 0 1 0 0 0) (mkIntent 1 4 0 1 0 0 0)).
  - apply demo_wf.
  - vm_compute. reflexivity.
  - vm_compute. discriminate.
  - left.
  - vm_compute. reflexivity.
  - constructor.
  - vm_compute. reflexivity.
  - vm_compute. discriminate.
  - vm_compute. reflexivity.
Defined.

Definition admitted_demo : pdb :=
  set_intents (<[(topic_binding, scope_a) := mkIntent 2 1 0 1 0 1 0]> (p_intents demo_scan)) demo_scan.

Lemma admit_idempotent_witness :
  admit_member scope_a topic_binding 1 admitted_demo = Ok (mkIntent 2 1 0 1 0 1 0, admitted_demo).
Proof.
  apply (admit_idempotent scope_a topic_binding 1 demo_scan); [apply demo_scan_wf|].
  vm_compute. reflexivity.
Defined.

Lemma scan_pages_witness :
  scan_rows memory_binding 0 None true false demo =
  [((memory_binding, scope_a), mkIntent 1 1 0 1 0 0 0)] ++
  scan_rows memory_binding 1 None true false demo.
Proof.
  apply (scan_pages memory_binding 0 1 true false None demo _ demo
    ((memory_binding, scope_a), mkIntent 1 1 0 1 0 0 0)).
  - apply demo_wf.
  - vm_compute. reflexivity.
  - reflexivity.
Defined.

End Intents.
