(* ===== verification/Leases.v ===== *)
(** * Supervisor leadership and scheduling state

    [builtin/persistence/supervision.py]: the Supervisor Lease with its fencing
    tokens, and the per-binding scan state.  A duration is its number of
    microseconds, the resolution of [timedelta]; an instant is naive UTC. *)

From S2P Require Import Prelude Tables Intents.
Local Open Scope Z_scope.

Module Leases.

(** ** Data *)

Inductive lease_mode := single_process | oceanbase.
#[export] Instance lease_mode_eq_dec : EqDecision lease_mode.
Proof. solve_decision. Defined.

Record fence := mkFence {
  fence_group : text;
  fence_holder : text;
  fence_generation : Z;
  fence_mode : lease_mode
}.

(** [StoredArtifactProcessingLease.fence]. *)
Definition fence_of (group : text) (l : lease) (mode : lease_mode) : fence :=
  mkFence group (holder_id l) (supervisor_generation l) mode.

Definition database_utc_now : M pdb Z := gets p_now.

Definition require_positive (field : string) (value : Z) : result unit :=
  raise_if (value ≤ 0) (InvalidRepositoryArgumentError field).

Definition leadership_lost (f : fence) : exn :=
  ArtifactProcessingLeadershipLostError (fence_generation f).

(** ** Row writes *)

Definition lease_check (l : lease) : Prop := 0 < supervisor_generation l.
#[export] Instance lease_check_dec l : Decision (lease_check l) := Z.lt_dec _ _.

Definition put_lease (group : text) (l : lease) : M pdb unit := λ s,
  if decide (lease_check l)
  then Ok (tt, set_leases (<[group := l]> (p_leases s)) s)
  else Err (IntegrityError "leases").

Definition insert_lease (group : text) (l : lease) : M pdb unit := λ s,
  if decide (p_leases s !! group = None) then put_lease group l s
  else Err (IntegrityError "leases").

(** [update ... where] the primary key and the expected row; the row count. *)
Definition update_lease_where (group : text) (P : lease → Prop) `{!∀ l, Decision (P l)}
    (l' : lease) : M pdb Z := λ s,
  match p_leases s !! group with
  | Some l => if decide (P l) then (put_lease group l' ;; mret 1) s else Ok (0, s)
  | None => Ok (0, s)
  end.

(** ** [ArtifactProcessingLeaseRepository] *)

(** The no-op UPDATE and [FOR UPDATE] only take locks. *)
Definition load (group : text) : M pdb (option lease) := reads (λ s,
  require_identifier "supervisor_group" group 64 ;; Ok (p_leases s !! group)).

Definition start_single_process_term (holder group : text) : M pdb lease :=
  lift (require_identifier "holder_id" holder 36) ;;
  current ← load group;
  let generation := match current with None => 1 | Some c => supervisor_generation c + 1 end in
  let l := mkLease holder generation None in
  match current with
  | None => insert_lease group l
  | Some _ => update_lease_where group (λ _, True) l ;; mret tt
  end ;;
  mret l.

(** [try: insert except IntegrityError]: the savepoint rolls the insert back. *)
Definition try_insert_lease (group : text) (l : lease) : M pdb bool := λ s,
  match insert_lease group l s with
  | Ok (_, s') => Ok (true, s')
  | Err (IntegrityError _) => Ok (false, s)
  | Err e => Err e
  end.

(** Take over a lease that has expired, by compare and swap on its whole term. *)
Definition take_over (holder : text) (lease_seconds : Z) (group : text)
    (current : option lease) : M pdb (option lease) :=
  now ← database_utc_now;
  match current with
  | None => mret None
  | Some c =>
      match lease_expires_at c with
      | None => mret None
      | Some expires =>
          if decide (now < expires) then mret None else
            let l := mkLease holder (supervisor_generation c + 1) (Some (now + lease_seconds)) in
            count ← update_lease_where group
                      (λ r, holder_id r = holder_id c ∧
                            supervisor_generation r = supervisor_generation c ∧
                            lease_expires_at r = lease_expires_at c) l;
            mret (if decide (count = 1) then Some l else None)
      end
  end.

(** [meanwhile] is what transactions that commit between the first read of an
    absent row and the insert do: no row lock is held there. *)
Definition try_acquire (meanwhile : pdb → pdb) (holder : text) (lease_seconds : Z) (group : text)
    : M pdb (option lease) :=
  lift (require_identifier "holder_id" holder 36) ;;
  lift (require_positive "lease_seconds" lease_seconds) ;;
  current ← load group;
  match current with
  | Some _ => take_over holder lease_seconds group current
  | None =>
      now ← database_utc_now;
      let l := mkLease holder 1 (Some (now + lease_seconds)) in
      modifies meanwhile ;;
      inserted ← try_insert_lease group l;
      if inserted : bool then mret (Some l) else
        current ← load group;
        lift (raise_if (current = None) (IntegrityError "leases")) ;;
        take_over holder lease_seconds group current
  end.

Definition renew (f : fence) (lease_seconds : Z) : M pdb lease :=
  lift (raise_if (fence_mode f ≠ oceanbase) (InvalidRepositoryArgumentError "lease_mode")) ;;
  lift (require_positive "lease_seconds" lease_seconds) ;;
  current ← load (fence_group f);
  match current with
  | None => lift (Err (leadership_lost f))
  | Some c =>
      lift (raise_if (holder_id c ≠ fence_holder f ∨
                      supervisor_generation c ≠ fence_generation f ∨
                      lease_expires_at c = None) (leadership_lost f)) ;;
      now ← database_utc_now;
      lift (raise_if (default now (lease_expires_at c) ≤ now) (leadership_lost f)) ;;
      let l := mkLease (fence_holder f) (fence_generation f) (Some (now + lease_seconds)) in
      count ← update_lease_where (fence_group f)
                (λ r, holder_id r = fence_holder f ∧
                      supervisor_generation r = fence_generation f ∧
                      lease_expires_at r = lease_expires_at c) l;
      lift (raise_if (count ≠ 1) (leadership_lost f)) ;;
      mret l
  end.

Definition require_fence (f : fence) : M pdb lease :=
  current ← load (fence_group f);
  match current with
  | None => lift (Err (leadership_lost f))
  | Some c =>
      lift (raise_if (holder_id c ≠ fence_holder f ∨ supervisor_generation c ≠ fence_generation f)
              (leadership_lost f)) ;;
      match fence_mode f with
      | single_process =>
          lift (raise_if (lease_expires_at c ≠ None) (leadership_lost f)) ;; mret c
      | oceanbase =>
          now ← database_utc_now;
          lift (raise_if (default now (lease_expires_at c) ≤ now) (leadership_lost f)) ;; mret c
      end
  end.

(** ** [ArtifactProcessingBindingStateRepository] *)

Definition load_state (binding_name : text) : M pdb (option binding_state) := reads (λ s,
  require_identifier "binding_name" binding_name MAX_BINDING_NAME_LENGTH ;;
  Ok (p_states s !! binding_name)).

Definition put_state (binding_name : text) (st : binding_state) : M pdb unit := λ s,
  if decide (0 ≤ scan_generation st)
  then Ok (tt, set_states (<[binding_name := st]> (p_states s)) s)
  else Err (IntegrityError "binding_states").

(** A given checkpoint is an instant: an aware one is converted to UTC. *)
Definition start_scan (binding_name : text) (checkpoint_at : option Z) : M pdb binding_state :=
  current ← load_state binding_name;
  match current with
  | Some st =>
      if scan_in_progress st then mret st else
        now ← database_utc_now;
        upper ← Intents.max_sequence binding_name;
        put_state binding_name
          (mkBindingState (last_auto_wave_completed_at st) (Some (default now checkpoint_at))
             (scan_generation st + 1) true (Some upper)) ;;
        row ← load_state binding_name;
        match row with Some r => mret r | None => lift (Err (RuntimeError "no binding state")) end
  | None =>
      now ← database_utc_now;
      upper ← Intents.max_sequence binding_name;
      put_state binding_name (mkBindingState None (Some (default now checkpoint_at)) 1 true (Some upper)) ;;
      row ← load_state binding_name;
      match row with Some r => mret r | None => lift (Err (RuntimeError "no binding state")) end
  end.

Definition finish_scan (binding_name : text) : M pdb unit :=
  lift (require_identifier "binding_name" binding_name MAX_BINDING_NAME_LENGTH) ;;
  modifies (λ s, set_states (alter (λ st, mkBindingState (last_auto_wave_completed_at st)
    (last_schedule_checkpoint_at st) (scan_generation st) false (scan_upper_pending_sequence st))
    binding_name (p_states s)) s).

(** The insert of an absent row and its savepoint both end in the same row: the
    defaults with the completion time, or the existing row with it. *)
Definition mark_auto_wave_completed (binding_name : text) : M pdb binding_state :=
  lift (require_identifier "binding_name" binding_name MAX_BINDING_NAME_LENGTH) ;;
  completed_at ← database_utc_now;
  current ← load_state binding_name;
  match current with
  | None => put_state binding_name (mkBindingState (Some completed_at) None 0 false None)
  | Some st => put_state binding_name
      (mkBindingState (Some completed_at) (last_schedule_checkpoint_at st) (scan_generation st)
         (scan_in_progress st) (scan_upper_pending_sequence st))
  end ;;
  mret (mkBindingState (Some completed_at) None 0 false None).

(** ** Effects of the operations *)

Definition with_lease (group : text) (l : lease) (s : pdb) : pdb :=
  set_leases (<[group := l]> (p_leases s)) s.

(** A lease can be taken over once its expiry has passed. *)
Definition expired (s : pdb) (c : lease) : Prop :=
  ∃ e, lease_expires_at c = Some e ∧ e ≤ p_now s.
(** ... and its holder may publish while the expiry lies ahead. *)
Definition live (s : pdb) (c : lease) : Prop :=
  ∃ e, lease_expires_at c = Some e ∧ p_now s < e.

Lemma put_lease_ok group l s u s' :
  put_lease group l s = Ok (u, s') ↔ lease_check l ∧ s' = with_lease group l s.
Proof. unfold put_lease. destruct u. case_decide; naive_solver. Qed.

Lemma insert_lease_ok group l s u s' :
  insert_lease group l s = Ok (u, s') ↔
  p_leases s !! group = None ∧ lease_check l ∧ s' = with_lease group l s.
Proof.
  unfold insert_lease. case_decide as H; [rewrite put_lease_ok; tauto|]. split; [done|tauto].
Qed.

Lemma update_lease_where_ok group P `{!∀ l, Decision (P l)} l' s n s' :
  update_lease_where group P l' s = Ok (n, s') ↔
  (∃ l, p_leases s !! group = Some l ∧ P l ∧ n = 1 ∧ lease_check l' ∧ s' = with_lease group l' s) ∨
  (match p_leases s !! group with Some l => ¬ P l | None => True end ∧ n = 0 ∧ s' = s).
Proof.
  unfold update_lease_where. destruct (p_leases s !! group) as [l|]; [case_decide as HP|].
  - rewrite M_bind_ok. setoid_rewrite put_lease_ok. setoid_rewrite M_ret_ok. split.
    + intros (? & ? & [? ->] & -> & ->). left. by exists l.
    + intros [(? & [= <-] & _ & -> & ? & ->)|[[] _]]; [|done]. by exists tt, (with_lease group l' s).
  - split; [|naive_solver]. intros [= <- <-]. by right.
  - split; [|naive_solver]. intros [= <- <-]. by right.
Qed.

Lemma lease_load_ok group s r s' :
  load group s = Ok (r, s') ↔
  require_identifier "supervisor_group" group 64 = Ok tt ∧ r = p_leases s !! group ∧ s' = s.
Proof.
  unfold load. rewrite reads_ok, result_bind_ok. split.
  - intros [([] & ? & [= <-]) ->]. done.
  - intros (? & -> & ->). split; [|done]. by exists tt.
Qed.

(** The outcome of a start, as a relation on the tables. *)
Definition started (holder group : text) (s : pdb) (l : lease) (s' : pdb) : Prop :=
  l = mkLease holder
        (match p_leases s !! group with None => 1 | Some c => supervisor_generation c + 1 end) None ∧
  lease_check l ∧ s' = with_lease group l s.

Lemma start_single_process_term_ok holder group s l s' :
  start_single_process_term holder group s = Ok (l, s') → started holder group s l s'.
Proof.
  unfold start_single_process_term, started. intros H.
  apply M_bind_ok in H as ([] & ? & [_ ->]%lift_ok & H).
  apply M_bind_ok in H as (? & ? & (_ & -> & ->)%lease_load_ok & H).
  apply M_bind_ok in H as ([] & ? & H & [-> ->]%M_ret_ok).
  destruct (p_leases s !! group) as [c|] eqn:Hc.
  - apply M_bind_ok in H as (n & ? & H & [_ ->]%M_ret_ok).
    apply update_lease_where_ok in H as [(? & _ & _ & _ & ? & ->)|H]; [done|].
    rewrite Hc in H. tauto.
  - by apply insert_lease_ok in H as (_ & ? & ->).
Qed.

(** The outcome of an acquisition from tables in which the row is known. *)
Definition taken_over (holder : text) (lease_seconds : Z) (group : text)
    (s : pdb) (r : option lease) (s' : pdb) : Prop :=
  match r with
  | None => s' = s ∧ ∀ c, p_leases s !! group = Some c → ¬ expired s c
  | Some l => ∃ c, p_leases s !! group = Some c ∧ expired s c ∧
      l = mkLease holder (supervisor_generation c + 1) (Some (p_now s + lease_seconds)) ∧
      lease_check l ∧ s' = with_lease group l s
  end.

Lemma take_over_ok holder lease_seconds group s r s' :
  take_over holder lease_seconds group (p_leases s !! group) s = Ok (r, s') →
  taken_over holder lease_seconds group s r s'.
Proof.
  unfold take_over, database_utc_now, taken_over. intros H.
  apply M_bind_ok in H as (now & ? & [-> ->]%gets_ok & H).
  destruct (p_leases s !! group) as [c|] eqn:Hc; [|by apply M_ret_ok in H as [-> ->]].
  destruct (lease_expires_at c) as [e|] eqn:He.
  2:{ apply M_ret_ok in H as [-> ->]. split; [done|].
      intros c' [= <-] (e & He' & _). congruence. }
  case_decide as Hle.
  { apply M_ret_ok in H as [-> ->]. split; [done|].
    intros c' [= <-] (e' & He' & ?). simplify_eq. lia. }
  apply M_bind_ok in H as (n & ? & H & [-> ->]%M_ret_ok).
  apply update_lease_where_ok in H as [(c' & Hc' & _ & -> & ? & ->)|[H _]].
  - rewrite decide_True by done. exists c. split_and!; try done. exists e. split; [done|lia].
  - rewrite Hc in H. tauto.
Qed.

(** The outcome of [try_acquire], with the transactions it raced. *)
Lemma try_acquire_ok meanwhile holder lease_seconds group s r s' :
  try_acquire meanwhile holder lease_seconds group s = Ok (r, s') →
  0 < lease_seconds ∧
  match p_leases s !! group with
  | Some _ => taken_over holder lease_seconds group s r s'
  | None =>
      match p_leases (meanwhile s) !! group with
      | None => r = Some (mkLease holder 1 (Some (p_now s + lease_seconds))) ∧
          s' = with_lease group (mkLease holder 1 (Some (p_now s + lease_seconds))) (meanwhile s)
      | Some _ => taken_over holder lease_seconds group (meanwhile s) r s'
      end
  end.
Proof.
  unfold try_acquire, database_utc_now. intros H.
  apply M_bind_ok in H as ([] & ? & [_ ->]%lift_ok & H).
  apply M_bind_ok in H as ([] & ? & [Hpos ->]%lift_ok & H). apply raise_if_ok in Hpos.
  split; [lia|]. apply M_bind_ok in H as (? & ? & (_ & -> & ->)%lease_load_ok & H).
  destruct (p_leases s !! group) as [c|] eqn:Hc.
  { apply take_over_ok. by rewrite Hc. }
  apply M_bind_ok in H as (now & ? & [-> ->]%gets_ok & H).
  apply M_bind_ok in H as ([] & ? & ->%modifies_ok & H).
  set (s1 := meanwhile s) in *.
  apply M_bind_ok in H as (inserted & s2 & Hins & H).
  unfold try_insert_lease, insert_lease, put_lease in Hins.
  destruct (p_leases s1 !! group) as [c|] eqn:Hc1.
  - rewrite decide_False in Hins by done. injection Hins as <- <-.
    apply M_bind_ok in H as (? & ? & (_ & -> & ->)%lease_load_ok & H).
    apply M_bind_ok in H as ([] & ? & [_ ->]%lift_ok & H). by apply take_over_ok.
  - rewrite decide_True, decide_True in Hins by (done || unfold lease_check; simpl; lia).
    injection Hins as <- <-. apply M_ret_ok in H as [-> ->]. done.
Qed.

Lemma renew_ok f lease_seconds s l s' :
  renew f lease_seconds s = Ok (l, s') →
  fence_mode f = oceanbase ∧ 0 < lease_seconds ∧
  ∃ c, p_leases s !! fence_group f = Some c ∧ live s c ∧
    holder_id c = fence_holder f ∧ supervisor_generation c = fence_generation f ∧
    l = mkLease (holder_id c) (supervisor_generation c) (Some (p_now s + lease_seconds)) ∧
    s' = with_lease (fence_group f) l s.
Proof.
  unfold renew, database_utc_now. intros H.
  apply M_bind_ok in H as ([] & ? & [Hm ->]%lift_ok & H). apply raise_if_ok in Hm.
  apply M_bind_ok in H as ([] & ? & [Hpos ->]%lift_ok & H). apply raise_if_ok in Hpos.
  apply M_bind_ok in H as (? & ? & (_ & -> & ->)%lease_load_ok & H).
  destruct (p_leases s !! fence_group f) as [c|] eqn:Hc; [|by apply lift_ok in H as [? _]].
  apply M_bind_ok in H as ([] & ? & [Hr ->]%lift_ok & H). apply raise_if_ok in Hr.
  apply M_bind_ok in H as (now & ? & [-> ->]%gets_ok & H).
  apply M_bind_ok in H as ([] & ? & [Hl ->]%lift_ok & H). apply raise_if_ok in Hl.
  apply M_bind_ok in H as (n & ? & Hu & H).
  apply M_bind_ok in H as ([] & ? & [_ ->]%lift_ok & [-> ->]%M_ret_ok).
  assert (holder_id c = fence_holder f) as Hh by (destruct (decide (holder_id c = fence_holder f)); tauto).
  assert (supervisor_generation c = fence_generation f) as Hg by lia.
  destruct (lease_expires_at c) as [e|] eqn:He; [|tauto]. simpl in Hl.
  split; [by destruct (fence_mode f); [destruct Hm|]|]. split; [lia|].
  exists c. split_and!; try done.
  - exists e. split; [done|lia].
  - by rewrite Hh, Hg.
  - apply update_lease_where_ok in Hu as [(? & _ & _ & _ & _ & ->)|[Hu _]]; [done|].
    rewrite Hc in Hu. tauto.
Qed.

(** A fence is valid when it names the current term and the term is live. *)
Definition fence_valid (f : fence) (s : pdb) : Prop :=
  ∃ c, p_leases s !! fence_group f = Some c ∧ holder_id c = fence_holder f ∧
    supervisor_generation c = fence_generation f ∧
    match fence_mode f with single_process => lease_expires_at c = None | oceanbase => live s c end.

Lemma require_fence_wp f s :
  wp (require_fence f) s
    (λ c s', s' = s ∧ p_leases s !! fence_group f = Some c ∧ fence_valid f s)
    (λ e, require_identifier "supervisor_group" (fence_group f) 64 = Err e ∨
          e = leadership_lost f ∧ ¬ fence_valid f s).
Proof.
  unfold require_fence, load, database_utc_now. apply wp_bind, wp_reads.
  2:{ intros e [H|(? & _ & ?)]%result_bind_err; [by left|done]. }
  intros r H. run. unfold fence_valid.
  destruct (p_leases s !! fence_group f) as [c|] eqn:Hc.
  2:{ apply wp_lift; [done|]. intros ? [= <-]. right. split; [done|]. by intros (? & ? & _). }
  apply wp_bind, wp_raise_if.
  { intros Hne. right. split; [done|]. intros (? & [= <-] & ? & ? & _). tauto. }
  intros Heq. assert (holder_id c = fence_holder f)
    by (destruct (decide (holder_id c = fence_holder f)); tauto).
  assert (supervisor_generation c = fence_generation f) by lia. destruct (fence_mode f).
  - apply wp_bind, wp_raise_if.
    { intros Hne. right. split; [done|]. intros (? & [= <-] & _ & _ & ?). done. }
    intros He. apply wp_ret. split_and!; [done..|]. exists c. split_and!; try done.
    by destruct (lease_expires_at c); [destruct He|].
  - apply wp_bind, wp_gets, wp_bind, wp_raise_if.
    { intros Hle. right. split; [done|]. intros (? & [= <-] & _ & _ & e & He & ?).
      rewrite He in Hle. simpl in Hle. lia. }
    intros Hle. apply wp_ret. split_and!; [done..|]. exists c. split_and!; try done.
    destruct (lease_expires_at c) as [e|] eqn:He; simpl in Hle; [|lia]. exists e. split; [done|lia].
Qed.

(** ** Traces of lease transactions *)

Definition wf (s : pdb) : Prop := map_Forall (λ _ l, lease_check l) (p_leases s).

(** A row is never removed; its generation never goes back, and within one
    generation the holder stays the same. *)
Definition term_le (s s' : pdb) : Prop :=
  ∀ g l, p_leases s !! g = Some l → ∃ l', p_leases s' !! g = Some l' ∧
    (supervisor_generation l < supervisor_generation l' ∨
     supervisor_generation l = supervisor_generation l' ∧ holder_id l = holder_id l').

#[export] Instance term_le_preorder : PreOrder term_le.
Proof.
  split; [intros s g l Hl; exists l; auto|].
  intros s1 s2 s3 H1 H2 g l Hl. destruct (H1 _ _ Hl) as (l2 & Hl2 & ?).
  destruct (H2 _ _ Hl2) as (l3 & Hl3 & ?). exists l3. split; [done|].
  destruct_or!; destruct_and?; [left; lia..|]. right. split; [lia|congruence].
Qed.

(** What another group of lease transactions may have done. *)
Definition advances (s s' : pdb) : Prop := (wf s → wf s') ∧ term_le s s'.

Inductive step (s s' : pdb) : Prop :=
  | step_start holder group l :
      start_single_process_term holder group s = Ok (l, s') → step s s'
  | step_acquire meanwhile holder lease_seconds group r :
      advances s (meanwhile s) →
      try_acquire meanwhile holder lease_seconds group s = Ok (r, s') → step s s'
  | step_renew f lease_seconds l : renew f lease_seconds s = Ok (l, s') → step s s'
  | step_elsewhere : p_leases s' = p_leases s → step s s'.

(** Starting the term of generation [g + 1], or renewing the current one. *)
Definition next_term (s : pdb) (group : text) (l : lease) : Prop :=
  match p_leases s !! group with
  | None => True
  | Some c => supervisor_generation c < supervisor_generation l ∨
      supervisor_generation c = supervisor_generation l ∧ holder_id c = holder_id l
  end.

Lemma with_lease_advances group l s :
  (wf s → lease_check l) → next_term s group l → advances s (with_lease group l s).
Proof.
  unfold next_term. intros Hl Hn. split.
  - intros Hs. apply map_Forall_insert_2; auto.
  - intros g c Hc. simpl. rewrite lookup_insert. case_decide; subst; [|by exists c; auto].
    exists l. split; [done|]. by rewrite Hc in Hn.
Qed.

Lemma started_next holder group s l s' : started holder group s l s' → next_term s group l.
Proof.
  intros (-> & _ & _). unfold next_term. destruct (p_leases s !! group); simpl; [left; lia|done].
Qed.

Lemma taken_over_advances holder lease_seconds group s r s' :
  taken_over holder lease_seconds group s r s' → advances s s'.
Proof.
  destruct r as [l|]; [|by intros [-> _]].
  intros (c & Hc & _ & -> & Hl & ->). apply with_lease_advances; [done|].
  unfold next_term. rewrite Hc. left. simpl. lia.
Qed.

Lemma advances_trans s1 s2 s3 : advances s1 s2 → advances s2 s3 → advances s1 s3.
Proof. intros [? ?] [? ?]. split; [auto|by etrans]. Qed.

Lemma step_advances s s' : step s s' → advances s s'.
Proof.
  intros [holder group l H|meanwhile holder secs group r Hm H|f secs l H|H].
  - pose proof (start_single_process_term_ok _ _ _ _ _ H) as Hs.
    pose proof (started_next _ _ _ _ _ Hs) as Hn. destruct Hs as (_ & Hl & ->).
    by apply with_lease_advances.
  - apply try_acquire_ok in H as [_ H].
    destruct (p_leases s !! group) as [c|]; [by eapply taken_over_advances|].
    eapply advances_trans; [exact Hm|].
    destruct (p_leases (meanwhile s) !! group) as [c|] eqn:Hc1; [by eapply taken_over_advances|].
    destruct H as [_ ->]. apply with_lease_advances; [done|]. unfold next_term. by rewrite Hc1.
  - apply renew_ok in H as (_ & _ & c & Hc & _ & _ & _ & -> & ->).
    apply with_lease_advances; [|unfold next_term; rewrite Hc; auto].
    intros Hwf. apply (Hwf _ _ Hc).
  - split; [unfold wf; by rewrite H|]. intros g l Hl. exists l. rewrite H. auto.
Qed.

Lemma steps_advances s s' : rtc step s s' → advances s s'.
Proof.
  induction 1 as [s|s1 s2 s3 H _ IH]; [by split|].
  eapply advances_trans; [by apply step_advances|done].
Qed.

(** A fence whose term has ended. *)
Definition superseded (f : fence) (s : pdb) : Prop :=
  ∃ c, p_leases s !! fence_group f = Some c ∧
    (fence_generation f < supervisor_generation c ∨
     fence_generation f = supervisor_generation c ∧ fence_holder f ≠ holder_id c).

Lemma superseded_term_le f s s' : term_le s s' → superseded f s → superseded f s'.
Proof.
  intros H (c & Hc & Hf). destruct (H _ _ Hc) as (c' & Hc' & ?). exists c'. split; [done|].
  destruct_or!; destruct_and?; [left; lia..|]. right. split; [lia|congruence].
Qed.

Lemma superseded_invalid f s : superseded f s → ¬ fence_valid f s.
Proof.
  intros (c & Hc & Hf) (c' & Hc' & Hh & Hg & _). simplify_eq.
  destruct Hf as [?|[_ ?]]; [lia|congruence].
Qed.

Lemma valid_then_term f s s' : fence_valid f s → term_le s s' →
  ∃ c, p_leases s' !! fence_group f = Some c ∧ fence_generation f ≤ supervisor_generation c.
Proof.
  intros (c & Hc & _ & Hg & _) H. destruct (H _ _ Hc) as (c' & Hc' & Hle).
  exists c'. split; [done|]. lia.
Qed.

(** The transactions that start a term of [group]. *)
Definition new_term (group : text) (s s' : pdb) : Prop :=
  (∃ holder l, start_single_process_term holder group s = Ok (l, s')) ∨
  (∃ meanwhile holder lease_seconds l, advances s (meanwhile s) ∧
     try_acquire meanwhile holder lease_seconds group s = Ok (Some l, s')).

(** ** Correctness of the fence *)

(** C2: A Worker that carries the fence of an ended term cannot publish.  Once
    another term has started, by a restart or by taking over an expired Lease,
    every later [require_fence] of the old fence raises leadership lost,
    whatever leases are started, acquired or renewed in between. *)
Theorem lease_fencing f s0 s s1 s2 :
  fence_valid f s0 → rtc step s0 s → new_term (fence_group f) s s1 → rtc step s1 s2 →
  require_identifier "supervisor_group" (fence_group f) 64 = Ok tt →
  require_fence f s2 = Err (ArtifactProcessingLeadershipLostError (fence_generation f)).
Proof.
  intros Hv H0 Hnew H2 Hid. apply steps_advances in H0 as [_ T0]. apply steps_advances in H2 as [_ T2].
  destruct (valid_then_term _ _ _ Hv T0) as (c & Hc & Hle).
  assert (superseded f s1) as Hsup.
  { destruct Hnew as [(holder & l & H)|(meanwhile & holder & secs & l & _ & H)].
    - apply start_single_process_term_ok in H as (-> & _ & ->). rewrite Hc.
      eexists. simpl. rewrite lookup_insert_eq. split; [done|]. left. simpl. lia.
    - apply try_acquire_ok in H as [_ H]. rewrite Hc in H.
      destruct H as (c' & Hc' & _ & -> & _ & ->). simplify_eq.
      eexists. simpl. rewrite lookup_insert_eq. split; [done|]. left. simpl. lia. }
  pose proof (superseded_invalid _ _ (superseded_term_le _ _ _ T2 Hsup)) as Hno.
  pose proof (require_fence_wp f s2) as Hwp. unfold wp in Hwp.
  destruct (require_fence f s2) as [[l s']|e] eqn:H; [tauto|].
  destruct Hwp as [Herr|[-> _]]; [congruence|done].
Qed.

(** C3: Leadership is exclusive.  While a fence is valid, no [try_acquire] of
    its group succeeds; two fences of a group that are valid at once name the
    same term; and across time a term has one holder. *)
Theorem lease_mutual_exclusion f s :
  fence_valid f s →
  (∀ meanwhile holder lease_seconds r s',
     try_acquire meanwhile holder lease_seconds (fence_group f) s = Ok (r, s') → r = None ∧ s' = s) ∧
  (∀ f' s', fence_group f' = fence_group f → rtc step s s' → fence_valid f' s' →
     fence_generation f ≤ fence_generation f' ∧
     (fence_generation f' = fence_generation f → fence_holder f' = fence_holder f)).
Proof.
  intros (c & Hc & Hh & Hg & Hmode). split.
  - intros meanwhile holder secs r s' H. apply try_acquire_ok in H as [_ H]. rewrite Hc in H.
    destruct r as [l|]; [|by destruct H as [-> _]]. exfalso.
    destruct H as (c' & Hc' & (e & He & Hle) & _). simplify_eq.
    destruct (fence_mode f); [congruence|]. destruct Hmode as (e' & He' & ?). simplify_eq. lia.
  - intros f' s' Hgr H (c' & Hc' & Hh' & Hg' & _). apply steps_advances in H as [_ T].
    destruct (T _ _ Hc) as (c2 & Hc2 & Hle). rewrite Hgr in Hc'. simplify_eq.
    split; [lia|]. intros ?. destruct Hle as [?|[_ ?]]; [lia|congruence].
Qed.

(** C4: An expired Lease can always be taken over: the acquisition succeeds with
    the next generation, and its fence is valid at every later time before the
    new deadline at which the row still holds that term. *)
Theorem lease_takeover meanwhile holder lease_seconds group c s :
  require_identifier "holder_id" holder 36 = Ok tt →
  require_identifier "supervisor_group" group 64 = Ok tt →
  wf s → 0 < lease_seconds → p_leases s !! group = Some c → expired s c →
  ∃ l s', try_acquire meanwhile holder lease_seconds group s = Ok (Some l, s') ∧
    supervisor_generation l = supervisor_generation c + 1 ∧ holder_id l = holder ∧
    ∀ s2, p_leases s2 !! group = Some l → p_now s2 < p_now s + lease_seconds →
      require_fence (fence_of group l oceanbase) s2 = Ok (l, s2).
Proof.
  intros Hh Hg Hwf Hpos Hc (e & He & Hle).
  set (l := mkLease holder (supervisor_generation c + 1) (Some (p_now s + lease_seconds))).
  exists l, (with_lease group l s). split_and!; try done.
  - unfold try_acquire, load, require_positive. rewrite Hh.
    unfold mbind, M_bind, lift, reads, raise_if. rewrite decide_False by lia.
    rewrite Hg. simpl. rewrite Hc. unfold take_over, mbind, M_bind, database_utc_now, gets.
    rewrite He, decide_False by lia. unfold update_lease_where. rewrite Hc, decide_True by done.
    pose proof (Hwf _ _ Hc) as Hpos'. unfold lease_check in Hpos'.
    unfold mbind, M_bind, put_lease. by rewrite decide_True by (unfold lease_check; simpl; lia).
  - intros s2 Hs2 Hnow. unfold require_fence, fence_of, load, mbind, M_bind, reads. simpl.
    rewrite Hg. simpl. rewrite Hs2. unfold lift, raise_if, database_utc_now, gets.
    rewrite decide_False by (simpl; intros [[]|[]]; done). simpl. by rewrite decide_False by lia.
Qed.

(** ** Concrete runs *)

Definition global_group : text := str "global".
Definition leader : text := str "leader-1".
Definition successor : text := str "leader-2".

(** The tables at time [now] with one Lease held by [leader]. *)
Definition held (now : Z) : pdb :=
  set_leases (<[ global_group := mkLease leader 3 (Some 100) ]> ∅)
    (mkPdb mysql now None ∅ ∅ ∅ ∅ ∅ ∅ ∅ ∅ ∅ ∅ [] []).

Definition leader_fence : fence := mkFence global_group leader 3 oceanbase.

Lemma leader_fence_valid : fence_valid leader_fence (held 50).
Proof.
  exists (mkLease leader 3 (Some 100)). split_and!; try done.
  exists 100. split; [done|]. simpl. lia.
Qed.

Lemma held_wf now : wf (held now).
Proof. by apply map_Forall_insert_2; [|apply map_Forall_empty]. Qed.

Definition after_takeover : pdb :=
  with_lease global_group (mkLease successor 4 (Some 170)) (held 120).

Lemma after_takeover_run :
  try_acquire id successor 50 global_group (held 120) =
  Ok (Some (mkLease successor 4 (Some 170)), after_takeover).
Proof. vm_compute. reflexivity. Qed.

Lemma lease_fencing_witness :
  require_fence leader_fence after_takeover = Err (ArtifactProcessingLeadershipLostError 3).
Proof.
  apply (lease_fencing leader_fence (held 50) (held 120) after_takeover after_takeover).
  - apply leader_fence_valid.
  - apply rtc_once. by apply step_elsewhere.
  - right. exists id, successor, 50, (mkLease successor 4 (Some 170)).
    split; [by split|]. apply after_takeover_run.
  - constructor.
  - vm_compute. reflexivity.
Defined.

Lemma lease_mutual_exclusion_witness : @None lease = None ∧ held 50 = held 50.
Proof.
  apply (proj1 (lease_mutual_exclusion leader_fence (held 50) leader_fence_valid) id successor 50).
  vm_compute. reflexivity.
Defined.

Lemma lease_takeover_witness :
  ∃ l s', try_acquire id successor 50 global_group (held 120) = Ok (Some l, s') ∧
    supervisor_generation l = 3 + 1.
Proof.
  destruct (lease_takeover id successor 50 global_group (mkLease leader 3 (Some 100)) (held 120))
    as (l & s' & H & Hg & _).
  - vm_compute. reflexivity.
  - vm_compute. reflexivity.
  - apply held_wf.
  - lia.
  - vm_compute. reflexivity.
  - exists 100. split; [done|]. simpl. lia.
  - by exists l, s'.
Defined.

End Leases.
