(* ===== verification/Cursors.v ===== *)
(** * Source cursors and journal windows

    [builtin/persistence/cursors.py] (cursors under generation compare-and-swap),
    [builtin/triggers/source_window.py] and [handoff.py] (the pure triggers),
    [builtin/persistence/memory_windows.py] (the retry hints), the journal reads
    of [builtin/persistence/sources.py], and the transactions in which
    [runtime/relational.py] and [runtime/atomic_memory_processing.py] open a
    window, reduce it and commit it. *)

From S2P Require Import Prelude Tables.
Local Open Scope Z_scope.

Module Cursors.

(** ** [SourceCursorRepository] *)

(** [StoredSourceCursor]: the decoded sequence and the generation. *)
Record stored_cursor := mkStored { sequence : Z; generation : Z }.
#[export] Instance stored_cursor_eq_dec : EqDecision stored_cursor.
Proof. solve_decision. Defined.

Definition decode_row (r : cursor_row) : result stored_cursor :=
  match cursor_payload r with
  | Some n => Ok (mkStored n (cursor_generation r))
  | None => Err (InvalidStoredPayloadError "source-cursor")
  end.

Definition load (scope_id binding_name : text) : M pdb (option stored_cursor) := reads (λ s,
  require_key scope_id binding_name ;;
  match p_cursors s !! (scope_id, binding_name) with
  | None => Ok None
  | Some r => c ← decode_row r; Ok (Some c)
  end).

(** The rows of one [IN] batch, decoded. *)
Definition load_batch (binding_name : text) (batch : list text) (s : pdb)
    : result (list (text * stored_cursor)) :=
  map_result (λ p, c ← decode_row p.2; Ok (p.1, c))
    (omap (λ scope_id, (λ r, (scope_id, r)) <$> p_cursors s !! (scope_id, binding_name)) batch).

Definition load_many (scope_ids : list text) (binding_name : text)
    : M pdb (gmap text stored_cursor) := reads (λ s,
  require_identifier "binding_name" binding_name MAX_BINDING_NAME_LENGTH ;;
  check_each (λ scope_id, require_identifier "scope_id" scope_id MAX_SCOPE_ID_LENGTH) scope_ids ;;
  loaded ← map_result (λ batch, load_batch binding_name batch s)
             (batches SELECTION_BATCH_SIZE (nub scope_ids));
  Ok (list_to_map (concat loaded))).

(** A journal ahead of the binding: no cursor, an undecodable one, or one behind. *)
Definition unconsumed (binding_name : text) (s : pdb) (scope_id : text) : Prop :=
  match p_heads s !! scope_id with
  | None => False
  | Some position => 0 < position ∧
      match p_cursors s !! (scope_id, binding_name) with
      | None => True
      | Some r => match cursor_payload r with None => True | Some n => n < position end
      end
  end.
#[export] Instance unconsumed_dec b s scope_id : Decision (unconsumed b s scope_id).
Proof. unfold unconsumed. repeat case_match; apply _. Defined.

Definition unconsumed_scope_ids (binding_name : text) : M pdb (list text) := reads (λ s,
  require_identifier "binding_name" binding_name MAX_BINDING_NAME_LENGTH ;;
  Ok (filter (unconsumed binding_name s) (sorted_text (map_to_list (p_heads s)).*1))).

(** INSERT ... ON CONFLICT DO NOTHING, or INSERT IGNORE: whether a row was made. *)
Definition insert_if_absent (scope_id binding_name : text) (cursor generation : Z) : M pdb bool := λ s,
  match p_dialect s with
  | other_dialect => Err (InvalidRepositoryArgumentError "dialect")
  | _ =>
      match p_cursors s !! (scope_id, binding_name) with
      | Some _ => Ok (false, s)
      | None => Ok (true, set_cursors
          (<[(scope_id, binding_name) := mkCursor (Some cursor) generation]> (p_cursors s)) s)
      end
  end.

(** UPDATE ... WHERE generation = expected: the row count. *)
Definition update_at (scope_id binding_name : text) (expected cursor generation : Z) : M pdb Z := λ s,
  match p_cursors s !! (scope_id, binding_name) with
  | Some r =>
      if decide (cursor_generation r = expected)
      then Ok (1, set_cursors
          (<[(scope_id, binding_name) := mkCursor (Some cursor) generation]> (p_cursors s)) s)
      else Ok (0, s)
  | None => Ok (0, s)
  end.

Definition save (scope_id binding_name : text) (cursor : Z) (expected_generation : option Z)
    : M pdb stored_cursor :=
  lift (require_key scope_id binding_name) ;;
  match expected_generation with
  | None =>
      created ← insert_if_absent scope_id binding_name cursor 1;
      if created : bool then mret (mkStored cursor 1) else
        existing ← load scope_id binding_name;
        lift (Err (GenerationConflictError None (generation <$> existing)))
  | Some expected =>
      lift (raise_if (expected < 1) (InvalidRepositoryArgumentError "expected_generation")) ;;
      count ← update_at scope_id binding_name expected cursor (expected + 1);
      if decide (count = 1) then mret (mkStored cursor (expected + 1)) else
        actual ← load scope_id binding_name;
        lift (Err (GenerationConflictError (Some expected) (generation <$> actual)))
  end.

(** ** Triggers *)

(** [SourceCursor().sequence]. *)
Definition initial_state : Z := 0.

(** [SourceHighWatermark] and [ProcessSourceWindow] as validated by their fields. *)
Record high_watermark := mkHighWatermark { hw_sequence : Z; hw_limit : Z }.
Record window := mkWindow { after : Z; through : Z }.
#[export] Instance window_eq_dec : EqDecision window.
Proof. solve_decision. Defined.

Definition new_high_watermark (sequence limit : Z) : result high_watermark :=
  raise_if (sequence < 0 ∨ limit ≤ 0) (ValueError "SourceHighWatermark") ;;
  Ok (mkHighWatermark sequence limit).
Definition new_window (after through : Z) : result window :=
  raise_if (after < 0 ∨ through ≤ 0) (ValueError "ProcessSourceWindow") ;;
  Ok (mkWindow after through).

(** [SourceWindowTrigger.activate]: the next state and at most one action. *)
Definition activate (signal : high_watermark) (state : Z) : result (Z * option window) :=
  if decide (hw_sequence signal ≤ state) then Ok (state, None) else
    let through := Z.min (hw_sequence signal) (state + hw_limit signal) in
    action ← new_window state through;
    Ok (through, Some action).

(** [HandoffTrigger.activate]; [prepare] is the action its activation describes. *)
Definition activate_handoff {A} (position : Z) (prepare : A) (state : Z) : Z * option A :=
  if decide (position ≤ state) then (state, None) else (position, Some prepare).

(** ** Journal reads of [SourceRepository] *)

(** The Sources of a Scope with their positions. *)
Definition journal (scope_id : text) (s : pdb) : list ((text * text * text) * source_row) :=
  filter (λ kr, kr.1.1.1 = scope_id) (map_to_list (p_sources s)).

(** [coalesce(max(journal_position), 0)] of a Scope. *)
Definition max_position (scope_id : text) (s : pdb) : Z :=
  match journal scope_id s with
  | [] => 0
  | kr :: rest => foldr (λ kr acc, Z.max (journal_position kr.2) acc) (journal_position kr.2) rest
  end.

Definition journal_head (scope_id : text) : M pdb Z := reads (λ s,
  require_identifier "scope_id" scope_id MAX_SCOPE_ID_LENGTH ;; Ok (max_position scope_id s)).

Definition position_le (a b : (text * text * text) * source_row) : Prop :=
  journal_position a.2 ≤ journal_position b.2.
#[export] Instance position_le_dec : RelDecision position_le := λ a b, Z.le_dec _ _.

Definition list_window (scope_id : text) (after through : Z)
    : M pdb (list ((text * text * text) * source_row)) := reads (λ s,
  require_identifier "scope_id" scope_id MAX_SCOPE_ID_LENGTH ;;
  raise_if (after < 0) (InvalidRepositoryArgumentError "after") ;;
  raise_if (through < after) (InvalidRepositoryArgumentError "through") ;;
  Ok (merge_sort position_le
        (filter (λ kr, after < journal_position kr.2 ∧ journal_position kr.2 ≤ through)
           (journal scope_id s)))).

(** [is_generation_eligible]: neither system-owned nor a Working Note. *)
Definition is_generation_eligible (v : source) : bool :=
  match v with
  | AdapterSource _ => true
  | ContentSource c => bool_decide (internal c = None) && negb (working_note c)
  end.

(** [GenerationSourceAccess.list_window_for_generation]. *)
Definition list_window_for_generation (scope_id : text) (after through : Z)
    : M pdb (list ((text * text * text) * source_row)) :=
  rows ← list_window scope_id after through;
  mret (filter (λ kr, is_generation_eligible (source_value kr.2) = true) rows).

(** ** [MemorySourceWindowRepository] *)

Definition signal (scope_id : text) (after configured_limit : Z) : M pdb (Z * Z) := reads (λ s,
  require_identifier "scope_id" scope_id MAX_SCOPE_ID_LENGTH ;;
  let reduction := h ← p_windows s !! scope_id;
                   if decide (after < hint_through h) then Some (window_limit h) else None in
  Ok (max_position scope_id s,
      match reduction with None => configured_limit | Some l => Z.min configured_limit l end)).

Definition reduce (scope_id : text) (source_through limit : Z) : M pdb unit := λ s,
  if decide (0 < source_through ∧ 0 < limit)
  then Ok (tt, set_windows (<[scope_id := mkWindowHint source_through limit]> (p_windows s)) s)
  else Err (IntegrityError "memory_source_windows").

Definition clear_consumed (scope_id : text) (through : Z) : M pdb unit := modifies (λ s,
  match p_windows s !! scope_id with
  | Some h => if decide (hint_through h ≤ through)
              then set_windows (delete scope_id (p_windows s)) s else s
  | None => s
  end).

(** ** Opening and committing a window

    Between the two transactions the generation work runs without a lock; the
    plan keeps what the first one read. *)

Record plan := mkPlan {
  plan_scope : text;
  plan_binding : text;
  plan_expected : option Z;   (** generation of the cursor row read, if any *)
  plan_before : Z;            (** the trigger state read *)
  plan_state : Z;             (** the transition's state *)
  plan_action : option window;
  plan_high : Z;
  plan_sources : list ((text * text * text) * source_row)
}.

Definition SOURCE_WINDOW_TRIGGER_NAME : text := str "memory-source-window".

(** The trigger run shared by both openings. *)
Definition open_at (read_window : Z → Z → M pdb (list ((text * text * text) * source_row)))
    (scope_id binding_name : text) (row : option stored_cursor) (state high limit : Z) : M pdb plan :=
  watermark ← lift (new_high_watermark high limit);
  transition ← lift (activate watermark state);
  sources ← match transition.2 with
            | None => mret []
            | Some w => read_window (after w) (through w)
            end;
  mret (mkPlan scope_id binding_name (generation <$> row) state transition.1 transition.2 high sources).

Definition state_of (row : option stored_cursor) : Z :=
  match row with None => initial_state | Some c => sequence c end.

(** [_RelationalExperienceIncubator.flush]: the first transaction. *)
Definition open_window (scope_id binding_name : text) (limit : Z) : M pdb plan :=
  row ← load scope_id binding_name;
  high ← journal_head scope_id;
  open_at (list_window_for_generation scope_id) scope_id binding_name row (state_of row) high limit.

(** ... and its last: [publish] is the domain write of the same transaction. *)
Definition commit_window (p : plan) (publish : M pdb unit) : M pdb unit :=
  publish ;;
  save (plan_scope p) (plan_binding p) (plan_state p) (plan_expected p) ;;
  mret tt.

(** [AtomicMemoryProcessor._require_window]: the interval has every position. *)
Definition require_window (sources : list ((text * text * text) * source_row)) (w : window) : result unit :=
  raise_if ((λ kr, journal_position kr.2) <$> sources ≠ seqZ (after w + 1) (through w - after w))
    (AtomicMemoryConflictError "Source journal window is not an exact contiguous interval").

(** [AtomicMemoryProcessor._flush_once]: the first transaction. *)
Definition open_memory_window (scope_id : text) (limit : Z) : M pdb plan :=
  row ← load scope_id SOURCE_WINDOW_TRIGGER_NAME;
  hl ← signal scope_id (state_of row) limit;
  p ← open_at (list_window scope_id) scope_id SOURCE_WINDOW_TRIGGER_NAME row (state_of row) hl.1 hl.2;
  match plan_action p with
  | None => mret tt
  | Some w => lift (require_window (plan_sources p) w)
  end ;;
  mret p.

(** [_reduce_window]: advance only the generation, and halve the next window. *)
Definition reduce_window (p : plan) (w : window) : M pdb unit :=
  save (plan_scope p) SOURCE_WINDOW_TRIGGER_NAME (plan_before p) (plan_expected p) ;;
  reduce (plan_scope p) (plan_high p) (Z.max 1 ((through w - after w) / 2)).

(** [_publish]: the cursor, the interval and its Sources are validated again. *)
Definition commit_memory_window (p : plan) (w : window) (publish : M pdb unit) : M pdb unit :=
  actual ← load (plan_scope p) SOURCE_WINDOW_TRIGGER_NAME;
  lift (raise_if (state_of actual ≠ after w ∨ generation <$> actual ≠ plan_expected p)
          (GenerationConflictError (plan_expected p) (generation <$> actual))) ;;
  current ← list_window (plan_scope p) (after w) (through w);
  lift (require_window current w) ;;
  lift (raise_if (current ≠ plan_sources p)
          (AtomicMemoryConflictError "Source window changed during preparation")) ;;
  publish ;;
  save (plan_scope p) SOURCE_WINDOW_TRIGGER_NAME (plan_state p) (plan_expected p) ;;
  clear_consumed (plan_scope p) (through w).

(** ** The window trigger *)

Lemma activate_ok signal state state' action :
  activate signal state = Ok (state', action) →
  match action with
  | None => state' = state ∧ hw_sequence signal ≤ state
  | Some w => after w = state ∧ through w = state' ∧ 0 ≤ state ∧ state < hw_sequence signal ∧
      state' = Z.min (hw_sequence signal) (state + hw_limit signal)
  end.
Proof.
  unfold activate. case_decide as Hle; intros H; run; [done|].
  unfold new_window in *. run. simpl. split_and!; lia.
Qed.

(** Activations at a fixed watermark until none has an action. *)
Fixpoint drain (fuel : nat) (signal : high_watermark) (state : Z) : result (list window * Z) :=
  match fuel with
  | O => Err OutOfFuel
  | S fuel' =>
      transition ← activate signal state;
      match transition.2 with
      | None => Ok ([], transition.1)
      | Some w => rest ← drain fuel' signal transition.1; Ok (w :: rest.1, rest.2)
      end
  end.

(** Consecutive non-empty windows from [a] to [b]. *)
Fixpoint chain (a : Z) (l : list window) (b : Z) : Prop :=
  match l with
  | [] => a = b
  | w :: l' => after w = a ∧ a < through w ∧ chain (through w) l' b
  end.

Definition covers (p : Z) (w : window) : Prop := after w < p ∧ p ≤ through w.
#[export] Instance covers_dec p w : Decision (covers p w).
Proof. unfold covers. apply _. Defined.

Lemma chain_le a l b : chain a l b → a ≤ b.
Proof.
  revert a. induction l as [|w l IH]; simpl; intros a; [lia|]. intros (? & ? & Hl).
  apply IH in Hl. lia.
Qed.

(** Each position of the covered interval lies in exactly one window. *)
Lemma chain_cover a l b p :
  chain a l b →
  length (filter (covers p) l) = if decide (a < p ∧ p ≤ b) then 1%nat else 0%nat.
Proof.
  revert a. induction l as [|w l IH]; intros a; cbn [chain].
  - intros ->. rewrite decide_False; [done|lia].
  - intros (Ha & Hw & Hl). specialize (IH _ Hl). pose proof (chain_le _ _ _ Hl).
    rewrite filter_cons. unfold covers at 1.
    destruct (decide (after w < p ∧ p ≤ through w)) as [Hc|Hc]; cbn [length]; rewrite IH.
    + rewrite decide_False, decide_True; [done|lia|lia].
    + destruct (decide (through w < p ∧ p ≤ b)), (decide (a < p ∧ p ≤ b)); lia.
Qed.

Lemma chain_app a l w b c :
  chain a l b → after w = b → b < through w → through w = c → chain a (l ++ [w]) c.
Proof.
  revert a. induction l as [|x l IH]; simpl; intros a.
  { intros -> <- ? <-. auto. }
  intros (? & ? & Hl) ? ? ?. eauto 6.
Qed.

Lemma drain_ok n high limit state :
  0 < limit → 0 ≤ state → 0 ≤ high → (Z.to_nat (high - state) < n)%nat →
  ∃ l b, drain n (mkHighWatermark high limit) state = Ok (l, b) ∧ chain state l b ∧
    b = Z.max state high ∧ Forall (λ w, through w - after w ≤ limit) l.
Proof.
  intros Hl. revert state. induction n as [|n IH]; intros state Hs Hh Hn; [lia|].
  cbn [drain]. unfold activate. cbn [hw_sequence hw_limit].
  destruct (decide (high ≤ state)) as [Hle|Hle].
  - exists [], state. simpl. split_and!; [done..|lia|constructor].
  - unfold new_window, raise_if. rewrite decide_False by lia. cbn.
    destruct (IH (Z.min high (state + limit))) as (l & b & -> & Hc & Hb & Hf); [lia..|].
    cbn. eexists _, _. split; [done|]. cbn [chain after through]. split_and!; try lia; [done|].
    constructor; [simpl; lia|done].
Qed.

(** ** Cursor operations *)

Definition with_cursor (k : text * text) (r : cursor_row) (s : pdb) : pdb :=
  set_cursors (<[k := r]> (p_cursors s)) s.

Lemma cursor_load_ok scope_id binding_name s row s' :
  load scope_id binding_name s = Ok (row, s') →
  s' = s ∧
  match p_cursors s !! (scope_id, binding_name) with
  | None => row = None
  | Some r => ∃ n, cursor_payload r = Some n ∧ row = Some (mkStored n (cursor_generation r))
  end.
Proof.
  unfold load, decode_row. intros H. run. split; [done|].
  destruct (p_cursors s !! (scope_id, binding_name)) as [r|]; [|by run].
  destruct (cursor_payload r) as [n|]; run; eauto.
Qed.

(** A save is a compare and swap on the generation. *)
Definition saved (k : text * text) (cursor : Z) (expected : option Z) (s s' : pdb) : Prop :=
  match expected with
  | None => p_cursors s !! k = None ∧ s' = with_cursor k (mkCursor (Some cursor) 1) s
  | Some e => 1 ≤ e ∧ ∃ r, p_cursors s !! k = Some r ∧ cursor_generation r = e ∧
      s' = with_cursor k (mkCursor (Some cursor) (e + 1)) s
  end.

Lemma save_ok scope_id binding_name cursor expected s c s' :
  save scope_id binding_name cursor expected s = Ok (c, s') →
  saved (scope_id, binding_name) cursor expected s s'.
Proof.
  unfold save, saved. intros H.
  apply M_bind_ok in H as ([] & ? & [_ ->]%lift_ok & H). destruct expected as [e|].
  - apply M_bind_ok in H as ([] & ? & [He ->]%lift_ok & H). apply raise_if_ok in He.
    apply M_bind_ok in H as (n & s1 & Hu & H). split; [lia|]. unfold update_at in Hu.
    destruct (p_cursors s !! (scope_id, binding_name)) as [r|]; [destruct (decide (cursor_generation r = e))|].
    + injection Hu as <- <-. rewrite decide_True in H by done.
      apply M_ret_ok in H as [_ ->]. by exists r.
    + injection Hu as <- <-. rewrite decide_False in H by done. by run.
    + injection Hu as <- <-. rewrite decide_False in H by done. by run.
  - apply M_bind_ok in H as (created & s1 & Hi & H). unfold insert_if_absent in Hi.
    destruct (p_dialect s); [..|done].
    all: destruct (p_cursors s !! (scope_id, binding_name)) as [r|]; injection Hi as <- <-.
    all: by run.
Qed.

(** What a plan says of the tables it was read from. *)
Record opened (s : pdb) (p : plan) : Prop := {
  opened_row : match p_cursors s !! (plan_scope p, plan_binding p) with
    | None => plan_expected p = None ∧ plan_before p = 0
    | Some r => plan_expected p = Some (cursor_generation r) ∧
        cursor_payload r = Some (plan_before p)
    end;
  opened_action : match plan_action p with
    | None => plan_state p = plan_before p
    | Some w => after w = plan_before p ∧ through w = plan_state p ∧ after w < through w
    end
}.

Lemma open_at_ok read_window scope_id binding_name row state high limit s p s' :
  (∀ a b l t t', read_window a b t = Ok (l, t') → t' = t) →
  open_at read_window scope_id binding_name row state high limit s = Ok (p, s') →
  s' = s ∧ plan_scope p = scope_id ∧ plan_binding p = binding_name ∧
  plan_expected p = generation <$> row ∧ plan_before p = state ∧
  match plan_action p with
  | None => plan_state p = state
  | Some w => after w = state ∧ through w = plan_state p ∧ after w < through w ∧
      through w - after w ≤ limit
  end.
Proof.
  intros Hread. unfold open_at. intros H.
  apply M_bind_ok in H as (wm & ? & [Hw ->]%lift_ok & H).
  apply M_bind_ok in H as ([st act] & ? & [Ht ->]%lift_ok & H).
  apply M_bind_ok in H as (l & s1 & Hl & [-> ->]%M_ret_ok).
  unfold new_high_watermark in Hw. run. apply activate_ok in Ht. simpl in *.
  destruct act as [w|]; run.
  - apply Hread in Hl as ->. split_and!; (done || lia).
  - by destruct Ht as [-> _].
Qed.

Lemma list_window_reads scope_id a b l (t t' : pdb) :
  list_window scope_id a b t = Ok (l, t') → t' = t.
Proof. unfold list_window. intros [_ ->]%reads_ok. done. Qed.

Lemma list_window_for_generation_reads scope_id a b l (t t' : pdb) :
  list_window_for_generation scope_id a b t = Ok (l, t') → t' = t.
Proof.
  unfold list_window_for_generation. intros (? & ? & ->%list_window_reads & [_ ->]%M_ret_ok)%M_bind_ok.
  done.
Qed.

Lemma opened_intro s p scope_id binding_name row :
  (match p_cursors s !! (scope_id, binding_name) with
   | None => row = None
   | Some r => ∃ n, cursor_payload r = Some n ∧ row = Some (mkStored n (cursor_generation r))
   end) →
  plan_scope p = scope_id → plan_binding p = binding_name → plan_expected p = generation <$> row →
  plan_before p = state_of row →
  match plan_action p with
  | None => plan_state p = state_of row
  | Some w => after w = state_of row ∧ through w = plan_state p ∧ after w < through w
  end → opened s p.
Proof.
  intros Hrow <- <- He Hb Ha. split.
  - destruct (p_cursors s !! (plan_scope p, plan_binding p)) as [r|].
    + destruct Hrow as (n & Hn & ->). rewrite He, Hb, Hn. done.
    + rewrite Hrow in *. done.
  - destruct (plan_action p); rewrite Hb; [tauto|done].
Qed.

Lemma open_window_ok scope_id binding_name limit s p s' :
  open_window scope_id binding_name limit s = Ok (p, s') →
  s' = s ∧ opened s p.
Proof.
  unfold open_window, journal_head. intros H.
  apply M_bind_ok in H as (row & ? & [-> Hrow]%cursor_load_ok & H).
  apply M_bind_ok in H as (high & ? & [_ ->]%reads_ok & H).
  apply open_at_ok in H as (-> & H1 & H2 & H3 & H4 & H5);
    [|apply list_window_for_generation_reads].
  split; [done|]. eapply opened_intro; try done. destruct (plan_action p); tauto.
Qed.

Lemma open_memory_window_ok scope_id limit s p s' :
  open_memory_window scope_id limit s = Ok (p, s') →
  s' = s ∧ opened s p ∧ plan_scope p = scope_id ∧ plan_binding p = SOURCE_WINDOW_TRIGGER_NAME ∧
  ∀ w, plan_action p = Some w →
    through w - after w ≤ limit ∧
    ∀ h, p_windows s !! scope_id = Some h → plan_before p < hint_through h →
      through w - after w ≤ window_limit h.
Proof.
  unfold open_memory_window, signal. intros H.
  apply M_bind_ok in H as (row & ? & [-> Hrow]%cursor_load_ok & H).
  apply M_bind_ok in H as (hl & ? & [Hs ->]%reads_ok & H).
  apply M_bind_ok in H as (p' & ? & Ho & H).
  apply open_at_ok in Ho as (-> & H1 & H2 & H3 & H4 & H5); [|apply list_window_reads].
  assert (s' = s ∧ p = p') as [-> ->].
  { apply M_bind_ok in H as ([] & ? & Hw & [-> ->]%M_ret_ok). destruct (plan_action p'); by run. }
  split; [done|]. split.
  { eapply opened_intro; try done. destruct (plan_action p'); tauto. }
  split; [done|]. split; [done|]. intros w Hw. rewrite Hw in H5.
  apply result_bind_ok in Hs as ([] & _ & [= <-]). cbn [snd] in H5. split.
  - destruct (p_windows s !! scope_id) as [h|]; cbn in H5; [|lia].
    destruct (decide (state_of row < hint_through h)); cbn in H5; lia.
  - intros h Hh Hlt. rewrite Hh in H5. cbn in H5. rewrite decide_True in H5 by lia. cbn in H5. lia.
Qed.

(** ** Concurrent windows

    Any number of Workers open windows and later try to commit, reduce or
    retry them, in any order and holding plans that may be stale.  Committed
    windows are recorded as they succeed. *)

Definition keeps_cursors (publish : M pdb unit) : Prop :=
  ∀ s u s', publish s = Ok (u, s') → p_cursors s' = p_cursors s.

Record world := mkWorld {
  tables : pdb;
  plans : list plan;
  committed : list ((text * text) * window)
}.

Definition plan_key (p : plan) : text * text := (plan_scope p, plan_binding p).

Inductive step : world → world → Prop :=
  | step_open t ps ws scope_id binding_name limit p t' :
      open_window scope_id binding_name limit t = Ok (p, t') →
      step (mkWorld t ps ws) (mkWorld t' (p :: ps) ws)
  | step_open_memory t ps ws scope_id limit p t' :
      open_memory_window scope_id limit t = Ok (p, t') →
      step (mkWorld t ps ws) (mkWorld t' (p :: ps) ws)
  | step_commit t ps ws p w publish t' :
      p ∈ ps → plan_action p = Some w → keeps_cursors publish →
      commit_window p publish t = Ok (tt, t') →
      step (mkWorld t ps ws) (mkWorld t' ps (ws ++ [(plan_key p, w)]))
  | step_commit_memory t ps ws p w publish t' :
      p ∈ ps → plan_action p = Some w → plan_binding p = SOURCE_WINDOW_TRIGGER_NAME →
      keeps_cursors publish → commit_memory_window p w publish t = Ok (tt, t') →
      step (mkWorld t ps ws) (mkWorld t' ps (ws ++ [(plan_key p, w)]))
  | step_reduce t ps ws p w t' :
      p ∈ ps → plan_action p = Some w → plan_binding p = SOURCE_WINDOW_TRIGGER_NAME →
      reduce_window p w t = Ok (tt, t') →
      step (mkWorld t ps ws) (mkWorld t' ps ws)
  | step_elsewhere t ps ws t' :
      p_cursors t' = p_cursors t → step (mkWorld t ps ws) (mkWorld t' ps ws).

(** The cursor of a key, and the windows committed for it in order. *)
Definition cursor_of (k : text * text) (w : world) : Z :=
  default 0 (r ← p_cursors (tables w) !! k; cursor_payload r).
Definition windows_of (k : text * text) (w : world) : list window :=
  (filter (λ kw : (text * text) * window, kw.1 = k) (committed w)).*2.

Definition cas (k : text * text) (cursor : Z) (expected : option Z)
    (m m' : gmap (text * text) cursor_row) : Prop :=
  match expected with
  | None => m !! k = None ∧ m' = <[k := mkCursor (Some cursor) 1]> m
  | Some e => 1 ≤ e ∧ ∃ r, m !! k = Some r ∧ cursor_generation r = e ∧
      m' = <[k := mkCursor (Some cursor) (e + 1)]> m
  end.

Lemma saved_cas k cursor expected s s' :
  saved k cursor expected s s' → cas k cursor expected (p_cursors s) (p_cursors s').
Proof.
  destruct expected; simpl.
  - intros (? & r & ? & ? & ->). split; [done|]. by exists r.
  - by intros [? ->].
Qed.

Lemma clear_consumed_cursors scope_id n s u s' :
  clear_consumed scope_id n s = Ok (u, s') → p_cursors s' = p_cursors s.
Proof. intros ->%modifies_ok. by repeat case_match. Qed.

Lemma commit_window_cas p publish s s' :
  keeps_cursors publish → commit_window p publish s = Ok (tt, s') →
  cas (plan_key p) (plan_state p) (plan_expected p) (p_cursors s) (p_cursors s').
Proof.
  intros Hk (u & s1 & H1 & H)%M_bind_ok. rewrite <- (Hk _ _ _ H1).
  apply M_bind_ok in H as (c & s2 & H2 & [_ ->]%M_ret_ok).
  by apply save_ok, saved_cas in H2.
Qed.

Lemma commit_memory_window_cas p w publish s s' :
  keeps_cursors publish → plan_binding p = SOURCE_WINDOW_TRIGGER_NAME →
  commit_memory_window p w publish s = Ok (tt, s') →
  cas (plan_key p) (plan_state p) (plan_expected p) (p_cursors s) (p_cursors s').
Proof.
  intros Hk Hb (actual & ? & [-> _]%cursor_load_ok & H)%M_bind_ok.
  apply M_bind_ok in H as (? & ? & [_ ->]%lift_ok & H).
  apply M_bind_ok in H as (? & ? & ->%list_window_reads & H).
  apply M_bind_ok in H as (? & ? & [_ ->]%lift_ok & H).
  apply M_bind_ok in H as (? & ? & [_ ->]%lift_ok & H).
  apply M_bind_ok in H as (u & s1 & H1 & H). rewrite <- (Hk _ _ _ H1).
  apply M_bind_ok in H as (c & s2 & H2 & H). apply clear_consumed_cursors in H as ->.
  unfold plan_key. rewrite Hb. by apply save_ok, saved_cas in H2.
Qed.

Lemma reduce_window_cas p w s s' :
  plan_binding p = SOURCE_WINDOW_TRIGGER_NAME → reduce_window p w s = Ok (tt, s') →
  cas (plan_key p) (plan_before p) (plan_expected p) (p_cursors s) (p_cursors s') ∧
  p_windows s' = <[plan_scope p := mkWindowHint (plan_high p) (Z.max 1 ((through w - after w) / 2))]>
    (p_windows s).
Proof.
  intros Hb (c & s2 & H2 & H)%M_bind_ok. unfold plan_key. rewrite Hb. apply save_ok in H2.
  unfold reduce in H. case_decide; [|done]. injection H as <-. split; [exact (saved_cas _ _ _ _ _ H2)|].
  simpl. destruct (plan_expected p); simpl in H2.
  - by destruct H2 as (_ & ? & _ & _ & ->).
  - by destruct H2 as [_ ->].
Qed.

(** *** Invariant *)

(** A plan that still names the current generation still names the cursor. *)
Definition plan_fits (m : gmap (text * text) cursor_row) (p : plan) : Prop :=
  match plan_expected p with
  | None => plan_before p = 0
  | Some e => ∃ r, m !! plan_key p = Some r ∧ e ≤ cursor_generation r ∧
      (e = cursor_generation r → cursor_payload r = Some (plan_before p))
  end ∧
  match plan_action p with
  | None => plan_state p = plan_before p
  | Some w => after w = plan_before p ∧ through w = plan_state p ∧ after w < through w
  end.

Record inv (w : world) : Prop := {
  inv_rows : ∀ k r, p_cursors (tables w) !! k = Some r → is_Some (cursor_payload r);
  inv_plans : ∀ p, p ∈ plans w → plan_fits (p_cursors (tables w)) p;
  inv_chain : ∀ k, chain 0 (windows_of k w) (cursor_of k w)
}.

Lemma opened_fits s p : opened s p → plan_fits (p_cursors s) p.
Proof.
  intros [Hr Ha]. split; [|done]. unfold plan_key.
  destruct (p_cursors s !! (plan_scope p, plan_binding p)) as [r|].
  - destruct Hr as [-> Hp]. exists r. split; [done|]. split; [lia|done].
  - by destruct Hr as [-> ->].
Qed.

(** A swap moves the cursor of its key from the plan's state, and leaves every
    other plan that it outdates behind. *)
Lemma cas_fits k cursor expected m m' p :
  cas k cursor expected m m' → plan_fits m p → plan_fits m' p.
Proof.
  intros Hc [Hf Ha]. split; [|done]. destruct (plan_expected p) as [e|]; [|done].
  destruct Hf as (r & Hr & Hle & Hcur). destruct expected as [e0|].
  - destruct Hc as (_ & r0 & Hr0 & He0 & ->). rewrite lookup_insert. case_decide; subst.
    + simplify_eq. eexists. split; [done|]. simpl. split; [lia|]. intros ->. lia.
    + exists r. auto.
  - destruct Hc as [Hn ->]. rewrite lookup_insert_ne; [by exists r|]. intros ->. congruence.
Qed.

Lemma cas_cursor p cursor m m' :
  cas (plan_key p) cursor (plan_expected p) m m' → plan_fits m p →
  default 0 (r ← m !! plan_key p; cursor_payload r) = plan_before p ∧
  ∀ k, default 0 (r ← m' !! k; cursor_payload r) =
    if decide (k = plan_key p) then cursor else default 0 (r ← m !! k; cursor_payload r).
Proof.
  intros Hc [Hf _]. destruct (plan_expected p) as [e|].
  - destruct Hc as (_ & r & Hr & He & ->). destruct Hf as (r' & Hr' & _ & Hcur). simplify_eq.
    split; [rewrite Hr; simpl; by rewrite Hcur|].
    intros k. rewrite lookup_insert. repeat case_decide; by subst.
  - destruct Hc as [Hn ->]. split; [by rewrite Hn|].
    intros k. rewrite lookup_insert. repeat case_decide; by subst.
Qed.

Lemma cas_rows k cursor expected m m' :
  cas k cursor expected m m' → (∀ k r, m !! k = Some r → is_Some (cursor_payload r)) →
  ∀ k r, m' !! k = Some r → is_Some (cursor_payload r).
Proof.
  intros Hc Hm k' r. destruct expected as [e|].
  - destruct Hc as (_ & ? & _ & _ & ->). rewrite lookup_insert. case_decide; [|apply Hm].
    intros [= <-]. by eexists.
  - destruct Hc as [_ ->]. rewrite lookup_insert. case_decide; [|apply Hm].
    intros [= <-]. by eexists.
Qed.

Lemma windows_of_snoc k t ps ws k' w :
  windows_of k (mkWorld t ps (ws ++ [(k', w)])) =
  windows_of k (mkWorld t ps ws) ++ (if decide (k = k') then [w] else []).
Proof.
  unfold windows_of. simpl. rewrite filter_app, fmap_app. f_equal. rewrite filter_cons. simpl.
  repeat case_decide; subst; try done; congruence.
Qed.

Lemma commit_inv t t' ps ws p w :
  inv (mkWorld t ps ws) → p ∈ ps → plan_action p = Some w →
  cas (plan_key p) (plan_state p) (plan_expected p) (p_cursors t) (p_cursors t') →
  inv (mkWorld t' ps (ws ++ [(plan_key p, w)])).
Proof.
  intros [Hr Hp Hc] Hin Hw Hcas. pose proof (Hp p Hin) as Hf. simpl in *.
  destruct (cas_cursor _ _ _ _ Hcas Hf) as [Hb Hcur]. split; simpl.
  - by eapply cas_rows.
  - intros q Hq. eapply cas_fits; [done|auto].
  - intros k. rewrite windows_of_snoc. unfold cursor_of. simpl. rewrite Hcur.
    specialize (Hc k). unfold cursor_of in Hc. simpl in Hc.
    destruct Hf as [_ Ha]. rewrite Hw in Ha. destruct Ha as (Ha1 & Ha2 & Ha3).
    case_decide; subst; [|by rewrite app_nil_r].
    eapply chain_app; [done|..]; rewrite ?Hb; lia.
Qed.

Lemma reduce_inv t t' ps ws p :
  inv (mkWorld t ps ws) → p ∈ ps →
  cas (plan_key p) (plan_before p) (plan_expected p) (p_cursors t) (p_cursors t') →
  inv (mkWorld t' ps ws).
Proof.
  intros [Hr Hp Hc] Hin Hcas. pose proof (Hp p Hin) as Hf. simpl in *.
  destruct (cas_cursor _ _ _ _ Hcas Hf) as [Hb Hcur]. split; simpl.
  - by eapply cas_rows.
  - intros q Hq. eapply cas_fits; [done|auto].
  - intros k. specialize (Hc k). unfold cursor_of in *. simpl in *. rewrite Hcur.
    case_decide; [|done]. subst. by rewrite <- Hb.
Qed.

Lemma open_inv t ps ws p : inv (mkWorld t ps ws) → opened t p → inv (mkWorld t (p :: ps) ws).
Proof.
  intros [Hr Hp Hc] Ho. split; simpl in *; [done| |done].
  intros q [->|Hq]%elem_of_cons; [by apply opened_fits|auto].
Qed.

Lemma step_inv w w' : step w w' → inv w → inv w'.
Proof.
  intros [] Hinv.
  - apply open_window_ok in H as [-> ?]. by apply open_inv.
  - apply open_memory_window_ok in H as (-> & ? & _). by apply open_inv.
  - eapply commit_inv; eauto using commit_window_cas.
  - eapply commit_inv; eauto using commit_memory_window_cas.
  - eapply reduce_inv; eauto. by eapply reduce_window_cas.
  - destruct Hinv as [Hr Hp Hc]. unfold cursor_of, windows_of in *. simpl in *.
    split; unfold cursor_of, windows_of; simpl; rewrite H; auto.
Qed.

(** Nothing opened or committed, and no cursor saved yet. *)
Definition initial (w : world) : Prop :=
  p_cursors (tables w) = ∅ ∧ plans w = [] ∧ committed w = [].

Lemma reachable_inv w0 w : initial w0 → rtc step w0 w → inv w.
Proof.
  intros (Hc & Hp & Hw) H. assert (inv w0) as H0.
  { split.
    - intros k r. by rewrite Hc, lookup_empty.
    - intros p. rewrite Hp. by intros ?%not_elem_of_nil.
    - intros k. unfold windows_of, cursor_of. by rewrite Hw, Hc, lookup_empty. }
  clear Hc Hp Hw. induction H as [w|w1 w2 w3 H1 _ IH]; [done|]. apply IH. by eapply step_inv.
Qed.

(** ** Correctness *)

(** C5: Exactly once.  However many Workers race over stale plans, the windows
    committed for a binding follow each other from position 0 up to its cursor,
    so every journal position up to the cursor was processed in exactly one
    committed window, and none beyond it. *)
Theorem windows_exactly_once w0 w k :
  initial w0 → rtc step w0 w →
  chain 0 (windows_of k w) (cursor_of k w) ∧
  ∀ position, length (filter (covers position) (windows_of k w)) =
    if decide (0 < position ∧ position ≤ cursor_of k w) then 1%nat else 0%nat.
Proof.
  intros H0 H. pose proof (inv_chain _ (reachable_inv _ _ H0 H) k) as Hc.
  split; [done|]. intros position. by apply chain_cover.
Qed.

(** A save is a compare and swap: it succeeds exactly when the row still has
    the expected generation (or is still absent), stores the cursor under the
    next generation and nothing else; otherwise it reports the generation that
    won and changes nothing. *)
Theorem save_compare_and_swap scope_id binding_name cursor expected s :
  require_key scope_id binding_name = Ok tt → p_dialect s ≠ other_dialect →
  (∀ e, expected = Some e → 1 ≤ e) →
  (∀ r, p_cursors s !! (scope_id, binding_name) = Some r → is_Some (cursor_payload r)) →
  let actual := cursor_generation <$> p_cursors s !! (scope_id, binding_name) in
  save scope_id binding_name cursor expected s =
    if decide (actual = expected)
    then Ok (mkStored cursor (default 0 expected + 1),
             with_cursor (scope_id, binding_name)
               (mkCursor (Some cursor) (default 0 expected + 1)) s)
    else Err (GenerationConflictError expected actual).
Proof.
  intros Hkey Hd He Hp. cbn zeta. unfold save, mbind, M_bind, lift. rewrite Hkey.
  assert (Hload : load scope_id binding_name s =
    Ok (r ← p_cursors s !! (scope_id, binding_name);
        (λ n, mkStored n (cursor_generation r)) <$> cursor_payload r, s)).
  { unfold load, reads, decode_row. rewrite Hkey. cbn.
    destruct (p_cursors s !! (scope_id, binding_name)) as [r|]; [|done].
    destruct (Hp r eq_refl) as [n Hn]. cbn. by rewrite Hn. }
  destruct expected as [e|].
  - unfold raise_if. rewrite decide_False by (specialize (He e eq_refl); lia).
    unfold update_at. destruct (p_cursors s !! (scope_id, binding_name)) as [r|]; cbn -[load].
    + destruct (Hp r eq_refl) as [n Hn].
      destruct (decide (cursor_generation r = e)), (decide (Some (cursor_generation r) = Some e));
        cbn -[load]; try congruence; [by rewrite decide_True|].
      rewrite decide_False, Hload by done. cbn. by rewrite Hn.
    + destruct (decide (None = Some e)); [congruence|]. rewrite decide_False by done. by rewrite Hload.
  - unfold insert_if_absent.
    destruct (p_cursors s !! (scope_id, binding_name)) as [r|]; destruct (p_dialect s);
      try done; cbn -[load].
    all: destruct (decide _); try done; rewrite Hload; cbn.
    all: destruct (Hp r eq_refl) as [m Hm]; cbn; by rewrite Hm.
Qed.

(** C6: The trigger drains a journal: activated at a watermark until it has no
    action, it ends at the watermark, its windows follow each other from the
    state without gap or overlap, and none is larger than the limit. *)
Theorem trigger_drains high limit state :
  0 < limit → 0 ≤ state → 0 ≤ high →
  ∃ windows final, drain (S (Z.to_nat (high - state))) (mkHighWatermark high limit) state = Ok (windows, final) ∧
    final = Z.max state high ∧ chain state windows final ∧
    Forall (λ w, through w - after w ≤ limit) windows.
Proof.
  intros Hl Hs Hh. destruct (drain_ok (S (Z.to_nat (high - state))) high limit state)
    as (l & b & H & Hc & Hb & Hf); [lia..|]. by exists l, b.
Qed.

(** After a window of more than one Source was reduced, the next window
    opened at the same cursor under the old watermark is at most half as large,
    so a failing window shrinks to a single Source. *)
Theorem reduced_window_shrinks p w s s1 limit p' w' s2 :
  plan_binding p = SOURCE_WINDOW_TRIGGER_NAME → plan_action p = Some w →
  plan_fits (p_cursors s) p → through w ≤ plan_high p → 2 ≤ through w - after w →
  reduce_window p w s = Ok (tt, s1) →
  open_memory_window (plan_scope p) limit s1 = Ok (p', s2) → plan_action p' = Some w' →
  after w' = after w ∧ 2 * (through w' - after w') ≤ through w - after w.
Proof.
  intros Hb Hw Hf Hhigh Htwo Hred Hopen Hw'.
  destruct (reduce_window_cas _ _ _ _ Hb Hred) as [Hcas Hwin].
  destruct (cas_cursor _ _ _ _ Hcas Hf) as [_ Hcur]. specialize (Hcur (plan_key p)).
  rewrite decide_True in Hcur by done.
  destruct (open_memory_window_ok _ _ _ _ _ Hopen) as (_ & [Hrow Hact] & Hsc & Hbn & Hsize).
  rewrite Hw' in Hact. destruct Hact as (Ha' & _ & _).
  destruct Hf as [_ Hf]. rewrite Hw in Hf. destruct Hf as (Ha & _ & _).
  unfold plan_key in Hcur. rewrite Hsc, Hbn, <- Hb in Hrow.
  assert (plan_before p' = plan_before p) as Hbefore.
  { destruct (p_cursors s1 !! (plan_scope p, plan_binding p)) as [r|].
    - destruct Hrow as [_ Hrow]. simpl in Hcur. by rewrite Hrow in Hcur.
    - destruct Hrow as [_ ->]. done. }
  split; [congruence|]. destruct (Hsize _ Hw') as [_ Hlim].
  specialize (Hlim (mkWindowHint (plan_high p) (Z.max 1 ((through w - after w) / 2)))).
  rewrite Hwin, lookup_insert_eq in Hlim. specialize (Hlim eq_refl). simpl in Hlim.
  pose proof (Z.mul_div_le (through w - after w) 2). lia.
Qed.

(** Discovery selects exactly the journals ahead of the binding, each once
    and in Scope order: no Scope with unread Sources is left out. *)
Theorem unconsumed_scope_ids_exact binding_name s scopes s' :
  unconsumed_scope_ids binding_name s = Ok (scopes, s') →
  s' = s ∧ NoDup scopes ∧
  (∀ scope_id, scope_id ∈ scopes ↔
     ∃ position, p_heads s !! scope_id = Some position ∧ 0 < position ∧
       ∀ r n, p_cursors s !! (scope_id, binding_name) = Some r → cursor_payload r = Some n → n < position).
Proof.
  unfold unconsumed_scope_ids. intros H. run. split; [done|]. split.
  - apply NoDup_filter, sorted_text_NoDup, NoDup_fst_map_to_list.
  - intros scope_id. rewrite list_elem_of_filter, sorted_text_elem. unfold unconsumed. split.
    + intros [H2 _]. destruct (p_heads s !! scope_id) as [n|]; [|done]. exists n.
      destruct H2 as [? H2]. split_and!; try done. intros r m Hr Hm. rewrite Hr, Hm in H2. done.
    + intros (n & Hn & Hpos & Hr). rewrite Hn. split.
      * split; [done|]. repeat case_match; eauto.
      * apply list_elem_of_fmap. exists (scope_id, n). split; [done|]. by apply elem_of_map_to_list.
Qed.

(** ** Concrete runs *)

Definition demo_scope : text := [1].

(** Two captured Sources, at positions 1 and 2, and the journal head. *)
Definition demo_pdb : pdb :=
  mkPdb sqlite 0 None ∅ ∅ ∅ ∅ ∅ ∅ {[ demo_scope := 2 ]}
    (<[(demo_scope, [1], [1]) := mkSourceRow (AdapterSource [1]) 1]>
     {[ (demo_scope, [1], [2]) := mkSourceRow (AdapterSource [2]) 2 ]})
    ∅ ∅ [] [].

Definition run_or {A} (default : A) (s0 : pdb) (m : M pdb A) (s : pdb) : A * pdb :=
  match m s with Ok r => r | Err _ => (default, s0) end.
Definition no_plan : plan := mkPlan [] [] None 0 0 None 0 [].

Definition demo_plan : plan := (run_or no_plan demo_pdb (open_memory_window demo_scope 5) demo_pdb).1.
Definition demo_window : window := mkWindow 0 2.
Definition demo_committed : pdb :=
  (run_or tt demo_pdb (commit_memory_window demo_plan demo_window (mret tt)) demo_pdb).2.

Lemma demo_open : open_memory_window demo_scope 5 demo_pdb = Ok (demo_plan, demo_pdb).
Proof. vm_compute. reflexivity. Qed.

Lemma demo_commit :
  commit_memory_window demo_plan demo_window (mret tt) demo_pdb = Ok (tt, demo_committed).
Proof. vm_compute. reflexivity. Qed.

(** The Worker that opened the same window again cannot commit it a second time. *)
Example demo_stale :
  commit_memory_window demo_plan demo_window (mret tt) demo_committed =
  Err (GenerationConflictError None (Some 1)).
Proof. vm_compute. reflexivity. Qed.

Lemma windows_exactly_once_witness :
  chain 0 [demo_window] (cursor_of (demo_scope, SOURCE_WINDOW_TRIGGER_NAME)
    (mkWorld demo_committed [demo_plan] [(plan_key demo_plan, demo_window)])).
Proof.
  apply (windows_exactly_once (mkWorld demo_pdb [] [])
    (mkWorld demo_committed [demo_plan] [(plan_key demo_plan, demo_window)])
    (demo_scope, SOURCE_WINDOW_TRIGGER_NAME)).
  - by split_and!.
  - eapply rtc_l; [eapply step_open_memory, demo_open|]. apply rtc_once.
    eapply (step_commit_memory _ _ [] _ _ (mret tt)); [left|vm_compute; reflexivity..| |].
    + intros s u s' [_ ->]%M_ret_ok. done.
    + apply demo_commit.
Defined.

Lemma save_compare_and_swap_witness :
  save demo_scope SOURCE_WINDOW_TRIGGER_NAME 2 (Some 4) demo_committed =
  Err (GenerationConflictError (Some 4) (Some 1)).
Proof.
  rewrite (save_compare_and_swap demo_scope SOURCE_WINDOW_TRIGGER_NAME 2 (Some 4) demo_committed).
  - vm_compute. reflexivity.
  - vm_compute. reflexivity.
  - vm_compute. discriminate.
  - intros e [= <-]. lia.
  - intros r. vm_compute. intros [= <-]. by eexists.
Defined.

Lemma trigger_drains_witness :
  ∃ windows final, drain 6 (mkHighWatermark 5 2) 0 = Ok (windows, final) ∧ final = 5.
Proof.
  destruct (trigger_drains 5 2 0) as (l & b & H & Hb & _); [lia..|]. exists l, b.
  split; [exact H|exact Hb].
Defined.

Definition demo_reduced : pdb :=
  (run_or tt demo_pdb (reduce_window demo_plan demo_window) demo_pdb).2.
Definition demo_retry : plan :=
  (run_or no_plan demo_reduced (open_memory_window demo_scope 5) demo_reduced).1.

Lemma reduced_window_shrinks_witness :
  after (mkWindow 0 1) = after demo_window ∧
  2 * (through (mkWindow 0 1) - after (mkWindow 0 1)) ≤ through demo_window - after demo_window.
Proof.
  apply (reduced_window_shrinks demo_plan demo_window demo_pdb demo_reduced 5 demo_retry
    (mkWindow 0 1) demo_reduced).
  - vm_compute. reflexivity.
  - vm_compute. reflexivity.
  - vm_compute. auto.
  - vm_compute. discriminate.
  - vm_compute. discriminate.
  - vm_compute. reflexivity.
  - vm_compute. reflexivity.
  - vm_compute. reflexivity.
Defined.

Lemma unconsumed_scope_ids_exact_witness :
  demo_scope ∈ [demo_scope] ↔
    ∃ position, p_heads demo_pdb !! demo_scope = Some position ∧ 0 < position ∧
      ∀ r n, p_cursors demo_pdb !! (demo_scope, SOURCE_WINDOW_TRIGGER_NAME) = Some r →
        cursor_payload r = Some n → n < position.
Proof.
  apply (unconsumed_scope_ids_exact SOURCE_WINDOW_TRIGGER_NAME demo_pdb [demo_scope] demo_pdb).
  vm_compute. reflexivity.
Defined.

End Cursors.
