(* ===== verification/Journal.v ===== *)
(** * Source capture and the Scope journal

    [builtin/persistence/sources.py]: [SourceRepository] classifies one batch of
    Sources, reserves journal positions for the new ones, wakes the processing
    bindings, and reads Sources by reference and by position. *)

From S2P Require Import Prelude Tables Intents Cursors.
Local Open Scope Z_scope.

Module Journal.

Notation source_ref := (text * text)%type.
#[local] Existing Instance Cursors.position_le_dec.

(** What the repository asks of its Source Definition registry: the reference of a
    Source it can encode, and whether binding its Memory evidence succeeds; the
    evidence rows are not part of the model. *)
Class SourceRegistry := {
  encode : source → result source_ref;
  bind_memory_evidence : text → source_ref → source → pdb → result unit
}.

(** [StoredSource]. *)
Record stored_source := mkStored { ref : source_ref; value : source; position : Z }.
#[export] Instance stored_source_eq_dec : EqDecision stored_source.
Proof. solve_decision. Defined.

Definition SOURCE_PROCESSING_BINDINGS : list text :=
  [Cursors.SOURCE_WINDOW_TRIGGER_NAME; str "topic-memory-source-window"; str "experience-incubation";
   str "profile-source-window"].
Definition SOURCE_LOOKUP_KEYS_PER_STATEMENT : nat := 400.

(** A captured content with the server's receipt witness set. *)
Definition with_receipt (c : content_source) : content_source :=
  mkContentSource (content_payload c) (expires_at c) (working_note c) (internal c) true.

(** The one change to a stored Source: gaining the receipt. *)
Definition upgrades_to (old new : source) : Prop :=
  match old, new with
  | ContentSource c0, ContentSource c =>
      handoff_receipt c = true ∧ handoff_receipt c0 = false ∧ with_receipt c0 = c
  | _, _ => False
  end.
#[export] Instance upgrades_to_dec old new : Decision (upgrades_to old new).
Proof. destruct old, new; apply _. Defined.

Section repository.
Context `{SourceRegistry}.

(** ** Reads *)

(** The identity columns must agree with the decoded Source. *)
Definition decode_source (r : source_ref) (row : source_row) : result stored_source :=
  decoded ← encode (source_value row);
  raise_if (r ≠ decoded) (IdentityMismatchError "source") ;;
  Ok (mkStored r (source_value row) (journal_position row)).

Definition get (scope_id : text) (r : source_ref) : M pdb stored_source := reads (λ s,
  require_identifier "scope_id" scope_id MAX_SCOPE_ID_LENGTH ;;
  match p_sources s !! (scope_id, r.1, r.2) with
  | None => Err (RepositoryNotFoundError "source")
  | Some row => decode_source r row
  end).

(** The rows of one [IN] batch, decoded. *)
Definition find_batch (scope_id : text) (s : pdb) (batch : list source_ref) : result (dict source_ref stored_source) :=
  map_result (λ p : source_ref * source_row, st ← decode_source p.1 p.2; Ok (p.1, st))
    (omap (λ r : source_ref, (λ row, (r, row)) <$> p_sources s !! (scope_id, r.1, r.2)) batch).

Definition existing_many (scope_id : text) (refs : list source_ref) (s : pdb)
    : result (dict source_ref stored_source) :=
  found ← map_result (find_batch scope_id s) (batches SOURCE_LOOKUP_KEYS_PER_STATEMENT (nub refs));
  Ok (concat found).

Definition get_many (scope_id : text) (refs : list source_ref) : M pdb (list stored_source) := reads (λ s,
  require_identifier "scope_id" scope_id MAX_SCOPE_ID_LENGTH ;;
  let ordered := nub refs in
  if decide (ordered = []) then Ok [] else
    decoded ← existing_many scope_id ordered s;
    map_result (λ r, match dget r decoded with
                     | Some st => Ok st
                     | None => Err (RepositoryNotFoundError "source")
                     end) ordered).

(** [preload]: rows already known to the transaction are not read again. *)
Definition preload (scope_id : text) (refs : list source_ref) (known : list stored_source)
    : M pdb (dict source_ref stored_source) :=
  let rows := dset_all ((λ st, (ref st, st)) <$> known) [] in
  loaded ← get_many scope_id (filter (λ r, dget r rows = None) refs);
  mret (dset_all ((λ st, (ref st, st)) <$> loaded) rows).

(** [iter_list]: a page of the journal, decoded in order. *)
Definition in_page (after : Z) (through : option Z) (source_type : option text)
    (kr : (text * text * text) * source_row) : Prop :=
  after < journal_position kr.2 ∧
  match through with None => True | Some t => journal_position kr.2 ≤ t end ∧
  match source_type with None => True | Some ty => kr.1.1.2 = ty end.
#[local] Instance in_page_dec a t ty kr : Decision (in_page a t ty kr).
Proof. unfold in_page. destruct t, ty; apply _. Defined.

Definition list_sources (scope_id : text) (after : Z) (through : option Z) (limit : option Z)
    (source_type : option text) : M pdb (list stored_source) := reads (λ s,
  require_identifier "scope_id" scope_id MAX_SCOPE_ID_LENGTH ;;
  raise_if (after < 0) (InvalidRepositoryArgumentError "after") ;;
  raise_if (default 1 limit < 1) (InvalidRepositoryArgumentError "limit") ;;
  raise_if (default after through < after) (InvalidRepositoryArgumentError "through") ;;
  let rows := merge_sort Cursors.position_le
                (filter (in_page after through source_type) (Cursors.journal scope_id s)) in
  map_result (λ kr : (text * text * text) * source_row, decode_source (kr.1.1.2, kr.1.2) kr.2)
    (match limit with None => rows | Some n => take (Z.to_nat n) rows end)).

(** ** Capture *)

(** [_lock_journal_head]: the allocator row of the Scope, created at zero. *)
Definition lock_journal_head (scope_id : text) : M pdb Z := λ s,
  let s' := match p_heads s !! scope_id with
            | Some _ => s
            | None => set_journal_heads (<[scope_id := 0]> (p_heads s)) s
            end in
  match p_heads s' !! scope_id with
  | Some n => if decide (n < 0) then Err (InvalidStoredColumnError "journal_position") else Ok (n, s')
  | None => Err (InvalidStoredColumnError "journal_position")
  end.

(** The state of the classification loop. *)
Record batch := mkBatch {
  b_position : Z;
  b_known : dict source_ref stored_source;
  b_results : list (stored_source * bool);
  b_rows : list (source_ref * source_row);
  b_upgrades : dict source_ref source
}.

Definition classify (b : batch) (p : source * source_ref) : result batch :=
  match dget p.2 (b_known b) with
  | Some st =>
      if decide (upgrades_to (value st) p.1) then
        let st' := mkStored p.2 p.1 (position st) in
        Ok (mkBatch (b_position b) (dset p.2 st' (b_known b)) (b_results b ++ [(st', false)]) (b_rows b)
              (dset p.2 p.1 (b_upgrades b)))
      else if decide (value st ≠ p.1) then Err (StoredPayloadConflictError "source")
      else Ok (mkBatch (b_position b) (b_known b) (b_results b ++ [(st, false)]) (b_rows b) (b_upgrades b))
  | None =>
      let position := b_position b + 1 in
      let st := mkStored p.2 p.1 position in
      Ok (mkBatch position (dset p.2 st (b_known b)) (b_results b ++ [(st, true)])
            (b_rows b ++ [(p.2, mkSourceRow p.1 position)]) (b_upgrades b))
  end.

Fixpoint classify_all (b : batch) (l : list (source * source_ref)) : result batch :=
  match l with
  | [] => Ok b
  | p :: l' => b' ← classify b p; classify_all b' l'
  end.

(** INSERT of one row: its key and its position in the Scope are unique. *)
Definition insert_source (scope_id : text) (p : source_ref * source_row) : M pdb unit := λ s,
  if decide (p_sources s !! (scope_id, p.1.1, p.1.2) = None ∧
             Forall (λ kr : (text * text * text) * source_row, journal_position kr.2 ≠ journal_position p.2)
               (Cursors.journal scope_id s))
  then Ok (tt, set_source_rows (<[(scope_id, p.1.1, p.1.2) := p.2]> (p_sources s)) s)
  else Err (IntegrityError "sources").

(** UPDATE of the payload of one row. *)
Definition upgrade_source (scope_id : text) (p : source_ref * source) : M pdb unit := modifies (λ s,
  set_source_rows (alter (λ row, mkSourceRow p.2 (journal_position row)) (scope_id, p.1.1, p.1.2) (p_sources s)) s).

Definition custom_bindings (scope_id : text) (s : pdb) : list text :=
  (filter (λ p : text * option (list text), p.2 = None ∨ scope_id ∈ default [] p.2) (p_plugins s)).*1.
Definition mark_custom_bindings_dirty (scope_id : text) (increment : Z) : M pdb unit :=
  bindings ← gets (custom_bindings scope_id);
  Intents.mark_dirty_many scope_id bindings increment.

(** The head moves first, so that the journal rows never run ahead of it. *)
Definition insert_rows (scope_id : text) (b : batch) : M pdb unit :=
  if decide (b_rows b = []) then mret tt else
    modifies (λ s, set_journal_heads (alter (λ _, b_position b) scope_id (p_heads s)) s) ;;
    for_each (insert_source scope_id) (b_rows b) ;;
    for_each (λ p : source_ref * source_row, reads (bind_memory_evidence scope_id p.1 (source_value p.2))) (b_rows b).
Definition wake (scope_id : text) (b : batch) : M pdb unit :=
  if decide (b_rows b = []) then mret tt else
    let increment := Z.of_nat (length (b_rows b)) in
    Intents.mark_dirty_many scope_id SOURCE_PROCESSING_BINDINGS increment ;;
    mark_custom_bindings_dirty scope_id increment.

Definition prepare (sources : list source) : result (list (source * source_ref)) :=
  map_result (λ v, r ← encode v; Ok (v, r)) sources.

Definition add_many_with_status (scope_id : text) (sources : list source) : M pdb (list (stored_source * bool)) :=
  if decide (sources = []) then mret [] else
    lift (require_identifier "scope_id" scope_id MAX_SCOPE_ID_LENGTH) ;;
    prepared ← lift (prepare sources);
    position ← lock_journal_head scope_id;
    existing ← reads (existing_many scope_id prepared.*2);
    b ← lift (classify_all (mkBatch position existing [] [] []) prepared);
    insert_rows scope_id b ;;
    for_each (upgrade_source scope_id) (b_upgrades b) ;;
    wake scope_id b ;;
    mret (b_results b).

Definition add_with_status (scope_id : text) (v : source) : M pdb (stored_source * bool) :=
  results ← add_many_with_status scope_id [v];
  match results with r :: _ => mret r | [] => lift (Err (RuntimeError "IndexError")) end.

Definition add (scope_id : text) (v : source) : M pdb stored_source :=
  r ← add_with_status scope_id v; mret r.1.

(** ** Abstract specification: an append-only log

    The journal of a Scope is the list of its captured Sources; the position of a
    Source is its place, counted from one. *)

Notation log := (list (source_ref * source)).

Fixpoint log_find (r : source_ref) (j : log) : option (nat * source) :=
  match j with
  | [] => None
  | (r', v) :: j' => if decide (r = r') then Some (0%nat, v) else prod_map S id <$> log_find r j'
  end.

(** A known Source is found again, or gains its receipt, or conflicts; a new one is
    appended.  Returns its place and whether it is new. *)
Definition log_add (j : log) (p : source * source_ref) : option (log * (nat * bool)) :=
  match log_find p.2 j with
  | Some (i, old) =>
      if decide (upgrades_to old p.1) then Some (<[i := (p.2, p.1)]> j, (i, false))
      else if decide (old = p.1) then Some (j, (i, false))
      else None
  | None => Some (j ++ [(p.2, p.1)], (length j, true))
  end.

Fixpoint log_capture (j : log) (l : list (source * source_ref)) : option (log * list (nat * bool)) :=
  match l with
  | [] => Some (j, [])
  | p :: l' => x ← log_add j p; y ← log_capture x.1 l'; Some (y.1, x.2 :: y.2)
  end.

(** The tables hold the log [j] of a Scope. *)
Record represents (s : pdb) (scope_id : text) (j : log) : Prop := {
  rep_head : default 0 (p_heads s !! scope_id) = Z.of_nat (length j);
  rep_rows r row : p_sources s !! (scope_id, r.1, r.2) = Some row ↔
    ∃ i, j !! i = Some (r, source_value row) ∧ journal_position row = Z.of_nat i + 1;
  rep_encoded : Forall (λ p : source_ref * source, encode p.2 = Ok p.1) j
}.

(** ** The abstract log *)

Lemma log_find_Some r j i v : log_find r j = Some (i, v) → j !! i = Some (r, v).
Proof.
  revert i. induction j as [|[r' v'] j IH]; intros i; simpl; [done|].
  case_decide as Hr; [intros [= <- <-]; by subst|].
  destruct (log_find r j) as [[i' w]|] eqn:E; simpl; [|done]. intros [= <- <-]. by apply IH.
Qed.

Lemma log_find_None r j : log_find r j = None ↔ r ∉ j.*1.
Proof.
  induction j as [|[r' v'] j IH]; simpl; [split; [intros _; apply not_elem_of_nil|done]|].
  rewrite not_elem_of_cons. case_decide as Hr; [naive_solver|].
  rewrite <- IH. destruct (log_find r j); naive_solver.
Qed.

Lemma rep_NoDup s scope_id j : represents s scope_id j → NoDup j.*1.
Proof.
  intros [_ Hrows _]. apply NoDup_alt. intros i k r. rewrite !list_lookup_fmap.
  intros ([r1 v] & Hi & ->)%fmap_Some_1 ([r2 w] & Hk & Heq)%fmap_Some_1. simpl in Heq. subst r2.
  simpl in *.
  assert (H1 : p_sources s !! (scope_id, r1.1, r1.2) = Some (mkSourceRow v (Z.of_nat i + 1))).
  { apply Hrows. eauto. }
  assert (H2 : p_sources s !! (scope_id, r1.1, r1.2) = Some (mkSourceRow w (Z.of_nat k + 1))).
  { apply Hrows. eauto. }
  rewrite H1 in H2. injection H2. lia.
Qed.

(** ** Reading what a transaction already knows *)

Lemma decode_represented s scope_id j r row :
  represents s scope_id j → p_sources s !! (scope_id, r.1, r.2) = Some row →
  decode_source r row = Ok (mkStored r (source_value row) (journal_position row)).
Proof.
  intros [_ Hrows Henc] (i & Hi & _)%Hrows. rewrite Forall_forall in Henc.
  specialize (Henc _ (list_elem_of_lookup_2 _ _ _ Hi)). simpl in Henc.
  unfold decode_source. rewrite Henc. simpl. by rewrite raise_if_skip by auto.
Qed.

Definition found (scope_id : text) (s : pdb) (r : source_ref) : option (source_ref * stored_source) :=
  (λ row, (r, mkStored r (source_value row) (journal_position row))) <$> p_sources s !! (scope_id, r.1, r.2).

Lemma existing_represented s scope_id j refs :
  represents s scope_id j → existing_many scope_id refs s = Ok (omap (found scope_id s) (nub refs)).
Proof.
  intros Hrep. unfold existing_many.
  rewrite (map_result_total _ (λ l, omap (found scope_id s) l)).
  - simpl. rewrite <- (batches_concat SOURCE_LOOKUP_KEYS_PER_STATEMENT (nub refs)) at 2 by (unfold SOURCE_LOOKUP_KEYS_PER_STATEMENT; lia).
    by rewrite concat_omap.
  - intros l _. unfold find_batch. rewrite (map_result_total _ (λ p, (p.1, mkStored p.1 (source_value p.2) (journal_position p.2)))).
    + f_equal. rewrite fmap_omap. apply list_omap_ext, Forall2_same_length_lookup_2; [done|].
      intros i x y Hx Hy. simplify_eq. unfold found. by destruct (p_sources s !! _).
    + intros [r row] (r' & _ & Hr)%list_elem_of_omap. apply fmap_Some_1 in Hr as (row' & Hr & [= -> ->]).
      simpl. by rewrite (decode_represented s scope_id j).
Qed.

Lemma found_dget scope_id s refs r st :
  dget r (omap (found scope_id s) refs) = Some st ↔ r ∈ refs ∧ found scope_id s r = Some (r, st).
Proof.
  induction refs as [|r' refs IH]; simpl; [split; [done|by intros [?%not_elem_of_nil _]]|].
  rewrite elem_of_cons. destruct (found scope_id s r') as [[r2 st2]|] eqn:E; simpl.
  - pose proof E as (? & ? & [= -> ->])%fmap_Some_1. case_decide as Hr; [naive_solver|]. rewrite IH. naive_solver.
  - rewrite IH. naive_solver.
Qed.

(** ** Classification follows the log *)

Section classification.
Context (base : source_ref → option source_row) (start : nat) (refs : list source_ref).

(** What the tables will hold once the batch is written. *)
Definition staged (b : batch) (r : source_ref) : option source_row :=
  (λ row, mkSourceRow (default (source_value row) (dget r (b_upgrades b))) (journal_position row)) <$>
  match base r with Some row => Some row | None => dget r (b_rows b) end.

Record tracks (b : batch) (j : log) : Prop := {
  t_position : b_position b = Z.of_nat (length j);
  t_length : length j = (start + length (b_rows b))%nat;
  t_staged r row : staged b r = Some row ↔
    ∃ i, j !! i = Some (r, source_value row) ∧ journal_position row = Z.of_nat i + 1;
  t_known r st : dget r (b_known b) = Some st →
    ref st = r ∧ ∃ i, j !! i = Some (r, value st) ∧ position st = Z.of_nat i + 1;
  t_unknown r : r ∈ refs → dget r (b_known b) = None → r ∉ j.*1;
  t_fresh r : r ∈ (b_rows b).*1 → base r = None;
  t_rows : NoDup (b_rows b).*1;
  t_positions : (λ p, journal_position p.2) <$> b_rows b = seqZ (Z.of_nat start + 1) (Z.of_nat (length (b_rows b)));
  t_upgrades : NoDup (b_upgrades b).*1;
  t_upgraded r : r ∈ (b_upgrades b).*1 → r ∈ j.*1;
  t_keys : NoDup j.*1;
  t_encoded : Forall (λ p : source_ref * source, encode p.2 = Ok p.1) j
}.

Lemma log_place (j : log) i k r v w : NoDup j.*1 → j !! i = Some (r, v) → j !! k = Some (r, w) → i = k.
Proof.
  intros Hj Hi Hk. apply (NoDup_lookup j.*1 i k r); [done|..]; rewrite list_lookup_fmap.
  - by rewrite Hi.
  - by rewrite Hk.
Qed.

(** The log classifies a Source whose place it knows. *)
Lemma log_add_known j i r old v :
  NoDup j.*1 → j !! i = Some (r, old) →
  log_add j (v, r) = if decide (upgrades_to old v) then Some (<[i := (r, v)]> j, (i, false))
                     else if decide (old = v) then Some (j, (i, false)) else None.
Proof.
  intros Hj Hi. unfold log_add. simpl. destruct (log_find r j) as [[i' old']|] eqn:E.
  - apply log_find_Some in E. assert (i' = i) as ->.
    { by apply (log_place j i' i r old' old). }
    rewrite Hi in E. by injection E as ->.
  - apply log_find_None in E. destruct E. apply list_elem_of_fmap. exists (r, old).
    split; [done|]. by eapply list_elem_of_lookup_2.
Qed.

Lemma tracks_upgrade b j i r old st v :
  tracks b j → j !! i = Some (r, old) → encode v = Ok r → position st = Z.of_nat i + 1 → ref st = r → value st = v →
  tracks (mkBatch (b_position b) (dset r st (b_known b)) (b_results b ++ [(st, false)]) (b_rows b)
            (dset r v (b_upgrades b))) (<[i := (r, v)]> j).
Proof.
  intros T Hi Hv Hp Hr Hst. pose proof (lookup_lt_Some _ _ _ Hi) as Hlt.
  assert (Hk : (<[i := (r, v)]> j).*1 = j.*1).
  { rewrite list_fmap_insert. simpl. apply list_insert_id. by rewrite list_lookup_fmap, Hi. }
  assert (Hne : ∀ k r' w, r' ≠ r → (<[i := (r, v)]> j !! k = Some (r', w) ↔ j !! k = Some (r', w))).
  { intros k r' w Hr'. destruct (decide (k = i)) as [->|Hki].
    - rewrite list_lookup_insert_eq by done. rewrite Hi. naive_solver.
    - by rewrite list_lookup_insert_ne by done. }
  split; simpl.
  - rewrite length_insert. apply T.
  - rewrite length_insert. apply T.
  - intros r' row. unfold staged. simpl. rewrite dget_dset. destruct (decide (r' = r)) as [->|Hr'].
    + pose proof (t_staged _ _ T r (mkSourceRow old (Z.of_nat i + 1))) as Ht.
      destruct Ht as [_ Ht]. unfold staged in Ht. specialize (Ht (ex_intro _ i (conj Hi eq_refl))).
      apply fmap_Some_1 in Ht as (row0 & -> & [= _ Hp0]). simpl. split.
      * intros [= <-]. simpl. exists i. rewrite list_lookup_insert_eq by done. done.
      * intros (k & Hk' & Hpos). f_equal. assert (k = i) as ->.
        { apply (log_place (<[i := (r, v)]> j) k i r (source_value row) v); [rewrite Hk; apply T|done|].
          by rewrite list_lookup_insert_eq by done. }
        rewrite list_lookup_insert_eq in Hk' by done. injection Hk' as ->. destruct row; simpl in *. f_equal. lia.
    + etrans; [apply (t_staged _ _ T r' row)|].
      split; intros (k & ? & ?); exists k; split; try done; by apply Hne.
  - intros r' st'. rewrite dget_dset. case_decide as Hr'.
    + intros [= <-]. subst r'. split; [done|]. exists i. rewrite list_lookup_insert_eq by done. by rewrite Hst.
    + intros (? & k & ? & ?)%(t_known _ _ T). split; [done|]. exists k. split; [|done]. by apply Hne.
  - intros r' Hin. rewrite dget_dset, Hk. case_decide; [done|]. by apply T.
  - apply T.
  - apply T.
  - apply T.
  - apply dset_NoDup, T.
  - intros r'. rewrite Hk, dset_keys. case_decide; [apply T|]. intros [?|Hx]%elem_of_app; [by apply T|].
    apply list_elem_of_singleton in Hx as ->. apply list_elem_of_fmap. exists (r, old). split; [done|].
    by eapply list_elem_of_lookup_2.
  - rewrite Hk. apply T.
  - apply Forall_insert; [apply T|done].
Qed.

Lemma tracks_append b j r v st :
  tracks b j → r ∉ j.*1 → encode v = Ok r → st = mkStored r v (b_position b + 1) →
  tracks (mkBatch (b_position b + 1) (dset r st (b_known b)) (b_results b ++ [(st, true)])
            (b_rows b ++ [(r, mkSourceRow v (b_position b + 1))]) (b_upgrades b)) (j ++ [(r, v)]).
Proof.
  intros T Hr Hv ->. set (row := mkSourceRow v (b_position b + 1)).
  assert (Hnone : staged b r = None).
  { destruct (staged b r) as [row'|] eqn:E; [|done]. apply (t_staged _ _ T) in E as (i & Hi & _).
    destruct Hr. apply list_elem_of_fmap. exists (r, source_value row'). split; [done|]. by eapply list_elem_of_lookup_2. }
  assert (Hbase : base r = None ∧ r ∉ (b_rows b).*1).
  { unfold staged in Hnone. destruct (base r) as [?|] eqn:E; [done|]. split; [done|].
    destruct (dget r (b_rows b)) eqn:E2; [done|]. rewrite <- dget_is_Some, E2. by intros [? ?]. }
  assert (Hup : dget r (b_upgrades b) = None) by (apply dget_None; intros Hu; by apply Hr, (t_upgraded _ _ T)).
  assert (Hlast : (j ++ [(r, v)]) !! length j = Some (r, v)) by (by rewrite lookup_app_r, Nat.sub_diag by done).
  pose proof (t_position _ _ T) as Hpos. split; simpl.
  - rewrite length_app. simpl. lia.
  - rewrite !length_app, (t_length _ _ T). simpl. lia.
  - intros r' row'. unfold staged. simpl. rewrite dget_app. simpl. destruct (decide (r' = r)) as [->|Hr'].
    + destruct Hbase as [-> ->%dget_None]. rewrite Hup. simpl. split.
      * intros [= <-]. exists (length j). simpl. split; [done|]. lia.
      * intros (k & Hk & Hp). f_equal. assert (k = length j) as ->.
        { apply (log_place (j ++ [(r, v)]) k (length j) r (source_value row') v); [|done..].
          rewrite fmap_app. apply NoDup_app. split_and!; [apply T| |apply NoDup_singleton].
          by intros ? Hin ->%list_elem_of_singleton. }
        rewrite Hlast in Hk. injection Hk as ->. destruct row'; simpl in *. unfold row. f_equal. lia.
    + transitivity (staged b r' = Some row').
      { unfold staged. destruct (base r'); [done|]. by destruct (dget r' (b_rows b)). }
      rewrite (t_staged _ _ T). split; intros (k & Hk & ?); exists k; split; try done.
      * by apply lookup_app_l_Some.
      * apply lookup_snoc_Some in Hk as [[? ?]|[_ [= ? _]]]; [done|by subst].
  - intros r' st'. rewrite dget_dset. case_decide as Hr'.
    + intros [= <-]. simpl. split; [done|]. exists (length j). subst r'. split; [done|]. lia.
    + intros (? & k & ? & ?)%(t_known _ _ T). split; [done|]. exists k. split; [|done]. by apply lookup_app_l_Some.
  - intros r' Hin. rewrite dget_dset, fmap_app, elem_of_app. case_decide; [done|]. intros Hk [?|Hx].
    + by apply (t_unknown _ _ T r').
    + by apply list_elem_of_singleton in Hx.
  - intros r'. rewrite fmap_app, elem_of_app. intros [?|Hx]; [by apply T|].
    apply list_elem_of_singleton in Hx as ->. apply Hbase.
  - rewrite fmap_app. apply NoDup_app. split_and!; [apply T| |apply NoDup_singleton].
    intros r' Hin ->%list_elem_of_singleton. by apply Hbase.
  - rewrite fmap_app, (t_positions _ _ T), length_app. simpl.
    rewrite Nat2Z.inj_add, seqZ_app by lia. f_equal. simpl. rewrite Hpos, (t_length _ _ T).
    unfold seqZ. simpl. f_equal. lia.
  - apply T.
  - intros r' Hin. rewrite fmap_app. apply elem_of_app. left. by apply T.
  - rewrite fmap_app. apply NoDup_app. split_and!; [apply T| |apply NoDup_singleton].
    by intros r' Hin ->%list_elem_of_singleton.
  - apply Forall_app. split; [apply T|by constructor].
Qed.

(** One result of the batch: the Source itself at its place. *)
Definition place (p : source * source_ref) (x : nat * bool) : stored_source * bool :=
  (mkStored p.2 p.1 (Z.of_nat x.1 + 1), x.2).

Lemma classify_refines b j p :
  tracks b j → encode p.1 = Ok p.2 → p.2 ∈ refs →
  match log_add j p with
  | Some (j', x) => ∃ b', classify b p = Ok b' ∧ tracks b' j' ∧ b_results b' = b_results b ++ [place p x]
  | None => classify b p = Err (StoredPayloadConflictError "source")
  end.
Proof.
  destruct p as [v r]. simpl. intros T Hv Hin. unfold classify. simpl.
  destruct (dget r (b_known b)) as [st|] eqn:Hst.
  - destruct (t_known _ _ T _ _ Hst) as (Hr & i & Hi & Hp).
    rewrite (log_add_known j i r (value st)) by (done || apply T).
    destruct (decide (upgrades_to (value st) v)) as [Hu|Hu].
    + eexists. split; [done|]. split; [by eapply tracks_upgrade|]. simpl. unfold place. simpl. by rewrite Hp.
    + destruct (decide (value st = v)) as [<-|Hne]; simpl.
      * rewrite decide_False by naive_solver. eexists. split; [done|]. split; [by destruct T; split|].
        simpl. unfold place. simpl. rewrite <- Hp. destruct st; simpl in *. by subst.
      * by rewrite decide_True.
  - pose proof (t_unknown _ _ T _ Hin Hst) as Hr. unfold log_add. simpl.
    rewrite (proj2 (log_find_None r j) Hr). eexists. split; [done|]. split; [by apply tracks_append|].
    simpl. unfold place. simpl. by rewrite (t_position _ _ T).
Qed.

Lemma classify_all_refines l b j :
  tracks b j → Forall (λ p : source * source_ref, encode p.1 = Ok p.2 ∧ p.2 ∈ refs) l →
  match log_capture j l with
  | Some (j', out) => ∃ b', classify_all b l = Ok b' ∧ tracks b' j' ∧
                            b_results b' = b_results b ++ zip_with place l out
  | None => classify_all b l = Err (StoredPayloadConflictError "source")
  end.
Proof.
  revert b j. induction l as [|p l IH]; intros b j T Hl; simpl.
  { exists b. by rewrite app_nil_r. }
  apply Forall_cons in Hl as [[Hv Hin] Hl]. pose proof (classify_refines b j p T Hv Hin) as Hc.
  destruct (log_add j p) as [[j1 x]|]; simpl; [|by rewrite Hc].
  destruct Hc as (b1 & -> & T1 & Hr1). simpl. specialize (IH b1 j1 T1 Hl).
  destruct (log_capture j1 l) as [[j2 out]|]; simpl; [|done].
  destruct IH as (b2 & -> & T2 & Hr2). exists b2. split_and!; [done..|].
  by rewrite Hr2, Hr1, <- app_assoc.
Qed.
End classification.

Lemma tracks_initial s scope_id j refs n :
  represents s scope_id j → n = Z.of_nat (length j) →
  tracks (λ r, p_sources s !! (scope_id, r.1, r.2)) (length j) refs
    (mkBatch n (omap (found scope_id s) (nub refs)) [] [] []) j.
Proof.
  intros Hrep ->. pose proof Hrep as [_ Hrows Henc]. split; simpl; try done; try (by constructor).
  - intros r row. unfold staged. simpl. rewrite <- Hrows. destruct (p_sources s !! _) as [row'|]; simpl; [|done].
    by destruct row'.
  - intros r st [_ Hf]%found_dget. unfold found in Hf. apply fmap_Some_1 in Hf as (row & Hrow & [= ->]).
    simpl. apply Hrows in Hrow as (i & ? & ?). eauto.
  - intros r Hin Hnone (p & -> & Hp)%list_elem_of_fmap. apply list_elem_of_lookup in Hp as [i Hi].
    destruct p as [r v]. assert (Hrow : p_sources s !! (scope_id, r.1, r.2) = Some (mkSourceRow v (Z.of_nat i + 1))).
    { apply Hrows. eauto. }
    simpl in *. assert (Hf : dget r (omap (found scope_id s) (nub refs)) = Some (mkStored r v (Z.of_nat i + 1))).
    { apply found_dget. split; [by apply nub_elem|]. unfold found. by rewrite Hrow. }
    congruence.
  - intros r ?%not_elem_of_nil. done.
  - intros r ?%not_elem_of_nil. done.
  - by apply rep_NoDup in Hrep.
Qed.

(** ** Writing the batch *)

(** Only the journal tables of one Scope change. *)
Definition other_rows (scope_id : text) (s s' : pdb) : Prop :=
  ∀ sc r, sc ≠ scope_id → p_sources s' !! (sc, r.1, r.2) = p_sources s !! (sc, r.1, r.2).

Definition same_but_sources (s s' : pdb) : Prop := s' = set_source_rows (p_sources s') s.

Lemma same_but_sources_refl s : same_but_sources s s.
Proof. by destruct s. Qed.

Lemma same_but_sources_trans s1 s2 s3 : same_but_sources s1 s2 → same_but_sources s2 s3 → same_but_sources s1 s3.
Proof. unfold same_but_sources. intros -> ->. done. Qed.

Lemma journal_elem scope_id s k row :
  (k, row) ∈ Cursors.journal scope_id s ↔ p_sources s !! k = Some row ∧ k.1.1 = scope_id.
Proof. unfold Cursors.journal. rewrite list_elem_of_filter, elem_of_map_to_list. simpl. tauto. Qed.

(** Rows with fresh keys at the next positions are inserted. *)
Lemma insert_rows_ok scope_id rows s n :
  NoDup rows.*1 → Forall (λ p : source_ref * source_row, p_sources s !! (scope_id, p.1.1, p.1.2) = None) rows →
  (λ p, journal_position p.2) <$> rows = seqZ (n + 1) (Z.of_nat (length rows)) →
  (∀ r row, p_sources s !! (scope_id, r.1, r.2) = Some row → journal_position row ≤ n) →
  ∃ s', for_each (insert_source scope_id) rows s = Ok (tt, s') ∧ same_but_sources s s' ∧ other_rows scope_id s s' ∧
    ∀ r, p_sources s' !! (scope_id, r.1, r.2) =
         match p_sources s !! (scope_id, r.1, r.2) with Some row => Some row | None => dget r rows end.
Proof.
  revert s n. induction rows as [|[r row] rows IH]; intros s n Hnd Hfresh Hpos Hmax; simpl.
  { exists s. split_and!; [done|apply same_but_sources_refl|done|]. intros r. by destruct (p_sources s !! _). }
  apply NoDup_cons in Hnd as [Hr Hnd]. apply Forall_cons in Hfresh as [Hnone Hfresh]. simpl in Hnone.
  rewrite fmap_cons in Hpos. cbn [length] in Hpos.
  rewrite Nat2Z.inj_succ, seqZ_cons in Hpos by lia. injection Hpos as Hp Hpos.
  set (s1 := set_source_rows (<[(scope_id, r.1, r.2) := row]> (p_sources s)) s).
  assert (H1 : insert_source scope_id (r, row) s = Ok (tt, s1)).
  { unfold insert_source. simpl. rewrite decide_True; [done|]. split; [done|]. apply Forall_forall.
    intros [[[sc ty] i] row'] [Hrow' Hsc]%journal_elem. simpl in *. subst sc.
    specialize (Hmax (ty, i) row' Hrow'). lia. }
  destruct (IH s1 (n + 1)) as (s' & H2 & F2 & O2 & E2).
  - done.
  - apply Forall_forall. intros [r' row'] Hin. rewrite Forall_forall in Hfresh. simpl.
    rewrite lookup_insert_ne; [by apply (Hfresh (r', row'))|]. intros Heq. apply Hr.
    assert (r = r') as -> by (destruct r, r'; simpl in *; congruence).
    apply list_elem_of_fmap. by exists (r', row').
  - rewrite Hpos. f_equal; lia.
  - intros r' row'. simpl. destruct (decide (r' = r)) as [->|Hne].
    + rewrite lookup_insert_eq. intros [= <-]. lia.
    + rewrite lookup_insert_ne by (destruct r, r'; simpl in *; congruence). intros ?%Hmax. lia.
  - exists s'. split_and!.
    + unfold mbind, M_bind. rewrite H1. exact H2.
    + by eapply same_but_sources_trans; [|exact F2].
    + intros sc r' Hsc. rewrite O2 by done. simpl. rewrite lookup_insert_ne; congruence.
    + intros r'. rewrite E2. simpl. destruct (decide (r' = r)) as [->|Hne].
      * by rewrite lookup_insert_eq, Hnone.
      * by rewrite lookup_insert_ne by (destruct r, r'; simpl in *; congruence).
Qed.

Lemma upgrade_sources_ok scope_id ups s :
  NoDup ups.*1 →
  ∃ s', for_each (upgrade_source scope_id) ups s = Ok (tt, s') ∧ same_but_sources s s' ∧ other_rows scope_id s s' ∧
    ∀ r, p_sources s' !! (scope_id, r.1, r.2) =
         (λ row, mkSourceRow (default (source_value row) (dget r ups)) (journal_position row)) <$>
           p_sources s !! (scope_id, r.1, r.2).
Proof.
  revert s. induction ups as [|[r v] ups IH]; intros s Hnd; simpl.
  { exists s. split_and!; [done|apply same_but_sources_refl|done|]. intros r.
    destruct (p_sources s !! _) as [[]|]; done. }
  apply NoDup_cons in Hnd as [Hr Hnd].
  set (s1 := set_source_rows (alter (λ row, mkSourceRow v (journal_position row)) (scope_id, r.1, r.2) (p_sources s)) s).
  destruct (IH s1 Hnd) as (s' & H2 & F2 & O2 & E2). exists s'. split_and!; [exact H2|..].
  - by eapply same_but_sources_trans; [|exact F2].
  - intros sc r' Hsc. rewrite O2 by done. simpl. rewrite lookup_alter_ne; congruence.
  - intros r'. rewrite E2. simpl. destruct (decide (r' = r)) as [->|Hne].
    + rewrite lookup_alter_eq. rewrite (proj2 (dget_None r ups) Hr). by destruct (p_sources s !! _).
    + by rewrite lookup_alter_ne by (destruct r, r'; simpl in *; congruence).
Qed.

(** ** Waking the bindings *)

(** A binding's intent counts [n] more Sources than [old] and is dirty. *)
Definition woken (n : Z) (old new : option intent) : Prop :=
  ∃ r, new = Some r ∧ default 0 (dirty_generation <$> old) + n ≤ dirty_generation r ∧
       clean_generation r < dirty_generation r.

Lemma marks_woken scope_id names n s s' b :
  Intents.wf s → 0 < n → Intents.marks scope_id names n s s' → b ∈ names →
  woken n (p_intents s !! (b, scope_id)) (p_intents s' !! (b, scope_id)).
Proof.
  intros Hwf Hn Hm Hb. specialize (Hm b scope_id). rewrite decide_True in Hm by done.
  destruct Hm as (r & -> & Hr). exists (Intents.dirty n r). split; [done|].
  destruct (p_intents s !! (b, scope_id)) as [r0|] eqn:E; simpl.
  - subst r. pose proof (Intents.wf_check _ Hwf _ _ E) as (_ & [_ ?] & _). lia.
  - rewrite Hr. simpl. lia.
Qed.

(** Marking again keeps a binding awake. *)
Lemma marks_keep scope_id names n m s s' b old :
  0 ≤ n → Intents.marks scope_id names n s s' →
  woken m old (p_intents s !! (b, scope_id)) → woken m old (p_intents s' !! (b, scope_id)).
Proof.
  intros Hn Hm (r & E & H1 & H2). specialize (Hm b scope_id). case_decide as Hb; [|rewrite Hm; by exists r].
  destruct Hm as (r' & -> & Hr). rewrite E in Hr. subst r'. eexists. split; [done|]. simpl. lia.
Qed.

Lemma marks_dirty_le scope_id names n s s' b :
  0 ≤ n → Intents.marks scope_id names n s s' →
  default 0 (dirty_generation <$> p_intents s !! (b, scope_id)) ≤
  default 0 (dirty_generation <$> p_intents s' !! (b, scope_id)).
Proof.
  intros Hn Hm. specialize (Hm b scope_id). case_decide as Hb; [|by rewrite Hm].
  destruct Hm as (r' & -> & Hr). destruct (p_intents s !! _) as [r0|]; simpl; [subst; lia|rewrite Hr; simpl; lia].
Qed.

Lemma frame_journal s s' : Intents.frame s s' → p_sources s' = p_sources s ∧ p_heads s' = p_heads s ∧ p_plugins s' = p_plugins s.
Proof. unfold Intents.frame. destruct s, s'. intros [=]. by subst. Qed.

Lemma wake_wp scope_id b s :
  Intents.wf s →
  wp (wake scope_id b) s
    (λ _ s', p_sources s' = p_sources s ∧ p_heads s' = p_heads s ∧ Intents.wf s' ∧ (b_rows b = [] → s' = s) ∧
       (b_rows b ≠ [] → ∀ name, name ∈ SOURCE_PROCESSING_BINDINGS ++ custom_bindings scope_id s →
          woken (Z.of_nat (length (b_rows b))) (p_intents s !! (name, scope_id)) (p_intents s' !! (name, scope_id))))
    Intents.argument_error.
Proof.
  intros Hwf. unfold wake. destruct (decide (b_rows b = [])) as [|Hne]; [by apply wp_ret|].
  set (n := Z.of_nat (length (b_rows b))). assert (Hn : 0 < n).
  { unfold n. destruct (b_rows b); [done|]. simpl. lia. }
  apply wp_bind. eapply wp_mono; [|done|by apply Intents.mark_dirty_many_wp].
  intros _ s1 ([W1 _ F1] & M1 & _). apply frame_journal in F1 as (S1 & H1 & P1).
  unfold mark_custom_bindings_dirty. apply wp_bind, wp_gets.
  eapply wp_mono; [|done|by apply Intents.mark_dirty_many_wp].
  intros _ s2 ([W2 _ F2] & M2 & _). apply frame_journal in F2 as (S2 & H2 & P2).
  split_and!; [congruence|congruence|done|done|]. intros _ name [Hin|Hin]%elem_of_app.
  - eapply marks_keep; [|exact M2|by eapply marks_woken]. lia.
  - assert (Hin1 : name ∈ custom_bindings scope_id s1) by (unfold custom_bindings in *; by rewrite P1).
    destruct (marks_woken _ _ _ _ _ _ W1 Hn M2 Hin1) as (r & -> & ? & ?). exists r. split; [done|].
    pose proof (marks_dirty_le _ _ _ _ _ name (Z.lt_le_incl _ _ Hn) M1). lia.
Qed.

(** ** Capture refines the log *)

Lemma lock_head_ok s scope_id j :
  represents s scope_id j →
  ∃ s1, lock_journal_head scope_id s = Ok (Z.of_nat (length j), s1) ∧ s1 = set_journal_heads (p_heads s1) s ∧
    p_heads s1 !! scope_id = Some (Z.of_nat (length j)) ∧
    ∀ sc, sc ≠ scope_id → p_heads s1 !! sc = p_heads s !! sc.
Proof.
  intros [Hh _ _]. unfold lock_journal_head. destruct (p_heads s !! scope_id) as [n|] eqn:E; simpl in Hh.
  - subst n. exists s. rewrite E, decide_False by lia. split_and!; try done. by destruct s.
  - eexists. simpl. rewrite lookup_insert_eq, decide_False by lia. rewrite <- Hh. split_and!; try done.
    + simpl. by rewrite lookup_insert_eq.
    + intros sc Hsc. simpl. by rewrite lookup_insert_ne.
Qed.

(** What the writes before the wakeup leave behind. *)
Record written (scope_id : text) (b : batch) (s s' : pdb) : Prop := {
  w_head : default 0 (p_heads s' !! scope_id) = b_position b;
  w_heads sc : sc ≠ scope_id → p_heads s' !! sc = p_heads s !! sc;
  w_rows r : p_sources s' !! (scope_id, r.1, r.2) = staged (λ r, p_sources s !! (scope_id, r.1, r.2)) b r;
  w_others : other_rows scope_id s s';
  w_rest : s' = set_source_rows (p_sources s') (set_journal_heads (p_heads s') s)
}.

Definition evidence_error (e : exn) : Prop := ∃ sc r v t, bind_memory_evidence sc r v t = Err e.

Lemma bind_all_wp scope_id (rows : list (source_ref * source_row)) s :
  wp (for_each (λ p : source_ref * source_row, reads (bind_memory_evidence scope_id p.1 (source_value p.2))) rows) s
    (λ _ s', s' = s) evidence_error.
Proof.
  apply wp_for_each; [|done]. intros p ? _ ->. apply wp_reads; [done|]. intros e He. repeat eexists. exact He.
Qed.

Lemma write_wp s scope_id j j' refs b :
  represents s scope_id j → p_heads s !! scope_id = Some (Z.of_nat (length j)) →
  tracks (λ r, p_sources s !! (scope_id, r.1, r.2)) (length j) refs b j' →
  wp (insert_rows scope_id b ;; for_each (upgrade_source scope_id) (b_upgrades b)) s
    (λ _ s', written scope_id b s s') evidence_error.
Proof.
  intros [Hh Hrows _] Hhead T. apply wp_bind.
  assert (Hins : wp (insert_rows scope_id b) s (λ _ s1,
    default 0 (p_heads s1 !! scope_id) = b_position b ∧ (∀ sc, sc ≠ scope_id → p_heads s1 !! sc = p_heads s !! sc) ∧
    (∀ r, p_sources s1 !! (scope_id, r.1, r.2) =
          match p_sources s !! (scope_id, r.1, r.2) with Some row => Some row | None => dget r (b_rows b) end) ∧
    other_rows scope_id s s1 ∧ s1 = set_source_rows (p_sources s1) (set_journal_heads (p_heads s1) s)) evidence_error).
  { unfold insert_rows. destruct (decide (b_rows b = [])) as [Hnil|_].
    { apply wp_ret. rewrite Hnil. split_and!; try done; [|by intros r; destruct (p_sources s !! _)|by destruct s].
      rewrite Hhead. simpl. pose proof (t_position _ _ _ _ _ T). pose proof (t_length _ _ _ _ _ T) as Hlen.
      rewrite Hnil in Hlen. simpl in Hlen. lia. }
    apply wp_bind, wp_modifies, wp_bind.
    set (s0 := set_journal_heads (alter (λ _, b_position b) scope_id (p_heads s)) s).
    destruct (insert_rows_ok scope_id (b_rows b) s0 (Z.of_nat (length j))) as (s1 & H1 & F1 & O1 & E1).
    - apply T.
    - apply Forall_forall. intros p Hp. apply (t_fresh _ _ _ _ _ T). by apply list_elem_of_fmap_2.
    - apply T.
    - intros r row (i & Hi%lookup_lt_Some & ->)%Hrows. lia.
    - unfold wp. rewrite H1. pose proof (bind_all_wp scope_id (b_rows b) s1) as Hb. unfold wp in Hb.
      destruct (for_each _ _ s1) as [[[] s2]|e]; [subst s2|done]. rewrite F1. split_and!.
      + simpl. by rewrite lookup_alter_eq, Hhead.
      + intros sc Hsc. simpl. by rewrite lookup_alter_ne.
      + exact E1.
      + exact O1.
      + done. }
  eapply wp_mono; [|done|exact Hins]. clear Hins. intros _ s1 (A1 & A2 & A3 & A4 & A5).
  destruct (upgrade_sources_ok scope_id (b_upgrades b) s1) as (s2 & H2 & F2 & O2 & E2); [apply T|].
  unfold wp. rewrite H2. split.
  - by rewrite F2.
  - intros sc Hsc. rewrite F2. simpl. by apply A2.
  - intros r. rewrite E2, A3. done.
  - intros sc r Hsc. rewrite O2 by done. by apply A4.
  - rewrite F2, A5. done.
Qed.

Lemma prepare_encoded sources prepared :
  prepare sources = Ok prepared → Forall (λ p : source * source_ref, encode p.1 = Ok p.2) prepared.
Proof.
  unfold prepare. intros Hp%map_result_ok. apply Forall_forall. intros p Hin.
  destruct (Forall2_elem_r _ _ _ _ Hp Hin) as (v & _ & H2). by run.
Qed.

Lemma represents_frame s s' scope_id j :
  p_heads s' !! scope_id = p_heads s !! scope_id →
  (∀ r : source_ref, p_sources s' !! (scope_id, r.1, r.2) = p_sources s !! (scope_id, r.1, r.2)) →
  represents s scope_id j → represents s' scope_id j.
Proof. intros Hh Hs [H1 H2 H3]. split; [by rewrite Hh|intros; rewrite Hs; apply H2|done]. Qed.

Lemma wf_same s s' : p_intents s' = p_intents s → p_sequence s' = p_sequence s → Intents.wf s → Intents.wf s'.
Proof. intros Hi Hq [W1 W2 W3 W4]. split; rewrite ?Hi, ?Hq; done. Qed.

(** What a capture that returned has done, seen from the log of its Scope. *)
Record captured (scope_id : text) (sources : list source) (s : pdb) (j : log)
    (results : list (stored_source * bool)) (s' : pdb) (j' : log) : Prop := {
  c_log : ∃ prepared out, prepare sources = Ok prepared ∧ log_capture j prepared = Some (j', out) ∧
          results = zip_with place prepared out;
  c_represents : represents s' scope_id j';
  c_others sc k : sc ≠ scope_id → represents s sc k → represents s' sc k;
  c_intents : Intents.wf s';
  c_asleep : length j' = length j → p_intents s' = p_intents s;
  c_woken : (length j < length j')%nat → ∀ name, name ∈ SOURCE_PROCESSING_BINDINGS ++ custom_bindings scope_id s →
    woken (Z.of_nat (length j') - Z.of_nat (length j)) (p_intents s !! (name, scope_id)) (p_intents s' !! (name, scope_id))
}.

Definition capture_error (sources : list source) (j : log) (e : exn) : Prop :=
  Intents.argument_error e ∨ prepare sources = Err e ∨ evidence_error e ∨
  e = StoredPayloadConflictError "source" ∧ ∃ prepared, prepare sources = Ok prepared ∧ log_capture j prepared = None.

Lemma capture_wp scope_id sources s j :
  represents s scope_id j → Intents.wf s →
  wp (add_many_with_status scope_id sources) s
    (λ results s', ∃ j', captured scope_id sources s j results s' j') (capture_error sources j).
Proof.
  intros Hrep Hwf. unfold add_many_with_status. destruct (decide (sources = [])) as [->|Hne].
  { apply wp_ret. exists j. split; [by exists [], []|done|done|done|done|lia]. }
  apply wp_bind, wp_lift; [|intros e ->%require_identifier_err; left; by eexists]. intros _ _.
  apply wp_bind, wp_lift; [|intros e He; right; by left]. intros prepared Hprep.
  apply wp_bind. destruct (lock_head_ok s scope_id j Hrep) as (s1 & H1 & F1 & Hh1 & Ho1). unfold wp at 1. rewrite H1.
  assert (Hrep1 : represents s1 scope_id j).
  { destruct Hrep. split; [by rewrite Hh1|by rewrite F1|done]. }
  apply wp_bind. unfold wp at 1, reads. rewrite (existing_represented s1 scope_id j) by done.
  pose proof (tracks_initial s1 scope_id j prepared.*2 _ Hrep1 eq_refl) as T0.
  pose proof (prepare_encoded _ _ Hprep) as Henc.
  pose proof (classify_all_refines _ _ _ prepared _ _ T0) as Hc.
  apply wp_bind. destruct (log_capture j prepared) as [[j' out]|] eqn:Hlog.
  2: { unfold wp, lift. rewrite Hc; [right; right; right; split; [done|]; by exists prepared|].
       apply Forall_forall. rewrite Forall_forall in Henc. intros p Hp. split; [by apply Henc|by apply list_elem_of_fmap_2]. }
  destruct Hc as (b & Hb & Tb & Hr).
  { apply Forall_forall. rewrite Forall_forall in Henc. intros p Hp. split; [by apply Henc|by apply list_elem_of_fmap_2]. }
  unfold wp at 1, lift. rewrite Hb. simpl in Hr.
  pose proof (write_wp s1 scope_id j j' _ b Hrep1 Hh1 Tb) as Hw. apply wp_bind.
  unfold wp, mbind, M_bind in Hw |- *. destruct (insert_rows scope_id b s1) as [[[] s2]|e]; [|right; right; by left].
  destruct (for_each _ _ s2) as [[[] s3]|e]; [|right; right; by left].
  assert (Hwf3 : Intents.wf s3). { apply (wf_same s); [by rewrite (w_rest _ _ _ _ Hw), F1..|done]. }
  pose proof (wake_wp scope_id b s3 Hwf3) as Hk. unfold wp in Hk.
  destruct (wake scope_id b s3) as [[[] s4]|e]; [|by left]. destruct Hk as (S4 & H4 & W4 & Z4 & K4).
  exists j'. split.
  - by exists prepared, out.
  - split; [rewrite H4, (w_head _ _ _ _ Hw); apply Tb| |apply Tb].
    intros r row. rewrite S4, (w_rows _ _ _ _ Hw). apply Tb.
  - intros sc k Hsc. apply represents_frame.
    + by rewrite H4, (w_heads _ _ _ _ Hw), Ho1.
    + intros r. rewrite S4, (w_others _ _ _ _ Hw) by done. by rewrite F1.
  - done.
  - intros Heq. pose proof (t_length _ _ _ _ _ Tb) as Hlen. rewrite Z4 by (apply nil_length_inv; lia).
    by rewrite (w_rest _ _ _ _ Hw), F1.
  - intros Hlt. pose proof (t_length _ _ _ _ _ Tb) as Hlen.
    replace (Z.of_nat (length j') - Z.of_nat (length j)) with (Z.of_nat (length (b_rows b))) by lia.
    rewrite (w_rest _ _ _ _ Hw), F1 in K4. simpl in K4. apply K4. intros Hnil. rewrite Hnil in Hlen. simpl in Hlen. lia.
Qed.

(** Any history of captures, and of operations elsewhere that keep the intent tables
    well formed. *)
Inductive step : pdb → pdb → Prop :=
  | step_capture scope_id sources results s s' :
      add_many_with_status scope_id sources s = Ok (results, s') → step s s'
  | step_elsewhere s s' :
      p_sources s' = p_sources s → p_heads s' = p_heads s → Intents.wf s' → step s s'.

Definition journaled (s : pdb) : Prop := Intents.wf s ∧ ∀ scope_id, ∃ j, represents s scope_id j.

Lemma empty_journaled d : journaled (empty_pdb d).
Proof.
  split; [split; simpl; [apply map_Forall_empty|done..]|]. intros scope_id. exists []. split; [done| |done].
  intros r row. simpl. rewrite lookup_empty. split; [done|]. intros (i & Hi & _). by rewrite lookup_nil in Hi.
Qed.

Lemma step_journaled s s' : step s s' → journaled s → journaled s'.
Proof.
  intros Hstep [Hwf Hj]. destruct Hstep as [scope_id sources results s s' H1|s s' Hs Hh Hw].
  - destruct (Hj scope_id) as [j Hrep]. pose proof (wp_Ok _ _ _ _ _ _ (capture_wp _ sources _ _ Hrep Hwf) H1) as [j' C].
    split; [apply C|]. intros sc. destruct (decide (sc = scope_id)) as [->|Hsc]; [exists j'; apply C|].
    destruct (Hj sc) as [k Hk]. exists k. by apply C.
  - split; [done|]. intros sc. destruct (Hj sc) as [k Hk]. exists k. eapply represents_frame; [..|exact Hk]; by rewrite ?Hs, ?Hh.
Qed.

Lemma steps_journaled s s' : rtc step s s' → journaled s → journaled s'.
Proof. induction 1; eauto using step_journaled. Qed.

(** ** Windows over the journal *)

Lemma position_sorted (l : list ((text * text * text) * source_row)) :
  StronglySorted Z.le ((λ kr, journal_position kr.2) <$> merge_sort Cursors.position_le l).
Proof.
  assert (Hs : StronglySorted Cursors.position_le (merge_sort Cursors.position_le l)).
  { apply StronglySorted_merge_sort.
    - intros a b c. unfold Cursors.position_le. lia.
    - intros a b. unfold Cursors.position_le. lia. }
  induction Hs as [|x l' Hl IH Hx]; [constructor|]. rewrite fmap_cons. constructor; [done|].
  apply Forall_fmap. exact Hx.
Qed.

Lemma seqZ_sorted m n : 0 ≤ n → StronglySorted Z.le (seqZ m n).
Proof.
  intros Hn. revert m. revert n Hn. apply (natlike_ind (λ n, ∀ m, StronglySorted Z.le (seqZ m n))); [constructor|].
  intros n Hn IH m.
  rewrite seqZ_cons by lia. constructor; [replace (Z.pred (Z.succ n)) with n by lia; apply IH|].
  apply Forall_forall. intros k Hk%elem_of_seqZ. lia.
Qed.

Lemma represented_key s scope_id j kr :
  represents s scope_id j → kr ∈ Cursors.journal scope_id s →
  ∃ i : nat, j !! i = Some ((kr.1.1.2, kr.1.2), source_value kr.2) ∧ journal_position kr.2 = Z.of_nat i + 1.
Proof.
  destruct kr as [[[sc ty] id] row]. intros [_ Hrows _] [Hrow Hsc]%journal_elem. simpl in *. subst sc.
  by apply (Hrows (ty, id)).
Qed.

Lemma represented_inj s scope_id j kr kr' :
  represents s scope_id j → kr ∈ Cursors.journal scope_id s → kr' ∈ Cursors.journal scope_id s →
  journal_position kr.2 = journal_position kr'.2 → kr = kr'.
Proof.
  intros Hrep Hk Hk' Hp. destruct (represented_key _ _ _ _ Hrep Hk) as (i & Hi & Hpi).
  destruct (represented_key _ _ _ _ Hrep Hk') as (i' & Hi' & Hpi').
  assert (i' = i) as -> by lia. rewrite Hi in Hi'. injection Hi' as H1 H2 H3.
  destruct kr as [[[sc ty] id] row], kr' as [[[sc' ty'] id'] row']. simpl in *.
  apply journal_elem in Hk as [_ ?], Hk' as [_ ?]. simpl in *. destruct row, row'; simpl in *. by subst.
Qed.

Lemma journal_positions s scope_id j :
  represents s scope_id j → NoDup ((λ kr, journal_position kr.2) <$> Cursors.journal scope_id s) ∧
  ∀ p, p ∈ (λ kr, journal_position kr.2) <$> Cursors.journal scope_id s ↔ 1 ≤ p ≤ Z.of_nat (length j).
Proof.
  intros Hrep. pose proof Hrep as [_ Hrows _]. split.
  - apply NoDup_fmap_2_strong; [|apply NoDup_filter, NoDup_map_to_list].
    intros kr kr'. by apply (represented_inj s scope_id j).
  - intros p. rewrite list_elem_of_fmap. split.
    + intros (kr & -> & (i & Hi%lookup_lt_Some & ->)%(represented_key _ _ _ _ Hrep)). lia.
    + intros Hp. destruct (lookup_lt_is_Some_2 j (Z.to_nat (p - 1))) as [[r v] Hi]; [lia|].
      exists ((scope_id, r.1, r.2), mkSourceRow v p). split; [done|]. apply journal_elem. split; [|done].
      apply Hrows. exists (Z.to_nat (p - 1)). split; [done|]. simpl. lia.
Qed.

(** A window inside the journal is exactly its slice of the log. *)
Lemma window_represented s scope_id j a t :
  represents s scope_id j → 0 ≤ a ≤ t → t ≤ Z.of_nat (length j) →
  require_identifier "scope_id" scope_id MAX_SCOPE_ID_LENGTH = Ok tt →
  ∃ rows, Cursors.list_window scope_id a t s = Ok (rows, s) ∧
    (λ kr, journal_position kr.2) <$> rows = seqZ (a + 1) (t - a) ∧
    (λ kr : (text * text * text) * source_row, ((kr.1.1.2, kr.1.2), source_value kr.2)) <$> rows =
      take (Z.to_nat (t - a)) (drop (Z.to_nat a) j).
Proof.
  intros Hrep Hat Ht Hid. destruct (journal_positions _ _ _ Hrep) as [Hnd Hel].
  set (sel := filter (λ kr : (text * text * text) * source_row, a < journal_position kr.2 ∧ journal_position kr.2 ≤ t)
                (Cursors.journal scope_id s)).
  exists (merge_sort Cursors.position_le sel).
  assert (Hpos : (λ kr, journal_position kr.2) <$> merge_sort Cursors.position_le sel = seqZ (a + 1) (t - a)).
  { apply StronglySorted_unique with Z.le; [apply _|apply position_sorted|apply seqZ_sorted; lia|].
    rewrite merge_sort_Permutation. apply NoDup_Permutation; [|apply NoDup_seqZ|].
    - apply NoDup_fmap_2_strong; [|apply NoDup_filter, NoDup_filter, NoDup_map_to_list].
      intros x y [_ Hx]%list_elem_of_filter [_ Hy]%list_elem_of_filter. by apply (represented_inj s scope_id j).
    - intros p. rewrite elem_of_seqZ, list_elem_of_fmap. split.
      + intros (kr & -> & [? _]%list_elem_of_filter). lia.
      + intros Hp. assert (Hin : 1 ≤ p ≤ Z.of_nat (length j)) by lia. apply Hel in Hin.
        apply list_elem_of_fmap in Hin as (kr & -> & Hk). exists kr. split; [done|].
        apply list_elem_of_filter. split; [lia|done]. }
  split_and!; [|exact Hpos|].
  - unfold Cursors.list_window, reads. rewrite Hid. simpl. by rewrite !raise_if_skip by lia.
  - apply list_eq. intros k. rewrite list_lookup_fmap, lookup_take, lookup_drop.
    destruct (merge_sort Cursors.position_le sel !! k) as [kr|] eqn:Hk; simpl.
    + assert (Hin : kr ∈ Cursors.journal scope_id s).
      { apply list_elem_of_lookup_2 in Hk. rewrite merge_sort_Permutation in Hk. by apply list_elem_of_filter in Hk as [_ ?]. }
      destruct (represented_key _ _ _ _ Hrep Hin) as (i & Hi & Hpi).
      assert (Hpk : seqZ (a + 1) (t - a) !! k = Some (journal_position kr.2)) by (by rewrite <- Hpos, list_lookup_fmap, Hk).
      apply lookup_seqZ in Hpk as [Hpk ?]. rewrite decide_True by lia.
      replace (Z.to_nat a + k)%nat with i by lia. done.
    + apply lookup_ge_None_1 in Hk. apply (f_equal length) in Hpos. rewrite length_fmap, length_seqZ in Hpos.
      rewrite decide_False by lia. done.
Qed.

Lemma max_position_bounds scope_id s :
  (∀ kr, kr ∈ Cursors.journal scope_id s → journal_position kr.2 ≤ Cursors.max_position scope_id s) ∧
  (Cursors.journal scope_id s = [] ∧ Cursors.max_position scope_id s = 0 ∨
   ∃ kr, kr ∈ Cursors.journal scope_id s ∧ journal_position kr.2 = Cursors.max_position scope_id s).
Proof.
  unfold Cursors.max_position. destruct (Cursors.journal scope_id s) as [|kr0 l].
  { split; [by intros ? ?%not_elem_of_nil|by left]. }
  set (f := foldr _ _). assert (Hf : (∀ kr, kr ∈ kr0 :: l → journal_position kr.2 ≤ f l) ∧
    ∃ kr, kr ∈ kr0 :: l ∧ journal_position kr.2 = f l).
  { unfold f. clear f. induction l as [|x l [IH1 (y & IH2 & IH3)]]; simpl.
    - split; [by intros ? ->%list_elem_of_singleton|]. exists kr0. split; [left|done].
    - split.
      + intros kr [->|[->|Hin]%elem_of_cons]%elem_of_cons; [|lia|].
        * specialize (IH1 kr0 ltac:(left)). lia.
        * specialize (IH1 kr ltac:(by right)). lia.
      + destruct (Z.max_spec (journal_position x.2) (foldr (λ kr acc, Z.max (journal_position kr.2) acc) (journal_position kr0.2) l))
          as [[_ ->]|[_ ->]].
        * exists y. split; [|done]. apply elem_of_cons in IH2 as [->|?]; [left|by right; right].
        * exists x. split; [right; left|done]. }
  destruct Hf as [H1 H2]. split; [done|by right].
Qed.

Lemma max_position_represented s scope_id j :
  represents s scope_id j → Cursors.max_position scope_id s = Z.of_nat (length j).
Proof.
  intros Hrep. destruct (journal_positions _ _ _ Hrep) as [_ Hel]. destruct (max_position_bounds scope_id s) as [Hmax Hatt].
  destruct (decide (length j = 0%nat)) as [Hz|Hz].
  - destruct Hatt as [[_ ->]|(kr & Hin & <-)]; [lia|]. assert (1 ≤ journal_position kr.2 ≤ Z.of_nat (length j)); [|lia].
    apply Hel. by apply list_elem_of_fmap_2'  with kr.
  - assert (Hlast : Z.of_nat (length j) ∈ (λ kr, journal_position kr.2) <$> Cursors.journal scope_id s) by (apply Hel; lia).
    apply list_elem_of_fmap in Hlast as (kr & Hp & Hin). specialize (Hmax kr Hin).
    destruct Hatt as [[Hnil _]|(kr' & Hin' & Hm)]; [rewrite Hnil in Hin; by apply not_elem_of_nil in Hin|].
    assert (1 ≤ journal_position kr'.2 ≤ Z.of_nat (length j)); [|lia]. apply Hel. by apply list_elem_of_fmap_2' with kr'.
Qed.

(** Opening a window over a represented journal never finds it torn. *)
Definition not_torn (e : exn) : Prop := match e with AtomicMemoryConflictError _ => False | _ => True end.

Lemma require_identifier_not_torn field value maximum e :
  require_identifier field value maximum = Err e → not_torn e.
Proof. by intros ->%require_identifier_err. Qed.

Lemma load_not_torn scope_id binding_name s :
  wp (Cursors.load scope_id binding_name) s (λ _ s', s' = s) not_torn.
Proof.
  apply wp_reads; [done|]. unfold require_key. intros e He.
  apply result_bind_err in He as [He|(? & _ & He)].
  { apply result_bind_err in He as [He|(? & _ & He)]; by eapply require_identifier_not_torn. }
  destruct (p_cursors s !! _) as [r|]; [|done]. apply result_bind_err in He as [He|(? & _ & He)]; [|done].
  unfold Cursors.decode_row in He. destruct (cursor_payload r); [done|]. by injection He as <-.
Qed.

Lemma open_window_wp scope_id limit s j :
  represents s scope_id j → wp (Cursors.open_memory_window scope_id limit) s (λ _ _, True) not_torn.
Proof.
  intros Hrep. unfold Cursors.open_memory_window.
  apply wp_bind. eapply wp_mono; [|done|apply load_not_torn]. intros row ? ->.
  apply wp_bind. unfold Cursors.signal. apply wp_reads.
  2: { intros e He. apply result_bind_err in He as [He|(? & _ & He)]; [by eapply require_identifier_not_torn|done]. }
  intros [high lim] Hsig. apply result_bind_ok in Hsig as ([] & Hid & Hsig). injection Hsig as <- <-. unfold Cursors.open_at.
  apply wp_bind, wp_bind, wp_lift.
  2: { unfold Cursors.new_high_watermark. intros e He. by apply result_bind_err in He as [[_ ->]%raise_if_err|(? & _ & He)]. }
  intros mark Hmark. unfold Cursors.new_high_watermark in Hmark. run.
  apply wp_bind, wp_lift.
  2: { unfold Cursors.activate. case_decide; [done|]. intros e He. apply result_bind_err in He as [He|(? & _ & He)]; [|done].
       unfold Cursors.new_window in He. by apply result_bind_err in He as [[_ ->]%raise_if_err|(? & _ & He)]. }
  intros [state [w|]] Hact%Cursors.activate_ok; cbn [fst snd].
  2: { by apply wp_bind, wp_ret, wp_ret. }
  simpl in Hact. rewrite (max_position_represented _ _ _ Hrep) in Hact.
  destruct (window_represented s scope_id j (Cursors.after w) (Cursors.through w)) as (rows & Hl & Hp & _); [done|lia|lia|done|].
  apply wp_bind. unfold wp at 1. rewrite Hl. apply wp_ret, wp_bind. simpl. apply wp_lift; [by intros; apply wp_ret|].
  unfold Cursors.require_window. intros e [Hne _]%raise_if_err. by destruct Hne.
Qed.

Lemma log_capture_count l j j' out :
  log_capture j l = Some (j', out) → length j' = (length j + length (filter (λ x : nat * bool, x.2 = true) out))%nat.
Proof.
  revert j j' out. induction l as [|p l IH]; intros j j' out; simpl; [intros [= <- <-]; simpl; lia|].
  intros ([j1 x] & Hadd & ([j2 out'] & Hrest & [= <- <-])%bind_Some)%bind_Some. simpl in *.
  rewrite (IH _ _ _ Hrest), filter_cons. unfold log_add in Hadd.
  destruct (log_find p.2 j) as [[i old]|]; repeat case_decide; try done; simplify_eq; simpl in *; try done.
  - by rewrite length_insert.
  - rewrite length_app. simpl. lia.
Qed.

Lemma log_capture_length j l j' out : log_capture j l = Some (j', out) → length out = length l.
Proof.
  revert j j' out. induction l as [|p l IH]; intros j j' out; simpl; [by intros [= <- <-]|].
  intros ([j1 x] & _ & ([j2 out'] & Hrest & [= <- <-])%bind_Some)%bind_Some. simpl. f_equal. by eapply IH.
Qed.

Lemma place_flags l out :
  length out = length l →
  length (filter (λ r : stored_source * bool, r.2 = true) (zip_with place l out)) =
  length (filter (λ x : nat * bool, x.2 = true) out).
Proof.
  revert out. induction l as [|p l IH]; intros [|x out] Hlen; try done. simpl in Hlen. injection Hlen as Hlen.
  cbn [zip_with]. rewrite !filter_cons. simpl. destruct (decide (x.2 = true)); simpl; by rewrite IH.
Qed.
End repository.

(** C16: The journal refines an append-only log.  Capturing a batch over tables that
    hold the log of a Scope acts as adding its Sources one by one to the log: a
    known Source is found at its place, or gains its receipt there, a new one is
    appended, and the results name the places; the tables then hold exactly the new
    log, and the other Scopes their own.  A batch fails only for an invalid
    argument, a Source the registry rejects, or a conflict of the log. *)
Theorem journal_refines_log `{SourceRegistry} scope_id sources s j :
  represents s scope_id j → Intents.wf s →
  match add_many_with_status scope_id sources s with
  | Ok (results, s') => ∃ prepared j' out,
      prepare sources = Ok prepared ∧ log_capture j prepared = Some (j', out) ∧
      results = zip_with place prepared out ∧ represents s' scope_id j' ∧
      ∀ sc k, sc ≠ scope_id → represents s sc k → represents s' sc k
  | Err e => capture_error sources j e
  end.
Proof.
  intros Hrep Hwf. pose proof (capture_wp scope_id sources s j Hrep Hwf) as Hc. unfold wp in Hc.
  destruct (add_many_with_status scope_id sources s) as [[results s']|e]; [|exact Hc].
  destruct Hc as (j' & [(prepared & out & ? & ? & ?) ? ? _ _ _]). by exists prepared, j', out.
Qed.

(** The journal of a Scope has no gaps.  Whatever is captured from an empty
    database on, in any Scopes, the positions of a Scope are exactly 1 to its
    watermark: reading a window inside it returns exactly the Sources captured at
    those places, in order, so that a Worker that opens a window never finds it
    torn. *)
Theorem journal_window_complete `{SourceRegistry} d s scope_id :
  rtc step (empty_pdb d) s →
  (∃ j, represents s scope_id j ∧ Cursors.max_position scope_id s = Z.of_nat (length j) ∧
    ∀ a t, 0 ≤ a ≤ t → t ≤ Z.of_nat (length j) →
      require_identifier "scope_id" scope_id MAX_SCOPE_ID_LENGTH = Ok tt →
      ∃ rows, Cursors.list_window scope_id a t s = Ok (rows, s) ∧
        Cursors.require_window rows (Cursors.mkWindow a t) = Ok tt ∧
        (λ kr : (text * text * text) * source_row, ((kr.1.1.2, kr.1.2), source_value kr.2)) <$> rows =
          take (Z.to_nat (t - a)) (drop (Z.to_nat a) j)) ∧
  ∀ limit msg, Cursors.open_memory_window scope_id limit s ≠ Err (AtomicMemoryConflictError msg).
Proof.
  intros Hsteps. destruct (steps_journaled _ _ Hsteps (empty_journaled d)) as [_ Hj].
  destruct (Hj scope_id) as [j Hrep]. pose proof (max_position_represented _ _ _ Hrep) as Hmax. split.
  - exists j. split_and!; [done..|]. intros a t Hat Ht Hid.
    destruct (window_represented s scope_id j a t) as (rows & H1 & H2 & H3); [done..|].
    exists rows. split_and!; [done| |done]. unfold Cursors.require_window. by rewrite raise_if_skip by (simpl; naive_solver).
  - intros limit msg Herr. by apply (wp_Err _ _ _ _ _ (open_window_wp _ limit _ _ Hrep)) in Herr.
Qed.
(** Captured Sources wake the bindings.  A batch that adds [n] Sources to the
    journal raises the dirty counter of every processing binding of the Scope, the
    built-in ones and those of plugins that cover it, by at least [n] and leaves it
    dirty; a batch that only replays known Sources wakes nobody. *)
Theorem capture_wakes_bindings `{SourceRegistry} d s scope_id sources results s' :
  rtc step (empty_pdb d) s → add_many_with_status scope_id sources s = Ok (results, s') →
  let n := Z.of_nat (length (filter (λ r : stored_source * bool, r.2 = true) results)) in
  (n = 0 → p_intents s' = p_intents s) ∧
  (0 < n → ∀ name, name ∈ SOURCE_PROCESSING_BINDINGS ++ custom_bindings scope_id s →
     woken n (p_intents s !! (name, scope_id)) (p_intents s' !! (name, scope_id))).
Proof.
  intros Hsteps Hrun n. destruct (steps_journaled _ _ Hsteps (empty_journaled d)) as [Hwf Hj].
  destruct (Hj scope_id) as [j Hrep]. pose proof (capture_wp scope_id sources s j Hrep Hwf) as Hc.
  destruct (wp_Ok _ _ _ _ _ _ Hc Hrun) as (j' & [(prepared & out & Hp & Hlog & ->) _ _ _ Hz Hw]).
  pose proof (log_capture_count _ _ _ _ Hlog) as Hlen. pose proof (log_capture_length _ _ _ _ Hlog) as Hout.
  assert (Hn : n = Z.of_nat (length j') - Z.of_nat (length j)).
  { unfold n. rewrite place_flags by done. lia. }
  split; [intros; apply Hz; lia|]. rewrite Hn. intros Hpos. apply Hw. lia.
Qed.

(** ** Concrete runs

    A batch with a replay and a receipt: two places, the second upgraded. *)
#[local] Instance demo_registry : SourceRegistry := {|
  encode v := match v with AdapterSource p => Ok ([1], p) | ContentSource c => Ok ([2], content_payload c) end;
  bind_memory_evidence _ _ _ _ := Ok tt
|}.
Definition demo_scope : text := [1].
Definition demo_content (receipt : bool) : source := ContentSource (mkContentSource [3] NoExpiry false None receipt).
Definition demo_batch : list source :=
  [AdapterSource [5]; demo_content false; AdapterSource [5]; demo_content true].
Definition demo_results : list (stored_source * bool) := Eval vm_compute in
  match add_many_with_status demo_scope demo_batch (empty_pdb sqlite) with Ok (r, _) => r | Err _ => [] end.
Definition demo_pdb : pdb := Eval vm_compute in
  match add_many_with_status demo_scope demo_batch (empty_pdb sqlite) with Ok (_, s) => s | Err _ => empty_pdb sqlite end.

Lemma demo_run : add_many_with_status demo_scope demo_batch (empty_pdb sqlite) = Ok (demo_results, demo_pdb).
Proof. vm_compute. reflexivity. Qed.

Lemma demo_steps : rtc step (empty_pdb sqlite) demo_pdb.
Proof. apply rtc_once. eapply step_capture. exact demo_run. Qed.

Lemma demo_empty : represents (empty_pdb sqlite) demo_scope [] ∧ Intents.wf (empty_pdb sqlite).
Proof.
  split; [|apply empty_journaled]. destruct (empty_journaled sqlite) as [_ Hj]. destruct (Hj demo_scope) as [[|p j] Hr]; [done|].
  pose proof (rep_head _ _ _ Hr) as Hh. done.
Qed.

Lemma journal_refines_log_witness :
  ∃ j', represents demo_pdb demo_scope j' ∧
    j' = [(([1], [5]), AdapterSource [5]); (([2], [3]), demo_content true)] ∧
    demo_results.*2 = [true; true; false; false].
Proof.
  pose proof (journal_refines_log demo_scope demo_batch (empty_pdb sqlite) [] (proj1 demo_empty) (proj2 demo_empty)) as H.
  rewrite demo_run in H. destruct H as (prepared & j' & out & Hp & Hl & _ & Hrep & _).
  exists j'. split; [exact Hrep|]. split; [|reflexivity]. clear Hrep.
  vm_compute in Hp. injection Hp as <-. vm_compute in Hl. by injection Hl as <- _.
Defined.

Lemma journal_window_complete_witness :
  ∃ rows, Cursors.list_window demo_scope 0 2 demo_pdb = Ok (rows, demo_pdb) ∧
    (λ kr : (text * text * text) * source_row, source_value kr.2) <$> rows = [AdapterSource [5]; demo_content true].
Proof.
  destruct (proj1 (journal_window_complete sqlite demo_pdb demo_scope demo_steps)) as (j & Hrep & Hmax & Hw).
  assert (Hlen : length j = 2%nat) by (apply Nat2Z.inj; rewrite <- Hmax; vm_compute; reflexivity).
  destruct (Hw 0 2) as (rows & H1 & _ & H3); [lia|lia|reflexivity|]. exists rows. split; [exact H1|].
  cut (Ok (rows, demo_pdb) = Cursors.list_window demo_scope 0 2 demo_pdb); [|by rewrite H1].
  intros Heq. vm_compute in Heq. injection Heq as ->. reflexivity.
Defined.

Lemma capture_wakes_bindings_witness :
  woken 2 None (p_intents demo_pdb !! (Cursors.SOURCE_WINDOW_TRIGGER_NAME, demo_scope)).
Proof.
  destruct (capture_wakes_bindings sqlite (empty_pdb sqlite) demo_scope demo_batch _ _ (rtc_refl _ _) demo_run) as [_ H].
  apply (H eq_refl). left.
Defined.

End Journal.
