(* ===== verification/Pending.v ===== *)
(** * The durable dirty set and automatic waves

    [builtin/persistence/processing.py]: processing watermarks with flush
    generations, and the frozen targets of an automatic wave. *)

From S2P Require Import Prelude Tables Cursors.
Local Open Scope Z_scope.

Module Pending.

(** ** Keys

    Rows are keyed by binding and Scope and ordered by both. *)

Definition key_le (a b : text * text) : Prop :=
  if decide (a.1 = b.1) then text_le a.2 b.2 else text_le a.1 b.1.
#[export] Instance key_le_dec : RelDecision key_le.
Proof. intros a b. unfold key_le. case_decide; apply _. Defined.

(** Strictly after a keyset position. *)
Definition key_gt (a : text * text) (k : text * text) : Prop :=
  (k.1 ≠ a.1 ∧ text_le a.1 k.1) ∨ (k.1 = a.1 ∧ k.2 ≠ a.2 ∧ text_le a.2 k.2).
#[export] Instance key_gt_dec a k : Decision (key_gt a k).
Proof. unfold key_gt. apply _. Defined.

Definition require_position (field : string) (value : Z) : result unit :=
  raise_if (value < 1) (InvalidRepositoryArgumentError field).

(** ** Row writes *)

Definition put_pending (k : text * text) (r : pending) : M pdb unit := λ s,
  if decide (pending_check r)
  then Ok (tt, set_pending (<[k := r]> (p_pending s)) s)
  else Err (IntegrityError "pending").

(** INSERT ... ON CONFLICT DO UPDATE: the row that results. *)
Definition upserted (through : Z) (increment_flush : bool) (old : option pending) : pending :=
  match old with
  | None => mkPending through (if increment_flush then 1 else 0) 0
  | Some r => mkPending
      (if decide (source_through r < through) then through else source_through r)
      (if increment_flush then flush_generation r + 1 else flush_generation r)
      (handled_flush_generation r)
  end.

Definition upsert_pending (scope_id binding_name : text) (through : Z) (increment_flush : bool)
    : M pdb unit := λ s,
  match p_dialect s with
  | other_dialect => Err (InvalidRepositoryArgumentError "dialect")
  | _ => put_pending (binding_name, scope_id)
           (upserted through increment_flush (p_pending s !! (binding_name, scope_id))) s
  end.

(** ** [ArtifactProcessingPendingRepository] *)

Definition load (scope_id binding_name : text) : M pdb (option pending) := reads (λ s,
  require_key scope_id binding_name ;; Ok (p_pending s !! (binding_name, scope_id))).

Definition note_source (scope_id binding_name : text) (position : Z) : M pdb unit :=
  lift (require_position "source_position" position) ;;
  upsert_pending scope_id binding_name position false.

Definition raise_source (scope_id binding_name : text) (position : Z) : M pdb (option pending) :=
  note_source scope_id binding_name position ;; load scope_id binding_name.

Definition pending_le (a b : (text * text) * pending) : Prop := key_le a.1 b.1.
#[export] Instance pending_le_dec : RelDecision pending_le := λ a b, key_le_dec _ _.

(** The dirty set in key order. *)
Definition pending_rows (s : pdb) : list ((text * text) * pending) :=
  merge_sort pending_le (map_to_list (p_pending s)).

(** The predicates of a page: the binding, and the rows after the last key. *)
Definition in_page (binding_name : option text) (after : option (text * text)) (k : text * text) : Prop :=
  match binding_name with None => True | Some b => k.1 = b end ∧
  match after with None => True | Some a => key_gt a k end.
#[export] Instance in_page_dec b a k : Decision (in_page b a k).
Proof. unfold in_page. destruct b, a; apply _. Defined.

Definition scan (binding_name : option text) (after : option (text * text)) (limit : option Z)
    : M pdb (list ((text * text) * pending)) := reads (λ s,
  match binding_name with
  | None => Ok tt
  | Some b => require_identifier "binding_name" b MAX_BINDING_NAME_LENGTH
  end ;;
  match after with
  | None => Ok tt
  | Some k => require_identifier "after.binding_name" k.1 MAX_BINDING_NAME_LENGTH ;;
              require_identifier "after.scope_id" k.2 MAX_SCOPE_ID_LENGTH
  end ;;
  match limit with
  | None => Ok tt
  | Some n => raise_if (n < 1) (InvalidRepositoryArgumentError "limit")
  end ;;
  let rows := filter (λ kr, in_page binding_name after kr.1) (pending_rows s) in
  Ok (match limit with None => rows | Some n => take (Z.to_nat n) rows end)).

Definition unhandled (binding_name : text) (k : text * text) (r : pending) : Prop :=
  k.1 = binding_name ∧ handled_flush_generation r < flush_generation r.
#[export] Instance unhandled_dec b k r : Decision (unhandled b k r).
Proof. unfold unhandled. apply _. Defined.

Definition has_unhandled_flush (binding_name : text) : M pdb bool := reads (λ s,
  require_identifier "binding_name" binding_name MAX_BINDING_NAME_LENGTH ;;
  Ok (bool_decide (Exists (λ kr, unhandled binding_name kr.1 kr.2) (map_to_list (p_pending s))))).

(** The no-op UPDATE of the journal head only takes its lock. *)
Definition request_flush (scope_id binding_name : text) : M pdb (option pending) :=
  lift (require_key scope_id binding_name) ;;
  head ← gets (λ s, default 0 (p_heads s !! scope_id));
  cursor ← Cursors.load scope_id binding_name;
  if decide (head ≤ match cursor with None => 0 | Some c => Cursors.sequence c end) then mret None else
    upsert_pending scope_id binding_name head true ;;
    load scope_id binding_name.

Definition mark_flush_handled (scope_id binding_name : text) (claimed : Z) : M pdb (option pending) :=
  lift (require_nonnegative "claimed_flush_generation" claimed) ;;
  current ← load scope_id binding_name;
  match current with
  | None => mret None
  | Some r =>
      put_pending (binding_name, scope_id)
        (mkPending (source_through r) (flush_generation r)
           (Z.max (handled_flush_generation r) (Z.min claimed (flush_generation r)))) ;;
      load scope_id binding_name
  end.

Definition covered (through : Z) (r : pending) : Prop :=
  source_through r ≤ through ∧ handled_flush_generation r = flush_generation r.
#[export] Instance covered_dec n r : Decision (covered n r).
Proof. unfold covered. apply _. Defined.

(** DELETE of the row when it is covered: whether a row was deleted. *)
Definition delete_covered (k : text * text) (through : Z) : M pdb bool := λ s,
  match p_pending s !! k with
  | Some r => if decide (covered through r)
              then Ok (true, set_pending (delete k (p_pending s)) s) else Ok (false, s)
  | None => Ok (false, s)
  end.

Definition delete_if_covered (scope_id binding_name : text) (cursor limit : option Z) : M pdb bool :=
  position ← match cursor with
             | Some c => mret c
             | None => stored ← Cursors.load scope_id binding_name;
                       mret (match stored with None => 0 | Some c => Cursors.sequence c end)
             end;
  lift (require_nonnegative "cursor" position) ;;
  lift (match limit with
        | None => Ok tt
        | Some n => raise_if (n < 1) (InvalidRepositoryArgumentError "source_through_limit")
        end) ;;
  delete_covered (binding_name, scope_id)
    (match limit with None => position | Some n => Z.min position n end).

(** ** [ArtifactProcessingAutoWaveTargetRepository] *)

Definition clear_all : M pdb unit := modifies (set_targets ∅).

(** INSERT ... SELECT: the key of every snapshot row must be free. *)
Definition snapshot (wave_id binding_name : text) (s : pdb) : gmap (text * text * text) wave_target :=
  list_to_map ((λ kr : (text * text) * pending,
                  ((wave_id, kr.1.1, kr.1.2), mkTarget (source_through kr.2) false)) <$>
               filter (λ kr, kr.1.1 = binding_name) (map_to_list (p_pending s))).

Definition insert_snapshot (wave_id binding_name : text) : M pdb unit := λ s,
  if decide (map_Forall (λ k t, p_targets s !! k = None ∧ 1 ≤ target_through t)
               (snapshot wave_id binding_name s))
  then Ok (tt, set_targets (snapshot wave_id binding_name s ∪ p_targets s) s)
  else Err (IntegrityError "auto_wave_targets").

Definition freeze_pending (wave_id binding_name : text) : M pdb unit :=
  lift (require_identifier "wave_id" wave_id 36) ;;
  lift (require_identifier "binding_name" binding_name MAX_BINDING_NAME_LENGTH) ;;
  insert_snapshot wave_id binding_name.

Definition scope_le (a b : (text * text * text) * wave_target) : Prop := text_le a.1.2 b.1.2.
#[export] Instance scope_le_dec : RelDecision scope_le := λ a b, text_le_dec _ _.

(** The Scopes of a wave's binding with their targets, in Scope order. *)
Definition wave_rows (wave_id binding_name : text) (s : pdb) : list ((text * text * text) * wave_target) :=
  merge_sort scope_le
    (filter (λ kt, kt.1.1 = (wave_id, binding_name)) (map_to_list (p_targets s))).

Definition after_scope (after : option text) (scope_id : text) : Prop :=
  match after with None => True | Some sc => scope_id ≠ sc ∧ text_le sc scope_id end.
#[export] Instance after_scope_dec a sc : Decision (after_scope a sc).
Proof. unfold after_scope. destruct a; apply _. Defined.

Definition scan_wave (wave_id binding_name : text) (after_scope_id : option text) (limit : Z)
    : M pdb (list ((text * text * text) * wave_target)) := reads (λ s,
  require_identifier "wave_id" wave_id 36 ;;
  require_identifier "binding_name" binding_name MAX_BINDING_NAME_LENGTH ;;
  match after_scope_id with
  | None => Ok tt
  | Some sc => require_identifier "after_scope_id" sc MAX_SCOPE_ID_LENGTH
  end ;;
  raise_if (limit < 1) (InvalidRepositoryArgumentError "limit") ;;
  Ok (take (Z.to_nat limit)
        (filter (λ kt, after_scope after_scope_id kt.1.2) (wave_rows wave_id binding_name s)))).

Definition existing_scope_ids (wave_id binding_name : text) (scope_ids : list text)
    : M pdb (gset text) := reads (λ s,
  require_identifier "wave_id" wave_id 36 ;;
  require_identifier "binding_name" binding_name MAX_BINDING_NAME_LENGTH ;;
  check_each (λ sc, require_identifier "scope_id" sc MAX_SCOPE_ID_LENGTH) scope_ids ;;
  Ok (list_to_set (filter (λ sc, is_Some (p_targets s !! (wave_id, binding_name, sc))) scope_ids))).

Definition in_wave_scope (wave_id scope_id : text) (k : text * text * text) : Prop :=
  k.1.1 = wave_id ∧ k.2 = scope_id.
#[export] Instance in_wave_scope_dec w sc k : Decision (in_wave_scope w sc k).
Proof. unfold in_wave_scope. apply _. Defined.

(** UPDATE of every binding's target of the wave's Scope: the row count. *)
Definition complete_matching (wave_id scope_id : text) : M pdb Z := λ s,
  let matched := filter (λ kt, in_wave_scope wave_id scope_id kt.1) (map_to_list (p_targets s)) in
  Ok (Z.of_nat (length matched),
      set_targets (map_imap (λ k t, Some (if decide (in_wave_scope wave_id scope_id k)
                                          then mkTarget (target_through t) true else t))
                     (p_targets s)) s).

Definition mark_completed (wave_id scope_id : text) : M pdb bool :=
  lift (require_identifier "wave_id" wave_id 36) ;;
  lift (require_identifier "scope_id" scope_id MAX_SCOPE_ID_LENGTH) ;;
  count ← complete_matching wave_id scope_id;
  mret (bool_decide (count = 1)).

Definition all_completed (wave_id : text) : M pdb bool := reads (λ s,
  require_identifier "wave_id" wave_id 36 ;;
  Ok (bool_decide (map_Forall (λ k t, k.1.1 = wave_id → completed t = true) (p_targets s)))).

(** A Pending row that the wave completed and nothing raised since. *)
Definition wave_covers (wave_id binding_name : text) (s : pdb) (k : text * text) (r : pending) : Prop :=
  k.1 = binding_name ∧ handled_flush_generation r = flush_generation r ∧
  match p_targets s !! (wave_id, k.1, k.2) with
  | Some t => completed t = true ∧ source_through r ≤ target_through t
  | None => False
  end.
#[export] Instance wave_covers_dec w b s k r : Decision (wave_covers w b s k r).
Proof. unfold wave_covers. destruct (p_targets s !! _); apply _. Defined.

(** DELETE of the rows the wave covers: the row count. *)
Definition delete_wave_covered (wave_id binding_name : text) : M pdb Z := λ s,
  Ok (Z.of_nat (size (filter (λ kr, wave_covers wave_id binding_name s kr.1 kr.2) (p_pending s))),
      set_pending (filter (λ kr, ¬ wave_covers wave_id binding_name s kr.1 kr.2) (p_pending s)) s).

Definition delete_covered_pending (wave_id binding_name : text) : M pdb Z :=
  lift (require_identifier "wave_id" wave_id 36) ;;
  lift (require_identifier "binding_name" binding_name MAX_BINDING_NAME_LENGTH) ;;
  delete_wave_covered wave_id binding_name.

Definition clear_wave (wave_id : text) : M pdb unit :=
  lift (require_identifier "wave_id" wave_id 36) ;;
  modifies (λ s, set_targets (filter (λ kt, kt.1.1.1 ≠ wave_id) (p_targets s)) s).

(** ** Effects of the operations *)

Inductive op :=
  | NoteSource (scope_id binding_name : text) (position : Z)
  | RequestFlush (scope_id binding_name : text)
  | MarkFlushHandled (scope_id binding_name : text) (claimed : Z)
  | DeleteIfCovered (scope_id binding_name : text) (cursor limit : option Z)
  | FreezePending (wave_id binding_name : text)
  | MarkCompleted (wave_id scope_id : text)
  | DeleteCoveredPending (wave_id binding_name : text)
  | ClearWave (wave_id : text)
  | ClearAll.

Definition run_op (o : op) : M pdb unit :=
  match o with
  | NoteSource sc b n => note_source sc b n
  | RequestFlush sc b => request_flush sc b ;; mret tt
  | MarkFlushHandled sc b n => mark_flush_handled sc b n ;; mret tt
  | DeleteIfCovered sc b c l => delete_if_covered sc b c l ;; mret tt
  | FreezePending w b => freeze_pending w b
  | MarkCompleted w sc => mark_completed w sc ;; mret tt
  | DeleteCoveredPending w b => delete_covered_pending w b ;; mret tt
  | ClearWave w => clear_wave w
  | ClearAll => clear_all
  end.

(** A row and what one operation makes of it. *)
Definition row_le (r r' : pending) : Prop :=
  source_through r ≤ source_through r' ∧ flush_generation r ≤ flush_generation r' ∧
  handled_flush_generation r ≤ handled_flush_generation r'.

(** The reason [o] may delete the row: every requested flush was handled, and a
    cursor or a completed wave target reached the row's watermark. *)
Definition may_delete (o : op) (s : pdb) (k : text * text) (r : pending) : Prop :=
  handled_flush_generation r = flush_generation r ∧
  match o with
  | DeleteIfCovered sc b (Some c) _ => k = (b, sc) ∧ source_through r ≤ c
  | DeleteIfCovered sc b None _ => k = (b, sc) ∧
      ∃ c, p_cursors s !! (sc, b) = Some c ∧
        ∃ n, cursor_payload c = Some n ∧ source_through r ≤ n
  | DeleteCoveredPending w b => k.1 = b ∧
      ∃ t, p_targets s !! (w, k.1, k.2) = Some t ∧ completed t = true ∧
        source_through r ≤ target_through t
  | _ => False
  end.

Lemma put_pending_ok k r s u s' :
  put_pending k r s = Ok (u, s') ↔ pending_check r ∧ s' = set_pending (<[k := r]> (p_pending s)) s.
Proof. unfold put_pending. destruct u. case_decide; naive_solver. Qed.

Lemma upsert_pending_ok scope_id binding_name n f s u s' :
  upsert_pending scope_id binding_name n f s = Ok (u, s') →
  pending_check (upserted n f (p_pending s !! (binding_name, scope_id))) ∧
  s' = set_pending (<[(binding_name, scope_id) :=
         upserted n f (p_pending s !! (binding_name, scope_id))]> (p_pending s)) s.
Proof. unfold upsert_pending. destruct (p_dialect s); [..|done]; by intros ?%put_pending_ok. Qed.

Lemma pending_load_ok scope_id binding_name s r s' :
  load scope_id binding_name s = Ok (r, s') → r = p_pending s !! (binding_name, scope_id) ∧ s' = s.
Proof. unfold load. intros H. by run. Qed.

(** Where an operation leaves the row of key [k]. *)
Definition row_effect (o : op) (s s' : pdb) (k : text * text) (r : pending) : Prop :=
  match p_pending s' !! k with
  | Some r' => row_le r r'
  | None => may_delete o s k r
  end.

Lemma insert_effect o k0 r0 s k r :
  p_pending s !! k = Some r → (k = k0 → row_le r r0) →
  row_effect o s (set_pending (<[k0 := r0]> (p_pending s)) s) k r.
Proof.
  intros Hk Hle. unfold row_effect. simpl. rewrite lookup_insert. case_decide; [auto|].
  rewrite Hk. unfold row_le. lia.
Qed.

Lemma same_effect o s s' k r : p_pending s' = p_pending s → p_pending s !! k = Some r → row_effect o s s' k r.
Proof. intros E Hk. unfold row_effect. rewrite E, Hk. unfold row_le. lia. Qed.

Lemma upserted_le n f r : row_le r (upserted n f (Some r)).
Proof. unfold row_le. simpl. case_decide; destruct f; lia. Qed.

Lemma delete_covered_effect o k0 n s s' k r x :
  delete_covered k0 n s = Ok (x, s') → p_pending s !! k = Some r →
  (k = k0 → covered n r → may_delete o s k r) → row_effect o s s' k r.
Proof.
  unfold delete_covered. intros H Hk Hdel. destruct (p_pending s !! k0) as [r0|] eqn:Hk0.
  - destruct (decide (covered n r0)) as [Hc|]; injection H as <- <-; [|by apply same_effect].
    unfold row_effect. simpl. rewrite lookup_delete. case_decide; [subst|].
    + simplify_eq. auto.
    + rewrite Hk. unfold row_le. lia.
  - injection H as <- <-. by apply same_effect.
Qed.

Lemma delete_if_covered_effect sc b c l s s' k r x :
  delete_if_covered sc b c l s = Ok (x, s') → p_pending s !! k = Some r → 1 ≤ source_through r →
  row_effect (DeleteIfCovered sc b c l) s s' k r.
Proof.
  intros H Hk Hpos. unfold delete_if_covered in H.
  apply M_bind_ok in H as (n & s1 & Hn & H). destruct c as [c|].
  - apply M_ret_ok in Hn as [-> ->].
    apply M_bind_ok in H as ([] & ? & [_ ->]%lift_ok & H).
    apply M_bind_ok in H as ([] & ? & [_ ->]%lift_ok & H).
    eapply delete_covered_effect; [done..|]. intros -> [Hle Hh]. split; [done|].
    split; [done|]. destruct l; lia.
  - apply M_bind_ok in Hn as (row & ? & [-> Hrow]%Cursors.cursor_load_ok & [-> ->]%M_ret_ok).
    apply M_bind_ok in H as ([] & ? & [_ ->]%lift_ok & H).
    apply M_bind_ok in H as ([] & ? & [_ ->]%lift_ok & H).
    eapply delete_covered_effect; [done..|]. intros -> [Hle Hh]. split; [done|].
    split; [done|]. destruct (p_cursors s !! (sc, b)) as [cur|].
    + destruct Hrow as (m & Hm & ->). exists cur. split; [done|]. exists m. split; [done|].
      simpl in Hle. destruct l; lia.
    + subst row. destruct l; lia.
Qed.

Lemma delete_covered_pending_effect w b s s' k r x :
  delete_covered_pending w b s = Ok (x, s') → p_pending s !! k = Some r →
  row_effect (DeleteCoveredPending w b) s s' k r.
Proof.
  intros H Hk. unfold delete_covered_pending in H.
  apply M_bind_ok in H as ([] & ? & [_ ->]%lift_ok & H).
  apply M_bind_ok in H as ([] & ? & [_ ->]%lift_ok & H).
  unfold delete_wave_covered in H. injection H as <- <-. unfold row_effect. simpl.
  destruct (decide (wave_covers w b s k r)) as [Hc|Hc].
  - rewrite map_lookup_filter_None_2; [|right; intros ? ?; simplify_eq; simpl; tauto].
    destruct Hc as (Hb & Hh & Ht). split; [done|]. split; [done|].
    destruct (p_targets s !! (w, k.1, k.2)) as [t|]; [|done]. exists t. tauto.
  - rewrite (map_lookup_filter_Some_2 _ _ _ r) by done. unfold row_le. lia.
Qed.

(** C7: No Source signal is lost.  An operation leaves every dirty row in place
    with its watermark and flush counters no lower, or deletes it when all
    requested flushes were handled and the binding's cursor, or the completed
    target of a wave, has reached the row's watermark. *)
Theorem signal_survives o s s' k r :
  p_pending s !! k = Some r → pending_check r → run_op o s = Ok (tt, s') →
  match p_pending s' !! k with
  | Some r' => row_le r r'
  | None => may_delete o s k r
  end.
Proof.
  intros Hk Hc H. change (row_effect o s s' k r). destruct Hc as (Hpos & _ & _ & Hh).
  destruct o; simpl in H.
  - apply M_bind_ok in H as ([] & ? & [_ ->]%lift_ok & [_ ->]%upsert_pending_ok).
    apply insert_effect; [done|]. intros ->. rewrite Hk. apply upserted_le.
  - apply M_bind_ok in H as (x & s1 & H & [_ ->]%M_ret_ok). unfold request_flush in H.
    apply M_bind_ok in H as ([] & ? & [_ ->]%lift_ok & H).
    apply M_bind_ok in H as (hd & ? & [-> ->]%gets_ok & H).
    apply M_bind_ok in H as (cur & ? & [-> _]%Cursors.cursor_load_ok & H).
    case_decide; [apply M_ret_ok in H as [_ ->]; by apply same_effect|].
    apply M_bind_ok in H as ([] & ? & [_ ->]%upsert_pending_ok & [_ ->]%pending_load_ok).
    apply insert_effect; [done|]. intros ->. rewrite Hk. apply upserted_le.
  - apply M_bind_ok in H as (x & s1 & H & [_ ->]%M_ret_ok). unfold mark_flush_handled in H.
    apply M_bind_ok in H as ([] & ? & [_ ->]%lift_ok & H).
    apply M_bind_ok in H as (cur & ? & [-> ->]%pending_load_ok & H).
    destruct (p_pending s !! (binding_name, scope_id)) as [r0|] eqn:Hr0;
      [|apply M_ret_ok in H as [_ ->]; by apply same_effect].
    apply M_bind_ok in H as ([] & ? & [_ ->]%put_pending_ok & [_ ->]%pending_load_ok).
    apply insert_effect; [done|]. intros ->. simplify_eq. unfold row_le. simpl. lia.
  - apply M_bind_ok in H as (x & s1 & H & [_ ->]%M_ret_ok). by eapply delete_if_covered_effect.
  - unfold freeze_pending in H. apply M_bind_ok in H as ([] & ? & [_ ->]%lift_ok & H).
    apply M_bind_ok in H as ([] & ? & [_ ->]%lift_ok & H). unfold insert_snapshot in H.
    case_decide; [|done]. injection H as <-. by apply same_effect.
  - apply M_bind_ok in H as (x & s1 & H & [_ ->]%M_ret_ok). unfold mark_completed in H.
    apply M_bind_ok in H as ([] & ? & [_ ->]%lift_ok & H).
    apply M_bind_ok in H as ([] & ? & [_ ->]%lift_ok & H).
    apply M_bind_ok in H as (n & ? & H & [_ ->]%M_ret_ok). injection H as _ <-. by apply same_effect.
  - apply M_bind_ok in H as (x & s1 & H & [_ ->]%M_ret_ok). by eapply delete_covered_pending_effect.
  - apply M_bind_ok in H as ([] & ? & [_ ->]%lift_ok & ->%modifies_ok). by apply same_effect.
  - apply modifies_ok in H as ->. by apply same_effect.
Qed.

(** ** Automatic waves *)

(** The targets of wave [w] are immutable but for their completion. *)
Definition targets_frozen (w : text) (s s' : pdb) : Prop :=
  ∀ b sc t', p_targets s' !! (w, b, sc) = Some t' →
    ∃ t, p_targets s !! (w, b, sc) = Some t ∧ target_through t' = target_through t ∧
      (completed t = true → completed t' = true).

#[export] Instance targets_frozen_preorder w : PreOrder (targets_frozen w).
Proof.
  split; [intros s b sc t' Ht; by exists t'|].
  intros s1 s2 s3 H1 H2 b sc t3 H. destruct (H2 _ _ _ H) as (t2 & Ht2 & ? & ?).
  destruct (H1 _ _ _ Ht2) as (t1 & ? & ? & ?). exists t1. split_and!; [done|congruence|auto].
Qed.

Lemma same_targets w s s' : p_targets s' = p_targets s → targets_frozen w s s'.
Proof. intros E b sc t. rewrite E. by exists t. Qed.

(** Every operation but a freeze of the wave itself. *)
Definition freezes (w : text) (o : op) : Prop :=
  match o with FreezePending w' _ => w' = w | _ => False end.

Lemma snapshot_lookup w b s w' b' sc t :
  snapshot w b s !! (w', b', sc) = Some t ↔
  w' = w ∧ b' = b ∧ ∃ r, p_pending s !! (b, sc) = Some r ∧ t = mkTarget (source_through r) false.
Proof.
  unfold snapshot. rewrite <- elem_of_list_to_map.
  - rewrite list_elem_of_fmap. setoid_rewrite list_elem_of_filter. split.
    + intros ([[b2 sc2] r] & [= -> -> -> ->] & ? & Hr%elem_of_map_to_list). simpl in *. subst. eauto.
    + intros (-> & -> & r & Hr & ->). exists ((b, sc), r). split; [done|]. split; [done|].
      by apply elem_of_map_to_list.
  - rewrite <- list_fmap_compose.
    assert (Hnd : NoDup (filter (λ kr : (text * text) * pending, kr.1.1 = b) (map_to_list (p_pending s))).*1).
    { apply NoDup_fmap_fst.
      - intros x y z [_ Hy%elem_of_map_to_list]%list_elem_of_filter
          [_ Hz%elem_of_map_to_list]%list_elem_of_filter. congruence.
      - apply NoDup_filter, NoDup_map_to_list. }
    revert Hnd. generalize (filter (λ kr : (text * text) * pending, kr.1.1 = b) (map_to_list (p_pending s))).
    intros l Hl.
    assert (E : ((λ kr : (text * text) * pending, ((w, kr.1.1), kr.1.2)) <$> l) =
                ((λ k : text * text, ((w, k.1), k.2)) <$> l.*1)).
    { rewrite <- list_fmap_compose. done. }
    change (NoDup ((λ kr : (text * text) * pending, ((w, kr.1.1), kr.1.2)) <$> l)).
    rewrite E. apply NoDup_fmap_2; [|done]. by intros [? ?] [? ?] [= -> ->].
Qed.

Lemma complete_matching_ok w sc s n s' :
  complete_matching w sc s = Ok (n, s') →
  p_pending s' = p_pending s ∧
  ∀ k, p_targets s' !! k = (λ t, if decide (in_wave_scope w sc k)
                                 then mkTarget (target_through t) true else t) <$> p_targets s !! k.
Proof.
  intros [= _ <-]. split; [done|]. intros k. simpl. rewrite map_lookup_imap.
  by destruct (p_targets s !! k).
Qed.

Lemma run_op_targets w o s s' :
  ¬ freezes w o → run_op o s = Ok (tt, s') → targets_frozen w s s'.
Proof.
  intros Hnf H. destruct o; simpl in H, Hnf.
  - apply M_bind_ok in H as ([] & ? & [_ ->]%lift_ok & [_ ->]%upsert_pending_ok). by apply same_targets.
  - apply M_bind_ok in H as (x & s1 & H & [_ ->]%M_ret_ok). unfold request_flush in H.
    apply M_bind_ok in H as ([] & ? & [_ ->]%lift_ok & H).
    apply M_bind_ok in H as (hd & ? & [-> ->]%gets_ok & H).
    apply M_bind_ok in H as (cur & ? & [-> _]%Cursors.cursor_load_ok & H).
    case_decide; [by apply M_ret_ok in H as [_ ->]|].
    apply M_bind_ok in H as ([] & ? & [_ ->]%upsert_pending_ok & [_ ->]%pending_load_ok). by apply same_targets.
  - apply M_bind_ok in H as (x & s1 & H & [_ ->]%M_ret_ok). unfold mark_flush_handled in H.
    apply M_bind_ok in H as ([] & ? & [_ ->]%lift_ok & H).
    apply M_bind_ok in H as (cur & ? & [-> ->]%pending_load_ok & H).
    destruct (p_pending s !! (binding_name, scope_id)); [|by apply M_ret_ok in H as [_ ->]].
    apply M_bind_ok in H as ([] & ? & [_ ->]%put_pending_ok & [_ ->]%pending_load_ok). by apply same_targets.
  - apply M_bind_ok in H as (x & s1 & H & [_ ->]%M_ret_ok). unfold delete_if_covered in H.
    apply M_bind_ok in H as (n & s2 & Hn & H).
    assert (s2 = s) as ->.
    { destruct cursor; [by apply M_ret_ok in Hn as [_ ->]|].
      by apply M_bind_ok in Hn as (row & ? & [-> _]%Cursors.cursor_load_ok & [_ ->]%M_ret_ok). }
    apply M_bind_ok in H as ([] & ? & [_ ->]%lift_ok & H).
    apply M_bind_ok in H as ([] & ? & [_ ->]%lift_ok & H). unfold delete_covered in H.
    repeat case_match; injection H as _ <-; by apply same_targets.
  - unfold freeze_pending in H. apply M_bind_ok in H as ([] & ? & [_ ->]%lift_ok & H).
    apply M_bind_ok in H as ([] & ? & [_ ->]%lift_ok & H). unfold insert_snapshot in H.
    case_decide; [|done]. injection H as <-. intros b sc t Ht. simpl in Ht.
    apply lookup_union_Some_raw in Ht as [Ht|[_ Ht]]; [|by exists t].
    apply snapshot_lookup in Ht as (-> & _). done.
  - apply M_bind_ok in H as (x & s1 & H & [_ ->]%M_ret_ok). unfold mark_completed in H.
    apply M_bind_ok in H as ([] & ? & [_ ->]%lift_ok & H).
    apply M_bind_ok in H as ([] & ? & [_ ->]%lift_ok & H).
    apply M_bind_ok in H as (n & ? & H & [_ ->]%M_ret_ok).
    apply complete_matching_ok in H as [_ E]. intros b sc t Ht. rewrite E in Ht.
    destruct (p_targets s !! (w, b, sc)) as [t0|]; [|done]. injection Ht as <-.
    exists t0. split; [done|]. by case_decide.
  - apply M_bind_ok in H as (x & s1 & H & [_ ->]%M_ret_ok). unfold delete_covered_pending in H.
    apply M_bind_ok in H as ([] & ? & [_ ->]%lift_ok & H).
    apply M_bind_ok in H as ([] & ? & [_ ->]%lift_ok & H). injection H as _ <-. by apply same_targets.
  - apply M_bind_ok in H as ([] & ? & [_ ->]%lift_ok & ->%modifies_ok). intros b sc t Ht.
    simpl in Ht. apply map_lookup_filter_Some in Ht as [Ht _]. by exists t.
  - apply modifies_ok in H as ->. intros b sc t Ht. simpl in Ht. by rewrite lookup_empty in Ht.
Qed.

(** Steps of the processing tables during wave [w]. *)
Inductive during (w : text) (s s' : pdb) : Prop :=
  | during_op o : ¬ freezes w o → run_op o s = Ok (tt, s') → during w s s'
  | during_elsewhere : p_targets s' = p_targets s → during w s s'.

Lemma during_frozen w s s' : rtc (during w) s s' → targets_frozen w s s'.
Proof.
  induction 1 as [|s1 s2 s3 [o Hn H|H] _ IH]; [done|..].
  - etrans; [|exact IH]. by eapply run_op_targets.
  - etrans; [|exact IH]. by apply same_targets.
Qed.

(** A wave deletes only what it froze.  After a wave's snapshot is taken and
    any further operations have run, deleting the wave's covered rows removes a
    row only if it was dirty at the snapshot, its target was completed, and its
    watermark has not risen since: input that arrives during a wave stays dirty
    for the next one. *)
Theorem wave_deletes_only_frozen w b s0 s1 s2 n s3 k r :
  (∀ b' sc, p_targets s0 !! (w, b', sc) = None) →
  freeze_pending w b s0 = Ok (tt, s1) → rtc (during w) s1 s2 →
  delete_covered_pending w b s2 = Ok (n, s3) →
  p_pending s2 !! k = Some r →
  match p_pending s3 !! k with
  | Some r' => r' = r
  | None => k.1 = b ∧ handled_flush_generation r = flush_generation r ∧
      ∃ r0, p_pending s0 !! k = Some r0 ∧ source_through r ≤ source_through r0
  end.
Proof.
  intros Hno Hfr Hd Hdel Hk.
  pose proof (delete_covered_pending_effect _ _ _ _ _ _ _ Hdel Hk) as He. unfold row_effect in He.
  destruct (p_pending s3 !! k) as [r'|] eqn:Hk3.
  - unfold delete_covered_pending in Hdel.
    apply M_bind_ok in Hdel as ([] & ? & [_ ->]%lift_ok & H).
    apply M_bind_ok in H as ([] & ? & [_ ->]%lift_ok & [= _ <-]). simpl in Hk3.
    apply map_lookup_filter_Some in Hk3 as [? _]. congruence.
  - destruct He as (Hh & Hb & t & Ht & _ & Hle). split; [done|]. split; [done|].
    destruct (during_frozen _ _ _ Hd _ _ _ Ht) as (t1 & Ht1 & Heq & _).
    unfold freeze_pending in Hfr. apply M_bind_ok in Hfr as ([] & ? & [_ ->]%lift_ok & H).
    apply M_bind_ok in H as ([] & ? & [_ ->]%lift_ok & H). unfold insert_snapshot in H.
    case_decide; [|done]. injection H as <-. simpl in Ht1.
    apply lookup_union_Some_raw in Ht1 as [Ht1|[_ Ht1]]; [|by rewrite Hno in Ht1].
    apply snapshot_lookup in Ht1 as (_ & Hb' & r0 & Hr0 & ->). simpl in Heq.
    exists r0. destruct k as [k1 k2]. simpl in *. subst. split; [done|lia].
Qed.

(** A flush request either records a new flush generation whose watermark
    reaches the journal head, or changes nothing because the binding's cursor
    has reached the head. *)
Theorem request_flush_effect scope_id binding_name s r s' :
  request_flush scope_id binding_name s = Ok (r, s') →
  let k := (binding_name, scope_id) in
  let head := default 0 (p_heads s !! scope_id) in
  match r with
  | None => s' = s ∧ head ≤ Cursors.cursor_of (scope_id, binding_name) (Cursors.mkWorld s [] [])
  | Some row => p_pending s' = <[k := row]> (p_pending s) ∧ head ≤ source_through row ∧
      match p_pending s !! k with
      | None => flush_generation row = 1 ∧ handled_flush_generation row = 0
      | Some old => flush_generation row = flush_generation old + 1 ∧
          handled_flush_generation row = handled_flush_generation old ∧
          source_through old ≤ source_through row
      end
  end.
Proof.
  intros H. unfold request_flush in H.
  apply M_bind_ok in H as ([] & ? & [_ ->]%lift_ok & H).
  apply M_bind_ok in H as (hd & ? & [-> ->]%gets_ok & H).
  apply M_bind_ok in H as (cur & ? & [-> Hcur]%Cursors.cursor_load_ok & H).
  cbn zeta. unfold Cursors.cursor_of. cbn [Cursors.tables].
  case_decide as Hle.
  - apply M_ret_ok in H as [-> ->]. split; [done|].
    destruct (p_cursors s !! (scope_id, binding_name)) as [c|].
    + destruct Hcur as (m & Hm & ->). simpl in *. by rewrite Hm.
    + by subst cur.
  - apply M_bind_ok in H as ([] & ? & [Hc ->]%upsert_pending_ok & [-> ->]%pending_load_ok).
    simpl. rewrite lookup_insert_eq. split; [done|].
    destruct (p_pending s !! (binding_name, scope_id)) as [r0|]; simpl; [|done].
    case_decide; split_and!; try done; lia.
Qed.

(** ** Concrete runs *)

Definition demo_binding : text := [1].
Definition busy : text := [1].
Definition idle : text := [2].
Definition wave : text := [1].

(** Run operations in order, stopping at the first that raises. *)
Definition after_ops (l : list op) (s : pdb) : pdb :=
  match for_each run_op l s with Ok (_, s') => s' | Err _ => s end.

(** Two dirty Scopes at the snapshot. *)
Definition demo_dirty : pdb :=
  after_ops [NoteSource busy demo_binding 3; NoteSource idle demo_binding 2] (empty_pdb sqlite).
Definition demo_frozen : pdb := after_ops [FreezePending wave demo_binding] demo_dirty.

(** Both complete, but one received a Source during the wave. *)
Definition demo_ran : pdb :=
  after_ops [NoteSource busy demo_binding 4; MarkCompleted wave busy; MarkCompleted wave idle] demo_frozen.
Definition demo_done : pdb := after_ops [DeleteCoveredPending wave demo_binding] demo_ran.

Example demo_done_rows :
  map_to_list (p_pending demo_done) = [((demo_binding, busy), mkPending 4 0 0)].
Proof. vm_compute. reflexivity. Qed.

Lemma signal_survives_witness :
  match p_pending demo_frozen !! (demo_binding, busy) with
  | Some r' => row_le (mkPending 3 0 0) r'
  | None => may_delete (FreezePending wave demo_binding) demo_dirty (demo_binding, busy) (mkPending 3 0 0)
  end.
Proof.
  apply (signal_survives (FreezePending wave demo_binding) demo_dirty).
  - vm_compute. reflexivity.
  - vm_compute. repeat split; discriminate.
  - vm_compute. reflexivity.
Defined.

Lemma during_ops w l s s' :
  Forall (λ o, ¬ freezes w o) l → for_each run_op l s = Ok (tt, s') → rtc (during w) s s'.
Proof.
  intros Hl. revert s. induction Hl as [|o l Ho _ IH]; intros s H.
  - apply M_ret_ok in H as [_ ->]. constructor.
  - apply M_bind_ok in H as ([] & s1 & H1 & H). eapply rtc_l; [by eapply during_op|auto].
Qed.

Lemma wave_deletes_only_frozen_witness :
  match p_pending demo_done !! (demo_binding, idle) with
  | Some r' => r' = mkPending 2 0 0
  | None => demo_binding = demo_binding ∧ 0 = 0 ∧
      ∃ r0, p_pending demo_dirty !! (demo_binding, idle) = Some r0 ∧ 2 ≤ source_through r0
  end.
Proof.
  apply (wave_deletes_only_frozen wave demo_binding demo_dirty demo_frozen demo_ran 1 demo_done
    (demo_binding, idle) (mkPending 2 0 0)).
  - intros b' sc. vm_compute. reflexivity.
  - vm_compute. reflexivity.
  - apply (during_ops wave
      [NoteSource busy demo_binding 4; MarkCompleted wave busy; MarkCompleted wave idle]).
    + repeat constructor; by intros ?.
    + vm_compute. reflexivity.
  - vm_compute. reflexivity.
  - vm_compute. reflexivity.
Defined.

Lemma request_flush_effect_witness :
  0 ≤ Cursors.cursor_of (busy, demo_binding) (Cursors.mkWorld demo_dirty [] []).
Proof.
  apply (request_flush_effect busy demo_binding demo_dirty None demo_dirty).
  vm_compute. reflexivity.
Defined.

End Pending.
