(* ===== verification/Budget.v ===== *)
(** * Topic Memory work budgets

    [builtin/persistence/topic_memory_budget.py]: worst-case charges of one
    unadvanced frontier, committed before the provider is called. *)

From S2P Require Import Prelude Tables Cursors Leases.
Local Open Scope Z_scope.

Module Budget.

(** ** Ceilings *)

Definition MAX_TOPIC_MEMORY_WORK_ATTEMPTS : Z := 3.
Definition MAX_TOPIC_MEMORY_WORK_REQUESTS : Z := 512.
Definition MAX_TOPIC_MEMORY_WORK_TOKENS : Z := 64000000.

Definition RECOVERABLE_TOPIC_MEMORY_REJECTIONS : list text :=
  [str "related_history_limit"; str "invalid_topic_placeholder";
   str "invalid_topic_coordination_content"].

(** A recorded rejection that ends the frontier. *)
Definition terminal (code : text) : Prop := code ≠ [] ∧ code ∉ RECOVERABLE_TOPIC_MEMORY_REJECTIONS.
#[export] Instance terminal_dec code : Decision (terminal code).
Proof. unfold terminal. apply _. Defined.

(** The reason this frontier stops; the empty text while an attempt is left. *)
Definition exhausted_reason (r : budget) : text :=
  let code := failure_code r in
  if decide (terminal code) then code
  else if decide (MAX_TOPIC_MEMORY_WORK_ATTEMPTS ≤ attempts r) then
    (if decide (code = []) then str "window_attempt_limit" else code)
  else if decide (MAX_TOPIC_MEMORY_WORK_REQUESTS ≤ requests r ∨
                  MAX_TOPIC_MEMORY_WORK_TOKENS ≤ tokens r) then
    str "window_provider_budget_exceeded"
  else [].

(** [Some true] for the token ceiling, [Some false] for the request ceiling. *)
Definition ceiling_dimension (requests tokens : Z) : option bool :=
  if decide (requests < MAX_TOPIC_MEMORY_WORK_REQUESTS ∧ MAX_TOPIC_MEMORY_WORK_TOKENS ≤ tokens)
  then Some true
  else if decide (MAX_TOPIC_MEMORY_WORK_REQUESTS ≤ requests ∧ tokens < MAX_TOPIC_MEMORY_WORK_TOKENS)
  then Some false
  else None.

(** The error with the token diagnostics attached to it. *)
Definition budget_error (reason : text) (tokens : option Z) (token_ceiling : option bool) : exn :=
  if decide (reason = str "window_provider_budget_exceeded" ∧ token_ceiling = Some true)
  then TopicMemoryGenerationError reason tokens (Some MAX_TOPIC_MEMORY_WORK_TOKENS)
  else TopicMemoryGenerationError reason None None.

Definition row_error (reason : text) (r : budget) : exn :=
  budget_error reason (Some (tokens r)) (ceiling_dimension (requests r) (tokens r)).

(** ** Rows *)

Notation key := (text * text * Z)%type.

Definition put_budget (k : key) (r : budget) : M pdb unit := λ s,
  if decide (budget_check k.2 r)
  then Ok (tt, set_budgets (<[k := r]> (p_budgets s)) s)
  else Err (IntegrityError "topic_memory_work_budgets").

Definition load_topic_memory_work_budget (k : key) : M pdb (option budget) :=
  gets (λ s, p_budgets s !! k).

Definition require_topic_memory_work_available (scope_id binding_name : text) (source_after : Z)
    : M pdb unit :=
  row ← load_topic_memory_work_budget (scope_id, binding_name, source_after);
  match row with
  | None => mret tt
  | Some r => lift (raise_if (exhausted_reason r ≠ []) (row_error (exhausted_reason r) r))
  end.

(** [value or other] on a nullable text column. *)
Definition or_text (value : option text) (other : text) : option text :=
  match value with Some (c :: t) => Some (c :: t) | _ => Some other end.

Definition settled (now : Z) (code : text) (r : budget) : budget :=
  mkBudget (b_source_through r) (attempt_id r) (attempts r) (requests r) (tokens r) (failure_code r)
    (attempt_source_through r) (started_at r) (Some (default now (finished_at r)))
    (or_text (last_error_code r) code)
    (b_supervisor_group r) (b_supervisor_generation r) (b_holder_id r).

(** The no-op UPDATE of the journal head only takes its lock. *)
Definition record_topic_memory_work_failure (scope_id binding_name error_code : text)
    (attempt : option text) : M pdb unit :=
  cursor ← Cursors.load scope_id binding_name;
  let k := (scope_id, binding_name, Cursors.state_of cursor) in
  row ← load_topic_memory_work_budget k;
  match row with
  | None => mret tt
  | Some r =>
      if decide (attempt_id r ≠ default (attempt_id r) attempt) then mret tt else
        blocked ← gets (λ s, bool_decide (mkBlock (attempt_id r) scope_id binding_name
                                            (Cursors.state_of cursor) ∈ p_blocks s));
        if blocked : bool then mret tt else
          now ← Leases.database_utc_now;
          put_budget k (settled now error_code r)
  end.

(** ** [TopicMemoryWorkBudget] *)

Record work_budget := mkWork {
  scope : text;
  binding : text;
  source_after : Z;
  source_through : Z;
  cursor_generation : option Z;
  work_fence : Leases.fence;
  work_attempt : text
}.

Definition key_of (b : work_budget) : key := (scope b, binding b, source_after b).

(** A transaction keeps its writes when it commits; [raise_after] raises then. *)
Definition transaction {A} (m : M pdb A) (s : pdb) : result A * pdb :=
  match m s with Ok (a, s') => (Ok a, s') | Err e => (Err e, s) end.
Definition raise_after (m : M pdb (option exn)) (s : pdb) : result unit * pdb :=
  match transaction m s with
  | (Ok None, s') => (Ok tt, s')
  | (Ok (Some e), s') => (Err e, s')
  | (Err e, s') => (Err e, s')
  end.

Definition lock (b : work_budget) : M pdb unit :=
  Leases.require_fence (work_fence b) ;;
  cursor ← Cursors.load (scope b) (binding b);
  lift (raise_if (Cursors.state_of cursor ≠ source_after b ∨
                  Cursors.generation <$> cursor ≠ cursor_generation b)
          (GenerationConflictError (cursor_generation b) (Cursors.generation <$> cursor))).

Definition with_code (code : text) (r : budget) : budget :=
  mkBudget (b_source_through r) (attempt_id r) (attempts r) (requests r) (tokens r) code
    (attempt_source_through r) (started_at r) (finished_at r) (last_error_code r)
    (b_supervisor_group r) (b_supervisor_generation r) (b_holder_id r).

(** The row of the first attempt, and of the next one. *)
Definition first_attempt (b : work_budget) : budget :=
  mkBudget (source_through b) (work_attempt b) 1 0 0 [] None None None None None None None.
Definition next_attempt (b : work_budget) (r : budget) : budget :=
  mkBudget (Z.max (source_through b) (b_source_through r)) (work_attempt b) (attempts r + 1)
    (requests r) (tokens r) (failure_code r) (attempt_source_through r) (started_at r)
    (finished_at r) (last_error_code r) (b_supervisor_group r) (b_supervisor_generation r)
    (b_holder_id r).

Definition started (b : work_budget) (now : Z) (r : budget) : budget :=
  mkBudget (b_source_through r) (attempt_id r) (attempts r) (requests r) (tokens r) (failure_code r)
    (Some (source_through b)) (Some now) None None
    (Some (Leases.fence_group (work_fence b))) (Some (Leases.fence_generation (work_fence b)))
    (Some (Leases.fence_holder (work_fence b))).

(** UPDATE ... WHERE the key. *)
Definition update_budget (k : key) (f : budget → budget) : M pdb unit := λ s,
  match p_budgets s !! k with Some r => put_budget k (f r) s | None => Ok (tt, s) end.

Definition start (b : work_budget) : M pdb unit :=
  now ← Leases.database_utc_now; update_budget (key_of b) (started b now).

Definition begin (b : work_budget) : pdb → result unit * pdb := raise_after (
  lock b ;;
  row ← load_topic_memory_work_budget (key_of b);
  match row with
  | None => put_budget (key_of b) (first_attempt b) ;; start b ;; mret None
  | Some r =>
      let reason := exhausted_reason r in
      if decide (reason = []) then
        put_budget (key_of b) (next_attempt b r) ;; start b ;; mret None
      else
        put_budget (key_of b) (with_code reason r) ;; mret (Some (row_error reason r))
  end).

Definition current (b : work_budget) : M pdb budget :=
  row ← load_topic_memory_work_budget (key_of b);
  match row with
  | None => lift (Err (TopicMemoryGenerationError (str "window_attempt_superseded") None None))
  | Some r =>
      lift (raise_if (attempt_id r ≠ work_attempt b)
              (TopicMemoryGenerationError (str "window_attempt_superseded") None None)) ;;
      mret r
  end.

Definition charged (n t : Z) (r : budget) : budget :=
  mkBudget (b_source_through r) (attempt_id r) (attempts r) (requests r + n) (tokens r + t)
    (failure_code r) (attempt_source_through r) (started_at r) (finished_at r) (last_error_code r)
    (b_supervisor_group r) (b_supervisor_generation r) (b_holder_id r).

Definition over_ceiling (n t : Z) (r : budget) : Prop :=
  MAX_TOPIC_MEMORY_WORK_REQUESTS < requests r + n ∨ MAX_TOPIC_MEMORY_WORK_TOKENS < tokens r + t.
#[export] Instance over_ceiling_dec n t r : Decision (over_ceiling n t r).
Proof. unfold over_ceiling. apply _. Defined.

Definition reserve (b : work_budget) (n t : Z) (s : pdb) : result unit * pdb :=
  if decide (n < 1 ∨ t < 1) then (Err (TopicMemoryGenerationError (str "invalid_work_reservation") None None), s)
  else raise_after (
    lock b ;;
    r ← current b;
    let k := key_of b in
    if decide (terminal (failure_code r)) then
      put_budget k (with_code (failure_code r) r) ;; mret (Some (row_error (failure_code r) r))
    else if decide (over_ceiling n t r) then
      put_budget k (with_code (str "window_provider_budget_exceeded") r) ;;
      mret (Some (row_error (str "window_provider_budget_exceeded") (charged n t r)))
    else
      put_budget k (charged n t r) ;; mret None) s.

Definition fail (b : work_budget) (reason : text) : pdb → result unit * pdb := transaction (
  lock b ;;
  r ← current b;
  put_budget (key_of b) (with_code reason r) ;;
  record_topic_memory_work_failure (scope b) (binding b) reason (Some (work_attempt b))).

Definition record_failure (b : work_budget) (code : text) : pdb → result unit * pdb := transaction (
  lock b ;;
  record_topic_memory_work_failure (scope b) (binding b) code (Some (work_attempt b))).

(** Runs inside the publisher's transaction. *)
Definition complete (b : work_budget) : M pdb unit :=
  r ← current b;
  lift (raise_if (terminal (failure_code r)) (row_error (failure_code r) r)) ;;
  modifies (λ s, set_budgets (delete (key_of b) (p_budgets s)) s).

(** ** What an action does to the budget rows *)

Inductive action :=
  | Begin (b : work_budget)
  | Reserve (b : work_budget) (n t : Z)
  | Fail (b : work_budget) (reason : text)
  | RecordFailure (b : work_budget) (code : text)
  | Complete (b : work_budget).

Definition actor (a : action) : work_budget :=
  match a with Begin b | Reserve b _ _ | Fail b _ | RecordFailure b _ | Complete b => b end.

Definition run_action (a : action) : pdb → result unit * pdb :=
  match a with
  | Begin b => begin b
  | Reserve b n t => reserve b n t
  | Fail b reason => fail b reason
  | RecordFailure b code => record_failure b code
  | Complete b => transaction (complete b)
  end.

(** The row changes of an attempt: [b] only touches the row of its key, and
    charges, settles or deletes it only while it holds its attempt. *)
Inductive change (b : work_budget) (m : gmap key budget) : gmap key budget → Prop :=
  | change_first now :
      m !! key_of b = None → change b m (<[key_of b := started b now (first_attempt b)]> m)
  | change_next r now :
      m !! key_of b = Some r → exhausted_reason r = [] →
      change b m (<[key_of b := started b now (next_attempt b r)]> m)
  | change_code r code :
      m !! key_of b = Some r → change b m (<[key_of b := with_code code r]> m)
  | change_charge r n t :
      m !! key_of b = Some r → attempt_id r = work_attempt b → 1 ≤ n → 1 ≤ t →
      ¬ over_ceiling n t r → change b m (<[key_of b := charged n t r]> m)
  | change_settle r now code :
      m !! key_of b = Some r → attempt_id r = work_attempt b →
      change b m (<[key_of b := settled now code r]> m)
  | change_complete r :
      m !! key_of b = Some r → attempt_id r = work_attempt b → change b m (delete (key_of b) m).

Lemma transaction_inv {A} (m : M pdb A) s res s' :
  transaction m s = (res, s') →
  (∃ e, m s = Err e ∧ res = Err e ∧ s' = s) ∨ (∃ a, m s = Ok (a, s') ∧ res = Ok a).
Proof. unfold transaction. destruct (m s) as [[a s1]|e]; intros [= <- <-]; eauto. Qed.

Lemma raise_after_inv m s res s' :
  raise_after m s = (res, s') →
  (∃ e, m s = Err e ∧ res = Err e ∧ s' = s) ∨
  (∃ o, m s = Ok (o, s') ∧ res = match o with None => Ok tt | Some e => Err e end).
Proof.
  unfold raise_after, transaction. destruct (m s) as [[[e|] s1]|e]; intros [= <- <-]; eauto.
Qed.

Lemma put_budget_ok k r s u s' :
  put_budget k r s = Ok (u, s') ↔ budget_check k.2 r ∧ s' = set_budgets (<[k := r]> (p_budgets s)) s.
Proof. unfold put_budget. destruct u. case_decide; naive_solver. Qed.

Lemma lock_ok b s u s' :
  lock b s = Ok (u, s') →
  s' = s ∧ ∃ cursor, Cursors.load (scope b) (binding b) s = Ok (cursor, s) ∧
    Cursors.state_of cursor = source_after b.
Proof.
  unfold lock. intros H. apply M_bind_ok in H as (l & s1 & H1 & H).
  apply (wp_Ok _ _ _ _ _ _ (Leases.require_fence_wp _ _)) in H1 as [-> _].
  apply M_bind_ok in H as (c & s2 & H2 & [H ->]%lift_ok). apply raise_if_ok in H.
  pose proof (Cursors.cursor_load_ok _ _ _ _ _ H2) as [-> _]. split; [done|]. exists c.
  split; [done|]. lia.
Qed.

Lemma current_ok b s r s' :
  current b s = Ok (r, s') → s' = s ∧ p_budgets s !! key_of b = Some r ∧ attempt_id r = work_attempt b.
Proof.
  unfold current, load_topic_memory_work_budget. intros H.
  apply M_bind_ok in H as (row & ? & [-> ->]%gets_ok & H).
  destruct (p_budgets s !! key_of b) as [r0|]; [|by apply lift_ok in H as [? _]].
  apply M_bind_ok in H as ([] & ? & [H1 ->]%lift_ok & [-> ->]%M_ret_ok).
  apply raise_if_ok in H1. split; [done|]. split; [done|].
  destruct (decide (attempt_id r0 = work_attempt b)); tauto.
Qed.

Lemma start_changes b s u s' r :
  p_budgets s !! key_of b = Some r → start b s = Ok (u, s') →
  ∃ now, p_budgets s' = <[key_of b := started b now r]> (p_budgets s).
Proof.
  intros Hr H. unfold start, Leases.database_utc_now, update_budget in H.
  apply M_bind_ok in H as (now & ? & [-> ->]%gets_ok & H). rewrite Hr in H.
  apply put_budget_ok in H as [_ ->]. by exists (p_now s).
Qed.

(** The failure record of the attempt's own frontier. *)
Lemma record_failure_changes b code s u s' cursor :
  Cursors.load (scope b) (binding b) s = Ok (cursor, s) → Cursors.state_of cursor = source_after b →
  record_topic_memory_work_failure (scope b) (binding b) code (Some (work_attempt b)) s = Ok (u, s') →
  p_budgets s' = p_budgets s ∨ change b (p_budgets s) (p_budgets s').
Proof.
  intros Hl Hst H. unfold record_topic_memory_work_failure in H.
  apply M_bind_ok in H as (c & s1 & H1 & H). rewrite Hl in H1. injection H1 as <- <-.
  rewrite Hst in H. unfold load_topic_memory_work_budget in H.
  apply M_bind_ok in H as (row & ? & [-> ->]%gets_ok & H).
  change (scope b, binding b, source_after b) with (key_of b) in H.
  destruct (p_budgets s !! key_of b) as [r|] eqn:Hr; [|apply M_ret_ok in H as [_ ->]; by left].
  simpl in H. destruct (decide (attempt_id r ≠ work_attempt b)) as [|Ha];
    [apply M_ret_ok in H as [_ ->]; by left|].
  apply M_bind_ok in H as (blk & ? & [_ ->]%gets_ok & H). destruct blk;
    [apply M_ret_ok in H as [_ ->]; by left|].
  unfold Leases.database_utc_now in H. apply M_bind_ok in H as (now & ? & [-> ->]%gets_ok & H).
  apply put_budget_ok in H as [_ ->]. right. apply change_settle; [done|].
  destruct (decide (attempt_id r = work_attempt b)); tauto.
Qed.

Lemma begin_changes b s res s' :
  begin b s = (res, s') → rtc (change b) (p_budgets s) (p_budgets s') ∧
  (res = Ok tt → ∃ r, p_budgets s' !! key_of b = Some r ∧ attempt_id r = work_attempt b ∧
     failure_code r = match p_budgets s !! key_of b with None => [] | Some r0 => failure_code r0 end).
Proof.
  intros [(e & _ & -> & ->)|(o & H & ->)]%raise_after_inv; [split; [constructor|done]|].
  apply M_bind_ok in H as ([] & ? & [-> _]%lock_ok & H). unfold load_topic_memory_work_budget in H.
  apply M_bind_ok in H as (row & ? & [-> ->]%gets_ok & H).
  destruct (p_budgets s !! key_of b) as [r|] eqn:Hr.
  - cbv zeta in H. case_decide as Hre.
    + apply M_bind_ok in H as ([] & s2 & [_ ->]%put_budget_ok & H).
      apply M_bind_ok in H as ([] & s3 & H & [-> ->]%M_ret_ok).
      eapply start_changes in H as [now H]; [|simpl; apply lookup_insert_eq].
      simpl in H. rewrite insert_insert_eq in H. rewrite H. split.
      * apply rtc_once. by apply change_next.
      * intros _. eexists. rewrite lookup_insert_eq. by split.
    + apply M_bind_ok in H as ([] & s2 & [_ ->]%put_budget_ok & [-> ->]%M_ret_ok).
      simpl. split; [|done]. apply rtc_once. by apply change_code.
  - apply M_bind_ok in H as ([] & s2 & [_ ->]%put_budget_ok & H).
    apply M_bind_ok in H as ([] & s3 & H & [-> ->]%M_ret_ok).
    eapply start_changes in H as [now H]; [|simpl; apply lookup_insert_eq].
    simpl in H. rewrite insert_insert_eq in H. rewrite H. split.
    + apply rtc_once. by apply change_first.
    + intros _. eexists. rewrite lookup_insert_eq. by split.
Qed.

(** A reservation: charged before it returns, or refused. *)
Lemma reserve_outcome b n t s res s' :
  reserve b n t s = (res, s') →
  (res = Ok tt ∧ 1 ≤ n ∧ 1 ≤ t ∧ ∃ r, p_budgets s !! key_of b = Some r ∧
     attempt_id r = work_attempt b ∧ ¬ terminal (failure_code r) ∧ ¬ over_ceiling n t r ∧
     p_budgets s' = <[key_of b := charged n t r]> (p_budgets s)) ∨
  (∃ e, res = Err e ∧ (p_budgets s' = p_budgets s ∨
     ∃ r code, p_budgets s !! key_of b = Some r ∧ attempt_id r = work_attempt b ∧ terminal code ∧
       p_budgets s' = <[key_of b := with_code code r]> (p_budgets s))).
Proof.
  unfold reserve. case_decide as Hpos; [intros [= <- <-]; eauto|].
  intros [(e & _ & -> & ->)|(o & H & ->)]%raise_after_inv; [right; eauto|].
  apply M_bind_ok in H as ([] & ? & [-> _]%lock_ok & H).
  apply M_bind_ok in H as (r & ? & (-> & Hr & Ha)%current_ok & H). cbv zeta in H.
  case_decide as Ht; [|case_decide as Ho].
  - apply M_bind_ok in H as ([] & s2 & [_ ->]%put_budget_ok & [-> ->]%M_ret_ok).
    right. eexists. split; [done|]. right. exists r, (failure_code r). done.
  - apply M_bind_ok in H as ([] & s2 & [_ ->]%put_budget_ok & [-> ->]%M_ret_ok).
    right. eexists. split; [done|]. right.
    exists r, (str "window_provider_budget_exceeded"). split_and!; try done.
    vm_compute. split; [discriminate|]. intros H. repeat (apply elem_of_cons in H as [H|H]; [discriminate|]).
    by apply elem_of_nil in H.
  - apply M_bind_ok in H as ([] & s2 & [_ ->]%put_budget_ok & [-> ->]%M_ret_ok).
    left. split; [done|]. split; [lia|]. split; [lia|]. by exists r.
Qed.

Lemma run_action_changes a s res s' :
  run_action a s = (res, s') → rtc (change (actor a)) (p_budgets s) (p_budgets s').
Proof.
  destruct a as [b|b n t|b reason|b code|b]; simpl.
  - intros H. by apply begin_changes in H as [H _].
  - intros [(_ & ? & ? & r & ? & ? & ? & ? & ->)|(e & _ & [->|(r & code & ? & ? & _ & ->)])]%reserve_outcome.
    + apply rtc_once. by apply change_charge.
    + constructor.
    + apply rtc_once. by apply change_code.
  - intros [(e & _ & -> & ->)|(o & H & ->)]%transaction_inv; [constructor|].
    apply M_bind_ok in H as ([] & ? & (-> & c & Hc & Hst)%lock_ok & H).
    apply M_bind_ok in H as (r & ? & (-> & Hr & Ha)%current_ok & H).
    apply M_bind_ok in H as ([] & s2 & [_ ->]%put_budget_ok & H).
    eapply rtc_l; [by apply (change_code _ _ r reason)|].
    apply (record_failure_changes _ _ _ _ _ c) in H as [->|H]; [constructor|by apply rtc_once| |done].
    unfold Cursors.load, reads in *. simpl. by destruct (_ ≫= _); simplify_eq.
  - intros [(e & _ & -> & ->)|(o & H & ->)]%transaction_inv; [constructor|].
    apply M_bind_ok in H as ([] & ? & (-> & c & Hc & Hst)%lock_ok & H).
    apply (record_failure_changes _ _ _ _ _ c) in H as [->|H]; [constructor|by apply rtc_once|done..].
  - intros [(e & _ & -> & ->)|(o & H & ->)]%transaction_inv; [constructor|].
    unfold complete in H. apply M_bind_ok in H as (r & ? & (-> & Hr & Ha)%current_ok & H).
    apply M_bind_ok in H as ([] & ? & [_ ->]%lift_ok & ->%modifies_ok).
    apply rtc_once. by apply (change_complete _ _ r).
Qed.

(** ** Correctness *)

(** Workers act in any order; the other tables may change at any time. *)
Inductive step (s s' : pdb) : Prop :=
  | step_action a res : run_action a s = (res, s') → step s s'
  | step_elsewhere : p_budgets s' = p_budgets s → step s s'.

Definition within_ceilings (r : budget) : Prop :=
  (1 ≤ attempts r ∧ attempts r ≤ MAX_TOPIC_MEMORY_WORK_ATTEMPTS) ∧
  (0 ≤ requests r ∧ requests r ≤ MAX_TOPIC_MEMORY_WORK_REQUESTS) ∧
  (0 ≤ tokens r ∧ tokens r ≤ MAX_TOPIC_MEMORY_WORK_TOKENS).

Lemma exhausted_reason_available r :
  exhausted_reason r = [] → attempts r < MAX_TOPIC_MEMORY_WORK_ATTEMPTS.
Proof.
  unfold exhausted_reason. destruct (decide (terminal _)) as [[Hne _]|]; [done|].
  case_decide as Ha; [|lia]. by case_decide.
Qed.

Lemma change_within b m m' :
  change b m m' → map_Forall (λ _, within_ceilings) m → map_Forall (λ _, within_ceilings) m'.
Proof.
  intros Hc Hm. destruct Hc as [now Hn|r now Hr He|r code Hr|r n t Hr _ Hn Ht Ho|r now code Hr|r Hr].
  6: by apply map_Forall_delete.
  all: apply map_Forall_insert_2; [|done]; try (specialize (Hm _ _ Hr); simpl in Hm).
  - unfold within_ceilings, MAX_TOPIC_MEMORY_WORK_ATTEMPTS, MAX_TOPIC_MEMORY_WORK_REQUESTS,
      MAX_TOPIC_MEMORY_WORK_TOKENS. simpl. lia.
  - apply exhausted_reason_available in He. unfold within_ceilings in *. simpl. lia.
  - done.
  - unfold within_ceilings, over_ceiling in *. simpl. lia.
  - done.
Qed.


(** A reservation is charged in full before it returns, so the provider is
    only called for committed usage; a refused one charges nothing and keeps the
    row, whatever marker it leaves. *)
Theorem reserve_charges_first b n t s res s' :
  reserve b n t s = (res, s') →
  match res with
  | Ok _ => 1 ≤ n ∧ 1 ≤ t ∧ ∃ r, p_budgets s !! key_of b = Some r ∧ attempt_id r = work_attempt b ∧
      p_budgets s' = <[key_of b := charged n t r]> (p_budgets s) ∧
      requests r + n ≤ MAX_TOPIC_MEMORY_WORK_REQUESTS ∧ tokens r + t ≤ MAX_TOPIC_MEMORY_WORK_TOKENS
  | Err _ => ∀ k, match p_budgets s !! k, p_budgets s' !! k with
      | Some r, Some r' => requests r' = requests r ∧ tokens r' = tokens r ∧ attempts r' = attempts r
      | None, None => True
      | _, _ => False
      end
  end.
Proof.
  intros [(-> & ? & ? & r & Hr & Ha & _ & Ho & E)|(e & -> & E)]%reserve_outcome.
  - split; [done|]. split; [done|]. exists r. unfold over_ceiling in Ho. split_and!; try done; lia.
  - intros k. destruct E as [->|(r & code & Hr & _ & _ & ->)]; [by destruct (p_budgets s !! k)|].
    rewrite lookup_insert. case_decide; subst; [by rewrite Hr|]. by destruct (p_budgets s !! k).
Qed.

(** [b]'s attempt is not the current one of its frontier. *)
Definition superseded (b : work_budget) (s : pdb) : Prop :=
  ∀ r, p_budgets s !! key_of b = Some r → attempt_id r ≠ work_attempt b.

Lemma change_superseded a b m m' :
  work_attempt a ≠ work_attempt b → change a m m' →
  (∀ r, m !! key_of b = Some r → attempt_id r ≠ work_attempt b) →
  ∀ r, m' !! key_of b = Some r → attempt_id r ≠ work_attempt b.
Proof.
  intros Hne Hc Hb r. destruct Hc as [now Hn|r0 now Hr|r0 code Hr|r0 n t Hr|r0 now code Hr|r0 Hr].
  6: by intros [_ ?]%lookup_delete_Some; apply Hb.
  all: rewrite lookup_insert; case_decide as Hk; [intros [= <-]; simpl; try done|apply Hb].
  all: rewrite Hk in Hr; by apply Hb.
Qed.

Lemma changes_superseded a b m m' :
  work_attempt a ≠ work_attempt b → rtc (change a) m m' →
  (∀ r, m !! key_of b = Some r → attempt_id r ≠ work_attempt b) →
  ∀ r, m' !! key_of b = Some r → attempt_id r ≠ work_attempt b.
Proof.
  intros Hne. induction 1 as [|m1 m2 m3 H _ IH]; [done|]. intros Hm. apply IH.
  exact (change_superseded _ _ _ _ Hne H Hm).
Qed.

(** Actions of any Workers but those that carry attempt [b]. *)
Inductive step_of_others (b : work_budget) (s s' : pdb) : Prop :=
  | others_action a res :
      work_attempt (actor a) ≠ work_attempt b → run_action a s = (res, s') → step_of_others b s s'
  | others_elsewhere : p_budgets s' = p_budgets s → step_of_others b s s'.

(** A newer attempt supersedes an older one for good.  Once another attempt
    has begun on its frontier, the old one can neither charge, record a
    rejection nor complete (and so cannot publish), however the frontier goes
    on. *)
Theorem superseded_attempt_stops b a s s1 s2 :
  key_of a = key_of b → work_attempt a ≠ work_attempt b →
  begin a s = (Ok tt, s1) → rtc (step_of_others b) s1 s2 →
  (∀ n t res s3, reserve b n t s2 = (res, s3) → p_budgets s3 = p_budgets s2 ∧ res ≠ Ok tt) ∧
  (∀ reason res s3, fail b reason s2 = (res, s3) → p_budgets s3 = p_budgets s2 ∧ res ≠ Ok tt) ∧
  (∀ s3, complete b s2 ≠ Ok (tt, s3)).
Proof.
  intros Hk Hne Hb Hs. apply begin_changes in Hb as [_ Hb].
  destruct (Hb eq_refl) as (r & Hr & Ha & _).
  assert (superseded b s1) as Hsup. { intros r' Hr'. rewrite <- Hk in Hr'. congruence. }
  assert (superseded b s2) as Hsup2.
  { clear Hb Hr. induction Hs as [s2|s1 s2 s3 [c res Hc H|H] _ IH]; [done|..]; apply IH.
    - apply run_action_changes in H.
      exact (changes_superseded _ _ _ _ Hc H Hsup).
    - unfold superseded in *. by rewrite H. }
  clear Hs. split; [|split].
  - intros n t res s3 [(_ & _ & _ & r' & Hr' & Ha' & _)|(e & -> & [->|(r' & c & Hr' & Ha' & _)])]%reserve_outcome.
    + by destruct (Hsup2 _ Hr').
    + done.
    + by destruct (Hsup2 _ Hr').
  - intros reason res s3 [(e & _ & -> & ->)|(o & H & ->)]%transaction_inv; [done|].
    apply M_bind_ok in H as ([] & ? & [-> _]%lock_ok & H).
    apply M_bind_ok in H as (r' & ? & (-> & Hr' & Ha')%current_ok & H). by destruct (Hsup2 _ Hr').
  - intros s3 H. unfold complete in H.
    apply M_bind_ok in H as (r' & ? & (-> & Hr' & Ha')%current_ok & H). by destruct (Hsup2 _ Hr').
Qed.

Lemma exhausted_reason_stable r :
  exhausted_reason r ≠ [] →
  exhausted_reason (with_code (exhausted_reason r) r) = exhausted_reason r.
Proof.
  assert (Hlim : terminal (str "window_attempt_limit")) by (vm_compute; set_solver).
  assert (Hpro : terminal (str "window_provider_budget_exceeded")) by (vm_compute; set_solver).
  unfold exhausted_reason. cbn [with_code failure_code attempts requests tokens].
  destruct (decide (terminal (failure_code r))) as [Ht|Ht]; [by rewrite decide_True|].
  destruct (decide (MAX_TOPIC_MEMORY_WORK_ATTEMPTS ≤ attempts r)) as [Ha|Ha].
  - destruct (decide (failure_code r = [])) as [He|He]; [by rewrite decide_True|].
    by rewrite decide_False, decide_False by done.
  - destruct (decide (_ ∨ _)); [by rewrite decide_True|done].
Qed.

(** An exhausted frontier cannot be restarted: [begin] raises the reason
    after recording it, charges nothing, and the row is exhausted for the same
    reason afterwards; a frontier that is not exhausted starts a new attempt
    that keeps the usage charged so far. *)
Theorem begin_respects_exhaustion b r s res s' :
  lock b s = Ok (tt, s) → p_budgets s !! key_of b = Some r → budget_check (source_after b) r →
  source_after b < source_through b →
  begin b s = (res, s') →
  ∃ r', p_budgets s' !! key_of b = Some r' ∧ requests r' = requests r ∧ tokens r' = tokens r ∧
  if decide (exhausted_reason r = []) then
    res = Ok tt ∧ attempt_id r' = work_attempt b ∧ attempts r' = attempts r + 1
  else
    res = Err (row_error (exhausted_reason r) r) ∧ attempts r' = attempts r ∧
    exhausted_reason r' = exhausted_reason r.
Proof.
  intros Hl Hr Hc Hw Hb. unfold begin, raise_after, transaction, mbind, M_bind in Hb.
  rewrite Hl in Hb. unfold load_topic_memory_work_budget, gets in Hb. rewrite Hr in Hb.
  destruct Hc as (Hc1 & Hc2 & Hc3). case_decide as He.
  - unfold put_budget in Hb. rewrite decide_True in Hb.
    2:{ unfold budget_check. simpl. split; [lia|]. split; [lia|].
        destruct (attempt_source_through r); [lia|done]. }
    unfold start, Leases.database_utc_now, update_budget, gets, mbind, M_bind in Hb. simpl in Hb.
    rewrite lookup_insert_eq in Hb. unfold put_budget in Hb. rewrite decide_True in Hb.
    2:{ unfold budget_check. simpl. lia. }
    injection Hb as <- <-. simpl. rewrite lookup_insert_eq. by eexists.
  - unfold put_budget in Hb. rewrite decide_True in Hb by done.
    injection Hb as <- <-. simpl. rewrite lookup_insert_eq. eexists. split_and!; try done.
    by apply exhausted_reason_stable.
Qed.

(** ** Concrete runs *)

Definition demo_scope : text := [1].
Definition demo_fence : Leases.fence :=
  Leases.mkFence [1] [1] 1 Leases.single_process.
Definition demo_pdb : pdb :=
  set_leases {[ [1] := mkLease [1] 1 None ]} (empty_pdb sqlite).

Definition attempt (id : text) : work_budget :=
  mkWork demo_scope [1] 0 5 None demo_fence id.
Definition first : work_budget := attempt [1].
Definition second : work_budget := attempt [2].

Definition begun : pdb := (begin first demo_pdb).2.
Definition reserved : pdb := (reserve first 8 1000 begun).2.
Definition retaken : pdb := (begin second reserved).2.

Definition retaken_row : budget :=
  mkBudget 5 [2] 2 8 1000 [] (Some 5) (Some 0) None None
    (Some [1]) (Some 1) (Some [1]).

Example retaken_rows : p_budgets retaken !! key_of first = Some retaken_row.
Proof. vm_compute. reflexivity. Qed.


Lemma reserve_charges_first_witness :
  1 ≤ 8 ∧ 1 ≤ 1000 ∧ ∃ r, p_budgets begun !! key_of first = Some r ∧
    attempt_id r = work_attempt first ∧
    p_budgets reserved = <[key_of first := charged 8 1000 r]> (p_budgets begun) ∧
    requests r + 8 ≤ MAX_TOPIC_MEMORY_WORK_REQUESTS ∧ tokens r + 1000 ≤ MAX_TOPIC_MEMORY_WORK_TOKENS.
Proof.
  apply (reserve_charges_first first 8 1000 begun (Ok tt) reserved). vm_compute. reflexivity.
Defined.

Lemma superseded_attempt_stops_witness : complete first retaken ≠ Ok (tt, retaken).
Proof.
  apply (proj2 (superseded_attempt_stops first second reserved retaken retaken
    ltac:(vm_compute; reflexivity) ltac:(vm_compute; discriminate)
    ltac:(vm_compute; reflexivity) ltac:(constructor))).
Defined.

Lemma begin_respects_exhaustion_witness :
  ∃ r', p_budgets retaken !! key_of second = Some r' ∧ requests r' = 8 ∧ tokens r' = 1000.
Proof.
  destruct (begin_respects_exhaustion second (charged 8 1000 (started first 0 (first_attempt first)))
    reserved (Ok tt) retaken) as (r' & Hr' & Hq & Ht & _).
  - vm_compute. reflexivity.
  - vm_compute. reflexivity.
  - vm_compute. repeat split; discriminate.
  - vm_compute. reflexivity.
  - vm_compute. reflexivity.
  - exists r'. split; [exact Hr'|]. split; [exact Hq|exact Ht].
Defined.

End Budget.
