(* ===== verification/Catalog.v ===== *)
(** * Artifact tables

    The rows of the Artifact tables of [builtin/persistence/tables.py], the values
    of [artifacts/models.py] that they hold, the transaction state [adb] over
    them, and the admission of Sources as lineage evidence
    ([builtin/source_eligibility.py]). *)

From S2P Require Import Prelude Tables.
Local Open Scope Z_scope.

(** ** Values *)

(** [ArtifactRef]; [SourceRef] is its type and id. *)
Record art_ref := mkRef { ref_family : text; ref_id : text; ref_revision : Z }.
#[export] Instance art_ref_eq_dec : EqDecision art_ref.
Proof. solve_decision. Defined.
Notation source_ref := (text * text)%type.

Definition valid_part (value : text) (maximum : Z) : Prop := trimmed value ∧ len value ≤ maximum.
#[export] Instance valid_part_dec v m : Decision (valid_part v m).
Proof. unfold valid_part. apply _. Defined.

Definition legacy_memory_family : text := str "memory".

Definition valid_ref (r : art_ref) : Prop :=
  valid_part (ref_family r) MAX_ARTIFACT_FAMILY_LENGTH ∧ ref_family r ≠ legacy_memory_family ∧
  valid_part (ref_id r) MAX_ARTIFACT_ID_LENGTH ∧ 1 ≤ ref_revision r.
#[export] Instance valid_ref_dec r : Decision (valid_ref r).
Proof. unfold valid_ref. apply _. Defined.

(** Constructing an [ArtifactRef] validates it. *)
Definition new_ref (family artifact_id : text) (revision : Z) : result art_ref :=
  raise_if (¬ valid_ref (mkRef family artifact_id revision)) (ValueError "ArtifactRef") ;;
  Ok (mkRef family artifact_id revision).

(** Row keys: a revision in its Scope, and a logical identity. *)
Notation rev_key := (text * text * text * Z)%type.
Notation head_key := (text * text * text)%type.
Definition key_in (scope_id : text) (r : art_ref) : rev_key :=
  (scope_id, ref_family r, ref_id r, ref_revision r).
Definition head_of (scope_id : text) (r : art_ref) : head_key := (scope_id, ref_family r, ref_id r).

(** A validated content model: its class and its canonical payload. *)
Record content := mkContent { content_class : text; payload : text }.
#[export] Instance content_eq_dec : EqDecision content.
Proof. solve_decision. Defined.

(** [ArtifactLineage]; a publication source comes with its digest. *)
Record lineage := mkLineage {
  lineage_sources : list source_ref;
  lineage_artifacts : list art_ref;
  publication : option (rev_key * text)
}.
#[export] Instance lineage_eq_dec : EqDecision lineage.
Proof. solve_decision. Defined.

Record artifact := mkArtifact { art_self : art_ref; art_content : content; art_lineage : lineage }.
#[export] Instance artifact_eq_dec : EqDecision artifact.
Proof. solve_decision. Defined.

Record draft := mkDraft {
  draft_family : text;
  draft_content : content;
  draft_sources : list source_ref;
  draft_artifacts : list art_ref
}.
#[export] Instance draft_eq_dec : EqDecision draft.
Proof. solve_decision. Defined.

(** [ArtifactLifecycleState]. *)
Inductive lifecycle := ACTIVE | DEPRECATED | RETIRED.
#[export] Instance lifecycle_eq_dec : EqDecision lifecycle.
Proof. solve_decision. Defined.

(** ** Rows *)

(** [PendingRollback]: the columns a bound rollback stamps on one revision. *)
Record rollback := mkRollback {
  stamp_target : art_ref;
  restored_from : Z;
  rollback_reason : text;
  rollback_actor : option (text * text)
}.
#[export] Instance rollback_eq_dec : EqDecision rollback.
Proof. solve_decision. Defined.

Record body := mkBody { body_content : content; created_at : Z; body_stamp : option rollback }.
#[export] Instance body_eq_dec : EqDecision body.
Proof. solve_decision. Defined.

Record head := mkHead {
  head_revision : Z;
  head_state : lifecycle;
  head_replacement : option text;
  head_merged_into : option text;
  head_generation : Z
}.
#[export] Instance head_eq_dec : EqDecision head.
Proof. solve_decision. Defined.

Definition head_check (artifact_id : text) (h : head) : Prop :=
  0 < head_revision h ∧ 0 ≤ head_generation h ∧
  (head_replacement h = None ∨ head_state h = DEPRECATED) ∧
  (head_merged_into h = None ∨
   head_state h = DEPRECATED ∧ head_merged_into h ≠ Some artifact_id ∧ head_replacement h = None).
#[export] Instance head_check_dec i h : Decision (head_check i h).
Proof. unfold head_check. apply _. Defined.

(** The tables one Artifact transaction sees, the clock and the bound rollback. *)
Record adb := mkAdb {
  a_now : Z;
  a_rollback : option rollback;
  a_sources : gmap (text * text * text) source_row;
  a_bodies : gmap rev_key body;
  a_source_refs : gmap rev_key (list source_ref);
  a_artifact_refs : gmap rev_key (list (art_ref * bool));
  a_publications : gmap rev_key (rev_key * text);
  a_heads : gmap head_key head
}.

Definition set_bodies (v : gmap rev_key body) (s : adb) : adb :=
  mkAdb (a_now s) (a_rollback s) (a_sources s) v (a_source_refs s) (a_artifact_refs s)
    (a_publications s) (a_heads s).
Definition set_source_refs (v : gmap rev_key (list source_ref)) (s : adb) : adb :=
  mkAdb (a_now s) (a_rollback s) (a_sources s) (a_bodies s) v (a_artifact_refs s)
    (a_publications s) (a_heads s).
Definition set_artifact_refs (v : gmap rev_key (list (art_ref * bool))) (s : adb) : adb :=
  mkAdb (a_now s) (a_rollback s) (a_sources s) (a_bodies s) (a_source_refs s) v
    (a_publications s) (a_heads s).
Definition set_heads (v : gmap head_key head) (s : adb) : adb :=
  mkAdb (a_now s) (a_rollback s) (a_sources s) (a_bodies s) (a_source_refs s) (a_artifact_refs s)
    (a_publications s) v.
Definition set_sources (v : gmap (text * text * text) source_row) (s : adb) : adb :=
  mkAdb (a_now s) (a_rollback s) v (a_bodies s) (a_source_refs s) (a_artifact_refs s)
    (a_publications s) (a_heads s).

Definition empty_adb : adb := mkAdb 0 None ∅ ∅ ∅ ∅ ∅ ∅.

Definition require_scope (scope_id : text) : result unit :=
  require_identifier "scope_id" scope_id MAX_SCOPE_ID_LENGTH.

(** ** Heads as the database writes them *)

(** INSERT of a head row: primary key, CHECKs and the revision it names. *)
Definition insert_head (k : head_key) (h : head) : M adb unit := λ s,
  if decide (a_heads s !! k = None ∧ head_check k.2 h ∧ is_Some (a_bodies s !! (k, head_revision h)))
  then Ok (tt, set_heads (<[k := h]> (a_heads s)) s)
  else Err (IntegrityError "artifact_heads").

(** UPDATE ... WHERE the key and [P]: the row count. *)
Definition update_head_where (k : head_key) (P : head → Prop) `{!∀ h, Decision (P h)} (f : head → head)
    : M adb Z := λ s,
  match a_heads s !! k with
  | Some h =>
      if decide (P h) then
        if decide (head_check k.2 (f h) ∧ is_Some (a_bodies s !! (k, head_revision (f h))))
        then Ok (1, set_heads (<[k := f h]> (a_heads s)) s)
        else Err (IntegrityError "artifact_heads")
      else Ok (0, s)
  | None => Ok (0, s)
  end.

(** ** Source evidence *)

(** [ContentSource.is_working_note_active]. *)
Definition is_working_note_active (now : Z) (c : content_source) : bool :=
  working_note c &&
  match expires_at c with
  | NoExpiry => true
  | InvalidExpiry => false
  | ExpiresAt t => bool_decide (now < t)
  end.

(** [require_source_eligible]: ordinary evidence, an active Working Note where
    those are allowed, or a system Source at its exact bound target. *)
Definition require_source_eligible (now : Z) (v : source) (target : option source_target)
    (allow_working_notes : bool) : result unit :=
  match v with
  | AdapterSource _ => Ok tt
  | ContentSource c =>
      if working_note c then
        if allow_working_notes then
          raise_if (is_working_note_active now c = false) WorkingNoteUnavailableError
        else Err SourceNotEligibleError
      else
        match internal c with
        | None => Ok tt
        | Some bound => raise_if (target ≠ Some bound) SourceNotEligibleError
        end
  end.

(** [SourceRepository.get_many]: the Sources by reference; all must exist. *)
Definition get_sources (scope_id : text) (refs : list source_ref) : M adb (list (source_ref * source_row)) :=
  reads (λ s,
    require_scope scope_id ;;
    map_result (λ r : source_ref, match a_sources s !! (scope_id, r.1, r.2) with
                   | Some row => Ok (r, row)
                   | None => Err (RepositoryNotFoundError "source")
                   end) (nub refs)).

(** [SourceRepository.get]. *)
Definition get_source (scope_id : text) (r : source_ref) : M adb source_row := reads (λ s,
  require_scope scope_id ;;
  match a_sources s !! (scope_id, r.1, r.2) with
  | Some row => Ok row
  | None => Err (RepositoryNotFoundError "source")
  end).

(** [GenerationSourceAccess.require_for_generation]. *)
Definition require_for_generation (scope_id : text) (refs : list source_ref)
    : M adb (list (source_ref * source_row)) :=
  rows ← get_sources scope_id refs;
  now ← gets a_now;
  lift (check_each (λ row, require_source_eligible now (source_value row.2) None false) rows) ;;
  mret rows.
