(* ===== verification/Governance.v ===== *)
(** * Lifecycle governance of Artifact heads

    [builtin/persistence/artifact_governance.py]: reading a head's lifecycle and
    its two compare-and-swap transitions. *)

From S2P Require Import Prelude Tables Catalog.
Local Open Scope Z_scope.

Module Governance.

(** [ArtifactGovernance]. *)
Record governance := mkGovernance {
  g_artifact : art_ref;
  g_state : lifecycle;
  g_replacement : option text;
  g_merged_into : option text;
  g_generation : Z
}.
#[export] Instance governance_eq_dec : EqDecision governance.
Proof. solve_decision. Defined.

(** Its field bounds and [validate_replacement]. *)
Definition valid_governance (g : governance) : Prop :=
  valid_ref (g_artifact g) ∧ 0 ≤ g_generation g ∧
  (g_replacement g = None ∨ g_state g = DEPRECATED) ∧
  (g_merged_into g = None ∨
   g_state g = DEPRECATED ∧ g_replacement g = None ∧ g_merged_into g ≠ Some (ref_id (g_artifact g))).
#[export] Instance valid_governance_dec g : Decision (valid_governance g).
Proof. unfold valid_governance. apply _. Defined.

Definition new_governance (g : governance) : result governance :=
  raise_if (¬ valid_governance g) (ValueError "ArtifactGovernance") ;; Ok g.

(** [decode_artifact_governance]. *)
Definition decode_artifact_governance (k : head_key) (h : head) : result governance :=
  new_governance (mkGovernance (mkRef k.1.2 k.2 (head_revision h)) (head_state h)
    (head_replacement h) (head_merged_into h) (head_generation h)).

(** The families whose index publication is built in ([BaseArtifactFamily]). *)
Definition base_families : list text :=
  [str "atomic-memory"; str "experience"; str "skill"; str "handoff"; str "profile"; str "prompt";
   str "topic-memory"].

(** The index of a custom Family: its preparation and publication may refuse the
    transition; what they write is outside these tables. *)
Class CustomIndex := {
  prepare_custom : text → text → text → lifecycle → adb → result unit;
  publish_custom : text → text → text → adb → result unit
}.

Section repository.
Context `{CustomIndex}.

Definition prepare_custom_transition (scope_id family artifact_id : text) (state : lifecycle)
    : M adb unit :=
  if decide (family ∈ base_families) then mret tt
  else reads (prepare_custom scope_id family artifact_id state).
Definition publish_custom_transition (scope_id family artifact_id : text) : M adb unit :=
  if decide (family ∈ base_families) then mret tt
  else reads (publish_custom scope_id family artifact_id).

(** ** [ArtifactGovernanceRepository] *)

Definition get (scope_id family artifact_id : text) : M adb governance := reads (λ s,
  match a_heads s !! (scope_id, family, artifact_id) with
  | None => Err (RepositoryNotFoundError "artifact-head")
  | Some h => decode_artifact_governance (scope_id, family, artifact_id) h
  end).

Definition same_summary (a b : governance) : Prop :=
  g_state a = g_state b ∧ g_merged_into a = g_merged_into b ∧
  g_replacement a = g_replacement b ∧ g_generation a = g_generation b.
#[export] Instance same_summary_dec a b : Decision (same_summary a b).
Proof. unfold same_summary. apply _. Defined.

Definition require_summary (scope_id family artifact_id : text) (expected : governance)
    : M adb governance :=
  current ← get scope_id family artifact_id;
  lift (raise_if (¬ same_summary current expected) (StoredPayloadConflictError "artifact-governance")) ;;
  mret current.

Definition validate_transition (current requested : lifecycle) : result unit :=
  raise_if (current = RETIRED ∧ requested ≠ RETIRED)
    (InvalidArtifactLifecycleError "retired Artifact lifecycle is irreversible") ;;
  raise_if (requested = ACTIVE ∧ current ≠ ACTIVE ∧ current ≠ DEPRECATED)
    (InvalidArtifactLifecycleError "requested Artifact lifecycle transition is not allowed").

Definition transition_merge (scope_id family artifact_id : text) (expected : governance)
    (state : lifecycle) (merged_into replacement : option text) : M adb governance :=
  prepare_custom_transition scope_id family artifact_id state ;;
  lift (validate_transition (g_state expected) state) ;;
  current ← require_summary scope_id family artifact_id expected;
  if decide (g_state expected = state ∧ g_merged_into expected = merged_into ∧
             g_replacement expected = replacement) then mret current else
    requested ← lift (new_governance (mkGovernance (g_artifact current) state replacement merged_into
                                        (g_generation expected + 1)));
    count ← update_head_where (scope_id, family, artifact_id)
              (λ h, head_generation h = g_generation expected)
              (λ h, mkHead (head_revision h) state replacement merged_into (g_generation requested));
    lift (raise_if (count ≠ 1) (StoredPayloadConflictError "artifact-governance")) ;;
    publish_custom_transition scope_id family artifact_id ;;
    mret requested.

(** A head of the family frozen into [artifact_id]. *)
Definition has_frozen_input (scope_id family artifact_id : text) (s : adb) : Prop :=
  ¬ map_Forall (λ k h, ¬ (k.1 = (scope_id, family) ∧ head_merged_into h = Some artifact_id)) (a_heads s).
#[export] Instance has_frozen_input_dec sc f i s : Decision (has_frozen_input sc f i s).
Proof. unfold has_frozen_input. apply _. Defined.

Definition require_no_frozen_input (scope_id family artifact_id : text) : M adb unit := reads (λ s,
  raise_if (has_frozen_input scope_id family artifact_id s)
    (InvalidArtifactLifecycleError "an effective merge result cannot strand frozen inputs")).

Definition require_replacement (scope_id family artifact_id replacement : text) : M adb unit :=
  lift (raise_if (replacement = artifact_id)
          (InvalidArtifactLifecycleError "an Artifact cannot replace itself")) ;;
  r ← get scope_id family replacement;
  lift (raise_if (g_state r = RETIRED)
          (InvalidArtifactLifecycleError "a retired Artifact cannot be a replacement")).

Definition transition (scope_id family artifact_id : text) (expected_generation : Z)
    (state : lifecycle) (replacement : option text) : M adb governance :=
  prepare_custom_transition scope_id family artifact_id state ;;
  current ← get scope_id family artifact_id;
  lift (raise_if (g_merged_into current ≠ None)
          (InvalidArtifactLifecycleError "frozen merge inputs require whole-group restoration")) ;;
  (if decide (state = RETIRED) then require_no_frozen_input scope_id family artifact_id else mret tt) ;;
  lift (validate_transition (g_state current) state) ;;
  match replacement with
  | None => mret tt
  | Some r => require_replacement scope_id family artifact_id r
  end ;;
  requested ← lift (new_governance (mkGovernance (g_artifact current) state replacement None
                                      (expected_generation + 1)));
  count ← update_head_where (scope_id, family, artifact_id)
            (λ h, head_generation h = expected_generation)
            (λ h, mkHead (head_revision h) state replacement (head_merged_into h) (expected_generation + 1));
  lift (raise_if (count ≠ 1) (StoredPayloadConflictError "artifact-governance")) ;;
  publish_custom_transition scope_id family artifact_id ;;
  mret requested.
End repository.

(** ** Effects of the transitions *)

Section effects.
Context `{CustomIndex}.

Lemma update_head_where_ok k P `{!∀ h, Decision (P h)} f s n s' :
  update_head_where k P f s = Ok (n, s') ↔
  (∃ h, a_heads s !! k = Some h ∧ P h ∧ n = 1 ∧ head_check k.2 (f h) ∧
     is_Some (a_bodies s !! (k, head_revision (f h))) ∧ s' = set_heads (<[k := f h]> (a_heads s)) s) ∨
  (match a_heads s !! k with Some h => ¬ P h | None => True end ∧ n = 0 ∧ s' = s).
Proof.
  unfold update_head_where. destruct (a_heads s !! k) as [h|]; [|naive_solver].
  destruct (decide (P h)) as [HP|HP]; [|naive_solver].
  case_decide as Hc; [|naive_solver]. split.
  - intros [= <- <-]. left. exists h. tauto.
  - intros [(h' & [= <-] & _ & -> & _ & _ & ->)|[[] _]]; done.
Qed.

Lemma prepare_custom_ok scope_id family artifact_id state s u s' :
  prepare_custom_transition scope_id family artifact_id state s = Ok (u, s') → s' = s.
Proof.
  unfold prepare_custom_transition. case_decide; [by intros [_ ->]%M_ret_ok|by intros [_ ->]%reads_ok].
Qed.

Lemma publish_custom_ok scope_id family artifact_id s u s' :
  publish_custom_transition scope_id family artifact_id s = Ok (u, s') → s' = s.
Proof.
  unfold publish_custom_transition. case_decide; [by intros [_ ->]%M_ret_ok|by intros [_ ->]%reads_ok].
Qed.

(** The governance a head row decodes to. *)
Definition governance_of (k : head_key) (h : head) : governance :=
  mkGovernance (mkRef k.1.2 k.2 (head_revision h)) (head_state h) (head_replacement h)
    (head_merged_into h) (head_generation h).

Lemma governance_get_ok scope_id family artifact_id s g s' :
  get scope_id family artifact_id s = Ok (g, s') →
  s' = s ∧ ∃ h, a_heads s !! (scope_id, family, artifact_id) = Some h ∧
    g = governance_of (scope_id, family, artifact_id) h.
Proof.
  unfold get. intros [H1 ->]%reads_ok. split; [done|].
  destruct (a_heads s !! (scope_id, family, artifact_id)) as [h|]; [|done].
  unfold decode_artifact_governance, new_governance in H1. run. by exists h.
Qed.

Definition allowed (current requested : lifecycle) : Prop :=
  (current = RETIRED → requested = RETIRED) ∧ (requested = ACTIVE → current = ACTIVE ∨ current = DEPRECATED).

Lemma validate_transition_ok current requested u :
  validate_transition current requested = Ok u → allowed current requested.
Proof.
  unfold validate_transition, allowed. intros H1. apply result_bind_ok in H1 as ([] & H1 & H2).
  apply raise_if_ok in H1, H2. destruct current, requested; naive_solver.
Qed.

(** A transition of one head row, by compare and swap on its generation. *)
Definition transitioned (k : head_key) (h : head) (state : lifecycle) (merged replacement : option text)
    (s s' : adb) : Prop :=
  s' = set_heads (<[k := mkHead (head_revision h) state replacement merged (head_generation h + 1)]>
                    (a_heads s)) s ∧
  head_check k.2 (mkHead (head_revision h) state replacement merged (head_generation h + 1)).

Lemma transition_merge_ok scope_id family artifact_id expected state merged replacement s g s' :
  transition_merge scope_id family artifact_id expected state merged replacement s = Ok (g, s') →
  let k := (scope_id, family, artifact_id) in
  ∃ h, a_heads s !! k = Some h ∧ same_summary (governance_of k h) expected ∧
    allowed (head_state h) state ∧ g_state g = state ∧ g_merged_into g = merged ∧
    g_replacement g = replacement ∧ g_artifact g = g_artifact (governance_of k h) ∧
    ((head_state h = state ∧ head_merged_into h = merged ∧ head_replacement h = replacement ∧
      s' = s ∧ g = governance_of k h) ∨
     (g_generation g = head_generation h + 1 ∧ transitioned k h state merged replacement s s')).
Proof.
  intros H1. unfold transition_merge in H1.
  apply M_bind_ok in H1 as ([] & ? & ->%prepare_custom_ok & H1).
  apply M_bind_ok in H1 as ([] & ? & [Hv ->]%lift_ok & H1). apply validate_transition_ok in Hv.
  apply M_bind_ok in H1 as (current & ? & Hreq & H1). unfold require_summary in Hreq.
  apply M_bind_ok in Hreq as (c & ? & (-> & h & Hh & ->)%governance_get_ok & Hreq).
  apply M_bind_ok in Hreq as ([] & ? & [Hs ->]%lift_ok & [-> ->]%M_ret_ok). apply raise_if_ok in Hs.
  exists h. assert (Hsum : same_summary (governance_of (scope_id, family, artifact_id) h) expected).
  { destruct (decide (same_summary (governance_of (scope_id, family, artifact_id) h) expected)); tauto. }
  destruct Hsum as (Hst & Hme & Hre & Hge). simpl in Hst, Hme, Hre, Hge.
  case_decide as Hsame.
  - apply M_ret_ok in H1 as [-> ->]. destruct Hsame as (E1 & E2 & E3). simpl.
    split_and!; try done; try congruence. left. split_and!; congruence.
  - apply M_bind_ok in H1 as (req & ? & [Hnew ->]%lift_ok & H1). unfold new_governance in Hnew.
    apply result_bind_ok in Hnew as ([] & _ & [= <-]).
    apply M_bind_ok in H1 as (n & s1 & Hu & H1).
    apply M_bind_ok in H1 as ([] & ? & [Hn ->]%lift_ok & H1). apply raise_if_ok in Hn.
    apply M_bind_ok in H1 as ([] & ? & ->%publish_custom_ok & [-> ->]%M_ret_ok).
    apply update_head_where_ok in Hu as [(h' & Hh' & _ & _ & Hc & _ & ->)|(_ & -> & _)]; [|lia].
    simplify_eq. simpl. unfold transitioned. rewrite <- Hge in *.
    split_and!; try done; [congruence|]. right. done.
Qed.

Lemma transition_ok scope_id family artifact_id expected_generation state replacement s g s' :
  transition scope_id family artifact_id expected_generation state replacement s = Ok (g, s') →
  let k := (scope_id, family, artifact_id) in
  ∃ h, a_heads s !! k = Some h ∧ head_generation h = expected_generation ∧
    head_merged_into h = None ∧ allowed (head_state h) state ∧
    (state = RETIRED → ¬ has_frozen_input scope_id family artifact_id s) ∧
    (∀ r, replacement = Some r → r ≠ artifact_id ∧ state = DEPRECATED ∧
       ∃ hr, a_heads s !! (scope_id, family, r) = Some hr ∧ head_state hr ≠ RETIRED) ∧
    g = governance_of k (mkHead (head_revision h) state replacement None (head_generation h + 1)) ∧
    transitioned k h state None replacement s s'.
Proof.
  intros H1. unfold transition in H1.
  apply M_bind_ok in H1 as ([] & ? & ->%prepare_custom_ok & H1).
  apply M_bind_ok in H1 as (c & ? & (-> & h & Hh & ->)%governance_get_ok & H1).
  apply M_bind_ok in H1 as ([] & ? & [Hm ->]%lift_ok & H1). apply raise_if_ok in Hm. simpl in Hm.
  assert (Hmn : head_merged_into h = None) by (destruct (head_merged_into h); [destruct Hm|]; done).
  apply M_bind_ok in H1 as ([] & s1 & Hf & H1).
  assert (s1 = s ∧ (state = RETIRED → ¬ has_frozen_input scope_id family artifact_id s)) as [-> Hfr].
  { case_decide; [|by apply M_ret_ok in Hf as [_ ->]].
    unfold require_no_frozen_input in Hf. apply reads_ok in Hf as [Hf ->]. by apply raise_if_ok in Hf. }
  clear Hf. apply M_bind_ok in H1 as ([] & ? & [Hv ->]%lift_ok & H1). apply validate_transition_ok in Hv.
  apply M_bind_ok in H1 as ([] & s1 & Hr & H1).
  assert (s1 = s ∧ ∀ r, replacement = Some r → r ≠ artifact_id ∧
    ∃ hr, a_heads s !! (scope_id, family, r) = Some hr ∧ head_state hr ≠ RETIRED) as [-> Hrep].
  { destruct replacement as [r|]; [|by apply M_ret_ok in Hr as [_ ->]]. unfold require_replacement in Hr.
    apply M_bind_ok in Hr as ([] & ? & [Hne ->]%lift_ok & Hr). apply raise_if_ok in Hne.
    apply M_bind_ok in Hr as (gr & ? & (-> & hr & Hhr & ->)%governance_get_ok & [Hret ->]%lift_ok).
    apply raise_if_ok in Hret. split; [done|]. intros ? [= <-]. split; [done|]. by exists hr. }
  clear Hr. apply M_bind_ok in H1 as (req & ? & [Hnew ->]%lift_ok & H1). unfold new_governance in Hnew.
  apply result_bind_ok in Hnew as ([] & Hvalid & [= <-]). apply raise_if_ok in Hvalid.
  apply M_bind_ok in H1 as (n & s1 & Hu & H1).
  apply M_bind_ok in H1 as ([] & ? & [Hn ->]%lift_ok & H1). apply raise_if_ok in Hn.
  apply M_bind_ok in H1 as ([] & ? & ->%publish_custom_ok & [-> ->]%M_ret_ok).
  apply update_head_where_ok in Hu as [(h' & Hh' & <- & _ & Hc & _ & ->)|(_ & -> & _)]; [|lia].
  simplify_eq. exists h. rewrite Hmn in *. unfold transitioned, governance_of. simpl.
  split_and!; try done. intros r Hr. destruct (Hrep r Hr) as [? ?]. split_and!; try done.
  destruct Hc as (_ & _ & [Hnone|Hd] & _); [simpl in Hnone; congruence|done].
Qed.

(** Every frozen input's merge result exists and is not retired. *)
Definition merge_targets_live (s : adb) : Prop :=
  ∀ scope_id family i h r, a_heads s !! (scope_id, family, i) = Some h → head_merged_into h = Some r →
    ∃ hr, a_heads s !! (scope_id, family, r) = Some hr ∧ head_state hr ≠ RETIRED.

(** An ordinary lifecycle transition is a compare and swap that never breaks
    the merge relation: it only moves an unfrozen head, it bumps the generation
    it expected by one, a retired identity stays retired, and no frozen input is
    left pointing at a retired result. *)
Theorem transition_keeps_merge_targets scope_id family artifact_id expected_generation state
    replacement s g s' :
  merge_targets_live s →
  transition scope_id family artifact_id expected_generation state replacement s = Ok (g, s') →
  merge_targets_live s' ∧
  ∃ h h', a_heads s !! (scope_id, family, artifact_id) = Some h ∧
    a_heads s' = <[(scope_id, family, artifact_id) := h']> (a_heads s) ∧
    head_merged_into h = None ∧ head_merged_into h' = None ∧
    head_generation h = expected_generation ∧ head_generation h' = expected_generation + 1 ∧
    head_state h' = state ∧ (head_state h = RETIRED → state = RETIRED) ∧
    head_revision h' = head_revision h.
Proof.
  intros Hlive H1. apply transition_ok in H1 as
    (h & Hh & Hg & Hm & [Hret _] & Hfr & _ & _ & -> & _). split.
  - intros sc f i hi r. simpl. rewrite lookup_insert. case_decide as Hk; [by intros [= <-]|].
    intros Hi Hr. destruct (Hlive _ _ _ _ _ Hi Hr) as (hr & Hhr & Hnr).
    rewrite lookup_insert. case_decide as Hk2; [|by exists hr].
    injection Hk2 as -> -> ->. eexists. split; [done|]. simpl. intros ->.
    destruct (Hfr eq_refl). intros Hall. specialize (Hall _ _ Hi). simpl in Hall. tauto.
  - eexists h, _. split; [done|]. split; [done|]. simpl. by rewrite Hg.
Qed.
End effects.

(** ** Concrete runs *)

#[local] Instance no_custom_index : CustomIndex :=
  {| prepare_custom _ _ _ _ _ := Ok tt; publish_custom _ _ _ _ := Ok tt |}.

Definition demo_scope : text := [1].
Definition demo_family : text := [1].
Definition demo_id : text := [1].

Definition demo_heads : adb :=
  set_heads {[ (demo_scope, demo_family, demo_id) := mkHead 1 ACTIVE None None 0 ]}
    (set_bodies {[ (demo_scope, demo_family, demo_id, 1) := mkBody (mkContent [] []) 0 None ]} empty_adb).
Definition demo_retired : adb :=
  set_heads (<[ (demo_scope, demo_family, demo_id) := mkHead 1 RETIRED None None 1 ]> (a_heads demo_heads))
    demo_heads.

Lemma transition_keeps_merge_targets_witness : merge_targets_live demo_retired.
Proof.
  apply (transition_keeps_merge_targets demo_scope demo_family demo_id 0 RETIRED None demo_heads
    (mkGovernance (mkRef demo_family demo_id 1) RETIRED None None 1)).
  - intros sc f i h r. unfold demo_heads. simpl. intros [_ <-]%lookup_singleton_Some. done.
  - vm_compute. reflexivity.
Defined.

End Governance.
