(* ===== verification/Provenance.v ===== *)
(** * Publication provenance

    [ArtifactRepository._load_publication_provenance_many] of
    [builtin/persistence/artifacts.py]: follow the publications of a batch of
    revisions, one frontier at a time, to their original addresses. *)

From S2P Require Import Prelude Tables Catalog.
Local Open Scope Z_scope.

Module Provenance.

(** What one origin has seen: its position, the digest and the visited targets. *)
Record trail := mkTrail { at_ : rev_key; digest : option text; visited : list rev_key }.

(** One origin's step: it finishes with its address and digest, or moves on. *)
Definition advance (publications : gmap rev_key (rev_key * text)) (t : trail)
    : result ((option rev_key * option text) + trail) :=
  raise_if (at_ t ∈ visited t) (InvalidPublicationLineageError "cycle") ;;
  match publications !! at_ t with
  | None => Ok (inl (match digest t with None => None | Some _ => Some (at_ t) end, digest t))
  | Some (source, d) =>
      raise_if (default d (digest t) ≠ d)
        (InvalidPublicationLineageError "digest") ;;
      Ok (inr (mkTrail source (Some d) (at_ t :: visited t)))
  end.

(** One frontier: every origin in order. *)
Fixpoint frontier {A : Type} (publications : gmap rev_key (rev_key * text)) (current : list (A * trail))
    : result (list (A * (option rev_key * option text)) * list (A * trail)) :=
  match current with
  | [] => Ok ([], [])
  | (origin, t) :: rest =>
      step ← advance publications t;
      more ← frontier publications rest;
      Ok (match step with
          | inl done => ((origin, done) :: more.1, more.2)
          | inr t' => (more.1, (origin, t') :: more.2)
          end)
  end.

Fixpoint frontiers {A : Type} (fuel : nat) (publications : gmap rev_key (rev_key * text))
    (current : list (A * trail)) (found : list (A * (option rev_key * option text)))
    : result (list (A * (option rev_key * option text))) :=
  match current with
  | [] => Ok found
  | _ =>
      match fuel with
      | O => Err OutOfFuel
      | S fuel' =>
          out ← frontier publications current;
          frontiers fuel' publications out.2 (found ++ out.1)
      end
  end.

(** Each publication is followed at most once per origin, and one last frontier
    finds no publication: that many rounds are enough. *)
Definition rounds (publications : gmap rev_key (rev_key * text)) : nat := S (size publications).

Definition load_publication_provenance (publications : gmap rev_key (rev_key * text))
    (keys : list rev_key) : result (list (rev_key * (option rev_key * option text))) :=
  frontiers (rounds publications) publications ((λ k, (k, mkTrail k None [])) <$> keys) [].

(** ** Specification

    [path pubs a d b]: publications lead from [a] to the unpublished [b], all
    with digest [d]; at least one was followed. *)
Inductive path (pubs : gmap rev_key (rev_key * text)) : rev_key → text → rev_key → Prop :=
  | path_last a d b : pubs !! a = Some (b, d) → pubs !! b = None → path pubs a d b
  | path_more a d b c : pubs !! a = Some (b, d) → path pubs b d c → path pubs a d c.

(** The origin of a revision: itself unpublished, or the end of its path. *)
Definition origin_of (pubs : gmap rev_key (rev_key * text)) (k : rev_key)
    (p : option rev_key * option text) : Prop :=
  match p with
  | (None, None) => pubs !! k = None
  | (Some b, Some d) => path pubs k d b
  | _ => False
  end.

(** What remains to be found from a trail. *)
Definition trail_result (pubs : gmap rev_key (rev_key * text)) (t : trail)
    (p : option rev_key * option text) : Prop :=
  match digest t with
  | None => origin_of pubs (at_ t) p
  | Some d => p.2 = Some d ∧
      ((pubs !! at_ t = None ∧ p.1 = Some (at_ t)) ∨ ∃ b, p.1 = Some b ∧ path pubs (at_ t) d b)
  end.

Lemma advance_ok pubs t r :
  advance pubs t = Ok r →
  match r with
  | inl p => trail_result pubs t p
  | inr t' => visited t' = at_ t :: visited t ∧ at_ t ∉ visited t ∧ is_Some (pubs !! at_ t) ∧
      ∀ p, trail_result pubs t' p → trail_result pubs t p
  end.
Proof.
  unfold advance. intros H. apply result_bind_ok in H as ([] & Hv & H). apply raise_if_ok in Hv.
  unfold trail_result, origin_of. destruct (pubs !! at_ t) as [[b d]|] eqn:Hp.
  - apply result_bind_ok in H as ([] & Hd & [= <-]). apply raise_if_ok in Hd.
    simpl. split_and!; try done. intros [a c] [Hc Hr]. simpl in *. subst c.
    assert (Hpath : ∃ e, a = Some e ∧ path pubs (at_ t) d e).
    { destruct Hr as [[Hn ->]|(e & -> & He)].
      - exists b. split; [done|]. by apply path_last.
      - exists e. split; [done|]. by eapply path_more. }
    destruct Hpath as (e & -> & He). destruct (digest t) as [d0|]; simpl in *; [|done].
    destruct (decide (d0 = d)) as [->|]; [|tauto]. split; [done|]. right. by exists e.
  - injection H as <-. destruct (digest t); simpl; auto.
Qed.

Lemma frontier_ok {A : Type} pubs (current : list (A * trail)) found pending :
  frontier pubs current = Ok (found, pending) →
  (∀ a p, (a, p) ∈ found → ∃ t, (a, t) ∈ current ∧ trail_result pubs t p) ∧
  (∀ a t', (a, t') ∈ pending → ∃ t, (a, t) ∈ current ∧ advance pubs t = Ok (inr t')) ∧
  (∀ a, a ∈ current.*1 → a ∈ found.*1 ∨ a ∈ pending.*1).
Proof.
  revert found pending. induction current as [|[a t] current IH]; intros found pending H; simpl in H.
  - injection H as <- <-. split_and!; intros; set_solver.
  - apply result_bind_ok in H as (r & Hr & H).
    apply result_bind_ok in H as ([f p] & Hf & H). specialize (IH _ _ Hf) as (I1 & I2 & I3).
    pose proof (advance_ok _ _ _ Hr) as Ha. destruct r as [q|t']; injection H as <- <-.
    + split_and!.
      * intros a' p' [[= -> ->]|Hin]%elem_of_cons; [exists t; split; [left|done]|].
        destruct (I1 _ _ Hin) as (t0 & ? & ?). exists t0. split; [by right|done].
      * intros a' t0 Hin. destruct (I2 _ _ Hin) as (t1 & ? & ?). exists t1. split; [by right|done].
      * intros a'. rewrite !fmap_cons. cbn [fst]. intros [->|Hin]%elem_of_cons; [left; left|].
        destruct (I3 _ Hin); [left; by right|by right].
    + split_and!.
      * intros a' p' Hin. destruct (I1 _ _ Hin) as (t0 & ? & ?). exists t0. split; [by right|done].
      * intros a' t0 [[= -> ->]|Hin]%elem_of_cons; [exists t; split; [left|done]|].
        destruct (I2 _ _ Hin) as (t1 & ? & ?). exists t1. split; [by right|done].
      * intros a'. rewrite !fmap_cons. cbn [fst]. intros [->|Hin]%elem_of_cons; [right; left|].
        destruct (I3 _ Hin); [by left|right; by right].
Qed.

(** A trail visits distinct published targets, one more per frontier. *)
Definition fits (pubs : gmap rev_key (rev_key * text)) (n : nat) (t : trail) : Prop :=
  length (visited t) = n ∧ NoDup (visited t) ∧ ∀ k, k ∈ visited t → is_Some (pubs !! k).

Lemma fits_bound pubs n t : fits pubs n t → (n ≤ size pubs)%nat.
Proof.
  intros (<- & Hnd & Hin). rewrite <- size_dom, <- (size_list_to_set (C := gset rev_key) (visited t)) by done.
  apply subseteq_size. intros k Hk%elem_of_list_to_set. apply elem_of_dom. by apply Hin.
Qed.

Lemma advance_fits pubs n t t' : fits pubs n t → advance pubs t = Ok (inr t') → fits pubs (S n) t'.
Proof.
  intros (Hl & Hnd & Hin) H. apply advance_ok in H as (Hv & Hnew & Hsome & _).
  unfold fits. rewrite Hv. simpl. split_and!; [lia|by constructor|].
  intros k [->|Hk]%elem_of_cons; auto.
Qed.

Lemma frontiers_ok {A : Type} pubs fuel (current : list (A * trail)) found res :
  frontiers fuel pubs current found = Ok res →
  (∀ a p, (a, p) ∈ res → (a, p) ∈ found ∨ ∃ t, (a, t) ∈ current ∧ trail_result pubs t p) ∧
  (∀ a, a ∈ found.*1 ∨ a ∈ current.*1 → a ∈ res.*1).
Proof.
  revert current found. induction fuel as [|fuel IH]; intros current found H.
  - destruct current; simpl in H; [|done]. injection H as <-. split; [auto|]. intros a. set_solver.
  - destruct current as [|x current]; [injection H as <-; split; [auto|]; intros a; set_solver|].
    change (frontiers (S fuel) pubs (x :: current) found) with
      (out ← frontier pubs (x :: current); frontiers fuel pubs out.2 (found ++ out.1)) in H.
    apply result_bind_ok in H as ([f p] & Hf & H). apply frontier_ok in Hf as (F1 & F2 & F3).
    apply IH in H as [H1 H2]. simpl in *. split.
    + intros a q Hq. destruct (H1 _ _ Hq) as [[Hin|Hin]%elem_of_app|(t' & Ht' & Hr)]; [by left|auto|].
      right. destruct (F2 _ _ Ht') as (t & Ht & Ha). exists t. split; [done|].
      apply advance_ok in Ha as (_ & _ & _ & Ha). auto.
    + intros a Ha. apply H2. rewrite fmap_app, elem_of_app.
      destruct Ha as [Ha|Ha]; [auto|]. destruct (F3 _ Ha); auto.
Qed.

Lemma frontiers_fuel {A : Type} pubs fuel n (current : list (A * trail)) found :
  (∀ a t, (a, t) ∈ current → fits pubs n t) → (size pubs < n + fuel)%nat →
  frontiers fuel pubs current found ≠ Err OutOfFuel.
Proof.
  revert n current found. induction fuel as [|fuel IH]; intros n current found Hfit Hn.
  - destruct current as [|[a t] current]; [done|]. specialize (Hfit a t ltac:(left)).
    apply fits_bound in Hfit. lia.
  - destruct current as [|x current]; [done|].
    change (frontiers (S fuel) pubs (x :: current) found) with
      (out ← frontier pubs (x :: current); frontiers fuel pubs out.2 (found ++ out.1)).
    destruct (frontier pubs (x :: current)) as [[f p]|e] eqn:Hf.
    + apply frontier_ok in Hf as (_ & F2 & _). simpl. apply (IH (S n)); [|lia].
      intros a t' Ht'. destruct (F2 _ _ Ht') as (t & Ht & Ha). eapply advance_fits; eauto.
    + simpl. intros [= ->]. clear -Hf. revert Hf. generalize (x :: current). intros l.
      induction l as [|[a t] l IH]; [done|]. cbn [frontier].
      rewrite result_bind_err. intros [Ha|(r & _ & [Hl|(? & _ & ?)]%result_bind_err)]; [|auto|done].
      unfold advance in Ha. apply result_bind_err in Ha as [[_ ?]%raise_if_err|(_ & _ & Ha)]; [done|].
      destruct (pubs !! at_ t) as [[]|]; [|done].
      apply result_bind_err in Ha as [[_ ?]%raise_if_err|(_ & _ & Ha)]; done.
Qed.

Lemma load_provenance_fueled publications keys : fueled (load_publication_provenance publications keys).
Proof.
  unfold load_publication_provenance, fueled. apply (frontiers_fuel _ _ 0); [|unfold rounds; lia].
  intros a t (k & [= -> ->] & _)%list_elem_of_fmap. split_and!; [done|constructor|].
  simpl. by intros k' ?%not_elem_of_nil.
Qed.

(** C14: Provenance terminates and is exact.  Following the publications of a
    batch never runs out of rounds; every requested revision gets an answer, and
    each answer is the end of its publication path with the digest shared by
    every link, or nothing when the revision was not published.  Cycles and
    digest changes raise. *)
Theorem provenance_exact publications keys :
  load_publication_provenance publications keys ≠ Err OutOfFuel ∧
  ∀ res, load_publication_provenance publications keys = Ok res →
    (∀ k, k ∈ keys → k ∈ res.*1) ∧
    (∀ k p, (k, p) ∈ res → k ∈ keys ∧ origin_of publications k p).
Proof.
  split; [apply load_provenance_fueled|]. unfold load_publication_provenance.
  intros res H. apply frontiers_ok in H as [H1 H2]. split.
  - intros k Hk. apply H2. right. rewrite <- list_fmap_compose. simpl.
    apply list_elem_of_fmap. by exists k.
  - intros k p Hp. destruct (H1 _ _ Hp) as [?%not_elem_of_nil|(t & Ht & Hr)]; [done|].
    apply list_elem_of_fmap in Ht as (k' & [= -> ->] & Hk). by split.
Qed.

(** ** Concrete runs *)

Definition address (scope_id : string) : rev_key := (str scope_id, str "experience", str "e", 1).

(** Two publications of one original. *)
Definition demo_publications : gmap rev_key (rev_key * text) :=
  <[address "c" := (address "b", str "d1")]> {[ address "b" := (address "a", str "d1") ]}.

Lemma provenance_exact_witness : origin_of demo_publications (address "c") (Some (address "a"), Some (str "d1")).
Proof.
  apply (proj2 (provenance_exact demo_publications [address "c"; address "a"])
    [(address "a", (None, None)); (address "c", (Some (address "a"), Some (str "d1")))]).
  - vm_compute. reflexivity.
  - right. left.
Defined.

(** A cycle is reported, not followed. *)
Example demo_cycle :
  load_publication_provenance (<[address "a" := (address "c", str "d1")]> demo_publications) [address "c"] =
  Err (InvalidPublicationLineageError "cycle").
Proof. vm_compute. reflexivity. Qed.

End Provenance.
