(* ===== verification/Artifacts.v ===== *)
(** * Optimistic Artifact revisions

    [builtin/persistence/artifacts.py]: creation, revision, merge results, exact
    copies and reads of immutable revisions under one head per identity. *)

From S2P Require Import Prelude Tables Catalog Governance Provenance.
Local Open Scope Z_scope.

Module Artifacts.

(** The registered Families with their content class, and whether a Source
    repository was composed. *)
Record repository := mkRepository { by_family : list (text * text); has_sources : bool }.

(** [_SourceReadSet] and [_ValidatedLineageSources] of the current transaction. *)
Record source_read_set := mkReadSet { read_scope : text; read_rows : list (source_ref * source_row) }.
Record validated_sources := mkValidated {
  v_scope : text; v_target : art_ref; v_sources : list source_ref; v_allow : bool
}.
#[export] Instance validated_sources_eq_dec : EqDecision validated_sources.
Proof. solve_decision. Defined.

Definition find_read (scope_id : text) (r : source_ref) (rs : option source_read_set) : option source_row :=
  rs ← rs; if decide (scope_id = read_scope rs) then dget r (read_rows rs) else None.

(** [try ... except IntegrityError]: the failed statements had no effect on heads. *)
Definition catch_integrity {A} (m h : M adb A) : M adb A := λ s,
  match m s with
  | Err (IntegrityError t) => match h s with Ok _ => Err (IntegrityError t) | Err e => Err e end
  | r => r
  end.

Section repository.
Context (repo : repository).

Definition artifact_type (family : text) : result text :=
  match dget family (by_family repo) with
  | Some c => Ok c
  | None => Err (RepositoryNotFoundError "artifact-family")
  end.

Definition require_content (family : text) (c : content) : result unit :=
  raise_if (dget family (by_family repo) ≠ Some (content_class c)) ArtifactFamilyMismatchError.

(** ** Reads *)

Definition artifact_refs_of (k : rev_key) (s : adb) : list (art_ref * bool) := default [] (a_artifact_refs s !! k).
Definition source_refs_of (k : rev_key) (s : adb) : list source_ref := default [] (a_source_refs s !! k).

(** The direct lineage of a revision with its publication provenance. *)
Definition lineage_of (k : rev_key) (p : option rev_key * option text) (s : adb) : lineage :=
  mkLineage (source_refs_of k s) (artifact_refs_of k s).*1
    (match p with (Some a, Some d) => Some (a, d) | _ => None end).

Definition load_lineage_many (keys : list rev_key) (s : adb) : result (list (rev_key * lineage)) :=
  found ← Provenance.load_publication_provenance (a_publications s) keys;
  Ok ((λ k, (k, lineage_of k (default (None, None) (dget k found)) s)) <$> keys).

Definition decode_artifact (k : rev_key) (b : body) (l : lineage) : result artifact :=
  artifact_type k.1.1.2 ;;
  r ← new_ref k.1.1.2 k.1.2 k.2;
  Ok (mkArtifact r (body_content b) l).

(** Lineage is read a hundred revisions at a time. *)
Definition decode_many (rows : list (rev_key * body)) : M adb (list artifact) := reads (λ s,
  lineages ← map_result (λ batch, load_lineage_many batch s) (batches 100 rows.*1);
  map_result (λ kb, match dget kb.1 (concat lineages) with
                    | Some l => decode_artifact kb.1 kb.2 l
                    | None => Err (RuntimeError "KeyError")
                    end) rows).

Definition get_many (scope_id : text) (refs : list art_ref) : M adb (list artifact) :=
  lift (require_scope scope_id) ;;
  if decide (refs = []) then mret [] else
    lift (check_each (λ r : art_ref, raise_if (dget (ref_family r) (by_family repo) = None)
            (RepositoryNotFoundError "artifact")) refs) ;;
    rows ← gets (λ s, omap (λ k, (λ b, (k, b)) <$> a_bodies s !! k)
                        (nub (key_in scope_id <$> refs)));
    lift (check_each (λ r : art_ref, raise_if (key_in scope_id r ∉ rows.*1)
            (RepositoryNotFoundError "artifact")) refs) ;;
    decoded ← decode_many rows;
    lift (map_result (λ r, match dget r ((λ a, (art_self a, a)) <$> decoded) with
                           | Some a => Ok a
                           | None => Err (RuntimeError "KeyError")
                           end) refs).

(** [for_update] reads the row itself instead of a batch. *)
Definition get (scope_id : text) (r : art_ref) (for_update : bool) : M adb artifact :=
  if for_update then
    lift (require_scope scope_id) ;;
    row ← gets (λ s, a_bodies s !! key_in scope_id r);
    found ← match row with
            | None => lift (Err (RepositoryNotFoundError "artifact"))
            | Some b => decode_many [(key_in scope_id r, b)]
            end;
    match found with a :: _ => mret a | [] => lift (Err (RuntimeError "IndexError")) end
  else
    found ← get_many scope_id [r];
    match found with a :: _ => mret a | [] => lift (Err (RuntimeError "IndexError")) end.

Definition find_head (scope_id family artifact_id : text) : M adb (option Z) :=
  gets (λ s, head_revision <$> a_heads s !! (scope_id, family, artifact_id)).

Definition latest (scope_id family artifact_id : text) (for_update : bool) (known : option artifact)
    : M adb artifact :=
  lift (require_scope scope_id) ;;
  lift (new_ref family artifact_id 1) ;;
  revision ← find_head scope_id family artifact_id;
  match revision with
  | None => lift (Err (RepositoryNotFoundError "artifact"))
  | Some n =>
      match known with
      | Some a => if decide (for_update = false ∧ ref_revision (art_self a) = n) then mret a
                  else r ← lift (new_ref family artifact_id n); get scope_id r for_update
      | None => r ← lift (new_ref family artifact_id n); get scope_id r for_update
      end
  end.

(** The lock itself has no effect; every identity must have a head. *)
Definition lock_heads (scope_id : text) (refs : list art_ref) : M adb unit := reads (λ s,
  require_scope scope_id ;;
  check_each (λ r, raise_if (a_heads s !! head_of scope_id r = None)
                     (RepositoryNotFoundError "artifact-head")) refs).

Definition revision_le (a b : rev_key * body) : Prop := a.1.2 ≤ b.1.2.
#[local] Instance revision_le_dec : RelDecision revision_le := λ a b, Z.le_dec _ _.

Definition revisions (scope_id family artifact_id : text) (since : Z) (through : option Z)
    : M adb (list artifact) :=
  lift (require_scope scope_id) ;;
  lift (new_ref family artifact_id 1) ;;
  rows ← gets (λ s, merge_sort revision_le
           (filter (λ kb, kb.1.1 = (scope_id, family, artifact_id) ∧ since < kb.1.2 ∧
                          kb.1.2 ≤ default (kb.1.2) through) (map_to_list (a_bodies s))));
  decode_many rows.

(** The conflict with a lifecycle that already exists. *)
Definition head_conflict (scope_id : text) (r : art_ref) : M adb (option exn) :=
  head ← find_head scope_id (ref_family r) (ref_id r);
  match head with
  | None => mret None
  | Some n => c ← lift (new_ref (ref_family r) (ref_id r) n);
              a ← get scope_id c false;
              mret (Some (RevisionConflictError (ref_revision (art_self a))))
  end.

(** ** Source evidence *)

Definition validate_lineage_sources (scope_id : text) (target : art_ref) (sources : list source_ref)
    (allow_working_notes : bool) (read_set : option source_read_set) : M adb unit :=
  if has_sources repo then
    fetched ← get_sources scope_id (filter (λ r, find_read scope_id r read_set = None) sources);
    now ← gets a_now;
    lift (check_each (λ r,
      match find_read scope_id r read_set, dget r fetched with
      | Some row, _ | None, Some row =>
          require_source_eligible now (source_value row)
            (Some (mkSourceTarget scope_id (ref_family target) (ref_id target) (ref_revision target)))
            allow_working_notes
      | None, None => Err (RuntimeError "KeyError")
      end) sources)
  else mret tt.

Definition require_validated (scope_id : text) (target : art_ref) (sources : list source_ref)
    (allow_working_notes : bool) (validated : option validated_sources) : M adb unit :=
  if decide (validated = Some (mkValidated scope_id target sources allow_working_notes)) then mret tt
  else validate_lineage_sources scope_id target sources allow_working_notes None.

(** ** Writes *)

Definition insert_body (k : rev_key) (b : body) : M adb unit := λ s,
  if decide (a_bodies s !! k = None) then Ok (tt, set_bodies (<[k := b]> (a_bodies s)) s)
  else Err (IntegrityError "artifacts").

(** The lineage rows of one revision; their ordinals are list positions. *)
Definition insert_source_refs (scope_id : text) (k : rev_key) (refs : list source_ref) : M adb unit := λ s,
  if decide (Forall (λ r : source_ref, is_Some (a_sources s !! (scope_id, r.1, r.2))) refs)
  then Ok (tt, set_source_refs (<[k := refs]> (a_source_refs s)) s)
  else Err (IntegrityError "artifact_lineage_sources").
Definition insert_artifact_refs (scope_id : text) (k : rev_key) (refs : list art_ref) : M adb unit := λ s,
  if decide (Forall (λ r, is_Some (a_bodies s !! key_in scope_id r)) refs)
  then Ok (tt, set_artifact_refs (<[k := (λ r, (r, false)) <$> refs]> (a_artifact_refs s)) s)
  else Err (IntegrityError "artifact_lineage_artifacts").

(** One revision to insert: its reference, content and lineage. *)
Record insertion := mkInsertion { i_ref : art_ref; i_content : content; i_lineage : lineage }.

(** [rollback_columns]: the bound stamp, on the revision it names. *)
Definition rollback_columns (r : art_ref) (s : adb) : option rollback :=
  b ← a_rollback s; if decide (stamp_target b = r) then Some b else None.

Definition insert_revisions (scope_id : text) (items : list insertion) : M adb (list artifact) :=
  for_each (λ i s, insert_body (key_in scope_id (i_ref i))
                     (mkBody (i_content i) (a_now s) (rollback_columns (i_ref i) s)) s) items ;;
  for_each (λ i, insert_source_refs scope_id (key_in scope_id (i_ref i)) (lineage_sources (i_lineage i))) items ;;
  for_each (λ i, insert_artifact_refs scope_id (key_in scope_id (i_ref i)) (lineage_artifacts (i_lineage i))) items ;;
  mret ((λ i, mkArtifact (i_ref i) (i_content i) (i_lineage i)) <$> items).

Definition new_head : head := mkHead 1 ACTIVE None None 0.

Definition new_item := (text * draft * option validated_sources)%type.
Definition new_target (i : new_item) : text * text := (draft_family i.1.2, i.1.1).

(** A bulk creation cannot cite another of its targets. *)
Definition prepare_create (scope_id : text) (items : list new_item) (allow : bool) (i : new_item)
    : M adb insertion :=
  lift (raise_if ((1 < length items)%nat ∧
                  Exists (λ r, (ref_family r, ref_id r) ∈ new_target <$> items) (draft_artifacts i.1.2))
          (InvalidRepositoryArgumentError "items")) ;;
  lift (artifact_type (draft_family i.1.2)) ;;
  lift (require_content (draft_family i.1.2) (draft_content i.1.2)) ;;
  r ← lift (new_ref (draft_family i.1.2) i.1.1 1);
  require_validated scope_id r (draft_sources i.1.2) allow i.2 ;;
  mret (mkInsertion r (draft_content i.1.2)
          (mkLineage (draft_sources i.1.2) (draft_artifacts i.1.2) None)).

Fixpoint prepare_creates (scope_id : text) (items : list new_item) (allow : bool) (l : list new_item)
    : M adb (list insertion) :=
  match l with
  | [] => mret []
  | i :: l' => x ← prepare_create scope_id items allow i;
               xs ← prepare_creates scope_id items allow l'; mret (x :: xs)
  end.

(** Classify an insertion that failed: the first existing lifecycle conflicts. *)
Definition classify_conflict (scope_id : text) (items : list new_item) : M adb unit :=
  for_each (λ i : new_item,
    r ← lift (new_ref (draft_family i.1.2) i.1.1 1);
    conflict ← head_conflict scope_id r;
    match conflict with Some e => lift (Err e) | None => mret tt end) items.

Definition create_many (scope_id : text) (items : list new_item) (allow : bool) : M adb (list artifact) :=
  lift (require_scope scope_id) ;;
  inserts ← prepare_creates scope_id items allow items;
  if decide (inserts = []) then mret [] else
    artifacts ← catch_integrity (insert_revisions scope_id inserts)
                  (classify_conflict scope_id items ;; mret []);
    for_each (λ a, insert_head (head_of scope_id (art_self a)) new_head) artifacts ;;
    mret artifacts.

Definition create (scope_id artifact_id : text) (d : draft) (allow : bool)
    (validated : option validated_sources) : M adb artifact :=
  created ← create_many scope_id [(artifact_id, d, validated)] allow;
  match created with a :: _ => mret a | [] => lift (Err (RuntimeError "IndexError")) end.

(** ** Merge results *)

Definition same_head (r : art_ref) (generation : Z) (h : option head) : Prop :=
  match h with
  | None => False
  | Some h => head_revision h = ref_revision r ∧ head_generation h = generation ∧
              head_state h = ACTIVE ∧ head_merged_into h = None
  end.
#[export] Instance same_head_dec r g h : Decision (same_head r g h).
Proof. destruct h; apply _. Defined.

(** At least two distinct inputs of the Family, each exactly once in the lineage. *)
Definition merge_inputs_ok (artifact_id : text) (d : draft) (refs : list art_ref) : Prop :=
  (2 ≤ length refs)%nat ∧ NoDup (ref_id <$> refs) ∧ artifact_id ∉ ref_id <$> refs ∧
  Forall (λ r, ref_family r = draft_family d ∧ count_occ art_ref_eq_dec (draft_artifacts d) r = 1%nat) refs.
#[export] Instance merge_inputs_ok_dec i d refs : Decision (merge_inputs_ok i d refs).
Proof. unfold merge_inputs_ok. apply _. Defined.

(** [UPDATE ... SET is_merge_input = true] on the selected rows of one revision. *)
Definition flag_inputs (k : rev_key) (refs : list art_ref) : M adb unit := modifies (λ s,
  set_artifact_refs
    (alter (λ l, (λ x : art_ref * bool, (x.1, x.2 || bool_decide (x.1 ∈ refs))) <$> l) k (a_artifact_refs s)) s).

Definition create_merge_result (scope_id artifact_id : text) (d : draft) (inputs : list (art_ref * Z))
    (validated : option validated_sources) : M adb artifact :=
  let refs := inputs.*1 in
  lift (raise_if (¬ merge_inputs_ok artifact_id d refs)
          (InvalidArtifactLifecycleError "merge inputs must be distinct exact references in the result Family")) ;;
  lock_heads scope_id refs ;;
  reads (λ s, check_each (λ i : art_ref * Z,
    raise_if (¬ same_head i.1 i.2 (a_heads s !! head_of scope_id i.1))
      (InvalidArtifactLifecycleError "merge inputs must retain their expected active head and generation"))
    inputs) ;;
  result ← create scope_id artifact_id d false validated;
  flag_inputs (scope_id, ref_family (art_self result), ref_id (art_self result), 1) refs ;;
  mret result.

Definition merge_inputs (scope_id : text) (r : art_ref) : M adb (list art_ref) :=
  if decide (ref_revision r ≠ 1) then mret [] else
    get scope_id r false ;;
    gets (λ s, (filter (λ x : art_ref * bool, x.2 = true)
                  (artifact_refs_of (scope_id, ref_family r, ref_id r, 1) s)).*1).

(** ** Revision *)

(** An artifact's class is the one registered for its Family. *)
Definition revise_with (scope_id : text) (a : artifact) (d : draft) (restoration : option Governance.governance)
    (allow : bool) (validated : option validated_sources) : M adb artifact :=
  let k := head_of scope_id (art_self a) in
  let base := ref_revision (art_self a) in
  lift (require_scope scope_id) ;;
  lift (artifact_type (ref_family (art_self a))) ;;
  lift (raise_if (draft_family d ≠ ref_family (art_self a)) ArtifactFamilyMismatchError) ;;
  lift (require_content (draft_family d) (draft_content d)) ;;
  r ← lift (new_ref (ref_family (art_self a)) (ref_id (art_self a)) (base + 1));
  require_validated scope_id r (draft_sources d) allow validated ;;
  locked ← update_head_where k (λ h, head_revision h = base) (λ h, h);
  (if decide (locked ≠ 1) then
     current ← latest scope_id (ref_family (art_self a)) (ref_id (art_self a)) false None;
     lift (Err (RevisionConflictError (ref_revision (art_self current))))
   else mret tt) ;;
  h ← reads (λ s, match a_heads s !! k with Some h => Ok h | None => Err (RuntimeError "NoResultFound") end);
  lift (match restoration with
        | Some g => raise_if (head_state h ≠ Governance.g_state g ∨ head_merged_into h ≠ Governance.g_merged_into g ∨
                              head_replacement h ≠ Governance.g_replacement g ∨
                              head_generation h ≠ Governance.g_generation g)
                      (StoredPayloadConflictError "artifact-governance")
        | None => Ok tt
        end) ;;
  lift (raise_if (head_state h = RETIRED ∨ (head_merged_into h ≠ None ∧ restoration = None))
          (InvalidArtifactLifecycleError "frozen and retired Artifact identities cannot be revised")) ;;
  inserted ← insert_revisions scope_id
               [mkInsertion r (draft_content d) (mkLineage (draft_sources d) (draft_artifacts d) None)];
  revised ← match inserted with x :: _ => mret x | [] => lift (Err (RuntimeError "IndexError")) end;
  advanced ← update_head_where k (λ h, head_revision h = base)
               (λ h, mkHead (ref_revision r) (head_state h) (head_replacement h) (head_merged_into h)
                       (head_generation h));
  lift (raise_if (advanced ≠ 1) (RevisionConflictError (ref_revision r))) ;;
  mret revised.

Definition revise (scope_id : text) (a : artifact) (d : draft) (allow : bool)
    (validated : option validated_sources) : M adb artifact :=
  revise_with scope_id a d None allow validated.

Definition revise_for_restoration (scope_id : text) (a : artifact) (d : draft)
    (expected : Governance.governance) (validated : option validated_sources) : M adb artifact :=
  lift (raise_if (Governance.g_artifact expected ≠ art_self a)
          (StoredPayloadConflictError "artifact-governance")) ;;
  revise_with scope_id a d (Some expected) false validated.

(** ** Exact copies *)

Definition copy_exact (target_scope_id target_artifact_id : text) (source_address : rev_key)
    (source : artifact) (content_digest : text) : M adb artifact :=
  lift (require_scope target_scope_id) ;;
  lift (artifact_type (ref_family (art_self source))) ;;
  r ← lift (new_ref (ref_family (art_self source)) target_artifact_id 1);
  inserted ← insert_revisions target_scope_id
               [mkInsertion r (art_content source)
                  (mkLineage [] [] (Some (default (source_address, content_digest)
                                            (publication (art_lineage source)))))];
  copied ← match inserted with x :: _ => mret x | [] => lift (Err (RuntimeError "IndexError")) end;
  insert_head (head_of target_scope_id r) new_head ;;
  mret copied.

(** The public [validate_lineage_sources] hands out a token for this transaction. *)
Definition validated_for (scope_id : text) (target : art_ref) (sources : list source_ref)
    (read_set : option source_read_set) : M adb validated_sources :=
  validate_lineage_sources scope_id target sources false read_set ;;
  mret (mkValidated scope_id target sources false).
End repository.

(** ** What a batch of inserted revisions writes *)

Definition puts {A V K : Type} `{Countable K} (key : A → K) (val : A → V) (l : list A) (m : gmap K V)
    : gmap K V := foldl (λ m x, <[key x := val x]> m) m l.

Lemma puts_other {A V K : Type} `{Countable K} (key : A → K) (val : A → V) l m k :
  k ∉ key <$> l → puts key val l m !! k = m !! k.
Proof.
  unfold puts. revert m. induction l as [|x l IH]; intros m Hk; [done|]. simpl.
  rewrite fmap_cons, not_elem_of_cons in Hk. destruct Hk as [Hx Hl].
  rewrite IH by done. by rewrite lookup_insert_ne.
Qed.

Lemma puts_elem {A V K : Type} `{Countable K} (key : A → K) (val : A → V) l m x :
  NoDup (key <$> l) → x ∈ l → puts key val l m !! key x = Some (val x).
Proof.
  unfold puts. revert m. induction l as [|y l IH]; intros m Hnd Hx; [by apply not_elem_of_nil in Hx|].
  rewrite fmap_cons in Hnd. apply NoDup_cons in Hnd as [Hy Hnd]. simpl.
  apply elem_of_cons in Hx as [->|Hx]; [|by apply IH].
  change (puts key val l (<[key y := val y]> m) !! key y = Some (val y)).
  rewrite puts_other by done. by rewrite lookup_insert_eq.
Qed.

Definition new_body (s : adb) (i : insertion) : body :=
  mkBody (i_content i) (a_now s) (rollback_columns (i_ref i) s).
Definition item_key (scope_id : text) (i : insertion) : rev_key := key_in scope_id (i_ref i).
Definition new_lineage (i : insertion) : list (art_ref * bool) :=
  (λ r, (r, false)) <$> lineage_artifacts (i_lineage i).

Lemma insert_bodies_ok scope_id items s u s' :
  for_each (λ i s, insert_body (key_in scope_id (i_ref i))
                     (mkBody (i_content i) (a_now s) (rollback_columns (i_ref i) s)) s) items s = Ok (u, s') →
  NoDup (item_key scope_id <$> items) ∧
  (∀ i, i ∈ items → a_bodies s !! item_key scope_id i = None) ∧
  s' = set_bodies (puts (item_key scope_id) (new_body s) items (a_bodies s)) s.
Proof.
  revert s. induction items as [|i items IH]; intros s H; simpl in H.
  - apply M_ret_ok in H as [_ ->]. split_and!; [constructor| |by destruct s].
    by intros ? ?%not_elem_of_nil.
  - apply M_bind_ok in H as ([] & s1 & H1 & H). unfold insert_body in H1.
    case_decide as Hi; [|done]. injection H1 as <-.
    apply IH in H as (Hnd & Hnew & ->). simpl in *. split_and!.
    + constructor; [|done]. intros (j & Hij & Hj)%list_elem_of_fmap.
      specialize (Hnew j Hj). rewrite <- Hij in Hnew. unfold item_key in Hnew.
      by rewrite lookup_insert_eq in Hnew.
    + intros j [->|Hj]%elem_of_cons; [done|]. specialize (Hnew j Hj).
      rewrite lookup_insert in Hnew. by case_decide.
    + done.
Qed.

Lemma insert_sources_ok scope_id items s u s' :
  for_each (λ i, insert_source_refs scope_id (key_in scope_id (i_ref i)) (lineage_sources (i_lineage i))) items s
    = Ok (u, s') →
  s' = set_source_refs (puts (item_key scope_id) (λ i, lineage_sources (i_lineage i)) items (a_source_refs s)) s.
Proof.
  revert s. induction items as [|i items IH]; intros s H; simpl in H.
  - apply M_ret_ok in H as [_ ->]. by destruct s.
  - apply M_bind_ok in H as ([] & s1 & H1 & H). unfold insert_source_refs in H1.
    case_decide; [|done]. injection H1 as <-. by apply IH in H as ->.
Qed.

Lemma insert_lineage_ok scope_id items s u s' :
  for_each (λ i, insert_artifact_refs scope_id (key_in scope_id (i_ref i)) (lineage_artifacts (i_lineage i))) items s
    = Ok (u, s') →
  s' = set_artifact_refs (puts (item_key scope_id) new_lineage items (a_artifact_refs s)) s ∧
  (∀ i r, i ∈ items → r ∈ lineage_artifacts (i_lineage i) → is_Some (a_bodies s !! key_in scope_id r)).
Proof.
  revert s. induction items as [|i items IH]; intros s H; simpl in H.
  - apply M_ret_ok in H as [_ ->]. split; [by destruct s|]. by intros ? ? ?%not_elem_of_nil.
  - apply M_bind_ok in H as ([] & s1 & H1 & H). unfold insert_artifact_refs in H1.
    case_decide as Hf; [|done]. injection H1 as <-. apply IH in H as [-> Hrest]. split; [done|].
    intros j r [->|Hj]%elem_of_cons Hr; [|by apply (Hrest j)].
    rewrite Forall_forall in Hf. by apply Hf.
Qed.

(** The revisions [items] were inserted: their keys were free and now hold the
    given content and lineage, and nothing else changed. *)
Definition inserted (scope_id : text) (items : list insertion) (s s' : adb) : Prop :=
  NoDup (item_key scope_id <$> items) ∧
  (∀ i, i ∈ items → a_bodies s !! item_key scope_id i = None) ∧
  s' = set_artifact_refs (puts (item_key scope_id) new_lineage items (a_artifact_refs s))
         (set_source_refs (puts (item_key scope_id) (λ i, lineage_sources (i_lineage i)) items (a_source_refs s))
            (set_bodies (puts (item_key scope_id) (new_body s) items (a_bodies s)) s)) ∧
  (∀ i r, i ∈ items → r ∈ lineage_artifacts (i_lineage i) → is_Some (a_bodies s' !! key_in scope_id r)).

Lemma insert_revisions_ok scope_id items s l s' :
  insert_revisions scope_id items s = Ok (l, s') →
  l = (λ i, mkArtifact (i_ref i) (i_content i) (i_lineage i)) <$> items ∧ inserted scope_id items s s'.
Proof.
  unfold insert_revisions. intros H.
  apply M_bind_ok in H as ([] & s1 & (Hnd & Hnew & ->)%insert_bodies_ok & H).
  apply M_bind_ok in H as ([] & s2 & ->%insert_sources_ok & H).
  apply M_bind_ok in H as ([] & s3 & [-> Hfk]%insert_lineage_ok & H).
  apply M_ret_ok in H as [-> ->]. by split_and!.
Qed.

(** ** Effects of the operations *)

Section effects.
Context (repo : repository).

Lemma validate_lineage_sources_ok scope_id target sources allow rs s u s' :
  validate_lineage_sources repo scope_id target sources allow rs s = Ok (u, s') → s' = s.
Proof.
  unfold validate_lineage_sources. destruct (has_sources repo); intros H.
  - apply M_bind_ok in H as (f & ? & Hf & H). unfold get_sources in Hf. apply reads_ok in Hf as [_ ->].
    apply M_bind_ok in H as (now & ? & [-> ->]%gets_ok & H). by apply lift_ok in H as [_ ->].
  - by apply M_ret_ok in H as [_ ->].
Qed.

Lemma require_validated_ok scope_id target sources allow v s u s' :
  require_validated repo scope_id target sources allow v s = Ok (u, s') → s' = s.
Proof.
  unfold require_validated. case_decide; [by intros [_ ->]%M_ret_ok|apply validate_lineage_sources_ok].
Qed.

Lemma new_ref_ok family artifact_id revision r :
  new_ref family artifact_id revision = Ok r → r = mkRef family artifact_id revision ∧ valid_ref r.
Proof.
  unfold new_ref. intros ([] & Hv & [= <-])%result_bind_ok. apply raise_if_ok in Hv. split; [done|].
  destruct (decide (valid_ref (mkRef family artifact_id revision))); tauto.
Qed.

(** The revision a draft asks for. *)
Definition first_revision (i : new_item) : insertion :=
  mkInsertion (mkRef (draft_family i.1.2) i.1.1 1) (draft_content i.1.2)
    (mkLineage (draft_sources i.1.2) (draft_artifacts i.1.2) None).

Lemma prepare_create_ok scope_id items allow i s x s' :
  prepare_create repo scope_id items allow i s = Ok (x, s') →
  s' = s ∧ x = first_revision i ∧ is_Some (dget (draft_family i.1.2) (by_family repo)) ∧ valid_ref (i_ref x).
Proof.
  unfold prepare_create. intros H.
  apply M_bind_ok in H as ([] & ? & [_ ->]%lift_ok & H).
  apply M_bind_ok in H as (c & ? & [Hc ->]%lift_ok & H).
  apply M_bind_ok in H as ([] & ? & [_ ->]%lift_ok & H).
  apply M_bind_ok in H as (r & ? & [[-> Hr]%new_ref_ok ->]%lift_ok & H).
  apply M_bind_ok in H as ([] & ? & ->%require_validated_ok & [-> ->]%M_ret_ok).
  split_and!; try done. unfold artifact_type in Hc. by destruct (dget _ _); eauto.
Qed.

Lemma prepare_creates_ok scope_id items allow l s xs s' :
  prepare_creates repo scope_id items allow l s = Ok (xs, s') →
  s' = s ∧ xs = first_revision <$> l ∧
  (∀ i, i ∈ l → is_Some (dget (draft_family i.1.2) (by_family repo)) ∧ valid_ref (i_ref (first_revision i))).
Proof.
  revert s xs s'. induction l as [|i l IH]; intros s xs s' H; simpl in H.
  - apply M_ret_ok in H as [-> ->]. split_and!; try done. by intros ? ?%not_elem_of_nil.
  - apply M_bind_ok in H as (x & ? & (-> & -> & Hi & Hv)%prepare_create_ok & H).
    apply M_bind_ok in H as (ys & ? & (-> & -> & Hl)%IH & [-> ->]%M_ret_ok).
    split_and!; try done. intros j [->|Hj]%elem_of_cons; [done|auto].
Qed.

Lemma catch_integrity_ok {A} (m h : M adb A) s r : catch_integrity m h s = Ok r → m s = Ok r.
Proof.
  unfold catch_integrity. destruct (m s) as [?|[]]; try done. by destruct (h s).
Qed.

Lemma insert_heads_ok scope_id items s u s' :
  for_each (λ a, insert_head (head_of scope_id (art_self a)) new_head)
    ((λ i, mkArtifact (i_ref i) (i_content i) (i_lineage i)) <$> items) s = Ok (u, s') →
  NoDup ((λ i, head_of scope_id (i_ref i)) <$> items) ∧
  (∀ i, i ∈ items → a_heads s !! head_of scope_id (i_ref i) = None) ∧
  s' = set_heads (puts (λ i, head_of scope_id (i_ref i)) (λ _, new_head) items (a_heads s)) s.
Proof.
  revert s. induction items as [|i items IH]; intros s H; simpl in H.
  - apply M_ret_ok in H as [_ ->]. split_and!; [constructor| |by destruct s].
    by intros ? ?%not_elem_of_nil.
  - apply M_bind_ok in H as ([] & s1 & H1 & H). unfold insert_head in H1.
    case_decide as Hi; [|done]. injection H1 as <-. destruct Hi as (Hi & _ & _).
    apply IH in H as (Hnd & Hnew & ->). simpl in *. split_and!.
    + constructor; [|done]. intros (j & Hij & Hj)%list_elem_of_fmap.
      specialize (Hnew j Hj). simpl in Hij. by rewrite Hij, lookup_insert_eq in Hnew.
    + intros j [->|Hj]%elem_of_cons; [done|]. specialize (Hnew j Hj).
      rewrite lookup_insert in Hnew. by case_decide.
    + done.
Qed.

(** New identities: revision one of each, under a fresh active head. *)
Definition created (scope_id : text) (items : list insertion) (s s' : adb) : Prop :=
  (∀ i, i ∈ items → ref_revision (i_ref i) = 1 ∧ a_heads s !! head_of scope_id (i_ref i) = None) ∧
  NoDup ((λ i, head_of scope_id (i_ref i)) <$> items) ∧
  ∃ s1, inserted scope_id items s s1 ∧
    s' = set_heads (puts (λ i, head_of scope_id (i_ref i)) (λ _, new_head) items (a_heads s)) s1.

Lemma create_many_ok scope_id items allow s l s' :
  create_many repo scope_id items allow s = Ok (l, s') →
  let news := first_revision <$> items in
  l = (λ i, mkArtifact (i_ref i) (i_content i) (i_lineage i)) <$> news ∧ created scope_id news s s' ∧
  (∀ i, i ∈ items → is_Some (dget (draft_family i.1.2) (by_family repo)) ∧ valid_ref (i_ref (first_revision i))).
Proof.
  unfold create_many. intros H.
  apply M_bind_ok in H as ([] & ? & [_ ->]%lift_ok & H).
  apply M_bind_ok in H as (xs & ? & (-> & -> & Hv)%prepare_creates_ok & H). case_decide as Hn.
  - apply M_ret_ok in H as [-> ->]. simpl. rewrite Hn. split_and!; try done.
    split_and!; [by intros ? ?%not_elem_of_nil|constructor|]. exists s. split; [|by destruct s].
    split_and!; [constructor|by intros ? ?%not_elem_of_nil|by destruct s|by intros ? ? ?%not_elem_of_nil].
  - apply M_bind_ok in H as (arts & s1 & H1%catch_integrity_ok & H).
    apply insert_revisions_ok in H1 as [-> Hins].
    apply M_bind_ok in H as ([] & s2 & (Hnd & Hnew & ->)%insert_heads_ok & H).
    apply M_ret_ok in H as [-> ->]. split_and!; try done.
    assert (Hh : a_heads s1 = a_heads s) by (destruct Hins as (_ & _ & -> & _); done).
    split_and!; try done.
    + intros i Hi. rewrite <- Hh. split; [|by apply Hnew].
      apply list_elem_of_fmap in Hi as (j & -> & _). done.
    + exists s1. split; [done|]. by rewrite Hh.
Qed.

Lemma create_ok scope_id artifact_id d allow v s a s' :
  create repo scope_id artifact_id d allow v s = Ok (a, s') →
  let i := first_revision (artifact_id, d, v) in
  a = mkArtifact (i_ref i) (i_content i) (i_lineage i) ∧ created scope_id [i] s s' ∧
  is_Some (dget (draft_family d) (by_family repo)) ∧ valid_ref (i_ref i).
Proof.
  unfold create. intros H. apply M_bind_ok in H as (l & s1 & (-> & Hc & Hv)%create_many_ok & H).
  simpl in H. apply M_ret_ok in H as [-> ->]. simpl.
  destruct (Hv (artifact_id, d, v)) as [? ?]; [left|]. done.
Qed.

Lemma copy_exact_ok target_scope_id target_artifact_id address source digest s a s' :
  copy_exact repo target_scope_id target_artifact_id address source digest s = Ok (a, s') →
  let i := mkInsertion (mkRef (ref_family (art_self source)) target_artifact_id 1) (art_content source)
             (mkLineage [] [] (Some (default (address, digest) (publication (art_lineage source))))) in
  a = mkArtifact (i_ref i) (i_content i) (i_lineage i) ∧ created target_scope_id [i] s s'.
Proof.
  unfold copy_exact. intros H.
  apply M_bind_ok in H as ([] & ? & [_ ->]%lift_ok & H).
  apply M_bind_ok in H as (? & ? & [_ ->]%lift_ok & H).
  apply M_bind_ok in H as (r & ? & [[-> Hr]%new_ref_ok ->]%lift_ok & H).
  apply M_bind_ok in H as (l & s1 & [-> Hins]%insert_revisions_ok & H). simpl in H.
  apply M_bind_ok in H as (first & ? & [-> ->]%M_ret_ok & H).
  apply M_bind_ok in H as ([] & s2 & Hh & [-> ->]%M_ret_ok). split; [done|].
  unfold insert_head in Hh. case_decide as Hc; [|done]. injection Hh as <-. destruct Hc as (Hc & _ & _).
  assert (Hs : a_heads s1 = a_heads s) by (destruct Hins as (_ & _ & -> & _); done). rewrite Hs in Hc.
  split_and!; [|repeat constructor; by intros ?%not_elem_of_nil|].
  - by intros i ->%list_elem_of_singleton.
  - exists s1. split; [done|]. simpl. unfold puts. simpl. by rewrite Hs.
Qed.

(** The next revision of one identity, under its advanced head. *)
Definition appended (scope_id : text) (i : insertion) (h : head) (s s' : adb) : Prop :=
  let k := head_of scope_id (i_ref i) in
  a_heads s !! k = Some h ∧ ref_revision (i_ref i) = head_revision h + 1 ∧ head_state h ≠ RETIRED ∧
  ∃ s1, inserted scope_id [i] s s1 ∧
    s' = set_heads (<[k := mkHead (head_revision h + 1) (head_state h) (head_replacement h)
                             (head_merged_into h) (head_generation h)]> (a_heads s)) s1 ∧
    head_check k.2 (mkHead (head_revision h + 1) (head_state h) (head_replacement h)
                      (head_merged_into h) (head_generation h)).

Definition next_revision (a : artifact) (d : draft) : insertion :=
  mkInsertion (mkRef (ref_family (art_self a)) (ref_id (art_self a)) (ref_revision (art_self a) + 1))
    (draft_content d) (mkLineage (draft_sources d) (draft_artifacts d) None).

(** A lock is a no-op update of the head. *)
Lemma head_lock_ok k base s n s' :
  update_head_where k (λ h, head_revision h = base) (λ h, h) s = Ok (n, s') →
  s' = s ∧ ((n = 1 ∧ ∃ h, a_heads s !! k = Some h ∧ head_revision h = base) ∨
            (n = 0 ∧ ∀ h, a_heads s !! k = Some h → head_revision h ≠ base)).
Proof.
  intros [(h & Hh & Hb & -> & _ & _ & ->)|(Hn & -> & ->)]%Governance.update_head_where_ok.
  - split; [|left; eauto]. destruct s. unfold set_heads. simpl in *. by rewrite insert_id.
  - split; [done|]. right. split; [done|]. intros h Hh. by rewrite Hh in Hn.
Qed.

Lemma revise_with_ok scope_id a d restoration allow v s a' s' :
  revise_with repo scope_id a d restoration allow v s = Ok (a', s') →
  let i := next_revision a d in
  ∃ h, appended scope_id i h s s' ∧ a' = mkArtifact (i_ref i) (i_content i) (i_lineage i) ∧
    head_revision h = ref_revision (art_self a) ∧ draft_family d = ref_family (art_self a) ∧
    is_Some (dget (draft_family d) (by_family repo)) ∧ valid_ref (i_ref i) ∧
    match restoration with
    | None => head_merged_into h = None
    | Some g => Governance.same_summary (Governance.governance_of (head_of scope_id (art_self a)) h) g
    end.
Proof.
  unfold revise_with. intros H.
  apply M_bind_ok in H as ([] & ? & [_ ->]%lift_ok & H).
  apply M_bind_ok in H as (c & ? & [Hc ->]%lift_ok & H).
  apply M_bind_ok in H as ([] & ? & [Hf ->]%lift_ok & H). apply raise_if_ok in Hf.
  apply M_bind_ok in H as ([] & ? & [_ ->]%lift_ok & H).
  apply M_bind_ok in H as (r & ? & [[-> Hr]%new_ref_ok ->]%lift_ok & H).
  apply M_bind_ok in H as ([] & ? & ->%require_validated_ok & H).
  apply M_bind_ok in H as (n & ? & [-> Hlock]%head_lock_ok & H).
  apply M_bind_ok in H as ([] & s1 & Hn & H). destruct (decide (n ≠ 1)) as [_|Hn1].
  { apply M_bind_ok in Hn as (? & ? & _ & [? _]%lift_ok). done. }
  apply M_ret_ok in Hn as [_ ->]. destruct Hlock as [(_ & h & Hh & Hb)|[-> _]]; [|lia].
  apply M_bind_ok in H as (h' & ? & Hh' & H). apply reads_ok in Hh' as [Hh' ->].
  rewrite Hh in Hh'. injection Hh' as <-.
  apply M_bind_ok in H as ([] & ? & [Hres ->]%lift_ok & H).
  apply M_bind_ok in H as ([] & ? & [Hret ->]%lift_ok & H). apply raise_if_ok in Hret.
  apply M_bind_ok in H as (l & s1 & [-> Hins]%insert_revisions_ok & H). simpl in H.
  apply M_bind_ok in H as (first & ? & [-> ->]%M_ret_ok & H).
  apply M_bind_ok in H as (m & s2 & Hu & H).
  apply M_bind_ok in H as ([] & ? & [Hm ->]%lift_ok & [-> ->]%M_ret_ok). apply raise_if_ok in Hm.
  assert (Hs : a_heads s1 = a_heads s) by (destruct Hins as (_ & _ & -> & _); done).
  apply Governance.update_head_where_ok in Hu as [(h' & Hh' & _ & _ & Hchk & _ & ->)|(_ & -> & _)]; [|lia].
  rewrite Hs, Hh in Hh'. injection Hh' as <-. simpl in *.
  exists h. split_and!; try done.
  - unfold appended. simpl. rewrite Hb. split_and!; [done|done|by intros ?; tauto|].
    exists s1. rewrite Hs. split_and!; done.
  - destruct (decide (draft_family d = ref_family (art_self a))); tauto.
  - unfold artifact_type in Hc. destruct (decide (draft_family d = ref_family (art_self a))) as [->|]; [|tauto].
    by destruct (dget _ _); eauto.
  - destruct restoration as [g|].
    + apply raise_if_ok in Hres. unfold Governance.same_summary. simpl.
      split_and!; apply dec_stable; tauto.
    + apply dec_stable. tauto.
Qed.

(** Flags on the lineage rows of one revision. *)
Lemma create_merge_result_ok scope_id artifact_id d inputs v s a s' :
  create_merge_result repo scope_id artifact_id d inputs v s = Ok (a, s') →
  merge_inputs_ok artifact_id d inputs.*1 ∧
  (∀ i, i ∈ inputs → same_head i.1 i.2 (a_heads s !! head_of scope_id i.1)) ∧
  ∃ s1, create repo scope_id artifact_id d false v s = Ok (a, s1) ∧
    s' = set_artifact_refs (alter (λ l, (λ x : art_ref * bool, (x.1, x.2 || bool_decide (x.1 ∈ inputs.*1))) <$> l)
            (scope_id, draft_family d, artifact_id, 1) (a_artifact_refs s1)) s1.
Proof.
  unfold create_merge_result. intros H.
  apply M_bind_ok in H as ([] & ? & [Hok ->]%lift_ok & H). apply raise_if_ok in Hok.
  apply M_bind_ok in H as ([] & ? & Hl & H). unfold lock_heads in Hl. apply reads_ok in Hl as [_ ->].
  apply M_bind_ok in H as ([] & ? & Hs & H). apply reads_ok in Hs as [Hs ->]. apply check_each_ok in Hs.
  apply M_bind_ok in H as (r & s1 & Hc & H).
  apply M_bind_ok in H as ([] & s2 & Hf & [-> ->]%M_ret_ok). unfold flag_inputs in Hf.
  apply modifies_ok in Hf as ->. split; [by apply dec_stable|]. split.
  - intros i Hi. rewrite Forall_forall in Hs. specialize (Hs i Hi). apply raise_if_ok in Hs.
    by apply dec_stable.
  - exists s1. split; [done|]. by apply create_ok in Hc as (-> & _).
Qed.

(** ** What readers get *)

(** The publication a lineage shows is the end of its publication path. *)
Definition published (s : adb) (k : rev_key) (p : option (rev_key * text)) : Prop :=
  match p with
  | None => a_publications s !! k = None
  | Some (b, d) => Provenance.path (a_publications s) k d b
  end.

(** [a] is the stored revision [k] with its direct lineage. *)
Definition stored (s : adb) (k : rev_key) (a : artifact) : Prop :=
  art_self a = mkRef k.1.1.2 k.1.2 k.2 ∧
  (∃ b, a_bodies s !! k = Some b ∧ art_content a = body_content b) ∧
  lineage_sources (art_lineage a) = source_refs_of k s ∧
  lineage_artifacts (art_lineage a) = (artifact_refs_of k s).*1 ∧
  published s k (publication (art_lineage a)).

Lemma load_lineage_many_ok keys s d k l :
  load_lineage_many keys s = Ok d → (k, l) ∈ d →
  k ∈ keys ∧ lineage_sources l = source_refs_of k s ∧ lineage_artifacts l = (artifact_refs_of k s).*1 ∧
  published s k (publication l).
Proof.
  unfold load_lineage_many. intros (found & Hf & [= <-])%result_bind_ok
    (k' & [= <- ->] & Hk)%list_elem_of_fmap. split; [done|]. split; [done|]. split; [done|]. simpl.
  unfold Provenance.load_publication_provenance in Hf. apply Provenance.frontiers_ok in Hf as [H1 H2].
  assert (Hin : k ∈ found.*1).
  { apply H2. right. rewrite <- list_fmap_compose. simpl. apply list_elem_of_fmap. by exists k. }
  apply dget_is_Some in Hin as [p Hp]. rewrite Hp. simpl. apply dget_elem in Hp.
  destruct (H1 _ _ Hp) as [?%not_elem_of_nil|(t & Ht & Hr)]; [done|].
  apply list_elem_of_fmap in Ht as (k' & [= <- ->] & _).
  unfold Provenance.trail_result in Hr. simpl in Hr. unfold Provenance.origin_of in Hr.
  by destruct p as [[b|] [e|]].
Qed.

Lemma decode_many_ok rows s l s' :
  decode_many repo rows s = Ok (l, s') →
  (∀ k b, (k, b) ∈ rows → a_bodies s !! k = Some b) →
  s' = s ∧ Forall2 (λ kb a, stored s kb.1 a) rows l.
Proof.
  unfold decode_many. intros [H ->]%reads_ok Hrows. split; [done|].
  apply result_bind_ok in H as (ds & Hds & H). apply map_result_ok in Hds, H.
  eapply Forall2_in; [exact H|]. clear H. intros [k b] a Hkb H. simpl in *.
  destruct (dget k (concat ds)) as [l'|] eqn:Hl; [|done].
  apply dget_elem, concat_elem_inv in Hl as (dl & Hdl & Hl).
  destruct (Forall2_elem_r _ _ _ _ Hds Hdl) as (batch & _ & Hb).
  destruct (load_lineage_many_ok _ _ _ _ _ Hb Hl) as (_ & E1 & E2 & E3).
  unfold decode_artifact in H. apply result_bind_ok in H as (c & _ & H).
  apply result_bind_ok in H as (r & [-> _]%new_ref_ok & [= <-]). split_and!; simpl; try done.
  exists b. split; [by apply Hrows|done].
Qed.

Lemma key_in_ref scope_id r : mkRef (key_in scope_id r).1.1.2 (key_in scope_id r).1.2 (key_in scope_id r).2 = r.
Proof. by destruct r. Qed.

Lemma get_many_ok scope_id refs s l s' :
  get_many repo scope_id refs s = Ok (l, s') →
  s' = s ∧ Forall2 (λ r a, stored s (key_in scope_id r) a ∧ art_self a = r) refs l.
Proof.
  unfold get_many. intros H. apply M_bind_ok in H as ([] & ? & [_ ->]%lift_ok & H).
  case_decide as Hn; [apply M_ret_ok in H as [-> ->]; subst; by split; [|constructor]|].
  apply M_bind_ok in H as ([] & ? & [_ ->]%lift_ok & H).
  apply M_bind_ok in H as (rows & ? & [-> ->]%gets_ok & H).
  apply M_bind_ok in H as ([] & ? & [Hin ->]%lift_ok & H).
  apply M_bind_ok in H as (arts & ? & [-> Hd]%decode_many_ok & H).
  2: { intros k b (k' & Hk & Hb)%list_elem_of_omap. destruct (a_bodies s !! k') eqn:E; simplify_eq/=. done. }
  apply lift_ok in H as [H ->]. split; [done|]. apply map_result_ok in H.
  eapply Forall2_in; [exact H|]. intros r a _ Hr. simpl in Hr.
  destruct (dget r _) as [a'|] eqn:Ha; [|done]. injection Hr as <-.
  apply dget_elem, list_elem_of_fmap in Ha as (a & [= Hr <-] & Ha).
  destruct (Forall2_elem_r _ _ _ _ Hd Ha) as ([k b] & Hk & Hst). simpl in Hst.
  apply list_elem_of_omap in Hk as (k' & Hk & Hb). destruct (a_bodies s !! k'); simplify_eq/=.
  apply (proj1 (nub_elem _ _)), list_elem_of_fmap in Hk as (r0 & -> & _).
  assert (art_self a' = r0) as <- by (destruct Hst as (-> & _); apply key_in_ref). done.
Qed.

Lemma get_ok scope_id r s a s' :
  get repo scope_id r false s = Ok (a, s') → s' = s ∧ stored s (key_in scope_id r) a ∧ art_self a = r.
Proof.
  unfold get. intros (l & ? & [-> Hl]%get_many_ok & H)%M_bind_ok.
  inversion Hl as [|? a' ? ? [? ?] _]; subst. by apply M_ret_ok in H as [-> ->].
Qed.

(** The head's revision is the one read. *)
Lemma get_for_update_ok scope_id r u s a s' :
  get repo scope_id r u s = Ok (a, s') → s' = s ∧ stored s (key_in scope_id r) a ∧ art_self a = r.
Proof.
  destruct u; [|apply get_ok]. unfold get. intros H.
  apply M_bind_ok in H as ([] & ? & [_ ->]%lift_ok & H).
  apply M_bind_ok in H as (row & ? & [-> ->]%gets_ok & H).
  apply M_bind_ok in H as (l & s1 & Hl & H). destruct (a_bodies s !! key_in scope_id r) as [b|] eqn:Hb; [|by run].
  apply decode_many_ok in Hl as [-> Hl]; [|intros k b' Hk; by apply list_elem_of_singleton in Hk as [= -> ->]].
  inversion Hl as [|? a' ? ? Ha _]; subst. apply M_ret_ok in H as [-> ->].
  split_and!; [done|done|]. destruct Ha as (-> & _). apply key_in_ref.
Qed.

Lemma latest_ok scope_id family artifact_id u s a s' :
  latest repo scope_id family artifact_id u None s = Ok (a, s') →
  s' = s ∧ ∃ h, a_heads s !! (scope_id, family, artifact_id) = Some h ∧
    stored s (scope_id, family, artifact_id, head_revision h) a ∧
    art_self a = mkRef family artifact_id (head_revision h).
Proof.
  unfold latest. intros H. apply M_bind_ok in H as ([] & ? & [_ ->]%lift_ok & H).
  apply M_bind_ok in H as (r0 & ? & [_ ->]%lift_ok & H). unfold find_head in H.
  apply M_bind_ok in H as (n & ? & [-> ->]%gets_ok & H).
  destruct (a_heads s !! (scope_id, family, artifact_id)) as [h|] eqn:Hh; simpl in H; [|by run].
  apply M_bind_ok in H as (r & ? & [Hr ->]%lift_ok & H).
  apply new_ref_ok in Hr as [-> _]. apply get_for_update_ok in H as (-> & Hs & Hself).
  split; [done|]. by exists h.
Qed.

Lemma merge_inputs_ok_refs scope_id family artifact_id s l s' :
  merge_inputs repo scope_id (mkRef family artifact_id 1) s = Ok (l, s') →
  s' = s ∧ l = (filter (λ x : art_ref * bool, x.2 = true)
                  (artifact_refs_of (scope_id, family, artifact_id, 1) s)).*1.
Proof.
  unfold merge_inputs. rewrite decide_False by (simpl; lia). intros H.
  apply M_bind_ok in H as (a & ? & (-> & _)%get_ok & H). by apply gets_ok in H as [-> ->].
Qed.

(** *** Reads never exhaust the provenance rounds *)

Lemma new_ref_fueled family artifact_id revision : fueled (new_ref family artifact_id revision).
Proof. unfold new_ref. fuel. Qed.

Lemma require_scope_fueled scope_id : fueled (require_scope scope_id).
Proof. unfold require_scope, require_identifier. fuel. Qed.

Lemma decode_many_fueled rows : fueledM (decode_many repo rows).
Proof.
  unfold decode_many, load_lineage_many, decode_artifact, artifact_type.
  pose proof Provenance.load_provenance_fueled. pose proof new_ref_fueled. fuel.
Qed.

Lemma get_fueled scope_id r u : fueledM (get repo scope_id r u).
Proof.
  pose proof require_scope_fueled. pose proof decode_many_fueled. unfold get, get_many. fuel.
Qed.

Lemma latest_fueled scope_id family artifact_id u known : fueledM (latest repo scope_id family artifact_id u known).
Proof.
  pose proof require_scope_fueled. pose proof get_fueled. pose proof new_ref_fueled.
  unfold latest, find_head. fuel.
Qed.

Lemma merge_inputs_fueled scope_id r : fueledM (merge_inputs repo scope_id r).
Proof. pose proof get_fueled. unfold merge_inputs. fuel. Qed.

(** An unpublished stored revision can be read. *)
Lemma load_lineage_unpublished k s :
  a_publications s !! k = None →
  load_lineage_many [k] s = Ok [(k, mkLineage (source_refs_of k s) (artifact_refs_of k s).*1 None)].
Proof.
  intros Hp. unfold load_lineage_many, Provenance.load_publication_provenance, Provenance.rounds.
  cbn [fmap list_fmap]. unfold Provenance.frontiers. fold (@Provenance.frontiers rev_key).
  unfold Provenance.frontier, Provenance.advance, raise_if. simpl.
  rewrite Hp. simpl.
  destruct (size (a_publications s)); simpl; by rewrite decide_True by done.
Qed.

Lemma get_intro scope_id r b s :
  require_scope scope_id = Ok tt → is_Some (dget (ref_family r) (by_family repo)) → valid_ref r →
  a_bodies s !! key_in scope_id r = Some b → a_publications s !! key_in scope_id r = None →
  get repo scope_id r false s =
    Ok (mkArtifact r (body_content b) (mkLineage (source_refs_of (key_in scope_id r) s)
          (artifact_refs_of (key_in scope_id r) s).*1 None), s).
Proof.
  intros Hs [c Hc] Hr Hb Hp. unfold get, get_many. unfold mbind, M_bind, lift, gets, check_each. cbn [fmap list_fmap].
  rewrite Hs. rewrite decide_False by done. simpl. unfold raise_if. rewrite Hc, decide_False by done. simpl.
  rewrite Hb. simpl.
  rewrite decide_False by (intros H; apply H; left). simpl.
  unfold decode_many, reads. simpl.
  change (batches 100 [key_in scope_id r]) with [[key_in scope_id r]]. simpl.
  rewrite load_lineage_unpublished by done. simpl. rewrite decide_True by done.
  unfold decode_artifact, artifact_type, new_ref, raise_if. simpl. rewrite Hc. simpl.
  replace (mkRef (ref_family r) (ref_id r) (ref_revision r)) with r by by destruct r.
  rewrite decide_False by tauto. simpl. by rewrite decide_True.
Qed.

Lemma latest_intro scope_id r b h s :
  require_scope scope_id = Ok tt → is_Some (dget (ref_family r) (by_family repo)) → valid_ref r →
  a_heads s !! head_of scope_id r = Some h → head_revision h = ref_revision r →
  a_bodies s !! key_in scope_id r = Some b → a_publications s !! key_in scope_id r = None →
  latest repo scope_id (ref_family r) (ref_id r) false None s =
    Ok (mkArtifact r (body_content b) (mkLineage (source_refs_of (key_in scope_id r) s)
          (artifact_refs_of (key_in scope_id r) s).*1 None), s).
Proof.
  intros Hs Hc Hr Hh Hrev Hb Hp. unfold latest, find_head. unfold mbind, M_bind, lift, gets.
  rewrite Hs. simpl. unfold new_ref at 1, raise_if.
  rewrite decide_False by (intros H; apply H; destruct Hr as (?&?&?&?); by split_and!). simpl.
  unfold head_of in Hh. rewrite Hh. simpl. rewrite Hrev. unfold new_ref, raise_if.
  rewrite decide_False by (destruct r; tauto). simpl.
  replace (mkRef (ref_family r) (ref_id r) (ref_revision r)) with r by by destruct r.
  by apply get_intro.
Qed.

(** What an inserted revision holds. *)
Lemma inserted_lookup scope_id items s s' i :
  inserted scope_id items s s' → i ∈ items →
  a_bodies s' !! item_key scope_id i = Some (new_body s i) ∧
  a_source_refs s' !! item_key scope_id i = Some (lineage_sources (i_lineage i)) ∧
  a_artifact_refs s' !! item_key scope_id i = Some (new_lineage i).
Proof.
  intros (Hnd & _ & -> & _) Hi. simpl. by rewrite !puts_elem.
Qed.

Lemma inserted_other scope_id items s s' k :
  inserted scope_id items s s' → k ∉ item_key scope_id <$> items →
  a_bodies s' !! k = a_bodies s !! k ∧ a_source_refs s' !! k = a_source_refs s !! k ∧
  a_artifact_refs s' !! k = a_artifact_refs s !! k.
Proof. intros (_ & _ & -> & _) Hk. simpl. by rewrite !puts_other. Qed.

Lemma inserted_heads scope_id items s s' : inserted scope_id items s s' → a_heads s' = a_heads s.
Proof. by intros (_ & _ & -> & _). Qed.

Lemma new_lineage_refs i : (new_lineage i).*1 = lineage_artifacts (i_lineage i).
Proof.
  unfold new_lineage. rewrite <- list_fmap_compose. induction (lineage_artifacts _) as [|x l IH]; [done|].
  rewrite fmap_cons, IH. done.
Qed.

Lemma revise_with_scope scope_id a d restoration allow v s r :
  revise_with repo scope_id a d restoration allow v s = Ok r → require_scope scope_id = Ok tt.
Proof. unfold revise_with. destruct r. by intros ([] & ? & [? _]%lift_ok & _)%M_bind_ok. Qed.

Lemma create_many_scope scope_id items allow s r :
  create_many repo scope_id items allow s = Ok r → require_scope scope_id = Ok tt.
Proof. unfold create_many. destruct r. by intros ([] & ? & [? _]%lift_ok & _)%M_bind_ok. Qed.

(** ** Histories

    The writes of the store and of governance, each in its own transaction; other
    components change the clock, the bound rollback, Sources and publications. *)

Context `{Governance.CustomIndex}.

Inductive step (s : adb) : adb → Prop :=
  | step_create scope_id items allow l s' :
      create_many repo scope_id items allow s = Ok (l, s') → step s s'
  | step_merge_result scope_id artifact_id d inputs v a s' :
      create_merge_result repo scope_id artifact_id d inputs v s = Ok (a, s') → step s s'
  | step_revise scope_id a d allow v a' s' :
      revise repo scope_id a d allow v s = Ok (a', s') → step s s'
  | step_restore scope_id a d expected v a' s' :
      revise_for_restoration repo scope_id a d expected v s = Ok (a', s') → step s s'
  | step_copy scope_id artifact_id address source content_digest a s' :
      copy_exact repo scope_id artifact_id address source content_digest s = Ok (a, s') → step s s'
  | step_transition scope_id family artifact_id generation state replacement g s' :
      Governance.transition scope_id family artifact_id generation state replacement s = Ok (g, s') → step s s'
  | step_transition_merge scope_id family artifact_id expected state merged replacement g s' :
      Governance.transition_merge scope_id family artifact_id expected state merged replacement s = Ok (g, s') →
      step s s'
  | step_environment now stamp sources publications :
      step s (mkAdb now stamp sources (a_bodies s) (a_source_refs s) (a_artifact_refs s) publications (a_heads s)).

(** What later states keep of [s]. *)
Record kept (s s' : adb) : Prop := {
  kept_revision k b : a_bodies s !! k = Some b →
    a_bodies s' !! k = Some b ∧ a_source_refs s' !! k = a_source_refs s !! k ∧
    a_artifact_refs s' !! k = a_artifact_refs s !! k;
  kept_head k h : a_heads s !! k = Some h → ∃ h', a_heads s' !! k = Some h' ∧
    head_revision h ≤ head_revision h' ∧ head_generation h ≤ head_generation h' ∧
    (head_state h = RETIRED → head_state h' = RETIRED ∧ head_revision h' = head_revision h)
}.

#[local] Instance kept_preorder : PreOrder kept.
Proof.
  split.
  - intros s. split; [by intros; split_and!|]. intros k h Hh. exists h. by split_and!.
  - intros s1 s2 s3 [R1 H1] [R2 H2]. split.
    + intros k b Hb. destruct (R1 _ _ Hb) as (Hb2 & E1 & E2). destruct (R2 _ _ Hb2) as (Hb3 & E3 & E4).
      split_and!; [done|by rewrite E3|by rewrite E4].
    + intros k h Hh. destruct (H1 _ _ Hh) as (h2 & Hh2 & A1 & A2 & A3).
      destruct (H2 _ _ Hh2) as (h3 & Hh3 & B1 & B2 & B3). exists h3. split_and!; [done|lia|lia|].
      intros Hr. destruct (A3 Hr) as [Hr2 E2]. destruct (B3 Hr2) as [Hr3 E3]. split; [done|]. by rewrite E3.
Qed.

(** One head per identity over the contiguous history of its revisions. *)
Record well_formed (s : adb) : Prop := {
  wf_checks k h : a_heads s !! k = Some h → head_check k.2 h;
  wf_contiguous k n : is_Some (a_bodies s !! (k, n)) ↔
    ∃ h, a_heads s !! k = Some h ∧ 1 ≤ n ≤ head_revision h;
  wf_lineage k refs x : a_artifact_refs s !! k = Some refs → x ∈ refs →
    is_Some (a_bodies s !! key_in k.1.1.1 x.1)
}.

Lemma inserted_kept scope_id items s s' k b :
  inserted scope_id items s s' → a_bodies s !! k = Some b →
  a_bodies s' !! k = Some b ∧ a_source_refs s' !! k = a_source_refs s !! k ∧
  a_artifact_refs s' !! k = a_artifact_refs s !! k.
Proof.
  intros Hins Hb. destruct (inserted_other _ _ _ _ k Hins) as (-> & -> & ->); [|done].
  intros (i & -> & Hi)%list_elem_of_fmap. destruct Hins as (_ & Hnew & _). rewrite Hnew in Hb; done.
Qed.

Lemma inserted_lineage scope_id items s s' k refs x :
  well_formed s → inserted scope_id items s s' →
  a_artifact_refs s' !! k = Some refs → x ∈ refs → is_Some (a_bodies s' !! key_in k.1.1.1 x.1).
Proof.
  intros Hwf Hins Hk Hx. destruct (decide (k ∈ item_key scope_id <$> items)) as [Hin|Hout].
  - apply list_elem_of_fmap in Hin as (i & -> & Hi).
    destruct (inserted_lookup _ _ _ _ _ Hins Hi) as (_ & _ & E). rewrite E in Hk. injection Hk as <-.
    unfold new_lineage in Hx. apply list_elem_of_fmap in Hx as (r & -> & Hr).
    destruct Hins as (_ & _ & _ & Hfk). by apply (Hfk i).
  - destruct (inserted_other _ _ _ _ k Hins Hout) as (_ & _ & E). rewrite E in Hk.
    destruct (wf_lineage _ Hwf _ _ _ Hk Hx) as [b Hb].
    destruct (inserted_kept _ _ _ _ _ _ Hins Hb) as (-> & _). done.
Qed.

Lemma created_kept scope_id items s s' : created scope_id items s s' → kept s s'.
Proof.
  intros (Hnew & _ & s1 & Hins & ->). split; simpl.
  - intros k b Hb. by eapply inserted_kept.
  - intros k h Hh. exists h. split_and!; try done. rewrite puts_other; [done|].
    intros (i & -> & Hi)%list_elem_of_fmap. destruct (Hnew i Hi) as [_ E]. by rewrite E in Hh.
Qed.

Lemma created_well_formed scope_id items s s' :
  created scope_id items s s' → well_formed s → well_formed s'.
Proof.
  intros (Hnew & Hnd & s1 & Hins & ->) Hwf. split; simpl.
  - intros k h. destruct (decide (k ∈ (λ i, head_of scope_id (i_ref i)) <$> items)) as [Hin|Hout].
    + apply list_elem_of_fmap in Hin as (i & -> & Hi). rewrite (puts_elem (λ i, head_of scope_id (i_ref i))) by done.
      intros [= <-]. unfold head_check, new_head. simpl. split_and!; [lia|lia|by left|by left].
    + rewrite puts_other by done. apply (wf_checks _ Hwf).
  - intros k n. destruct (decide ((k, n) ∈ item_key scope_id <$> items)) as [Hin|Hout].
    + apply list_elem_of_fmap in Hin as (i & Hk & Hi). rewrite Hk.
      destruct (inserted_lookup _ _ _ _ _ Hins Hi) as (-> & _ & _). split; [|done]. intros _.
      injection Hk as -> ->. destruct (Hnew i Hi) as [-> _]. exists new_head. simpl. split; [|lia].
      exact (puts_elem _ _ _ _ _ Hnd Hi).
    + destruct (inserted_other _ _ _ _ (k, n) Hins Hout) as (-> & _ & _).
      rewrite (wf_contiguous _ Hwf).
      destruct (decide (k ∈ (λ i, head_of scope_id (i_ref i)) <$> items)) as [Hk|Hk].
      * apply list_elem_of_fmap in Hk as (i & -> & Hi). destruct (Hnew i Hi) as [H1 ->]. split.
        { by intros (h & ? & _). }
        rewrite (puts_elem (λ i, head_of scope_id (i_ref i))) by done. intros (h & [= <-] & Hn). simpl in Hn.
        destruct Hout. apply list_elem_of_fmap. exists i. split; [|done].
        unfold item_key, key_in, head_of. rewrite H1. f_equal. lia.
      * by rewrite puts_other.
  - intros k refs x Hk Hx. by eapply inserted_lineage.
Qed.

Lemma appended_kept scope_id i h s s' : appended scope_id i h s s' → kept s s'.
Proof.
  intros (Hh & Hr & Hret & s1 & Hins & -> & _). split; simpl.
  - intros k b Hb. by eapply inserted_kept.
  - intros k h' Hh'. rewrite lookup_insert. case_decide as Hk; [|exists h'; by split_and!].
    rewrite <- Hk, Hh in Hh'. injection Hh' as <-. eexists. split; [done|]. simpl. split_and!; [lia|lia|done].
Qed.

Lemma appended_well_formed scope_id i h s s' :
  appended scope_id i h s s' → well_formed s → well_formed s'.
Proof.
  intros (Hh & Hr & Hret & s1 & Hins & -> & Hchk) Hwf.
  pose proof (wf_checks _ Hwf _ _ Hh) as (Hpos & _). split; simpl.
  - intros k h'. rewrite lookup_insert. case_decide as Hk; [|apply (wf_checks _ Hwf)].
    intros [= <-]. by rewrite <- Hk.
  - intros k n. destruct (decide ((k, n) = item_key scope_id i)) as [Hkn|Hkn].
    + rewrite Hkn. destruct (inserted_lookup _ _ _ _ i Hins) as (-> & _ & _); [left|].
      split; [|done]. intros _. injection Hkn as -> ->. rewrite lookup_insert, decide_True by done.
      eexists. split; [done|]. simpl. lia.
    + destruct (inserted_other _ _ _ _ (k, n) Hins) as (-> & _ & _); [by intros ?%list_elem_of_singleton|].
      rewrite (wf_contiguous _ Hwf), lookup_insert. case_decide as Hk; [|done]. rewrite <- Hk, Hh. split.
      * intros (h' & [= <-] & Hn). eexists. split; [done|]. simpl. lia.
      * intros (h' & [= <-] & Hn). exists h. split; [done|]. simpl in Hn.
        assert (n ≠ head_revision h + 1); [|lia]. intros ->. apply Hkn.
        unfold item_key, key_in. by rewrite <- Hk, Hr.
  - intros k refs x Hk Hx. by eapply inserted_lineage.
Qed.

Lemma transitioned_kept k h state merged replacement s s' :
  a_heads s !! k = Some h → (head_state h = RETIRED → state = RETIRED) →
  Governance.transitioned k h state merged replacement s s' → kept s s'.
Proof.
  intros Hh Hret [-> _]. split; simpl; [done|]. intros k' h' Hh'. rewrite lookup_insert.
  case_decide as Hk; [|exists h'; by split_and!]. rewrite <- Hk, Hh in Hh'. injection Hh' as <-.
  eexists. split; [done|]. simpl. split_and!; [done|lia|]. intros Hr. by rewrite Hret.
Qed.

Lemma transitioned_well_formed k h state merged replacement s s' :
  a_heads s !! k = Some h → Governance.transitioned k h state merged replacement s s' →
  well_formed s → well_formed s'.
Proof.
  intros Hh [-> Hchk] Hwf. split; simpl.
  - intros k' h'. rewrite lookup_insert. case_decide as Hk; [|apply (wf_checks _ Hwf)].
    intros [= <-]. by rewrite <- Hk.
  - intros k' n. rewrite (wf_contiguous _ Hwf), lookup_insert. case_decide as Hk; [|done].
    rewrite <- Hk, Hh. split; intros (h' & [= <-] & ?); eexists; by split.
  - apply (wf_lineage _ Hwf).
Qed.

(** Flagging the inputs of a revision that did not exist at [s]. *)
Lemma flagged_kept k f s s1 :
  a_bodies s !! k = None → kept s s1 → kept s (set_artifact_refs (alter f k (a_artifact_refs s1)) s1).
Proof.
  intros Hk [R1 H1]. split; simpl; [|done]. intros k' b Hb. destruct (R1 _ _ Hb) as (E1 & E2 & E3).
  split_and!; [done|done|]. rewrite lookup_alter_ne; [done|]. intros ->. by rewrite Hk in Hb.
Qed.

Lemma flagged_well_formed k (f : list (art_ref * bool) → list (art_ref * bool)) s :
  (∀ l, (f l).*1 = l.*1) → well_formed s →
  well_formed (set_artifact_refs (alter f k (a_artifact_refs s)) s).
Proof.
  intros Hf [H1 H2 H3]. split; simpl; [done|done|]. intros k' refs x Hr Hx.
  destruct (decide (k' = k)) as [->|Hne]; [|rewrite lookup_alter_ne in Hr by done; by eapply H3].
  rewrite lookup_alter_eq in Hr. destruct (a_artifact_refs s !! k) as [l|] eqn:Hl; [|done].
  injection Hr as <-. assert (Hx1 : x.1 ∈ l.*1) by (rewrite <- Hf; apply list_elem_of_fmap; by exists x).
  apply list_elem_of_fmap in Hx1 as (y & -> & Hy). by eapply H3.
Qed.

Lemma step_ok s s' : step s s' → kept s s' ∧ (well_formed s → well_formed s').
Proof.
  intros Hs. destruct Hs.
  - apply create_many_ok in H0 as (_ & Hc & _). eauto using created_kept, created_well_formed.
  - apply create_merge_result_ok in H0 as (_ & _ & s1 & (-> & Hc & _)%create_ok & ->).
    pose proof Hc as (_ & _ & s2 & (_ & Hnew & _) & _). split.
    + apply flagged_kept; [|by eapply created_kept]. apply (Hnew (first_revision (artifact_id, d, v))). left.
    + intros Hwf. apply flagged_well_formed; [|by eapply created_well_formed].
      intros l. rewrite <- list_fmap_compose. done.
  - apply revise_with_ok in H0 as (h & Ha & _). eauto using appended_kept, appended_well_formed.
  - unfold revise_for_restoration in H0.
    apply M_bind_ok in H0 as ([] & ? & [_ ->]%lift_ok & (h & Ha & _)%revise_with_ok).
    eauto using appended_kept, appended_well_formed.
  - apply copy_exact_ok in H0 as (_ & Hc). eauto using created_kept, created_well_formed.
  - apply Governance.transition_ok in H0 as (h & Hh & _ & _ & [Hr _] & _ & _ & _ & Ht).
    eauto using transitioned_kept, transitioned_well_formed.
  - apply Governance.transition_merge_ok in H0 as
      (h & Hh & _ & [Hr _] & _ & _ & _ & _ & [(_ & _ & _ & -> & _)|[_ Ht]]); [done|].
    eauto using transitioned_kept, transitioned_well_formed.
  - split; [split; simpl; [done|]; intros k h Hh; exists h; by split_and!|]. by intros [H1 H2 H3].
Qed.

Lemma steps_ok s s' : rtc step s s' → kept s s' ∧ (well_formed s → well_formed s').
Proof.
  induction 1 as [s|s1 s2 s3 [K1 W1]%step_ok _ [K2 W2]]; [by split|].
  split; [by transitivity s2|auto].
Qed.

(** C11: Histories are contiguous.  Over any interleaving of creations, merge
    results, revisions, restorations, copies and lifecycle transitions, each
    head's CHECKs hold and the stored revisions of an identity are exactly those
    from 1 to its head, with no revision lacking a head; every lineage row names
    a stored revision. *)
Theorem history_contiguous s s' : well_formed s → rtc step s s' → well_formed s'.
Proof. intros Hwf Hs. by apply (steps_ok s s'). Qed.

(** C10: History is immutable.  Whatever is written later, a stored revision keeps
    its content, its Source and Artifact lineage and its merge-input flags; no head
    disappears and neither its revision nor its governance generation decreases. *)
Theorem history_immutable s s' : rtc step s s' →
  (∀ k b, a_bodies s !! k = Some b → a_bodies s' !! k = Some b ∧
     a_source_refs s' !! k = a_source_refs s !! k ∧ a_artifact_refs s' !! k = a_artifact_refs s !! k) ∧
  (∀ k h, a_heads s !! k = Some h → ∃ h', a_heads s' !! k = Some h' ∧
     head_revision h ≤ head_revision h' ∧ head_generation h ≤ head_generation h').
Proof.
  intros [[K1 K2] _]%steps_ok. split; [done|]. intros k h Hh.
  destruct (K2 k h Hh) as (h' & ? & ? & ? & _). by exists h'.
Qed.

(** Retirement is final.  A retired identity stays retired at the same
    revision: no creation, revision, restoration or transition reactivates it or
    adds a revision to its history. *)
Theorem retired_is_final s s' k h :
  well_formed s → rtc step s s' → a_heads s !! k = Some h → head_state h = RETIRED →
  (∃ h', a_heads s' !! k = Some h' ∧ head_state h' = RETIRED ∧ head_revision h' = head_revision h) ∧
  ∀ n, a_bodies s' !! (k, n) = a_bodies s !! (k, n).
Proof.
  intros Hwf [[K1 K2] W]%steps_ok Hh Hret. specialize (W Hwf).
  destruct (K2 k h Hh) as (h' & Hh' & _ & _ & Hr). destruct (Hr Hret) as [Hr1 Hr2].
  split; [by exists h'|]. intros n. destruct (a_bodies s !! (k, n)) as [b|] eqn:Hb; [by apply K1|].
  apply eq_None_not_Some. rewrite (wf_contiguous _ W). intros (h2 & Hh2 & Hn).
  apply (is_Some_None (A := body)). rewrite <- Hb. apply (wf_contiguous _ Hwf). exists h. split; [done|].
  rewrite Hh' in Hh2. injection Hh2 as <-. by rewrite <- Hr2.
Qed.

(** C9: No update is lost.  Of all attempts to revise from one base revision at
    most one returns: after the first, no attempt from that base succeeds, with
    any draft, as a revision or a restoration, whatever was written in between. *)
Theorem one_revision_per_base scope_id a d allow v s a1 s1 s2 b :
  revise repo scope_id a d allow v s = Ok (a1, s1) → rtc step s1 s2 → art_self b = art_self a →
  (∀ d2 allow2 v2, ∃ e, revise repo scope_id b d2 allow2 v2 s2 = Err e) ∧
  (∀ d2 expected v2, ∃ e, revise_for_restoration repo scope_id b d2 expected v2 s2 = Err e).
Proof.
  intros (h & Ha & _ & Hb & _)%revise_with_ok [[_ K] _]%steps_ok Hsame.
  destruct Ha as (Hh & _ & _ & s0 & _ & -> & _). simpl in *.
  destruct (K (head_of scope_id (art_self a)) (mkHead (head_revision h + 1) (head_state h)
    (head_replacement h) (head_merged_into h) (head_generation h))) as (h' & Hh' & Hle & _).
  { by rewrite lookup_insert_eq. }
  simpl in Hle. assert (Hno : ∀ d2 restoration allow2 v2, ∃ e,
    revise_with repo scope_id b d2 restoration allow2 v2 s2 = Err e).
  { intros d2 restoration allow2 v2. destruct (revise_with _ _ _ _ _ _ _ _) as [[a2 s3]|e] eqn:E; [|by exists e].
    apply revise_with_ok in E as (h2 & (Hh2 & _) & _ & Hb2 & _). simpl in Hh2. rewrite Hsame in Hh2, Hb2.
    unfold head_of in *. simpl in *. rewrite Hh' in Hh2. injection Hh2 as <-. lia. }
  split; [intros; apply Hno|]. intros d2 expected v2. unfold revise_for_restoration.
  unfold mbind at 1, M_bind, lift. destruct (raise_if _ _); [apply Hno|by eexists].
Qed.

(** C12: A revision is a compare and swap on the head.  It returns only when the
    base is the head of an identity that is neither retired nor frozen; the head
    moves to the next number and keeps its lifecycle, the revision holds exactly
    the draft, no other head moves, and the next reader of the latest revision
    gets the returned value. *)
Theorem revise_effect scope_id a d allow v s a' s' :
  revise repo scope_id a d allow v s = Ok (a', s') →
  let k := head_of scope_id (art_self a) in
  let n := ref_revision (art_self a) + 1 in
  (∃ h, a_heads s !! k = Some h ∧ head_revision h = ref_revision (art_self a) ∧
     head_state h ≠ RETIRED ∧ head_merged_into h = None ∧
     a_heads s' = <[k := mkHead n (head_state h) (head_replacement h) None (head_generation h)]> (a_heads s)) ∧
  a' = mkArtifact (mkRef (ref_family (art_self a)) (ref_id (art_self a)) n) (draft_content d)
         (mkLineage (draft_sources d) (draft_artifacts d) None) ∧
  a_bodies s !! (k, n) = None ∧
  (a_publications s' !! (k, n) = None →
   latest repo scope_id (ref_family (art_self a)) (ref_id (art_self a)) false None s' = Ok (a', s')).
Proof.
  intros H1. pose proof (revise_with_scope _ _ _ _ _ _ _ _ H1) as Hscope.
  apply revise_with_ok in H1 as (h & Ha & -> & Hb & Hf & Hreg & Hv & Hm).
  destruct Ha as (Hh & _ & Hret & s1 & Hins & -> & _). simpl in *. split_and!.
  - exists h. rewrite <- Hb, Hm. by split_and!.
  - done.
  - pose proof Hins as (_ & Hnew & _). apply (Hnew (next_revision a d)). left.
  - intros Hp. destruct (inserted_lookup _ _ _ _ (next_revision a d) Hins) as (E1 & E2 & E3); [left|].
    rewrite (latest_intro _ (i_ref (next_revision a d)) (new_body s (next_revision a d))
      (mkHead (head_revision h + 1) (head_state h) (head_replacement h) (head_merged_into h) (head_generation h)));
      simpl; try done; [|by rewrite <- Hf|by rewrite lookup_insert_eq|by rewrite Hb].
    unfold source_refs_of, artifact_refs_of. simpl. unfold item_key in E2, E3. simpl in E2, E3.
    rewrite E2, E3. simpl. by rewrite new_lineage_refs.
Qed.

(** Bulk reads are exact.  [get_many] returns, for each requested reference
    in order and with repetitions, the stored revision with its content, its
    lineage in ordinal order and the original address of its publication; it
    writes nothing and does not return when a reference has no stored revision. *)
Theorem get_many_exact scope_id refs s l s' :
  get_many repo scope_id refs s = Ok (l, s') →
  s' = s ∧ art_self <$> l = refs ∧
  Forall2 (λ r a, (∃ b, a_bodies s !! key_in scope_id r = Some b ∧ art_content a = body_content b) ∧
     lineage_sources (art_lineage a) = source_refs_of (key_in scope_id r) s ∧
     lineage_artifacts (art_lineage a) = (artifact_refs_of (key_in scope_id r) s).*1 ∧
     published s (key_in scope_id r) (publication (art_lineage a))) refs l.
Proof.
  intros [-> Hl]%get_many_ok. split; [done|]. split.
  - induction Hl as [|r a refs l [_ Hr] _ IH]; [done|]. rewrite fmap_cons, IH. by f_equal.
  - eapply Forall2_in; [exact Hl|]. intros r a _ [(_ & ? & ? & ? & ?) _]. by split_and!.
Qed.

(** Reading the flags back. *)
Lemma merge_inputs_intro scope_id r s a l :
  ref_revision r = 1 → get repo scope_id r false s = Ok (a, s) →
  a_artifact_refs s !! key_in scope_id r = Some l →
  merge_inputs repo scope_id r s = Ok ((filter (λ x : art_ref * bool, x.2 = true) l).*1, s).
Proof.
  intros Hr Hget Hl. unfold merge_inputs. rewrite decide_False by lia.
  unfold mbind at 1, M_bind. rewrite Hget. unfold gets, artifact_refs_of.
  unfold key_in in Hl. rewrite Hr in Hl. by rewrite Hl.
Qed.

Lemma flagged_refs (refs arts : list art_ref) :
  (filter (λ x : art_ref * bool, x.2 = true)
     ((λ x : art_ref * bool, (x.1, x.2 || bool_decide (x.1 ∈ refs))) <$> ((λ r, (r, false)) <$> arts))).*1 =
  filter (λ r, r ∈ refs) arts.
Proof.
  induction arts as [|r arts IH]; [done|]. rewrite !fmap_cons, !filter_cons. simpl.
  destruct (decide (r ∈ refs)) as [Hr|Hr].
  - rewrite bool_decide_eq_true_2 by done. simpl. f_equal. exact IH.
  - rewrite bool_decide_eq_false_2 by done. simpl. done.
Qed.

(** A reference counted once occurs once among the selected ones. *)
Lemma selected_once (refs arts : list art_ref) :
  Forall (λ r, count_occ art_ref_eq_dec arts r = 1%nat) refs → NoDup refs →
  filter (λ r, r ∈ refs) arts ≡ₚ refs.
Proof.
  intros Hc Hnd. rewrite Forall_forall in Hc. apply NoDup_Permutation; [|done|].
  - apply NoDup_ListNoDup. apply (NoDup_count_occ' art_ref_eq_dec). intros x Hx.
    apply list_elem_of_In, list_elem_of_filter in Hx as [Hx _].
    rewrite <- (Hc x Hx). clear Hc Hnd. induction arts as [|r arts IH]; [done|].
    rewrite filter_cons. destruct (decide (r ∈ refs)) as [Hr|Hr]; simpl.
    + by destruct (art_ref_eq_dec r x); rewrite IH.
    + destruct (art_ref_eq_dec r x) as [->|]; [done|exact IH].
  - intros x. rewrite list_elem_of_filter. split; [tauto|]. intros Hx. split; [done|].
    apply list_elem_of_In, (count_occ_In art_ref_eq_dec). rewrite Hc by done. lia.
Qed.

(** C13: Merge inputs round trip.  A merge result is created only over distinct
    active, unmerged heads at their expected generations; afterwards reading its
    inputs gives exactly the selected references, in the order of its lineage. *)
Theorem merge_inputs_round_trip scope_id artifact_id d inputs v s a s' :
  create_merge_result repo scope_id artifact_id d inputs v s = Ok (a, s') →
  a_publications s' !! key_in scope_id (art_self a) = None →
  (∀ i, i ∈ inputs → same_head i.1 i.2 (a_heads s !! head_of scope_id i.1)) ∧
  ∃ l, merge_inputs repo scope_id (art_self a) s' = Ok (l, s') ∧
    l = filter (λ r, r ∈ inputs.*1) (draft_artifacts d) ∧ l ≡ₚ inputs.*1.
Proof.
  intros (Hok & Hheads & s1 & Hcreate & ->)%create_merge_result_ok Hp. split; [done|].
  assert (Hscope : require_scope scope_id = Ok tt).
  { unfold create in Hcreate. apply M_bind_ok in Hcreate as (l & s2 & Hc & _). by eapply create_many_scope. }
  apply create_ok in Hcreate as (-> & (_ & _ & s2 & Hins & ->) & Hreg & Hv). simpl in *.
  set (i := first_revision (artifact_id, d, v)) in *.
  destruct (inserted_lookup _ _ _ _ i Hins) as (E1 & E2 & E3); [left|].
  eexists. split.
  - eapply merge_inputs_intro; [done|by apply (get_intro _ _ (new_body s i))|]. simpl.
    change (key_in scope_id (mkRef (draft_family d) artifact_id 1)) with (scope_id, draft_family d, artifact_id, 1).
    rewrite lookup_alter_eq. unfold item_key in E3. unfold key_in in E3. simpl in E3. by rewrite E3.
  - unfold new_lineage. rewrite flagged_refs. split; [done|]. destruct Hok as (_ & Hnd & _ & Hall).
    apply selected_once; [|by eapply NoDup_fmap_1]. eapply Forall_impl; [exact Hall|]. by intros r [_ ?].
Qed.
End effects.

(** ** Concrete runs *)

#[local] Instance no_custom_index : Governance.CustomIndex :=
  {| Governance.prepare_custom _ _ _ _ _ := Ok tt; Governance.publish_custom _ _ _ _ := Ok tt |}.

Definition demo_family : text := [1].
Definition demo_repository : repository := mkRepository [(demo_family, [1])] true.
Definition demo_scope : text := [1].
Definition demo_ref (i n : Z) : art_ref := mkRef demo_family [i] n.
Definition demo_draft (p : Z) (refs : list art_ref) : draft :=
  mkDraft demo_family (mkContent [1] [p]) [] refs.
Definition demo_value (i n p : Z) (refs : list art_ref) : artifact :=
  mkArtifact (demo_ref i n) (mkContent [1] [p]) (mkLineage [] refs None).

Definition final {A} (r : result (A * adb)) : adb := match r with Ok (_, s) => s | Err _ => empty_adb end.

(** Two Artifacts [1] and [2] of one Family, a revision of the first and a merge result of both. *)
Definition demo_items : list new_item :=
  [([1], demo_draft 1 [], None); ([2], demo_draft 2 [], None)].
Definition demo_start : adb := Eval vm_compute in final (create_many demo_repository demo_scope demo_items false empty_adb).
Definition demo_revised : adb :=
  Eval vm_compute in final (revise demo_repository demo_scope (demo_value 1 1 1 []) (demo_draft 3 []) false None demo_start).
Definition demo_inputs : list (art_ref * Z) := [(demo_ref 1 2, 0); (demo_ref 2 1, 0)].
Definition demo_merge_draft : draft := demo_draft 4 [demo_ref 2 1; demo_ref 1 1; demo_ref 1 2].
Definition demo_merged : adb :=
  Eval vm_compute in final (create_merge_result demo_repository demo_scope [3] demo_merge_draft demo_inputs None demo_revised).

Definition demo_retired : adb :=
  Eval vm_compute in final (Governance.transition demo_scope demo_family [2] 0 RETIRED None demo_revised).

#[local] Opaque demo_start demo_revised demo_merged demo_retired.

Lemma demo_started : step demo_repository empty_adb demo_start.
Proof.
  apply (step_create demo_repository _ demo_scope demo_items false
    [demo_value 1 1 1 []; demo_value 2 1 2 []]). vm_compute. reflexivity.
Qed.

Lemma demo_well_formed : well_formed empty_adb.
Proof.
  split; simpl; [done| |done]. intros k n. rewrite lookup_empty. split; [by intros []|by intros (? & ? & _)].
Qed.

Example demo_revise :
  revise demo_repository demo_scope (demo_value 1 1 1 []) (demo_draft 3 []) false None demo_start =
  Ok (demo_value 1 2 3 [], demo_revised).
Proof. vm_compute. reflexivity. Qed.

Lemma demo_revise_step : step demo_repository demo_start demo_revised.
Proof. eapply step_revise. exact demo_revise. Qed.

Lemma demo_merge_step : step demo_repository demo_revised demo_merged.
Proof.
  apply (step_merge_result demo_repository _ demo_scope [3] demo_merge_draft demo_inputs None
    (demo_value 3 1 4 (draft_artifacts demo_merge_draft))). vm_compute. reflexivity.
Qed.

Lemma demo_retire_step : step demo_repository demo_revised demo_retired.
Proof.
  apply (step_transition demo_repository _ demo_scope demo_family [2] 0 RETIRED None
    (Governance.mkGovernance (demo_ref 2 1) RETIRED None None 1)). vm_compute. reflexivity.
Qed.

Lemma history_contiguous_witness : well_formed demo_merged.
Proof.
  exact (history_contiguous demo_repository empty_adb demo_merged demo_well_formed
    (rtc_l _ _ _ _ demo_started (rtc_l _ _ _ _ demo_revise_step (rtc_once _ _ demo_merge_step)))).
Defined.

Lemma history_immutable_witness :
  a_bodies demo_merged !! (demo_scope, demo_family, [1], 1) =
    Some (mkBody (mkContent [1] [1]) 0 None).
Proof.
  apply (proj1 (history_immutable demo_repository demo_start demo_merged
    (rtc_l _ _ _ _ demo_revise_step (rtc_once _ _ demo_merge_step)))
    (demo_scope, demo_family, [1], 1) (mkBody (mkContent [1] [1]) 0 None)).
  vm_compute. reflexivity.
Defined.

(** A retired identity; later merges and revisions of others leave it alone. *)
Definition demo_later : adb :=
  Eval vm_compute in final (revise demo_repository demo_scope (demo_value 1 2 3 []) (demo_draft 5 []) false None demo_retired).
#[local] Opaque demo_later.
Lemma demo_later_step : step demo_repository demo_retired demo_later.
Proof.
  apply (step_revise demo_repository _ demo_scope (demo_value 1 2 3 []) (demo_draft 5 []) false None
    (demo_value 1 3 5 [])). vm_compute. reflexivity.
Qed.

Lemma retired_is_final_witness :
  (∃ h', a_heads demo_later !! (demo_scope, demo_family, [2]) = Some h' ∧
     head_state h' = RETIRED ∧ head_revision h' = 1) ∧
  ¬ (a_bodies demo_later !! (demo_scope, demo_family, [2], 2) ≠ None).
Proof.
  destruct (retired_is_final demo_repository demo_retired demo_later (demo_scope, demo_family, [2])
    (mkHead 1 RETIRED None None 1)) as [H1 H2].
  - exact (proj2 (steps_ok demo_repository empty_adb demo_retired
      (rtc_l _ _ _ _ demo_started (rtc_l _ _ _ _ demo_revise_step (rtc_once _ _ demo_retire_step))))
      demo_well_formed).
  - exact (rtc_once _ _ demo_later_step).
  - vm_compute. reflexivity.
  - reflexivity.
  - split; [exact H1|]. intros Hn. apply Hn. rewrite H2. vm_compute. reflexivity.
Defined.

Lemma one_revision_per_base_witness :
  ∃ e, revise demo_repository demo_scope (demo_value 1 1 1 []) (demo_draft 6 []) false None
         demo_merged = Err e.
Proof.
  exact (proj1 (one_revision_per_base demo_repository demo_scope (demo_value 1 1 1 []) (demo_draft 3 [])
    false None demo_start (demo_value 1 2 3 []) demo_revised demo_merged (demo_value 1 1 1 [])
    demo_revise (rtc_once _ _ demo_merge_step) eq_refl) (demo_draft 6 []) false None).
Defined.

Lemma revise_effect_witness :
  latest demo_repository demo_scope demo_family [1] false None demo_revised =
    Ok (demo_value 1 2 3 [], demo_revised).
Proof.
  destruct (revise_effect demo_repository demo_scope (demo_value 1 1 1 []) (demo_draft 3 [])
    false None demo_start (demo_value 1 2 3 []) demo_revised demo_revise) as (_ & _ & _ & H).
  apply H. vm_compute. reflexivity.
Defined.

Lemma get_many_exact_witness :
  art_self <$> [demo_value 1 2 3 []; demo_value 2 1 2 []; demo_value 1 2 3 []] =
  [demo_ref 1 2; demo_ref 2 1; demo_ref 1 2].
Proof.
  apply (get_many_exact demo_repository demo_scope [demo_ref 1 2; demo_ref 2 1; demo_ref 1 2] demo_revised
    [demo_value 1 2 3 []; demo_value 2 1 2 []; demo_value 1 2 3 []] demo_revised).
  vm_compute. reflexivity.
Defined.

Lemma merge_inputs_round_trip_witness :
  ∃ l, merge_inputs demo_repository demo_scope (demo_ref 3 1) demo_merged = Ok (l, demo_merged) ∧
    l = [demo_ref 2 1; demo_ref 1 2].
Proof.
  destruct (merge_inputs_round_trip demo_repository demo_scope [3] demo_merge_draft demo_inputs None
    demo_revised (demo_value 3 1 4 (draft_artifacts demo_merge_draft)) demo_merged)
    as (_ & l & Hl & Heq & _).
  - vm_compute. reflexivity.
  - vm_compute. reflexivity.
  - exists l. split; [exact Hl|]. rewrite Heq. vm_compute. reflexivity.
Defined.

End Artifacts.
