(* ===== verification/AtomicState.v ===== *)
(** * Atomic Memory state

    [builtin/persistence/atomic_memory.py]: the Family's own vocabulary over the shared
    Artifact heads, as one translation in Python and one in SQL, and its transitions
    through the governance compare and swap. *)

From S2P Require Import Prelude Tables Catalog Governance.
Local Open Scope Z_scope.

Module AtomicState.
Import Governance.

Definition atomic_memory : text := str "atomic-memory".

(** [AtomicMemoryStateValue]. *)
Inductive state_value := Active | Forgotten | Merged | Retired.
#[export] Instance state_value_eq_dec : EqDecision state_value.
Proof. solve_decision. Defined.

(** [AtomicMemoryState] and its validator. *)
Record atomic_state := mkState { state : state_value; state_version : Z; merged_into_id : option text }.
#[export] Instance atomic_state_eq_dec : EqDecision atomic_state.
Proof. solve_decision. Defined.

Definition initial_state : atomic_state := mkState Active 0 None.

Definition valid_state (x : atomic_state) : Prop :=
  0 ≤ state_version x ∧ (state x = Merged ↔ merged_into_id x ≠ None) ∧
  match merged_into_id x with None => True | Some i => valid_ref (mkRef atomic_memory i 1) end.
#[export] Instance valid_state_dec x : Decision (valid_state x).
Proof. unfold valid_state. destruct (merged_into_id x); apply _. Defined.

Definition new_state (x : atomic_state) : result atomic_state :=
  raise_if (¬ valid_state x) (ValueError "AtomicMemoryState") ;; Ok x.

(** [_atomic_state] and [_summary]. *)
Definition state_of (s : lifecycle) (merged : option text) : state_value :=
  match s with
  | ACTIVE => Active
  | DEPRECATED => match merged with None => Forgotten | Some _ => Merged end
  | RETIRED => Retired
  end.

Definition to_atomic (g : governance) : result atomic_state :=
  raise_if (g_replacement g ≠ None)
    (AtomicMemoryRelationError "Atomic Memory does not use generic governance replacements") ;;
  new_state (mkState (state_of (g_state g) (g_merged_into g)) (g_generation g) (g_merged_into g)).

Definition summary (x : state_value) : lifecycle :=
  match x with Active => ACTIVE | Retired => RETIRED | Forgotten | Merged => DEPRECATED end.

(** [atomic_memory_state_expression]: the CASE over a head row. *)
Definition state_expression (h : head) : state_value :=
  if decide (head_state h = ACTIVE) then Active
  else if decide (head_state h = RETIRED) then Retired
  else if decide (head_merged_into h ≠ None) then Merged
  else Forgotten.

(** ** [AtomicMemoryStateRepository] *)

Section repository.
Context `{CustomIndex}.

Definition get (scope_id artifact_id : text) : M adb atomic_state :=
  current ← Governance.get scope_id atomic_memory artifact_id;
  lift (to_atomic current).

Definition create (scope_id artifact_id : text) : M adb atomic_state :=
  x ← get scope_id artifact_id;
  lift (raise_if (x ≠ initial_state)
          (AtomicMemoryRelationError "a new Atomic Memory requires an unchanged active head")) ;;
  mret x.

Definition require_summary (scope_id artifact_id : text) (expected : atomic_state) : M adb unit :=
  x ← get scope_id artifact_id;
  lift (raise_if (x ≠ expected)
          (AtomicMemoryRelationError "Atomic Memory state changed from its expected shared head")).

(** The governance errors of a publication, in the Family's vocabulary. *)
Definition translated {A} (m : M adb A) : M adb A := λ s,
  match m s with
  | Err (StoredPayloadConflictError _) =>
      Err (AtomicMemoryConflictError "Atomic Memory state changed during publication")
  | Err (InvalidArtifactLifecycleError msg) => Err (AtomicMemoryRelationError msg)
  | r => r
  end.

Definition transition (scope_id artifact_id : text) (expected : atomic_state) (requested : state_value)
    (merged : option text) : M adb atomic_state :=
  require_summary scope_id artifact_id expected ;;
  current ← Governance.get scope_id atomic_memory artifact_id;
  updated ← translated (transition_merge scope_id atomic_memory artifact_id current (summary requested) merged None);
  lift (to_atomic updated).

(** ** Effects *)

Lemma translated_ok {A} (m : M adb A) s r : translated m s = Ok r → m s = Ok r.
Proof. unfold translated. destruct (m s) as [|[]]; congruence. Qed.

(** The state a head row reads as. *)
Definition reads_as (x : atomic_state) (h : head) : Prop :=
  head_replacement h = None ∧ x = mkState (state_of (head_state h) (head_merged_into h)) (head_generation h) (head_merged_into h).

Lemma to_atomic_ok k h x : to_atomic (governance_of k h) = Ok x → reads_as x h ∧ valid_state x.
Proof.
  unfold to_atomic, new_state. intros H1. run. simpl in *. split; [split; [|done]|].
  - destruct (head_replacement h); [|done]. by destruct H0.
  - match goal with Hv : ¬ ¬ valid_state ?y |- _ => destruct (decide (valid_state y)); [done|tauto] end.
Qed.

Lemma atomic_get_ok scope_id artifact_id s x s' :
  get scope_id artifact_id s = Ok (x, s') →
  s' = s ∧ ∃ h, a_heads s !! (scope_id, atomic_memory, artifact_id) = Some h ∧ reads_as x h ∧ valid_state x.
Proof.
  unfold get. intros (g & s1 & (-> & h & Hh & ->)%governance_get_ok & [Hx ->]%lift_ok)%M_bind_ok.
  split; [done|]. exists h. split; [done|]. by eapply to_atomic_ok.
Qed.

Lemma atomic_get_fueled scope_id artifact_id : fueledM (get scope_id artifact_id).
Proof.
  unfold get, Governance.get, decode_artifact_governance, new_governance, to_atomic, new_state. fuel.
Qed.

Lemma state_expression_of h : state_expression h = state_of (head_state h) (head_merged_into h).
Proof.
  unfold state_expression. destruct (head_state h), (head_merged_into h);
    repeat (first [rewrite decide_True by done | rewrite decide_False by naive_solver]); done.
Qed.

(** What a transition returns is a valid governance of the written head. *)
Lemma governance_get_valid scope_id family i s g s' : Governance.get scope_id family i s = Ok (g, s') → valid_governance g.
Proof.
  unfold Governance.get, decode_artifact_governance, new_governance. intros [H1 _]%reads_ok.
  destruct (a_heads s !! _) as [h|]; [|done]. run.
  match goal with Hv : ¬ ¬ ?P |- _ => destruct (decide P); [done|tauto] end.
Qed.

Lemma transition_merge_valid scope_id family i expected st merged replacement s g s' :
  transition_merge scope_id family i expected st merged replacement s = Ok (g, s') → valid_governance g.
Proof.
  unfold transition_merge, Governance.require_summary, new_governance. intros H1.
  apply M_bind_ok in H1 as ([] & ? & _ & H1). apply M_bind_ok in H1 as ([] & ? & _ & H1).
  apply M_bind_ok in H1 as (c & ? & Hc & H1). apply M_bind_ok in Hc as (c' & ? & Hg%governance_get_valid & Hc).
  apply M_bind_ok in Hc as ([] & ? & _ & [-> _]%M_ret_ok).
  case_decide; [by apply M_ret_ok in H1 as [-> _]|].
  apply M_bind_ok in H1 as (req & ? & [Hr ->]%lift_ok & H1).
  apply result_bind_ok in Hr as ([] & Hv%raise_if_ok & [= <-]).
  apply M_bind_ok in H1 as (n & ? & _ & H1). apply M_bind_ok in H1 as ([] & ? & _ & H1).
  apply M_bind_ok in H1 as ([] & ? & _ & [-> _]%M_ret_ok).
  match goal with Hv : ¬ ¬ ?P |- _ => destruct (decide P); [done|tauto] end.
Qed.

Lemma atomic_get_intro scope_id i s h :
  a_heads s !! (scope_id, atomic_memory, i) = Some h → valid_governance (governance_of (scope_id, atomic_memory, i) h) →
  get scope_id i s = match to_atomic (governance_of (scope_id, atomic_memory, i) h) with
                     | Ok x => Ok (x, s) | Err e => Err e end.
Proof.
  intros Hh Hv. unfold get, Governance.get, mbind, M_bind, reads. rewrite Hh.
  unfold decode_artifact_governance, new_governance. rewrite raise_if_skip by tauto. simpl. done.
Qed.

Lemma atomic_transition_ok scope_id i expected requested merged s x s' :
  transition scope_id i expected requested merged s = Ok (x, s') →
  state x = state_of (summary requested) merged ∧ merged_into_id x = merged ∧
  get scope_id i s = Ok (expected, s) ∧ get scope_id i s' = Ok (x, s') ∧
  ((x = expected ∧ s' = s) ∨
   state_version x = state_version expected + 1 ∧
   ∃ h, a_heads s !! (scope_id, atomic_memory, i) = Some h ∧
     s' = set_heads (<[(scope_id, atomic_memory, i) :=
            mkHead (head_revision h) (summary requested) None merged (head_generation h + 1)]> (a_heads s)) s).
Proof.
  unfold transition, require_summary. intros H1.
  apply M_bind_ok in H1 as ([] & s1 & Hreq & H1).
  apply M_bind_ok in Hreq as (x0 & ? & Hget & [Hx0%raise_if_ok ->]%lift_ok).
  destruct (decide (x0 = expected)) as [->|]; [clear Hx0|tauto].
  pose proof Hget as (-> & h & Hh & [Hr Hx] & _)%atomic_get_ok.
  apply M_bind_ok in H1 as (c & ? & (-> & h1 & Hh1 & ->)%governance_get_ok & H1).
  assert (h1 = h) as -> by congruence. clear Hh1.
  apply M_bind_ok in H1 as (g & s1 & Ht%translated_ok & [Hat ->]%lift_ok).
  pose proof (transition_merge_valid _ _ _ _ _ _ _ _ _ _ Ht) as Hv.
  apply transition_merge_ok in Ht as (h2 & Hh2 & _ & _ & Hst & Hme & Hre & Har & Hcase).
  assert (h2 = h) as -> by congruence. clear Hh2.
  destruct Hcase as [(E1 & E2 & E3 & -> & ->)|(Hgen & Hset & _)].
  - pose proof Hat as [[_ Hxh] _]%to_atomic_ok. assert (x = expected) as -> by congruence.
    subst expected. simpl. rewrite E1, E2. split_and!; try done; [by rewrite <- E1, <- E2|by rewrite <- E1, <- E2|by left].
  - destruct g as [ga gs gr gm gg]. simpl in *. subst ga gs gr gm gg.
    assert (Hg : governance_of (scope_id, atomic_memory, i)
                   (mkHead (head_revision h) (summary requested) None merged (head_generation h + 1)) =
                 mkGovernance (mkRef atomic_memory i (head_revision h)) (summary requested) None merged
                   (head_generation h + 1)) by done.
    pose proof Hat as [[_ Hxs] _]%(to_atomic_ok (scope_id, atomic_memory, i)
      (mkHead (head_revision h) (summary requested) None merged (head_generation h + 1))).
    subst x. simpl in *. split_and!; try done.
    + rewrite Hset. erewrite atomic_get_intro; [|simpl; apply lookup_insert_eq|done]. by rewrite Hg, Hat.
    + right. split; [by subst expected|]. by exists h.
Qed.

(** The state that SQL selects by is the state that Python decodes: on every
    head an Atomic Memory read accepts, the CASE expression names the state the
    read returns. *)
Theorem sql_state_agrees scope_id artifact_id s x s' h :
  get scope_id artifact_id s = Ok (x, s') → a_heads s !! (scope_id, atomic_memory, artifact_id) = Some h →
  state_expression h = state x.
Proof. intros (_ & h' & Hh & [_ ->] & _)%atomic_get_ok ?. simplify_eq. apply state_expression_of. Qed.

(** A transition of an Atomic Memory starts from exactly the expected state and
    ends in the one it returns: the next read sees it, its version is one higher
    unless nothing changed, and only that head is written. *)
Theorem transition_reads_back scope_id artifact_id expected requested merged s x s' :
  transition scope_id artifact_id expected requested merged s = Ok (x, s') →
  state x = state_of (summary requested) merged ∧ merged_into_id x = merged ∧
  get scope_id artifact_id s = Ok (expected, s) ∧ get scope_id artifact_id s' = Ok (x, s') ∧
  ((x = expected ∧ s' = s) ∨
   state_version x = state_version expected + 1 ∧
   ∃ h, a_heads s !! (scope_id, atomic_memory, artifact_id) = Some h ∧
     s' = set_heads (<[(scope_id, atomic_memory, artifact_id) :=
            mkHead (head_revision h) (summary requested) None merged (head_generation h + 1)]> (a_heads s)) s).
Proof. apply atomic_transition_ok. Qed.
End repository.

(** ** Concrete runs *)

#[local] Instance no_custom_index : CustomIndex :=
  {| prepare_custom _ _ _ _ _ := Ok tt; publish_custom _ _ _ _ := Ok tt |}.

Definition demo_scope : text := [1].

(** An active Memory [2] merged into [3]. *)
Definition demo_db : adb :=
  set_heads {[ (demo_scope, atomic_memory, [2]) := mkHead 1 ACTIVE None None 0 ]}
    (set_bodies {[ (demo_scope, atomic_memory, [2], 1) := mkBody (mkContent [] []) 0 None ]} empty_adb).
Definition demo_merged : adb :=
  set_heads (<[ (demo_scope, atomic_memory, [2]) := mkHead 1 DEPRECATED None (Some [3]) (0 + 1) ]> (a_heads demo_db)) demo_db.

Lemma sql_state_agrees_witness : state_expression (mkHead 1 ACTIVE None None 0) = Active.
Proof. apply (sql_state_agrees demo_scope [2] demo_db initial_state demo_db); vm_compute; reflexivity. Defined.

Lemma transition_reads_back_witness : get demo_scope [2] demo_merged = Ok (mkState Merged 1 (Some [3]), demo_merged).
Proof.
  apply (transition_reads_back demo_scope [2] initial_state Merged (Some [3]) demo_db). vm_compute. reflexivity.
Defined.
End AtomicState.
