(* ===== verification/Worklist.v ===== *)
(** * Worklists

    The loop [while pending: x = pending.pop(); if key(x) in visited: continue; ...] that
    the traversals of the evidence graph share: its fuel, its invariant rule, and the
    closure it computes. *)

From S2P Require Import Prelude.

Section worklist.
Context {T A K : Type} `{EqDecision K}.
Context (key : A → K) (visit : A → M T (list A)) (add : list A → list A → list A).

(** [add] puts the children of the visited element into what is pending. *)
Fixpoint worklist (fuel : nat) (pending : list A) (visited : list K) : M T (list K) :=
  match fuel with
  | O => lift (Err OutOfFuel)
  | S fuel' =>
      match pending with
      | [] => mret visited
      | x :: rest =>
          if decide (key x ∈ visited) then worklist fuel' rest visited
          else children ← visit x; worklist fuel' (add rest children) (key x :: visited)
      end
  end.

(** ** Enough fuel *)

Hypothesis add_perm : ∀ rest children, add rest children ≡ₚ rest ++ children.

Lemma add_elem y rest children : y ∈ add rest children ↔ y ∈ rest ∨ y ∈ children.
Proof. by rewrite add_perm, elem_of_app. Qed.

Lemma key_mono (l l' : list A) : (∀ x, x ∈ l → x ∈ l') → ∀ k, k ∈ key <$> l → k ∈ key <$> l'.
Proof. intros Hl k (x & -> & Hx)%list_elem_of_fmap. by apply list_elem_of_fmap_2, Hl. Qed.

(** The elements still to be pushed by the keys of [U] not visited yet. *)
Definition to_push (w : K → nat) (U visited : list K) : nat := sum_list_with w (filter (λ k, k ∉ visited) U).

Lemma to_push_cons w U k visited :
  k ∈ U → k ∉ visited → (w k + to_push w U (k :: visited) ≤ to_push w U visited)%nat.
Proof.
  unfold to_push. intros HU Hk.
  assert (Hle : ∀ U', (sum_list_with w (filter (λ x, x ∉ k :: visited) U') ≤
                       sum_list_with w (filter (λ x, x ∉ visited) U'))%nat).
  { induction U' as [|x U' IH]; [done|]. rewrite !filter_cons.
    destruct (decide (x ∉ k :: visited)) as [Hx|Hx].
    - rewrite decide_True by set_solver. simpl. lia.
    - destruct (decide (x ∉ visited)); simpl; lia. }
  induction U as [|x U IH]; [by apply not_elem_of_nil in HU|]. rewrite !filter_cons.
  destruct (decide (x = k)) as [->|Hx].
  - rewrite decide_False by (intros Hn; apply Hn; left). rewrite decide_True by done. simpl. specialize (Hle U). lia.
  - apply elem_of_cons in HU as [->|HU]; [done|]. specialize (IH HU).
    destruct (decide (x ∉ visited)) as [Hv|Hv].
    + rewrite decide_True by set_solver. simpl. lia.
    + rewrite decide_False by set_solver. done.
Qed.

Lemma worklist_fueled (U : list K) (w : K → nat) fuel pending visited t :
  (∀ x t, key x ∈ U → fueled (visit x t)) →
  (∀ x t children t', key x ∈ U → visit x t = Ok (children, t') →
     (length children ≤ w (key x))%nat ∧ ∀ y, y ∈ children → key y ∈ U) →
  (∀ x, x ∈ pending → key x ∈ U) →
  (length pending + to_push w U visited < fuel)%nat →
  fueled (worklist fuel pending visited t).
Proof.
  intros Hv Hc. revert pending visited t. induction fuel as [|fuel IH]; intros pending visited t Hp Hf; [lia|].
  destruct pending as [|x rest]; simpl; [done|]. simpl in Hf. assert (Hx : key x ∈ U) by (apply Hp; left).
  case_decide as Hk; [apply IH; [intros y ?; apply Hp; by right|lia]|].
  unfold mbind, M_bind. destruct (visit x t) as [[children t']|e] eqn:E.
  - destruct (Hc _ _ _ _ Hx E) as [Hlen HU]. apply IH.
    + intros y [Hy|Hy]%add_elem; [apply Hp; by right|by apply HU].
    + rewrite add_perm, length_app. pose proof (to_push_cons w U _ _ Hx Hk). lia.
  - intros [= ->]. by apply (Hv x t Hx).
Qed.

(** ** Invariants: of the pending elements, the visited ones and the state *)

Lemma worklist_rule (I : list A → list A → T → Prop) fuel pending done_ t visited t' :
  (∀ x rest done_ t, I (x :: rest) done_ t → key x ∈ key <$> done_ → I rest done_ t) →
  (∀ x rest done_ t children t', I (x :: rest) done_ t → key x ∉ key <$> done_ →
     visit x t = Ok (children, t') → I (add rest children) (x :: done_) t') →
  I pending done_ t → worklist fuel pending (key <$> done_) t = Ok (visited, t') →
  ∃ done_', visited = key <$> done_' ∧ I [] done_' t'.
Proof.
  intros Hskip Hvisit. revert pending done_ t. induction fuel as [|fuel IH]; intros pending done_ t HI; [done|].
  destruct pending as [|x rest]; simpl; [intros [-> ->]%M_ret_ok; by exists done_|].
  case_decide as Hk; [by apply IH, (Hskip x)|].
  intros (children & t1 & Hx & H)%M_bind_ok. eapply (IH _ (x :: done_)); [|exact H].
  by eapply Hvisit.
Qed.

(** The closure: the visited elements are reached from the start, [good] holds of each
    with the children it was visited with, and their keys are visited. *)
Section closure.
Context (good : A → list A → Prop) (start : list A).

Definition leads (x y : A) : Prop := ∃ children, good x children ∧ y ∈ children.
Definition reached (x : A) : Prop := ∃ x0, x0 ∈ start ∧ rtc leads x0 x.

Definition closed (done_ : list A) : Prop :=
  (∀ x, x ∈ start → key x ∈ key <$> done_) ∧
  (∀ x, x ∈ done_ → reached x ∧ ∃ children, good x children ∧ ∀ y, y ∈ children → key y ∈ key <$> done_).

Lemma worklist_closed (J : list A → T → Prop) fuel t visited t' :
  (∀ x t children t', visit x t = Ok (children, t') → good x children) →
  (∀ x done_ t children t', J done_ t → visit x t = Ok (children, t') → J (x :: done_) t') →
  J [] t → worklist fuel start [] t = Ok (visited, t') →
  ∃ done_, visited = key <$> done_ ∧ closed done_ ∧ J done_ t'.
Proof.
  intros Hgood HJ HJ0 Hrun.
  destruct (worklist_rule (λ pending done_ t, (∀ x, x ∈ start → key x ∈ key <$> (pending ++ done_)) ∧
      (∀ x, x ∈ pending → reached x) ∧
      (∀ x, x ∈ done_ → reached x ∧ ∃ children, good x children ∧
         ∀ y, y ∈ children → key y ∈ key <$> (pending ++ done_)) ∧ J done_ t)
      fuel start [] t visited t') as (done_ & -> & Hs & _ & Hd & Hj); try done.
  - intros x rest done_ t1 (Hs & Hr & Hd & Hj) Hk. simpl in *.
    assert (Hin : ∀ k, k ∈ key x :: (key <$> rest ++ done_) → k ∈ key <$> (rest ++ done_)).
    { intros k [->|?]%elem_of_cons; [|done]. apply (key_mono done_); [|done]. intros z ?. apply elem_of_app. by right. }
    split_and!; [intros y Hy; by apply Hin, Hs|intros y Hy; apply Hr; by right| |done].
    intros y Hy. destruct (Hd y Hy) as (Hry & cs & Hg & Hc). split; [done|]. exists cs. split; [done|].
    intros z Hz. by apply Hin, Hc.
  - intros x rest done_ t1 cs t1' (Hs & Hr & Hd & Hj) Hk Hx. pose proof (Hgood _ _ _ _ Hx) as Hg.
    assert (Hin : ∀ k, k ∈ key <$> ((x :: rest) ++ done_) → k ∈ key <$> (add rest cs ++ x :: done_)).
    { apply key_mono. intros y. rewrite !elem_of_app, add_elem, !elem_of_cons. tauto. }
    assert (Hrx : reached x) by (apply Hr; left).
    split_and!; [intros y Hy; by apply Hin, Hs| | |by eapply HJ].
    + intros y [Hy|Hy]%add_elem; [apply Hr; by right|].
      destruct Hrx as (x0 & Hx0 & Hp). exists x0. split; [done|]. eapply rtc_r; [done|]. by exists cs.
    + intros y [->|Hy]%elem_of_cons.
      * split; [done|]. exists cs. split; [done|]. intros z Hz. apply list_elem_of_fmap_2.
        apply elem_of_app. left. apply add_elem. by right.
      * destruct (Hd y Hy) as (Hry & cs' & Hg' & Hc). split; [done|]. exists cs'. split; [done|].
        intros z Hz. by apply Hin, Hc.
  - split_and!; try done.
    + intros x Hx. rewrite app_nil_r. by apply list_elem_of_fmap_2.
    + intros x Hx. exists x. split; [done|]. apply rtc_refl.
    + intros x Hx. by apply not_elem_of_nil in Hx.
  - exists done_. split_and!; done.
Qed.

End closure.
End worklist.

(** ** Reachability along listed edges *)

Section edges.
Context {T : Type} {K : Type} `{EqDecision K}.
Implicit Types (edges : list (K * K)).

Definition upstream_of (edges : list (K * K)) (n : K) : list K := (filter (λ e, e.1 = n) edges).*2.

(** An edge of the graph, and a path. *)
Definition edge_in (edges : list (K * K)) (x y : K) : Prop := (x, y) ∈ edges.

Lemma upstream_elem edges n m : m ∈ upstream_of edges n ↔ (n, m) ∈ edges.
Proof.
  unfold upstream_of. rewrite list_elem_of_fmap. split.
  - intros ([a b] & -> & [Ha Hin]%list_elem_of_filter). simpl in *. by subst.
  - intros Hin. exists (n, m). split; [done|]. by apply list_elem_of_filter.
Qed.

(** Popping from the end: the last child is next. *)
Definition stack (rest children : list K) : list K := reverse children ++ rest.
Lemma stack_perm rest children : stack rest children ≡ₚ rest ++ children.
Proof. unfold stack. rewrite reverse_Permutation. apply Permutation_app_comm. Qed.

(** Every edge is pushed at most once. *)
Definition edge_fuel (edges : list (K * K)) : nat := 2 + length edges.

Lemma edges_pushed edges (U : list K) : NoDup U → (to_push (λ k, length (upstream_of edges k)) U [] ≤ length edges)%nat.
Proof.
  intros HU. unfold to_push. rewrite filter_all by (intros x _; apply not_elem_of_nil).
  induction edges as [|[a b] edges IH]; [by induction U; simpl; [|rewrite IHU by by inversion HU]|]. simpl.
  assert (Hstep : ∀ U', NoDup U' → (sum_list_with (λ k, length (upstream_of ((a, b) :: edges) k)) U' ≤
     sum_list_with (λ k, length (upstream_of edges k)) U' + if decide (a ∈ U') then 1 else 0)%nat).
  { induction U' as [|x U' IHU]; [intros; simpl; lia|]. intros [Hx HU']%NoDup_cons. specialize (IHU HU'). simpl.
    assert (Hx2 : length (upstream_of ((a, b) :: edges) x) =
       (length (upstream_of edges x) + if decide (a = x) then 1 else 0)%nat).
    { unfold upstream_of. rewrite filter_cons. cbn [fst]. destruct (decide (a = x)); cbn [fmap list_fmap length]; [rewrite !length_fmap|]; lia. }
    rewrite Hx2. destruct (decide (a = x)) as [->|Hne].
    - rewrite decide_True by left. rewrite decide_False in IHU by done. lia.
    - destruct (decide (a ∈ U')); [rewrite decide_True by (by right); lia|].
      rewrite decide_False by (by intros [?|?]%elem_of_cons). lia. }
  specialize (Hstep U HU). destruct (decide (a ∈ U)); lia.
Qed.
End edges.
