(* ===== verification/Evidence.v ===== *)
(** * Evidence resolution

    [builtin/evidence/models.py], [resolver.py] and [selection.py]: the exact lineage of
    cited Sources and Artifact revisions, validated for a review or resolved into the
    manifest and the projection that a model sees, and the provenance of what the model
    chose.  A resolver only reads; [waits] is what other transactions commit while it
    waits for the locks on Memory heads. *)

From S2P Require Import Prelude Tables Catalog Governance Provenance Artifacts AtomicState Worklist.
Local Open Scope Z_scope.

Module Evidence.
Import AtomicState.

(** ** Values *)

(** [EvidenceReference], and a child with the Memory whose history it belongs to. *)
Inductive reference := ToSource (r : source_ref) | ToArtifact (r : art_ref).
#[export] Instance reference_eq_dec : EqDecision reference.
Proof. solve_decision. Defined.
Notation child := (reference * option text)%type.
(** A pending reference: is it cited itself, and whose history it is read as. *)
Notation visiting := (reference * bool * option text)%type.

(** The [kind] and the [role] of a node. *)
Inductive node_kind :=
  | source_kind | experience_kind | memory_kind | profile_kind | topic_memory_kind | handoff_kind
  | skill_kind | prompt_kind | catalog_target_kind | unresolved_kind.
#[export] Instance node_kind_eq_dec : EqDecision node_kind.
Proof. solve_decision. Defined.
Inductive node_role := as_root | as_derived | as_target | as_lineage_only | as_unresolved.
#[export] Instance node_role_eq_dec : EqDecision node_role.
Proof. solve_decision. Defined.

(** [EvidenceNode]. *)
Record node := mkNode {
  node_id : text;
  kind : node_kind;
  node_digest : text;
  node_source : option source_ref;
  node_artifact : option art_ref;
  role : node_role;
  historical : bool
}.
#[export] Instance node_eq_dec : EqDecision node.
Proof. solve_decision. Defined.
Definition with_role (r : node_role) (n : node) : node :=
  mkNode (node_id n) (kind n) (node_digest n) (node_source n) (node_artifact n) r (historical n).

(** [EvidenceLimits]. *)
Record limits := mkLimits { max_items : Z; max_bytes : Z; max_nodes : Z; max_edges : Z; max_depth : Z }.
Definition default_limits : limits := mkLimits 32 65536 128 256 8.
Definition valid_limits (l : limits) : Prop :=
  1 ≤ max_items l ≤ 32 ∧ 1 ≤ max_bytes l ≤ 65536 ∧ 1 ≤ max_nodes l ≤ 128 ∧ 1 ≤ max_edges l ≤ 256 ∧ 1 ≤ max_depth l ≤ 8.

(** [RootEvidenceGroup]; [attested] is its [independence]. *)
Record root_group := mkGroup { group_id : text; group_sources : list source_ref; attested : bool }.
#[export] Instance root_group_eq_dec : EqDecision root_group.
Proof. solve_decision. Defined.

(** [ProjectedEvidence] and [EvidenceProjection]. *)
Record projected := mkProjected {
  p_id : text; p_kind : node_kind; p_text : text; p_historical : bool; p_groups : list text
}.
Record projection := mkProjection { p_evidence : list projected; p_root_groups : list root_group; p_incomplete : bool }.

(** [EvidenceManifest]. *)
Record manifest := mkManifest {
  transform_version : text;
  m_artifacts : list art_ref;
  m_sources : list source_ref;
  m_nodes : list node;
  m_edges : list (text * text);
  m_root_groups : list root_group;
  projection_digest : text;
  projection_bytes : Z;
  incomplete : bool
}.
Definition EVIDENCE_TRANSFORM_VERSION : text := str "powercontext.dream.evidence.v1".

(** The citations of a Handoff: of its statements, its next action, its omissions. *)
Record handoff_view := mkHandoff {
  h_state : list (list reference);
  h_next_action : option (list reference);
  h_omissions : list (option reference)
}.

(** Serialisation and digests: [model_dump_json] and [hashlib.sha256], and the fields of
    content models that the resolver reads. *)
Class Encoding := {
  reference_key : reference → text;
  reference_key_inj :: Inj (=) (=) reference_key;
  content_digest : text → text;
  artifact_json : artifact → text;
  content_json : content → text;
  source_json : source → text;
  state_json : atomic_state → text;
  projection_json : projection → text;
  profile_text : content → text;
  creation_inputs : content → option (list text);
  handoff_of : content → handoff_view
}.

(** [_Traversal]. *)
Record traversal := mkTraversal {
  t_project : bool;
  t_target : option art_ref;
  t_prompt_target : option art_ref;
  t_catalog_target : option art_ref;
  t_nodes : dict text node;
  t_bodies : dict text text;
  t_edges : gset (text * text);
  t_groups : dict text (text * bool)
}.
Definition set_nodes (v : dict text node) (t : traversal) : traversal :=
  mkTraversal (t_project t) (t_target t) (t_prompt_target t) (t_catalog_target t) v (t_bodies t) (t_edges t) (t_groups t).
Definition set_t_bodies (v : dict text text) (t : traversal) : traversal :=
  mkTraversal (t_project t) (t_target t) (t_prompt_target t) (t_catalog_target t) (t_nodes t) v (t_edges t) (t_groups t).
Definition set_edges (v : gset (text * text)) (t : traversal) : traversal :=
  mkTraversal (t_project t) (t_target t) (t_prompt_target t) (t_catalog_target t) (t_nodes t) (t_bodies t) v (t_groups t).
Definition set_groups (v : dict text (text * bool)) (t : traversal) : traversal :=
  mkTraversal (t_project t) (t_target t) (t_prompt_target t) (t_catalog_target t) (t_nodes t) (t_bodies t) (t_edges t) v.
Definition new_traversal (project : bool) (target prompt catalog : option art_ref) : traversal :=
  mkTraversal project target prompt catalog [] [] ∅ [].

(** What the resolver was composed with.  A projector returns nothing where the code
    raises one of its two projection errors. *)
Record resolver := mkResolver {
  scope_id : text;
  repo : Artifacts.repository;
  authorize : option (reference → adb → result unit);
  root_identity : option (source_ref → source → option text);
  source_projector : option (source → option text);
  limits_of : limits
}.

(** The elements that are not [None]. *)
Definition present {A} (l : list (option A)) : list A := omap (λ x, x) l.

(** The value a read of the tables returns. *)
Definition ask {A} (m : M adb A) (s : adb) : result A :=
  match m s with Ok (a, _) => Ok a | Err e => Err e end.
(** The state a loop leaves. *)
Definition finish {S A} (m : M S A) (s : S) : result S :=
  match m s with Ok (_, s') => Ok s' | Err e => Err e end.

Definition is_family (fam : string) (a : artifact) : Prop := ref_family (art_self a) = str fam.
#[export] Instance is_family_dec fam a : Decision (is_family fam a) := decide (ref_family (art_self a) = str fam).
Definition is_atomic (a : artifact) : Prop := ref_family (art_self a) = atomic_memory.
#[export] Instance is_atomic_dec a : Decision (is_atomic a) := decide (ref_family (art_self a) = atomic_memory).

(** [except RepositoryNotFoundError] around a read. *)
Definition not_found {S A} (direct : bool) (m : M S A) : M S A := λ s,
  match m s with
  | Err (RepositoryNotFoundError _) =>
      Err (EvidenceResolutionError (if direct then "reference_not_found" else "evidence_unavailable"))
  | r => r
  end.

(** ** Reachability over evidence ids *)

(** [root_ids]: the root nodes at the end of paths from a node. *)
Definition visit_root (nodes : dict text node) (edges : gset (text * text)) (current : text) : M (gset text) (list text) :=
  n ← lift (match dget current nodes with Some n => Ok n | None => Err (RuntimeError "KeyError") end);
  modifies (λ roots, if decide (role n = as_root) then {[current]} ∪ roots else roots) ;;
  mret (upstream_of (elements edges) current).
Definition root_ids (start : text) (nodes : dict text node) (edges : gset (text * text)) : result (gset text) :=
  finish (worklist id (visit_root nodes edges) stack (edge_fuel (elements edges)) [start] []) ∅.

(** [_reachable]. *)
Definition reachable (start : text) (m : manifest) : result (gset text) :=
  visited ← ask (worklist id (λ current, mret (upstream_of (m_edges m) current)) stack (edge_fuel (m_edges m)) [start] [])
              empty_adb;
  Ok (list_to_set visited).

Section resolver.
Context `{Encoding, Governance.CustomIndex} (rv : resolver).

(** [evidence_id]. *)
Definition evidence_id (r : reference) : text := str "e_" ++ take 32 (drop 7 (content_digest (reference_key r))).

Definition authorize_reference (r : reference) (s : adb) : result unit :=
  match authorize rv with None => Ok tt | Some f => f r s end.

(** ** Children *)

(** [_lineage_children]: a Memory names itself as the owner of its history and of the
    inputs it was merged from. *)
Definition history_owner (a : artifact) (c : reference) : option text :=
  match c with
  | ToSource _ => None
  | ToArtifact r =>
      if decide (is_atomic a ∧ ref_family r = atomic_memory ∧
                 (ref_id r = ref_id (art_self a) ∨ ref_id r ∈ default [] (creation_inputs (art_content a))))
      then Some (ref_id (art_self a)) else None
  end.
Definition lineage_refs (a : artifact) : list reference :=
  (ToSource <$> lineage_sources (art_lineage a)) ++ (ToArtifact <$> lineage_artifacts (art_lineage a)).
Definition lineage_children (a : artifact) : list child := (λ c, (c, history_owner a c)) <$> lineage_refs a.

Definition handoff_references (h : handoff_view) : list reference :=
  concat (h_state h) ++ default [] (h_next_action h) ++ present (h_omissions h).

(** [_artifact_children]: each child with each owner once; the exact target has none. *)
Definition artifact_children (a : artifact) (r : art_ref) (target : option art_ref) : list child :=
  if decide (Some r = target ∧ ref_family r ≠ str "experience") then [] else
    let children := lineage_refs a ++
      (if decide (is_family "handoff" a) then handoff_references (handoff_of (art_content a)) else []) in
    nub (lineage_children a ++ ((λ c, (c, None)) <$> children)).

(** ** Reads of one reference *)

(** [_read_atomic]: a Memory that is not active is only read as history of its owner, or
    as the frozen input of the Memory it was merged into. *)
Definition history_allowed (st : atomic_state) (current r : art_ref) (owner : option text) : Prop :=
  state st = Active ∨ owner = Some (ref_id r) ∨
  (state st = Merged ∧ merged_into_id st = owner ∧ current = r).
#[export] Instance history_allowed_dec st current r owner : Decision (history_allowed st current r owner).
Proof. unfold history_allowed. apply _. Defined.

Definition read_atomic (s : adb) (r : art_ref) (a : artifact) (locked : bool) (owner : option text)
    : result (node * text * list child) :=
  current ← ask (Artifacts.latest (repo rv) (scope_id rv) atomic_memory (ref_id r) locked
                   (if locked then None else Some a)) s;
  st ← ask (AtomicState.get (scope_id rv) (ref_id r)) s;
  raise_if (¬ history_allowed st (art_self current) r owner) (EvidenceResolutionError "memory_entry_inactive") ;;
  let digest := content_digest (artifact_json a ++ reference_key (ToArtifact (art_self current)) ++ state_json st) in
  Ok (mkNode (evidence_id (ToArtifact r)) memory_kind digest None (Some r) as_derived
        (bool_decide (art_self current ≠ r ∨ state st ≠ Active)),
      content_json (art_content a), lineage_children a).

(** [_read_source]: a Source whose purpose forbids generation stays provenance, unless it
    is cited itself. *)
Definition fetch_source (s : adb) (r : source_ref) (direct : bool) : result (source * bool) :=
  match ask (require_for_generation (scope_id rv) [r]) s with
  | Ok ((_, row) :: _) => Ok (source_value row, true)
  | Ok [] => Err (RuntimeError "IndexError")
  | Err (SourceNotEligibleError | WorkingNoteUnavailableError) =>
      if direct then Err (EvidenceResolutionError "source_not_eligible") else
        row ← ask (get_source (scope_id rv) r) s; Ok (source_value row, false)
  | Err e => Err e
  end.

Definition source_group (r : source_ref) (v : source) : text * bool :=
  let claimed := f ← root_identity rv; f r v in
  let key := default (reference_key (ToSource r)) claimed in
  (str "root_" ++ take 24 (drop 7 (content_digest key)), bool_decide (is_Some claimed)).

Definition source_body (v : source) (eligible project : bool) : result text :=
  match source_projector rv with
  | Some f =>
      if eligible && project then
        match f v with Some t => Ok t | None => Err (EvidenceResolutionError "evidence_unavailable") end
      else Ok (source_json v)
  | None => Ok (source_json v)
  end.

Definition source_node (r : source_ref) (v : source) (eligible : bool) : node :=
  mkNode (evidence_id (ToSource r)) source_kind (content_digest (source_json v)) (Some r) None
    (if eligible then as_root else as_lineage_only) false.

Definition read_source (s : adb) (r : source_ref) (direct : bool) : M traversal (node * text * list child) :=
  fetched ← lift (fetch_source s r direct);
  let '(v, eligible) := fetched in
  project ← gets t_project;
  body ← lift (source_body v eligible project);
  modifies (λ t, if (eligible : bool) then set_groups (dset (evidence_id (ToSource r)) (source_group r v) (t_groups t)) t else t) ;;
  mret (source_node r v eligible, body, []).

Definition artifact_node (r : art_ref) (a : artifact) (k : node_kind) (ro : node_role) (old : bool) : node :=
  mkNode (evidence_id (ToArtifact r)) k (content_digest (artifact_json a)) None (Some r) ro old.

(** [_read_review_artifact]: local lineage of every Family; publications and Prompts end it. *)
Definition review_children (a : artifact) : list child :=
  if decide (is_atomic a) then lineage_children a
  else if decide (is_family "prompt" a ∨ publication (art_lineage a) ≠ None) then []
  else artifact_children a (art_self a) None.
Definition read_review_artifact (s : adb) (r : art_ref) (locked : bool) (owner : option text)
    : result (node * list child) :=
  a ← ask (Artifacts.get (repo rv) (scope_id rv) r false) s;
  if decide (is_atomic a) then x ← read_atomic s r a locked owner; Ok (x.1.1, x.2)
  else Ok (artifact_node r a unresolved_kind as_lineage_only false, review_children a).

(** [_read]: the projection contract of each Family. *)
Definition read_artifact (s : adb) (r : art_ref) (locked : bool) (owner : option text) (t : traversal)
    : result (node * text * list child) :=
  a ← ask (Artifacts.get (repo rv) (scope_id rv) r false) s;
  let children := artifact_children a r (t_target t) in
  let json := content_json (art_content a) in
  let derived k := (artifact_node r a k as_derived false, json, children) in
  if decide (is_atomic a) then
    x ← read_atomic s r a locked owner;
    Ok (if decide (Some r = t_target t) then (with_role as_target x.1.1, x.1.2, []) else x)
  else if decide (Some r = t_catalog_target t) then
    Ok (artifact_node r a catalog_target_kind as_target false, json, [])
  else if decide (is_family "skill" a) then Ok (derived skill_kind)
  else if decide (is_family "profile" a) then
    Ok (artifact_node r a profile_kind as_derived false, profile_text (art_content a), children)
  else if decide (is_family "topic-memory" a) then Ok (derived topic_memory_kind)
  else if decide (is_family "handoff" a) then Ok (derived handoff_kind)
  else if decide (is_family "prompt" a) then
    Ok (if decide (Some r = t_prompt_target t) then (artifact_node r a prompt_kind as_target false, json, [])
        else (artifact_node r a unresolved_kind as_lineage_only false, [], children))
  else if decide (¬ is_family "experience" a ∨ publication (art_lineage a) ≠ None) then
    Ok (artifact_node r a unresolved_kind as_unresolved false, [], [])
  else
    current ← ask (Artifacts.latest (repo rv) (scope_id rv) (ref_family r) (ref_id r) false None) s;
    Ok (artifact_node r a experience_kind as_derived (bool_decide (art_self current ≠ r)), json, children).

Definition read (s : adb) (r : reference) (direct locked : bool) (owner : option text)
    : M traversal (node * text * list child) :=
  match r with
  | ToSource x => read_source s x direct
  | ToArtifact x => reads (read_artifact s x locked owner)
  end.

(** ** Validation of a review's lineage *)

Definition visit_key (x : visiting) : text * option text := (reference_key x.1.1, x.2).

Definition record (n : node) (children : list child) (t : traversal) : traversal :=
  set_edges (list_to_set ((λ c, (node_id n, evidence_id c.1)) <$> children) ∪ t_edges t)
    (set_nodes (if decide (dget (node_id n) (t_nodes t) = None) then dset (node_id n) n (t_nodes t) else t_nodes t) t).

Definition read_for_review (s : adb) (locked : bool) (x : visiting) : M traversal (node * list child) :=
  match x.1.1 with
  | ToArtifact r => lift (read_review_artifact s r locked x.2)
  | ToSource r => y ← read_source s r x.1.2; mret (y.1.1, y.2)
  end.

Definition visit_lineage (s : adb) (locked : bool) (x : visiting) : M traversal (list visiting) :=
  lift (authorize_reference x.1.1 s) ;;
  y ← not_found x.1.2 (read_for_review s locked x);
  modifies (record y.1 y.2) ;;
  mret ((λ c : child, (c.1, false, c.2)) <$> y.2).

(** Every child of a stored revision of the Scope is pushed at most once for each
    reference and owner. *)
Definition stored_children (s : adb) : list child :=
  concat ((λ kb : rev_key * body,
    match ask (Artifacts.get (repo rv) (scope_id rv) (mkRef kb.1.1.1.2 kb.1.1.2 kb.1.2) false) s with
    | Ok a => review_children a
    | Err _ => []
    end) <$> filter (λ kb, kb.1.1.1.1 = scope_id rv) (map_to_list (a_bodies s))).
Definition lineage_fuel (refs : list reference) (s : adb) : nat :=
  let n := length (stored_children s) in S (length refs + (length refs + n) * n).

(** [_validate_lineage]: first come, first read. *)
Definition validate_lineage (s : adb) (refs : list reference) (locked : bool) : result traversal :=
  finish (worklist visit_key (visit_lineage s locked) app (lineage_fuel refs s) ((λ r, (r, true, None)) <$> refs) [])
    (new_traversal false None None None).

Definition atomic_refs (nodes : list node) : list art_ref :=
  filter (λ r, ref_family r = atomic_memory) (omap node_artifact nodes).

Definition collect_roots (origins : list art_ref) (t : traversal) : result (list source_ref) :=
  found ← map_result (λ o, root_ids (evidence_id (ToArtifact o)) (t_nodes t) (t_edges t))
            (filter (λ r, ref_family r = atomic_memory) origins);
  let roots : gset text := ⋃ found in
  sources ← map_result (λ k, match dget k (t_nodes t) with
                             | Some n => Ok (node_source n)
                             | None => Err (RuntimeError "KeyError")
                             end) (sorted_text (elements roots));
  Ok (present sources).

(** [validate]. *)
Definition validate (waits : adb → adb) (sources : list source_ref) (artifacts : list art_ref)
    : M adb (list source_ref) :=
  let refs := (ToSource <$> sources) ++ (ToArtifact <$> artifacts) in
  observed ← reads (λ s, validate_lineage s refs false);
  let memories := atomic_refs (t_nodes observed).*2 in
  t ← (if decide (memories = []) then mret observed else
         modifies waits ;;
         Artifacts.lock_heads (scope_id rv) memories ;;
         reads (λ s, validate_lineage s refs true));
  lift (collect_roots artifacts t).

(** ** Resolution into a manifest and a projection *)

Record options := mkOptions {
  o_sources : list source_ref;
  o_artifacts : list art_ref;
  o_target : option art_ref;
  include_memory_text : bool;
  pinned : option manifest;
  o_project : bool;
  expose_prompt_target : bool;
  expose_catalog_target : bool
}.

Definition limit_error : exn := EvidenceResolutionError "evidence_limit_exceeded".
Definition unavailable_error : exn := EvidenceResolutionError "evidence_unavailable".

(** [_visit]: the fuel is the depth that is left. *)
Fixpoint visit (fuel : nat) (s : adb) (locked : bool) (r : reference) (direct : bool) (owner : option text)
    : M traversal text :=
  match fuel with
  | O => lift (Err limit_error)
  | S fuel' =>
      lift (authorize_reference r s) ;;
      x ← not_found direct (read s r direct locked owner);
      known ← gets (λ t, dget (evidence_id r) (t_nodes t));
      match known with
      | Some _ => mret (evidence_id r)
      | None =>
          modifies (λ t, set_t_bodies (dset (evidence_id r) x.1.2 (t_bodies t))
                           (set_nodes (dset (evidence_id r) x.1.1 (t_nodes t)) t)) ;;
          reads (λ t, raise_if (max_nodes (limits_of rv) < Z.of_nat (length (t_nodes t))) limit_error) ;;
          for_each (λ c : child,
            child_id ← visit fuel' s locked c.1 false c.2;
            modifies (λ t, set_edges ({[(evidence_id r, child_id)]} ∪ t_edges t) t) ;;
            reads (λ t, raise_if (max_edges (limits_of rv) < Z.of_nat (size (t_edges t))) limit_error)) x.2 ;;
          mret (evidence_id r)
      end
  end.

Definition depth_fuel : nat := S (Z.to_nat (max_depth (limits_of rv))).

Definition mark_target (target : option art_ref) (t : traversal) : traversal :=
  match target with
  | None => t
  | Some r =>
      match dget (evidence_id (ToArtifact r)) (t_nodes t) with
      | Some n => set_nodes (dset (evidence_id (ToArtifact r)) (with_role as_target n) (t_nodes t)) t
      | None => t
      end
  end.

(** [_restore_snapshot]: the same nodes, edges and digests, with the pinned roles. *)
Definition restore_snapshot (p : manifest) (t : traversal) : result traversal :=
  raise_if (transform_version p ≠ EVIDENCE_TRANSFORM_VERSION) unavailable_error ;;
  let before := dset_all ((λ n, (node_id n, n)) <$> m_nodes p) [] in
  raise_if ((list_to_set before.*1 : gset text) ≠ list_to_set (t_nodes t).*1 ∨ list_to_set (m_edges p) ≠ t_edges t)
    unavailable_error ;;
  restored ← map_result (λ kn : text * node,
    match dget kn.1 before with
    | Some old => raise_if (node_digest kn.2 ≠ node_digest old) unavailable_error ;; Ok (kn.1, old)
    | None => Err (RuntimeError "KeyError")
    end) (t_nodes t);
  Ok (set_nodes restored t).

Definition by_key (a b : source_ref) : Prop := text_le (reference_key (ToSource a)) (reference_key (ToSource b)).
#[local] Instance by_key_dec : RelDecision by_key := λ a b, decide (text_le _ _).

(** [_groups]: the Sources of each group, and whether the last of them was attested. *)
Definition add_to_group (g : dict text (list source_ref * bool)) (x : text * bool * source_ref)
    : dict text (list source_ref * bool) :=
  dset x.1.1 (default [] (fst <$> dget x.1.1 g) ++ [x.2], x.1.2) g.
Definition groups_of (t : traversal) : result (list root_group) :=
  members ← map_result (λ kg : text * (text * bool),
    match dget kg.1 (t_nodes t) with
    | Some n => Ok ((λ r, (kg.2, r)) <$> node_source n)
    | None => Err (RuntimeError "KeyError")
    end) (t_groups t);
  let found := foldl add_to_group [] (present members) in
  Ok ((λ k, let '(rs, a) := default ([], false) (dget k found) in mkGroup k (merge_sort by_key rs) a) <$>
      sorted_text found.*1).

Definition node_le (a b : text * node) : Prop := text_le a.1 b.1.
#[local] Instance node_le_dec : RelDecision node_le := λ a b, decide (text_le _ _).
Definition edge_le (a b : text * text) : Prop := text_le a.1 b.1 ∧ (a.1 = b.1 → text_le a.2 b.2).
#[local] Instance edge_le_dec : RelDecision edge_le := λ a b, decide (text_le _ _ ∧ (_ = _ → text_le _ _)).

Definition hidden (include_memory : bool) (n : node) : Prop :=
  kind n = unresolved_kind ∨ role n = as_unresolved ∨ role n = as_lineage_only ∨
  (kind n = memory_kind ∧ include_memory = false).
#[export] Instance hidden_dec i n : Decision (hidden i n).
Proof. unfold hidden. apply _. Defined.

Definition project_node (project : bool) (t : traversal) (kn : text * node) : result projected :=
  roots ← root_ids kn.1 (t_nodes t) (t_edges t);
  groups ← map_result (λ root, match dget root (t_groups t) with
                               | Some g => Ok g.1
                               | None => Err (RuntimeError "KeyError")
                               end) (elements roots);
  body ← (if (project : bool) then match dget kn.1 (t_bodies t) with Some b => Ok b | None => Err (RuntimeError "KeyError") end
          else Ok []);
  Ok (mkProjected kn.1 (kind kn.2) body (historical kn.2) (sorted_text (nub groups))).

Definition changed_from (old : option manifest) (digest : text) : Prop :=
  match old with Some p => digest ≠ projection_digest p | None => False end.
#[export] Instance changed_from_dec old digest : Decision (changed_from old digest).
Proof. destruct old; simpl; apply _. Defined.

(** The rest of [resolve], once the traversal is complete. *)
Definition compose (o : options) (t : traversal) : result (manifest * projection) :=
  groups ← groups_of t;
  let nodes := merge_sort node_le (t_nodes t) in
  evidence ← map_result (project_node (o_project o) t) (filter (λ kn, ¬ hidden (include_memory_text o) kn.2) nodes);
  let partial := bool_decide (Exists (λ kn, role kn.2 = as_unresolved) (t_nodes t)) in
  let p := mkProjection evidence groups partial in
  let payload := projection_json p in
  raise_if (o_project o = true ∧ (max_items (limits_of rv) < Z.of_nat (length evidence) ∨
                                  max_bytes (limits_of rv) < len payload)) limit_error ;;
  let m := mkManifest EVIDENCE_TRANSFORM_VERSION (o_artifacts o) (o_sources o) nodes.*2
             (merge_sort edge_le (elements (t_edges t))) groups (content_digest payload) (len payload) partial in
  raise_if (o_project o = true ∧ changed_from (pinned o) (projection_digest m)) unavailable_error ;;
  Ok (m, p).

Definition traverse (s : adb) (locked : bool) (refs : list reference) : M traversal unit :=
  for_each (λ r, visit depth_fuel s locked r true None ;; mret tt) refs.

Definition resolve_once (o : options) (locked : bool) (s : adb) : result (manifest * projection) :=
  let refs := (ToSource <$> o_sources o) ++ (ToArtifact <$> o_artifacts o) in
  t ← finish (traverse s locked refs)
        (new_traversal (o_project o) (o_target o)
           (if expose_prompt_target o then o_target o else None)
           (if expose_catalog_target o then o_target o else None));
  let t := mark_target (o_target o) t in
  t ← match pinned o with None => Ok t | Some p => restore_snapshot p t end;
  compose o t.

(** The immutable entry paths are discovered without text. *)
Definition discovery (o : options) : options :=
  mkOptions (o_sources o) (o_artifacts o) (o_target o) true None false (expose_prompt_target o) (expose_catalog_target o).

(** [resolve]. *)
Definition resolve (waits : adb → adb) (o : options) (lock_memory : bool) : M adb (manifest * projection) :=
  if lock_memory then
    observed ← reads (resolve_once (discovery o) false);
    modifies waits ;;
    Artifacts.lock_heads (scope_id rv) (atomic_refs (m_nodes observed.1)) ;;
    reads (resolve_once o true)
  else reads (resolve_once o false).

(** ** Selection *)

(** [SelectedEvidence]. *)
Record selected := mkSelected { s_sources : list source_ref; s_artifacts : list art_ref }.

Definition invalid_output : exn := EvidenceResolutionError "invalid_generation_output".

(** What the model may name as evidence. *)
Definition usable (skill : bool) (n : option node) : Prop :=
  match n with
  | None => False
  | Some n => role n ≠ as_unresolved ∧ role n ≠ as_lineage_only ∧ ¬ (skill = true ∧ kind n = memory_kind)
  end.
#[export] Instance usable_dec skill n : Decision (usable skill n).
Proof. destruct n; simpl; apply _. Defined.

Definition nodes_by_id (m : manifest) : dict text node := dset_all ((λ n, (node_id n, n)) <$> m_nodes m) [].

Definition is_support (nodes : dict text node) (k : text) : Prop :=
  match dget k nodes with Some n => role n ≠ as_target | None => False end.
#[export] Instance is_support_dec nodes k : Decision (is_support nodes k).
Proof. unfold is_support. destruct (dget k nodes); apply _. Defined.

(** Keep the cited Artifacts that lead to something chosen. *)
Fixpoint add_origins (m : manifest) (nodes : dict text node) (origins : list art_ref) (chosen : gset text)
    : result (gset text) :=
  match origins with
  | [] => Ok chosen
  | o :: origins' =>
      let k := evidence_id (ToArtifact o) in
      match dget k nodes with
      | None => Err (RuntimeError "KeyError")
      | Some n =>
          if decide (role n = as_target) then add_origins m nodes origins' chosen else
            from ← reachable k m;
            add_origins m nodes origins' (if decide (from ∩ chosen = ∅) then chosen else {[k]} ∪ chosen)
      end
  end.

Definition artifact_kinds (catalog : bool) : list node_kind :=
  [experience_kind; memory_kind] ++
  (if catalog then [skill_kind; profile_kind; topic_memory_kind; handoff_kind] else []).

(** [any(nodes[key].kind == "memory" for key in dependencies)]. *)
Fixpoint any_memory (nodes : dict text node) (keys : list text) : result bool :=
  match keys with
  | [] => Ok false
  | k :: keys' =>
      match dget k nodes with
      | None => Err (RuntimeError "KeyError")
      | Some n => if decide (kind n = memory_kind) then Ok true else any_memory nodes keys'
      end
  end.

(** [select_evidence]. *)
Definition select_evidence (m : manifest) (used : list text) (skill : bool) (target : option art_ref) (catalog : bool)
    : result selected :=
  let nodes := nodes_by_id m in
  check_each (λ k, raise_if (¬ usable skill (dget k nodes)) invalid_output) used ;;
  let chosen : gset text := list_to_set (filter (is_support nodes) used) in
  raise_if (chosen = ∅) (EvidenceResolutionError "needs_evidence") ;;
  chosen ← add_origins m nodes (m_artifacts m) chosen;
  found ← map_result (λ k, reachable k m) (elements chosen);
  let dependencies : gset text := ⋃ found in
  let sources := omap (λ kn : text * node,
    if decide (kn.1 ∈ dependencies ∧ role kn.2 = as_root) then node_source kn.2 else None) nodes in
  let artifacts := omap (λ kn : text * node,
    if decide (kn.1 ∈ chosen ∧ kind kn.2 ∈ artifact_kinds catalog) then node_artifact kn.2 else None) nodes in
  let artifacts := match target with Some t => nub (artifacts ++ [t]) | None => artifacts end in
  memory_derived ← any_memory nodes (elements dependencies);
  raise_if (memory_derived = true ∧ sources = []) (EvidenceResolutionError "needs_evidence") ;;
  raise_if (skill = true ∧ artifacts = []) invalid_output ;;
  raise_if (32 < Z.of_nat (length sources) + Z.of_nat (length artifacts)) limit_error ;;
  Ok (mkSelected sources artifacts).
End resolver.
End Evidence.
