(* ===== verification/Lineage.v ===== *)
(** * Validated lineage

    What [EvidenceResolver.validate] guarantees to a review: the traversals end, every
    reference the cited ones derive from is authorized and admissible when the locks on
    the Memory heads are held, and the Sources returned are exactly the eligible roots
    of the cited Memories. *)

From S2P Require Import Prelude Tables Catalog Governance Provenance Artifacts AtomicState Worklist Evidence.
Local Open Scope Z_scope.

Module Lineage.
Import AtomicState Evidence.

Lemma ask_ok {A} (m : M adb A) s a : ask m s = Ok a ↔ ∃ s', m s = Ok (a, s').
Proof. unfold ask. destruct (m s) as [[b s']|]; naive_solver. Qed.
Lemma ask_fueled {A} (m : M adb A) s : fueledM m → fueled (ask m s).
Proof. intros Hm. unfold ask. specialize (Hm s). destruct (m s) as [[]|]; [done|]. intros [= ->]. by apply Hm. Qed.
Lemma finish_ok {S A} (m : M S A) s s' : finish m s = Ok s' ↔ ∃ a, m s = Ok (a, s').
Proof. unfold finish. destruct (m s) as [[b t]|]; naive_solver. Qed.
Lemma finish_fueled {S A} (m : M S A) s : fueled (m s) → fueled (finish m s).
Proof. intros Hm. unfold finish. destruct (m s) as [[]|]; [done|]. intros [= ->]. by apply Hm. Qed.
Lemma not_found_ok {S A} direct (m : M S A) s r : not_found direct m s = Ok r ↔ m s = Ok r.
Proof. unfold not_found. destruct (m s) as [|[]]; naive_solver. Qed.
Lemma not_found_fueled {S A} direct (m : M S A) : fueledM m → fueledM (not_found direct m).
Proof. intros Hm s. specialize (Hm s). unfold not_found. destruct (m s) as [|[]]; try done. Qed.
#[export] Hint Resolve ask_fueled not_found_fueled : fuel.

(** ** Reachability over evidence ids *)

Definition edge_of (edges : gset (text * text)) (a b : text) : Prop := (a, b) ∈ edges.
Definition is_root (nodes : dict text node) (k : text) : Prop := ∃ n, dget k nodes = Some n ∧ role n = as_root.

(** A walk along listed edges visits what the start leads to. *)
Lemma edge_walk_ok {T} (visit : text → M T (list text)) edges (J : list text → T → Prop) fuel start t visited t' :
  (∀ x t cs t', visit x t = Ok (cs, t') → cs = upstream_of edges x) →
  (∀ x done_ t cs t', J done_ t → visit x t = Ok (cs, t') → J (x :: done_) t') →
  J [] t → worklist id visit stack fuel [start] [] t = Ok (visited, t') →
  J visited t' ∧ ∀ k, k ∈ visited ↔ rtc (edge_in edges) start k.
Proof.
  intros Hv HJ HJ0 Hrun.
  apply (worklist_closed id visit stack stack_perm (λ x cs, cs = upstream_of edges x) [start] J) in Hrun
    as (done_ & -> & [Hs Hd] & Hj); [|done..].
  rewrite list_fmap_id in *. split; [done|]. intros k. split.
  - intros Hk. destruct (Hd _ Hk) as ((x0 & ->%list_elem_of_singleton & Hr) & _). clear -Hr.
    induction Hr as [|x y z (cs & -> & Hy) _ IH]; [done|]. eapply rtc_l; [|done]. by apply upstream_elem.
  - intros Hk. specialize (Hs start ltac:(left)).
    assert (Hc : ∀ x y, x ∈ done_ → edge_in edges x y → y ∈ done_).
    { intros x y Hx Hxy. destruct (Hd _ Hx) as (_ & cs & -> & Hc). by apply Hc, upstream_elem. }
    clear -Hs Hk Hc. unfold id in Hs. induction Hk as [|x y z Hxy _ IH]; eauto.
Qed.

Lemma root_ids_ok start nodes edges roots :
  root_ids start nodes edges = Ok roots → ∀ k, k ∈ roots ↔ rtc (edge_of edges) start k ∧ is_root nodes k.
Proof.
  unfold root_ids. intros (visited & Hrun)%finish_ok k.
  apply (edge_walk_ok _ (elements edges) (λ done_ roots, ∀ k, k ∈ roots ↔ k ∈ done_ ∧ is_root nodes k)) in Hrun as [Hj Hk].
  - rewrite Hj, Hk. split; intros [Hp Hroot]; (split; [|done]).
    all: eapply rtc_subrel; [|exact Hp]; intros x y; unfold edge_in, edge_of; by rewrite elem_of_elements.
  - intros x t cs t'. unfold visit_root. intros H1. run. done.
  - intros x done_ t cs t' HJ H1 k'. unfold visit_root in H1. run. rewrite elem_of_cons.
    destruct (dget x nodes) as [n|] eqn:Hn; [|done]. injection H as ->.
    destruct (decide (role x0 = as_root)) as [Hr|Hr].
    + rewrite elem_of_union, elem_of_singleton, HJ. split; [|naive_solver]. intros [->|?]; [|naive_solver].
      split; [by left|]. by exists x0.
    + rewrite HJ. split; [naive_solver|]. intros [[->|?] Hroot]; [|done]. destruct Hroot as (n & ? & ?). congruence.
  - set_solver.
Qed.

(** The edges lead to no more pushes than there are edges. *)
Lemma edges_fueled {T} (visit : text → M T (list text)) edges start t :
  (∀ x t, fueled (visit x t)) →
  (∀ x t cs t', visit x t = Ok (cs, t') → cs = upstream_of edges x) →
  fueled (worklist id visit stack (edge_fuel edges) [start] [] t).
Proof.
  intros Hv Hc. set (U := nub (start :: edges.*2)).
  apply (worklist_fueled id visit stack stack_perm U (λ k, length (upstream_of edges k))); [done| | |].
  - intros x t1 cs t1' _ Hx%Hc. subst cs. split; [done|]. intros y Hy%upstream_elem. simpl. apply nub_elem. right.
    apply list_elem_of_fmap. by exists (x, y).
  - intros x ->%list_elem_of_singleton. apply nub_elem. left.
  - pose proof (edges_pushed edges U (nub_NoDup _)). unfold edge_fuel. simpl. lia.
Qed.

Lemma root_ids_fueled start nodes edges : fueled (root_ids start nodes edges).
Proof.
  apply finish_fueled, edges_fueled.
  - intros x t. assert (Hf : fueledM (visit_root nodes edges x)) by (unfold visit_root; fuel). apply Hf.
  - intros x t cs t' H1. unfold visit_root in H1. by run.
Qed.
#[export] Hint Resolve root_ids_fueled : fuel.

(** ** Specification

    The relations a validation is about, over the tables [s]. *)

Section lineage.
Context `{Encoding, Governance.CustomIndex} (rv : resolver).

(** [c] is a direct support of [r] in the stored lineage, with the Memory whose history
    it is read as. *)
Definition derives (s : adb) (r : reference) (c : child) : Prop :=
  match r with
  | ToSource _ => False
  | ToArtifact x => ∃ a s', Artifacts.get (repo rv) (scope_id rv) x false s = Ok (a, s') ∧ c ∈ review_children a
  end.
Definition upstream (s : adb) (r r' : reference) : Prop := ∃ owner, derives s r (r', owner).

(** Everything the cited references derive from, themselves included. *)
Definition cited (s : adb) (refs : list reference) (x : child) : Prop :=
  ∃ r, r ∈ refs ∧ rtc (λ a b, derives s a.1 b) (r, None) x.

Definition authorized (s : adb) (r : reference) : Prop :=
  match authorize rv with None => True | Some f => f r s = Ok tt end.

(** A Source that may support generation. *)
Definition eligible (s : adb) (r : source_ref) : Prop :=
  ∃ row, a_sources s !! (scope_id rv, r.1, r.2) = Some row ∧
    require_source_eligible (a_now s) (source_value row) None false = Ok tt.

(** A Memory is active, or read as the history of its owner: its own, or that of the
    Memory its current revision was frozen into. *)
Definition memory_admitted (s : adb) (r : art_ref) (owner : option text) : Prop :=
  ∃ h, a_heads s !! (scope_id rv, atomic_memory, ref_id r) = Some h ∧
    (head_state h = ACTIVE ∨ owner = Some (ref_id r) ∨
     (head_state h = DEPRECATED ∧ is_Some owner ∧ head_merged_into h = owner ∧ head_revision h = ref_revision r)).

Definition admitted (s : adb) (x : child) : Prop :=
  match x.1 with
  | ToSource r => is_Some (a_sources s !! (scope_id rv, r.1, r.2))
  | ToArtifact r =>
      (∃ a, Artifacts.stored s (key_in (scope_id rv) r) a ∧ art_self a = r) ∧
      (ref_family r = atomic_memory → memory_admitted s r x.2)
  end.

(** Distinct references met by the walk have distinct ids. *)
Definition no_collision (s : adb) (refs : list reference) : Prop :=
  ∀ x y, cited s refs x → cited s refs y → evidence_id x.1 = evidence_id y.1 → x.1 = y.1.

(** ** One reference *)

Lemma latest_of scope_id repo fam i u known s c s' :
  Artifacts.latest repo scope_id fam i u known s = Ok (c, s') →
  (∀ a, known = Some a → ref_family (art_self a) = fam ∧ ref_id (art_self a) = i) →
  s' = s ∧ ∃ h, a_heads s !! (scope_id, fam, i) = Some h ∧ art_self c = mkRef fam i (head_revision h).
Proof.
  intros H1 Hk. destruct known as [a|].
  - destruct (Hk a eq_refl) as [<- <-]. unfold Artifacts.latest in H1.
    apply M_bind_ok in H1 as ([] & ? & [_ ->]%lift_ok & H1). apply M_bind_ok in H1 as (r0 & ? & [_ ->]%lift_ok & H1).
    unfold Artifacts.find_head in H1. apply M_bind_ok in H1 as (n & ? & [-> ->]%gets_ok & H1).
    destruct (a_heads s !! _) as [h|] eqn:Hh; simpl in H1; [|by run].
    case_decide as Hd.
    + apply M_ret_ok in H1 as [-> ->]. split; [done|]. exists h. split; [done|]. destruct Hd as [_ <-]. by destruct (art_self a).
    + apply M_bind_ok in H1 as (r & ? & [[-> _]%Artifacts.new_ref_ok ->]%lift_ok & H1).
      apply Artifacts.get_for_update_ok in H1 as (-> & _ & ->). split; [done|]. by exists h.
  - apply Artifacts.latest_ok in H1 as (-> & h & Hh & _ & Hc). split; [done|]. by exists h.
Qed.

Lemma fetch_source_ok s r direct v e :
  fetch_source rv s r direct = Ok (v, e) →
  (∃ row, a_sources s !! (scope_id rv, r.1, r.2) = Some row ∧ v = source_value row) ∧
  (e = true ↔ eligible s r) ∧ (direct = true → e = true).
Proof.
  unfold fetch_source, eligible. intros H1.
  destruct (ask (require_for_generation _ _) s) as [rows|err] eqn:E.
  - apply ask_ok in E as (s1 & E). unfold require_for_generation, get_sources in E.
    apply M_bind_ok in E as (rows' & ? & [Hr ->]%reads_ok & E). apply M_bind_ok in E as (now & ? & [-> ->]%gets_ok & E).
    apply M_bind_ok in E as ([] & ? & [Hc ->]%lift_ok & [-> _]%M_ret_ok).
    apply result_bind_ok in Hr as ([] & _ & Hr). change (nub [r]) with [r] in Hr.
    apply result_bind_ok in Hr as (x & Hx & [= <-]).
    destruct (a_sources s !! (scope_id rv, r.1, r.2)) as [row|] eqn:Hrow; [|done]. injection Hx as <-.
    injection H1 as <- <-. apply check_each_ok in Hc. rewrite Forall_singleton in Hc. simpl in Hc.
    split; [by exists row|]. split; [|done]. split; [|done]. intros _. by exists row.
  - assert (Hbad : ∀ row, (err = SourceNotEligibleError ∨ err = WorkingNoteUnavailableError) →
      a_sources s !! (scope_id rv, r.1, r.2) = Some row →
      require_source_eligible (a_now s) (source_value row) None false ≠ Ok tt).
    { intros row Herr Hrow Hel. unfold ask in E.
      destruct (require_for_generation (scope_id rv) [r] s) as [[]|] eqn:E1; [done|]. injection E as ->.
      unfold require_for_generation, get_sources in E1.
      apply M_bind_err in E1 as [E1|(rows & s1 & E2 & E1)].
      - apply (proj1 (reads_err _ _ _)), result_bind_err in E1 as [E1|(u & _ & E1)].
        + unfold require_scope in E1. apply require_identifier_err in E1 as ->. by destruct Herr.
        + change (nub [r]) with [r] in E1. simpl in E1. rewrite Hrow in E1. done.
      - apply reads_ok in E2 as [E2 ->]. apply result_bind_ok in E2 as (u & _ & E2).
        change (nub [r]) with [r] in E2. simpl in E2. rewrite Hrow in E2. injection E2 as <-.
        unfold gets, lift, mbind, M_bind in E1. simpl in E1. rewrite Hel in E1. done. }
    assert (Hcase : (err = SourceNotEligibleError ∨ err = WorkingNoteUnavailableError) ∧ direct = false ∧
      (row ← ask (get_source (scope_id rv) r) s; Ok (source_value row, false)) = Ok (v, e)).
    { destruct err; try done; (split; [by auto|]); destruct direct; done. }
    destruct Hcase as (Herr & -> & Hg). apply result_bind_ok in Hg as (row & (s1 & Hg)%ask_ok & [= <- <-]).
    unfold get_source in Hg. apply reads_ok in Hg as [Hg _]. apply result_bind_ok in Hg as (u & _ & Hg).
    destruct (a_sources s !! (scope_id rv, r.1, r.2)) as [row'|] eqn:Hrow; [|done]. injection Hg as ->.
    split; [by exists row|]. split; [|done]. split; [done|]. intros (row' & [= <-] & Hel).
    by destruct (Hbad row Herr eq_refl).
Qed.

(** The node of a reference. *)
Definition node_fits (s : adb) (r : reference) (n : node) : Prop :=
  node_id n = evidence_id r ∧
  match r with
  | ToSource x => node_source n = Some x ∧ node_artifact n = None ∧ (role n = as_root ↔ eligible s x)
  | ToArtifact x => node_source n = None ∧ node_artifact n = Some x ∧ role n ≠ as_root
  end.

Lemma read_source_ok s r direct t n body cs t' :
  read_source rv s r direct t = Ok (n, body, cs, t') →
  admitted s (ToSource r, None) ∧ (direct = true → eligible s r) ∧ node_fits s (ToSource r) n ∧ cs = [] ∧
  t_nodes t' = t_nodes t ∧ t_edges t' = t_edges t ∧ t_target t' = t_target t.
Proof.
  unfold read_source. intros ([v e] & ? & [Hf ->]%lift_ok & H1)%M_bind_ok.
  apply fetch_source_ok in Hf as ((row & Hrow & ->) & He & Hd).
  apply M_bind_ok in H1 as (pr & ? & [-> ->]%gets_ok & H1). apply M_bind_ok in H1 as (b & ? & [_ ->]%lift_ok & H1).
  apply M_bind_ok in H1 as ([] & ? & ->%modifies_ok & [[= -> -> ->] ->]%M_ret_ok).
  split_and!; [by exists row|by intros ->%Hd; apply He| |done|by destruct e..].
  split; [done|]. simpl. split_and!; [done|done|]. rewrite <- He. by destruct e.
Qed.

Lemma read_atomic_ok s r a locked owner n body cs :
  read_atomic rv s r a locked owner = Ok (n, body, cs) → art_self a = r → is_atomic a →
  memory_admitted s r owner ∧ node_fits s (ToArtifact r) n ∧ cs = lineage_children a.
Proof.
  unfold read_atomic, is_atomic. intros H1 <- Hat.
  apply result_bind_ok in H1 as (c & (s1 & Hl)%ask_ok & H1).
  apply result_bind_ok in H1 as (st & (s2 & Hst)%ask_ok & H1).
  apply result_bind_ok in H1 as ([] & Ha%raise_if_ok & [= <- <- <-]).
  apply latest_of in Hl as (_ & h & Hh & Hc).
  2: { intros a' Hk. destruct locked; simplify_eq. done. }
  apply atomic_get_ok in Hst as (_ & h' & Hh' & [_ ->] & _). simplify_eq.
  split_and!; [|by repeat split|done]. exists h. split; [done|].
  apply dec_stable in Ha. unfold history_allowed, state_of in Ha. simpl in Ha.
  destruct (head_state h); [by left| |right; left; destruct Ha as [?|[?|[? _]]]; done].
  destruct (head_merged_into h) as [m|] eqn:Hm; [|right; left; destruct Ha as [?|[?|[? _]]]; done].
  destruct Ha as [?|[?|(_ & Ho & Heq)]]; [done|by right; left|]. right. right. split_and!; [done|by rewrite <- Ho|done|].
  rewrite Hc in Heq. by rewrite <- Heq.
Qed.

Lemma read_review_artifact_ok s r locked owner n cs :
  read_review_artifact rv s r locked owner = Ok (n, cs) →
  admitted s (ToArtifact r, owner) ∧ node_fits s (ToArtifact r) n ∧
  ∀ c, c ∈ cs ↔ derives s (ToArtifact r) c.
Proof.
  unfold read_review_artifact. intros H1. apply result_bind_ok in H1 as (a & Hg & H1).
  apply ask_ok in Hg as (s1 & Hg). pose proof Hg as (-> & Hst & Hself)%Artifacts.get_ok.
  assert (Hder : ∀ c, derives s (ToArtifact r) c ↔ c ∈ review_children a).
  { intros c. unfold derives. split; [|intros ?; by exists a, s]. intros (a' & s' & Hg' & ?). rewrite Hg in Hg'. by injection Hg' as -> _. }
  case_decide as Hat.
  - apply result_bind_ok in H1 as ([[n' b] cs'] & Ha & [= <- <-]).
    apply read_atomic_ok in Ha as (Hm & Hn & ->); [|done|done]. split_and!; [|done|].
    + split; [by exists a|done].
    + intros c. rewrite Hder. unfold review_children. by rewrite decide_True.
  - injection H1 as <- <-. split_and!; [|by split_and!|by intros c; rewrite Hder].
    split; [by exists a|]. intros Hf. destruct Hat. unfold is_atomic. by rewrite Hself.
Qed.

Lemma authorize_reference_ok r s u : authorize_reference rv r s = Ok u → authorized s r.
Proof. unfold authorize_reference, authorized. destruct (authorize rv); [by destruct u|done]. Qed.

(** What one visit checks, and the children it leaves pending. *)
Definition visited_well (s : adb) (x : visiting) (cs : list visiting) : Prop :=
  authorized s x.1.1 ∧ admitted s (x.1.1, x.2) ∧
  (x.1.2 = true → match x.1.1 with ToSource r => eligible s r | ToArtifact _ => True end) ∧
  ∀ y, y ∈ cs ↔ y.1.2 = false ∧ derives s x.1.1 (y.1.1, y.2).

Lemma children_elem (cs : list child) (y : visiting) :
  y ∈ (λ c : child, (c.1, false, c.2)) <$> cs ↔ y.1.2 = false ∧ (y.1.1, y.2) ∈ cs.
Proof.
  rewrite list_elem_of_fmap. destruct y as [[r d] o]. simpl. split.
  - intros ([r' o'] & [= -> -> ->] & ?). done.
  - intros [-> ?]. by exists (r, o).
Qed.

Lemma visit_lineage_ok s locked x t cs t' :
  visit_lineage rv s locked x t = Ok (cs, t') →
  visited_well s x cs ∧ ∃ n children, node_fits s x.1.1 n ∧ (∀ c, c ∈ children ↔ derives s x.1.1 c) ∧
    t_nodes t' = t_nodes (record n children t) ∧ t_edges t' = t_edges (record n children t).
Proof.
  unfold visit_lineage. intros H1. apply M_bind_ok in H1 as ([] & ? & [Ha%authorize_reference_ok ->]%lift_ok & H1).
  apply M_bind_ok in H1 as ([n children] & t1 & Hr%not_found_ok & H1).
  apply M_bind_ok in H1 as ([] & ? & ->%modifies_ok & [-> ->]%M_ret_ok).
  destruct x as [[[r|r] direct] owner]; unfold read_for_review in Hr; simpl in *.
  - apply M_bind_ok in Hr as ([[n' b] cs'] & ? & Hr & [[= -> ->] ->]%M_ret_ok).
    apply read_source_ok in Hr as (Hadm & Hdir & Hn & -> & Hnodes & Hedges & _). simpl. split.
    + split_and!; [done|done|done|]. intros y.
      split; [by intros ?%not_elem_of_nil|by intros [_ []]].
    + exists n', []. split_and!; [done| |by rewrite Hnodes|by rewrite Hedges].
      intros c. split; [by intros ?%not_elem_of_nil|done].
  - apply lift_ok in Hr as [Hr ->]. apply read_review_artifact_ok in Hr as (Hadm & Hn & Hc). split.
    + split_and!; [done|done|done|]. intros y. by rewrite children_elem, Hc.
    + by exists n, children.
Qed.

(** ** The traversal *)

(** The nodes and edges are those of the visited references. *)
Definition accounts (s : adb) (done_ : list visiting) (t : traversal) : Prop :=
  (∀ k n, dget k (t_nodes t) = Some n → ∃ x, x ∈ done_ ∧ k = evidence_id x.1.1 ∧ node_fits s x.1.1 n) ∧
  (∀ x, x ∈ done_ → is_Some (dget (evidence_id x.1.1) (t_nodes t))) ∧
  (∀ a b, (a, b) ∈ t_edges t ↔ ∃ x c, x ∈ done_ ∧ derives s x.1.1 c ∧ a = evidence_id x.1.1 ∧ b = evidence_id c.1).

Lemma accounts_visit s locked x done_ t cs t' :
  accounts s done_ t → visit_lineage rv s locked x t = Ok (cs, t') → accounts s (x :: done_) t'.
Proof.
  intros (H1 & H2 & H3) (_ & n & children & Hn & Hc & Hnodes & Hedges)%visit_lineage_ok.
  pose proof Hn as [Hid _]. unfold accounts. rewrite Hnodes, Hedges. unfold record, set_edges, set_nodes. simpl.
  rewrite Hid. split_and!.
  - intros k m. destruct (decide (dget (evidence_id x.1.1) (t_nodes t) = None)).
    + rewrite dget_dset. case_decide as Hk.
      * intros [= <-]. exists x. split_and!; [left|done|done].
      * intros (y & ? & ? & ?)%H1. exists y. split_and!; [by right|done|done].
    + intros (y & ? & ? & ?)%H1. exists y. split_and!; [by right|done|done].
  - intros y Hy. destruct (decide (dget (evidence_id x.1.1) (t_nodes t) = None)) as [Hnone|Hsome].
    + rewrite dget_dset. case_decide; [by eexists|]. apply elem_of_cons in Hy as [->|Hy]; [done|by apply H2].
    + apply elem_of_cons in Hy as [->|Hy]; [|by apply H2]. by apply not_eq_None_Some.
  - intros a b. rewrite elem_of_union, elem_of_list_to_set, H3, list_elem_of_fmap. split.
    + intros [(c & [= -> ->] & Hcc%Hc)|(y & c & ? & ? & ? & ?)].
      * exists x, c. split_and!; [left|done..].
      * exists y, c. split_and!; [by right|done..].
    + intros (y & c & [->|Hy]%elem_of_cons & Hd & -> & ->); [left; exists c; split; [done|by apply Hc]|].
      right. by exists y, c.
Qed.

Lemma app_perm (rest cs : list visiting) : rest ++ cs ≡ₚ rest ++ cs.
Proof. done. Qed.

Lemma visit_key_eq (x y : visiting) : visit_key x = visit_key y → (x.1.1, x.2) = (y.1.1, y.2).
Proof. unfold visit_key. by intros [= ->%(inj reference_key) ->]. Qed.

Lemma visited_key (done_ : list visiting) (x : visiting) :
  visit_key x ∈ visit_key <$> done_ → ∃ y, y ∈ done_ ∧ (y.1.1, y.2) = (x.1.1, x.2).
Proof. intros (y & Hy & ?)%list_elem_of_fmap. exists y. split; [done|]. by apply visit_key_eq. Qed.

(** A reference cited itself is checked as such: the cited ones come first. *)
Definition direct_checked (s : adb) (r : reference) : Prop :=
  match r with ToSource r => eligible s r | ToArtifact _ => True end.

Definition directs_first (s : adb) (refs : list reference) (pending done_ : list visiting) : Prop :=
  ∃ ds ns, pending = ds ++ ns ∧ (∀ x, x ∈ ds → x.1.2 = true) ∧ (∀ x, x ∈ ns → x.1.2 = false) ∧
    (ds ≠ [] → ∀ x, x ∈ done_ → x.1.2 = true) ∧
    (∀ x, x ∈ done_ → x.1.2 = true → direct_checked s x.1.1) ∧
    (∀ r, r ∈ refs → (r, true, None) ∈ ds ∨ direct_checked s r).

Lemma directs_skip s refs x rest done_ :
  directs_first s refs (x :: rest) done_ → visit_key x ∈ visit_key <$> done_ → directs_first s refs rest done_.
Proof.
  intros ([|y ds] & ns & Heq & Hds & Hns & Hd & Hc & Hr) Hx; simpl in Heq.
  - destruct ns as [|y ns]; simplify_eq. exists [], ns. split_and!; try done.
    + intros z Hz. apply Hns. by right.
  - injection Heq as -> ->. exists ds, ns. split_and!; try done.
    + intros z Hz. apply Hds. by right.
    + intros _. by apply Hd.
    + intros r [Hin|]%Hr; [|by right]. apply elem_of_cons in Hin as [Hy|]; [right|by left].
      destruct (visited_key _ _ Hx) as (z & Hz & Heq). rewrite <- Hy in Heq. simpl in Heq. injection Heq as <- _.
      apply Hc; [done|]. by apply (Hd ltac:(done)).
Qed.

Lemma directs_visit s refs x rest done_ cs :
  directs_first s refs (x :: rest) done_ → visited_well s x cs → directs_first s refs (rest ++ cs) (x :: done_).
Proof.
  intros ([|y ds] & ns & Heq & Hds & Hns & Hd & Hc & Hr) (_ & _ & Hdir & Hcs); simpl in Heq.
  - destruct ns as [|y ns]; simplify_eq. exists [], (ns ++ cs). split_and!; try done.
    + intros z [Hz|Hz%Hcs]%elem_of_app; [apply Hns; by right|by destruct Hz].
    + intros z [->|Hz]%elem_of_cons; [by intros ?%Hdir|by apply Hc].
  - injection Heq as <- ->. exists ds, (ns ++ cs). split_and!.
    + by rewrite app_assoc.
    + intros z Hz. apply Hds. by right.
    + intros z [Hz|Hz%Hcs]%elem_of_app; [by apply Hns|by destruct Hz].
    + intros _ z [->|Hz]%elem_of_cons; [apply Hds; left|by apply (Hd ltac:(done))].
    + intros z [->|Hz]%elem_of_cons; [by intros ?%Hdir|by apply Hc].
    + intros r [[<-|]%elem_of_cons|]%Hr; [right|by left|by right]. by apply Hdir.
Qed.

Lemma directs_start s refs : directs_first s refs ((λ r, (r, true, None)) <$> refs) [].
Proof.
  exists ((λ r, (r, true, None)) <$> refs), []. split_and!.
  - by rewrite app_nil_r.
  - by intros x (r & -> & _)%list_elem_of_fmap.
  - by intros x ?%not_elem_of_nil.
  - by intros _ x ?%not_elem_of_nil.
  - by intros x ?%not_elem_of_nil.
  - intros r Hr. left. apply list_elem_of_fmap. by exists r.
Qed.

(** A traversal that returns has visited exactly what is cited, and checked it. *)
Lemma validate_lineage_ok s refs locked t :
  validate_lineage rv s refs locked = Ok t →
  ∃ done_, accounts s done_ t ∧
    (∀ x, cited s refs x ↔ ∃ d, d ∈ done_ ∧ (d.1.1, d.2) = x) ∧
    (∀ x, cited s refs x → authorized s x.1 ∧ admitted s x) ∧
    (∀ r, r ∈ refs → direct_checked s r).
Proof.
  unfold validate_lineage. intros (visited & Hrun)%finish_ok.
  assert (Hdirect : ∀ r, r ∈ refs → direct_checked s r).
  { pose proof Hrun as Hw. apply (worklist_rule visit_key (visit_lineage rv s locked) app
      (λ p d _, directs_first s refs p d) _ _ []) in Hw as (d & _ & ([|? ds] & ns & Heq & _ & _ & _ & _ & Hr));
      [|done|intros x rest d _; apply directs_skip| |apply directs_start].
    2: { intros x rest d t1 cs t1' HI _ [Hv _]%visit_lineage_ok. by eapply directs_visit. }
    intros r [?%not_elem_of_nil|?]%Hr; done. }
  apply (worklist_closed visit_key (visit_lineage rv s locked) app app_perm (visited_well s)
    ((λ r, (r, true, None)) <$> refs) (accounts s)) in Hrun as (done_ & _ & [Hs Hd] & Hacc).
  2: { intros x t1 cs t1' [Hv _]%visit_lineage_ok. done. }
  2: { intros x d t1 cs t1'. apply accounts_visit. }
  2: { split_and!; [done|by intros x ?%not_elem_of_nil|]. intros a b. simpl.
    split; [by intros ?%not_elem_of_empty|by intros (? & ? & ?%not_elem_of_nil & _)]. }
  exists done_. split; [done|].
  assert (Hcited : ∀ x, cited s refs x ↔ ∃ d, d ∈ done_ ∧ (d.1.1, d.2) = x).
  { intros x. split.
    - intros (r & Hr & Hp). assert (Hin : ∃ d, d ∈ done_ ∧ (d.1.1, d.2) = (r, None)).
      { apply (visited_key done_ (r, true, None)), Hs. apply list_elem_of_fmap. by exists r. }
      clear Hr Hdirect. revert Hin. induction Hp as [|a b x Hab _ IH]; [done|]. intros (d & Hdd & <-).
      apply IH. destruct (Hd _ Hdd) as (_ & cs & (_ & _ & _ & Hcs) & Hkeys).
      apply (visited_key done_ (b.1, false, b.2)) in Hkeys; [by destruct b|]. apply Hcs. by destruct b.
    - intros (d & Hdd & <-). destruct (Hd _ Hdd) as ((x0 & (r & -> & Hr)%list_elem_of_fmap & Hp) & _).
      exists r. split; [done|]. clear Hr.
      assert (Hgen : ∀ x y : visiting, rtc (leads (visited_well s)) x y →
        rtc (λ a b, derives s a.1 b) (x.1.1, x.2) (y.1.1, y.2)).
      { clear. induction 1 as [|x y z (cs & (_ & _ & _ & Hcs) & Hy%Hcs) _ IH]; [done|].
        eapply rtc_l; [|done]. simpl. by destruct Hy. }
      by apply Hgen in Hp. }
  split_and!; [done| |done]. intros x (d & Hdd & <-)%Hcited.
  destruct (Hd _ Hdd) as (_ & cs & (Ha & Hm & _) & _). by split.
Qed.

Lemma cited_derives s refs x c : cited s refs x → derives s x.1 c → cited s refs c.
Proof. intros (r & Hr & Hp) Hc. exists r. split; [done|]. by eapply rtc_r. Qed.

Lemma cited_upstream s refs r o r' :
  cited s refs (r, o) → rtc (upstream s) r r' → ∃ o', cited s refs (r', o').
Proof.
  intros Hr Hp. revert o Hr. induction Hp as [r|r r1 r2 (o' & Hd) _ IH]; intros o Hr; [by exists o|].
  apply (IH o'). by eapply cited_derives.
Qed.

(** ** The roots of cited Memories *)

Section roots.
Context (s : adb) (refs : list reference) (done_ : list visiting) (t : traversal).
Hypothesis Hacc : accounts s done_ t.
Hypothesis Hcited : ∀ x, cited s refs x ↔ ∃ d, d ∈ done_ ∧ (d.1.1, d.2) = x.
Hypothesis Hdistinct : no_collision s refs.

Lemma done_cited d : d ∈ done_ → cited s refs (d.1.1, d.2).
Proof. intros ?. apply Hcited. by exists d. Qed.

(** Paths over evidence ids are derivations. *)
Lemma edges_derive r o k :
  cited s refs (r, o) → rtc (edge_of (t_edges t)) (evidence_id r) k ↔
  ∃ r', k = evidence_id r' ∧ rtc (upstream s) r r'.
Proof.
  intros Hr. split.
  - intros Hp. remember (evidence_id r) as start eqn:Es. revert r o Hr Es.
    induction Hp as [k|a b k Hab _ IH]; intros r o Hr ->; [by exists r|].
    apply Hacc in Hab as (x & c & Hx%done_cited & Hd & Heq & ->).
    apply (Hdistinct (r, o) (x.1.1, x.2)) in Heq; [|done|done]. simpl in Heq. subst r.
    destruct (IH c.1 c.2) as (r' & -> & Hp); [|done|].
    + rewrite <- surjective_pairing. by eapply cited_derives.
    + exists r'. split; [done|]. eapply rtc_l; [|done]. exists c.2. by destruct c.
  - intros (r' & -> & Hp). revert o Hr. induction Hp as [r|r r1 r2 (o' & Hd) _ IH]; intros o Hr; [done|].
    eapply rtc_l; [|apply (IH o'); by eapply cited_derives].
    apply Hacc. apply Hcited in Hr as (d & Hdd & [= <- <-]). exists d, (r1, o'). done.
Qed.

Lemma collect_roots_ok arts roots :
  (∀ m, m ∈ arts → ToArtifact m ∈ refs) → collect_roots arts t = Ok roots →
  ∀ src, src ∈ roots ↔ eligible s src ∧
    ∃ m, m ∈ arts ∧ ref_family m = atomic_memory ∧ rtc (upstream s) (ToArtifact m) (ToSource src).
Proof.
  intros Harts H1 src. unfold collect_roots in H1. apply result_bind_ok in H1 as (found & Hf%map_result_ok & H1).
  apply result_bind_ok in H1 as (srcs & Hs%map_result_ok & [= <-]).
  assert (Hstart : ∀ m, m ∈ arts → cited s refs (ToArtifact m, None)).
  { intros m Hm. exists (ToArtifact m). split; [by apply Harts|done]. }
  assert (Hk : ∀ k, k ∈ sorted_text (elements (⋃ found)) ↔ is_root (t_nodes t) k ∧
    ∃ m, m ∈ arts ∧ ref_family m = atomic_memory ∧ ∃ r, k = evidence_id r ∧ rtc (upstream s) (ToArtifact m) r).
  { intros k. rewrite sorted_text_elem, elem_of_elements, elem_of_union_list. split.
    - intros (X & HX & Hin). destruct (Forall2_elem_r _ _ _ _ Hf HX) as (m & Hm & Hr).
      apply list_elem_of_filter in Hm as [Hfam Hm].
      destruct (proj1 (root_ids_ok _ _ _ _ Hr k) Hin) as [Hp Hroot]. split; [done|]. exists m.
      apply (edges_derive _ None) in Hp; [done|by apply Hstart].
    - intros [Hroot (m & Hm & Hfam & Hp)].
      destruct (Forall2_elem_l _ _ _ m Hf) as (X & HX & Hr); [by apply list_elem_of_filter|].
      exists X. split; [done|]. apply (root_ids_ok _ _ _ _ Hr). split; [|done].
      apply (edges_derive _ None); [by apply Hstart|done]. }
  unfold present. rewrite list_elem_of_omap. split.
  - intros (x & Hx & ->). destruct (Forall2_elem_r _ _ _ _ Hs Hx) as (k & [Hroot Hp]%Hk & Hn).
    destruct Hroot as (n & Hget & Hrole). rewrite Hget in Hn. injection Hn as Hn.
    destruct (proj1 Hacc _ _ Hget) as (d & Hd & -> & _ & Hfit).
    destruct Hp as (m & Hm & Hfam & r & Heq & Hpath).
    destruct (cited_upstream s refs _ _ _ (Hstart m Hm) Hpath) as [o Hr]. apply (Hdistinct (d.1.1, d.2) (r, o)) in Heq; [|by apply done_cited|done]. simpl in Heq.
    destruct (d.1.1) as [r'|r']; [|by destruct Hfit as (_ & _ & ?)].
    destruct Hfit as (Hsrc & _ & Hel). assert (r' = src) as -> by congruence. subst r.
    split; [by apply Hel|]. by exists m.
  - intros [Hel (m & Hm & Hfam & Hpath)].
    destruct (cited_upstream s refs _ _ _ (Hstart m Hm) Hpath) as [o Hc]. apply Hcited in Hc as (d & Hd & [= Hd1 Hd2]).
    destruct (proj1 (proj2 Hacc) _ Hd) as [n Hn]. rewrite Hd1 in Hn.
    destruct (proj1 Hacc _ _ Hn) as (d' & Hd' & Heq & _ & Hfit).
    apply (Hdistinct (ToSource src, o) (d'.1.1, d'.2)) in Heq;
      [|apply Hcited; exists d; by rewrite Hd1, Hd2|by apply done_cited].
    simpl in Heq. rewrite <- Heq in Hfit. destruct Hfit as (Hsrc & _ & Hrole).
    assert (Hin : evidence_id (ToSource src) ∈ sorted_text (elements (⋃ found))).
    { apply Hk. split; [exists n; split; [done|by apply Hrole]|]. exists m. split_and!; [done|done|]. by exists (ToSource src). }
    destruct (Forall2_elem_l _ _ _ _ Hs Hin) as (x & Hx & Hget). rewrite Hn in Hget. injection Hget as <-.
    by exists (node_source n).
Qed.
End roots.

(** ** Termination *)

Section termination.
Hypothesis authorize_returns : ∀ f r s, authorize rv = Some f → fueled (f r s).

Lemma authorize_fueled r s : fueled (authorize_reference rv r s).
Proof. unfold authorize_reference. destruct (authorize rv) eqn:E; [by eapply authorize_returns|done]. Qed.

Lemma get_sources_fueled scope_id refs : fueledM (get_sources scope_id refs).
Proof. unfold get_sources, require_scope, require_identifier. fuel. Qed.

Lemma fetch_source_fueled s r direct : fueled (fetch_source rv s r direct).
Proof.
  assert (Hg : fueledM (require_for_generation (scope_id rv) [r])).
  { pose proof get_sources_fueled. unfold require_for_generation, require_source_eligible. fuel. }
  assert (Hr : fueledM (get_source (scope_id rv) r)).
  { unfold get_source, require_scope, require_identifier. fuel. }
  unfold fetch_source. pose proof (ask_fueled _ s Hg) as Ha. destruct (ask _ s) as [[|[]]|e]; [done..|].
  destruct e; try done; try (destruct direct); fuel.
Qed.

Lemma read_source_fueled s r direct : fueledM (read_source rv s r direct).
Proof. pose proof fetch_source_fueled. unfold read_source, source_body. fuel. Qed.

Lemma read_atomic_fueled s r a locked owner : fueled (read_atomic rv s r a locked owner).
Proof.
  pose proof Artifacts.latest_fueled. pose proof (@atomic_get_fueled). unfold read_atomic. fuel.
Qed.

Lemma read_for_review_fueled s locked x : fueledM (read_for_review rv s locked x).
Proof.
  pose proof read_source_fueled. pose proof read_atomic_fueled. pose proof Artifacts.get_fueled.
  unfold read_for_review, read_review_artifact. fuel.
Qed.

Lemma visit_lineage_fueled s locked x : fueledM (visit_lineage rv s locked x).
Proof.
  pose proof authorize_fueled. pose proof read_for_review_fueled. unfold visit_lineage. fuel.
Qed.

(** What a visit pushes is stored. *)
Lemma review_children_stored s r a s' :
  Artifacts.get (repo rv) (scope_id rv) r false s = Ok (a, s') →
  (length (review_children a) ≤ length (stored_children rv s))%nat ∧
  ∀ c, c ∈ review_children a → c ∈ stored_children rv s.
Proof.
  intros Hg. pose proof Hg as (-> & (_ & (b & Hb & _) & _) & _)%Artifacts.get_ok.
  assert (Hin : review_children a ∈ (λ kb : rev_key * body,
    match ask (Artifacts.get (repo rv) (scope_id rv) (mkRef kb.1.1.1.2 kb.1.1.2 kb.1.2) false) s with
    | Ok a => review_children a
    | Err _ => []
    end) <$> filter (λ kb, kb.1.1.1.1 = scope_id rv) (map_to_list (a_bodies s))).
  { apply list_elem_of_fmap. exists (key_in (scope_id rv) r, b). split.
    - simpl fst. unfold ask. replace (mkRef _ _ _) with r by (by destruct r). by rewrite Hg.
    - apply list_elem_of_filter. split; [done|]. by apply elem_of_map_to_list. }
  unfold stored_children. apply list_elem_of_split in Hin as (l1 & l2 & ->).
  rewrite concat_app. simpl. split; [rewrite !length_app; lia|]. intros c Hc.
  rewrite !elem_of_app. by right; left.
Qed.

Lemma read_for_review_children s locked x n cs t t' :
  read_for_review rv s locked x t = Ok (n, cs, t') →
  (length cs ≤ length (stored_children rv s))%nat ∧ ∀ c, c ∈ cs → c ∈ stored_children rv s.
Proof.
  unfold read_for_review. destruct (x.1.1) as [r|r]; intros H1.
  - apply M_bind_ok in H1 as ([[n' b] cs'] & ? & (_ & _ & _ & -> & _)%read_source_ok & [[= -> ->] ->]%M_ret_ok).
    simpl. split; [lia|]. by intros c ?%not_elem_of_nil.
  - apply lift_ok in H1 as [H1 ->]. unfold read_review_artifact in H1.
    apply result_bind_ok in H1 as (a & (s1 & Hg)%ask_ok & H1).
    assert (cs = review_children a) as ->; [|by eapply review_children_stored].
    case_decide as Hat; [|by injection H1]. apply result_bind_ok in H1 as ([[n' b] cs'] & Ha & [= <- <-]).
    pose proof Hg as (_ & _ & Hself)%Artifacts.get_ok. apply read_atomic_ok in Ha as (_ & _ & ->); [|done|done].
    unfold review_children. by rewrite decide_True.
Qed.

Lemma to_push_bound {K} `{EqDecision K} n (U visited : list K) :
  (to_push (λ _, n) U visited ≤ length U * n)%nat.
Proof.
  unfold to_push. induction U as [|k U IH]; [done|]. rewrite filter_cons. case_decide; simpl in *; lia.
Qed.

Lemma validate_lineage_fueled s refs locked : fueled (validate_lineage rv s refs locked).
Proof.
  apply finish_fueled. set (child_key := λ c : child, (reference_key c.1, c.2)).
  apply (worklist_fueled visit_key (visit_lineage rv s locked) app app_perm
    (((λ r, (reference_key r, None)) <$> refs) ++ (child_key <$> stored_children rv s))
    (λ _, length (stored_children rv s))).
  - intros x t1 _. apply visit_lineage_fueled.
  - intros x t1 cs t1' _ H1. unfold visit_lineage in H1. apply M_bind_ok in H1 as ([] & ? & _ & H1).
    apply M_bind_ok in H1 as ([n children] & ? & Hr%not_found_ok%read_for_review_children & H1).
    apply M_bind_ok in H1 as ([] & ? & _ & [-> _]%M_ret_ok). simpl. rewrite length_fmap.
    destruct Hr as [Hlen Hin]. split; [done|]. intros y (c & -> & Hc)%list_elem_of_fmap.
    apply elem_of_app. right. apply list_elem_of_fmap. exists c. split; [done|by apply Hin].
  - intros x (r & -> & Hr)%list_elem_of_fmap. apply elem_of_app. left. apply list_elem_of_fmap. by exists r.
  - rewrite length_fmap. pose proof (to_push_bound (length (stored_children rv s))
      (((λ r, (reference_key r, @None text)) <$> refs) ++ (child_key <$> stored_children rv s)) []) as Hb.
    rewrite length_app, !length_fmap in Hb. unfold lineage_fuel. lia.
Qed.

Lemma collect_roots_fueled arts t : fueled (collect_roots arts t).
Proof. unfold collect_roots. fuel. Qed.

Lemma validate_fueled waits sources artifacts : fueledM (validate rv waits sources artifacts).
Proof.
  pose proof validate_lineage_fueled. pose proof collect_roots_fueled. unfold validate.
  assert (Hl : ∀ refs, fueledM (Artifacts.lock_heads (scope_id rv) refs)).
  { intros refs. unfold Artifacts.lock_heads, require_scope, require_identifier. fuel. }
  fuel.
Qed.
End termination.

(** ** Validation *)

Lemma validate_runs waits sources arts s roots s' :
  validate rv waits sources arts s = Ok (roots, s') →
  let refs := (ToSource <$> sources) ++ (ToArtifact <$> arts) in
  (∃ locked t, validate_lineage rv s' refs locked = Ok t ∧ collect_roots arts t = Ok roots) ∧
  ((s' = s ∧ ∃ t, validate_lineage rv s refs false = Ok t ∧ atomic_refs (t_nodes t).*2 = []) ∨ s' = waits s).
Proof.
  unfold validate. intros H1. apply M_bind_ok in H1 as (t & ? & [Ht ->]%reads_ok & H1).
  apply M_bind_ok in H1 as (t' & s1 & Hl & [Hc ->]%lift_ok). case_decide as Hm.
  - apply M_ret_ok in Hl as [-> ->]. split; [by exists false, t|]. left. split; [done|]. by exists t.
  - apply M_bind_ok in Hl as ([] & ? & ->%modifies_ok & Hl).
    apply M_bind_ok in Hl as ([] & s2 & Hlock & [Ht' ->]%reads_ok). unfold Artifacts.lock_heads in Hlock. apply reads_ok in Hlock as [_ ->].
    split; [by exists true, t'|]. by right.
Qed.

Lemma no_memories s refs t done_ x m :
  accounts s done_ t → (∀ x, cited s refs x ↔ ∃ d, d ∈ done_ ∧ (d.1.1, d.2) = x) → no_collision s refs →
  atomic_refs (t_nodes t).*2 = [] → cited s refs x → x.1 = ToArtifact m → ref_family m ≠ atomic_memory.
Proof.
  intros (H1 & H2 & _) Hcited Hdist Hnone Hx Hm Hfam. pose proof Hx as (d & Hd & Heq)%Hcited.
  destruct (H2 _ Hd) as [n Hn]. destruct (H1 _ _ Hn) as (d' & Hd' & Hid & _ & Hfit).
  apply (Hdist (d.1.1, d.2) (d'.1.1, d'.2)) in Hid; [|by rewrite Heq|apply Hcited; by exists d']. simpl in Hid.
  assert (d.1.1 = ToArtifact m) as Hdm by (by rewrite <- Hm, <- Heq). rewrite <- Hid, Hdm in Hfit.
  destruct Hfit as (_ & Ha & _).
  assert (Hin : m ∈ atomic_refs (t_nodes t).*2).
  { apply list_elem_of_filter. split; [done|]. apply list_elem_of_omap. exists n. split; [|done].
    apply list_elem_of_fmap. exists (evidence_id (d.1.1), n). split; [done|]. by apply dget_elem. }
  rewrite Hnone in Hin. by apply not_elem_of_nil in Hin.
Qed.

Lemma validated_lineage_ok waits sources arts s roots s' :
  validate rv waits sources arts s = Ok (roots, s') →
  let refs := (ToSource <$> sources) ++ (ToArtifact <$> arts) in
  (∀ x, cited s' refs x → authorized s' x.1 ∧ admitted s' x) ∧
  (∀ r, r ∈ sources → eligible s' r) ∧
  (no_collision s' refs → ∀ src, src ∈ roots ↔ eligible s' src ∧
     ∃ m, m ∈ arts ∧ ref_family m = atomic_memory ∧ rtc (upstream s') (ToArtifact m) (ToSource src)) ∧
  ((s' = s ∧ (no_collision s refs →
      ∀ x m, cited s refs x → x.1 = ToArtifact m → ref_family m ≠ atomic_memory)) ∨ s' = waits s).
Proof.
  intros ((locked & t & Ht & Hc) & Hs)%validate_runs. intros refs.
  pose proof (validate_lineage_ok _ _ _ _ Ht) as (done_ & Hacc & Hcited & Hall & Hdir). split_and!; [done| | |].
  - intros r Hr. apply (Hdir (ToSource r)). apply elem_of_app. left. by apply list_elem_of_fmap_2.
  - intros Hdist. eapply collect_roots_ok; [done..| |done]. intros m Hm. apply elem_of_app. right.
    by apply list_elem_of_fmap_2.
  - destruct Hs as [(-> & t' & Ht' & Hnone) | ->]; [left; split; [done|]|by right].
    intros Hdist x m. apply validate_lineage_ok in Ht' as (d' & Hacc' & Hcited' & _). exact (no_memories s refs t' d' x m Hacc' Hcited' Hdist Hnone).
Qed.

(** C24: A review that passes validation rests on admissible evidence only: every
    reference the cited ones derive from is authorized and stored, a Memory is active
    or is read as permitted history under the lock on its head, a Source cited itself
    is eligible, and the Sources returned are exactly the eligible roots from which
    the cited Memories derive. *)
Theorem validated_lineage waits sources arts s roots s' :
  validate rv waits sources arts s = Ok (roots, s') →
  let refs := (ToSource <$> sources) ++ (ToArtifact <$> arts) in
  (∀ x, cited s' refs x → authorized s' x.1 ∧ admitted s' x) ∧
  (∀ r, r ∈ sources → eligible s' r) ∧
  (no_collision s' refs → ∀ src, src ∈ roots ↔ eligible s' src ∧
     ∃ m, m ∈ arts ∧ ref_family m = atomic_memory ∧ rtc (upstream s') (ToArtifact m) (ToSource src)) ∧
  ((s' = s ∧ (no_collision s refs →
      ∀ x m, cited s refs x → x.1 = ToArtifact m → ref_family m ≠ atomic_memory)) ∨ s' = waits s).
Proof. apply validated_lineage_ok. Qed.
End lineage.

(** ** Concrete runs *)

#[local] Instance no_custom_index : Governance.CustomIndex :=
  {| Governance.prepare_custom _ _ _ _ _ := Ok tt; Governance.publish_custom _ _ _ _ := Ok tt |}.

(** A serialisation with length prefixes; a payload lists the inputs of a merge. *)
Definition demo_key (r : reference) : text :=
  match r with
  | ToSource x => 0 :: len x.1 :: x.1 ++ x.2
  | ToArtifact x => 1 :: ref_revision x :: len (ref_family x) :: ref_family x ++ ref_id x
  end.
Lemma prefixed_inj (a b c d : text) : len a = len c → a ++ b = c ++ d → a = c ∧ b = d.
Proof. intros Hl. apply app_inj_1. unfold len in Hl. lia. Qed.
#[export] Instance demo_key_inj : Inj (=) (=) demo_key.
Proof.
  intros [[a b]|[f i n]] [[c d]|[f' i' n']] [=]; simpl in *; try done.
  all: match goal with H1 : len _ = len _, H2 : _ ++ _ = _ ++ _ |- _ => destruct (prefixed_inj _ _ _ _ H1 H2) end.
  all: congruence.
Qed.
Definition demo_encoding : Encoding := {|
  reference_key := demo_key;
  content_digest t := replicate 7 0 ++ t;
  artifact_json a := payload (art_content a);
  content_json := payload;
  source_json _ := [5];
  state_json _ := [6];
  projection_json p := [Z.of_nat (length (p_evidence p))];
  profile_text := payload;
  creation_inputs c := if decide (payload c = []) then None else Some ((λ z, [z]) <$> payload c);
  handoff_of _ := mkHandoff [] None []
|}.
#[local] Existing Instance demo_encoding.

Definition demo_scope : text := [1].
Definition demo_repository : Artifacts.repository :=
  Artifacts.mkRepository [(atomic_memory, [1]); (str "experience", [2])] true.
Definition demo_resolver : resolver := mkResolver demo_scope demo_repository (Some (λ _ _, Ok tt)) None None default_limits.

(** Memory [2] was merged from the Memories [3] and [4], whose Sources are [7] and [8];
    the Source [9] cannot support generation. *)
Definition demo_memory (i : Z) : art_ref := mkRef atomic_memory [i] 1.
Definition demo_source (i : Z) : source_ref := ([1], [i]).
Definition demo_row (i : Z) (note : bool) : text * text * text * source_row :=
  (demo_scope, [1], [i], mkSourceRow (if note then ContentSource (mkContentSource [] NoExpiry true None false) else AdapterSource [1]) i).
Definition demo_db : adb :=
  let body i p : rev_key * body := (key_in demo_scope (demo_memory i), mkBody (mkContent [1] p) 0 None) in
  mkAdb 0 None
    (list_to_map [demo_row 7 false; demo_row 8 false; demo_row 9 true])
    (list_to_map [body 2 [3; 4]; body 3 []; body 4 []])
    (list_to_map [(key_in demo_scope (demo_memory 2), [demo_source 9]);
                  (key_in demo_scope (demo_memory 3), [demo_source 7]);
                  (key_in demo_scope (demo_memory 4), [demo_source 8; demo_source 7])])
    (list_to_map [(key_in demo_scope (demo_memory 2), [(demo_memory 3, true); (demo_memory 4, true)])])
    ∅
    (list_to_map [(head_of demo_scope (demo_memory 2), mkHead 1 ACTIVE None None 0);
                  (head_of demo_scope (demo_memory 3), mkHead 1 DEPRECATED None (Some [2]) 1);
                  (head_of demo_scope (demo_memory 4), mkHead 1 DEPRECATED None (Some [2]) 1)]).

Definition demo_validate (srcs : list source_ref) (arts : list art_ref) : M adb (list source_ref) :=
  validate demo_resolver id srcs arts.

(** The merged Memory may be cited, its frozen inputs and the Working Note may not. *)
Example demo_merged_run : ask (demo_validate [demo_source 7] [demo_memory 2]) demo_db = Ok [demo_source 7; demo_source 8].
Proof. vm_compute. reflexivity. Qed.
Example demo_frozen_run : ask (demo_validate [] [demo_memory 3]) demo_db = Err (EvidenceResolutionError "memory_entry_inactive").
Proof. vm_compute. reflexivity. Qed.
Example demo_note_run : ask (demo_validate [demo_source 9] [demo_memory 2]) demo_db = Err (EvidenceResolutionError "source_not_eligible").
Proof. vm_compute. reflexivity. Qed.

Lemma validated_lineage_witness :
  ∃ s', demo_validate [demo_source 7] [demo_memory 2] demo_db = Ok ([demo_source 7; demo_source 8], s') ∧
    eligible demo_resolver s' (demo_source 7).
Proof.
  destruct (proj1 (ask_ok _ _ _) demo_merged_run) as [s' Hrun]. exists s'. split; [exact Hrun|].
  destruct (validated_lineage demo_resolver id [demo_source 7] [demo_memory 2] demo_db _ s' Hrun) as (_ & Hs & _).
  apply Hs. left.
Defined.
End Lineage.
