(* ===== verification/Resolution.v ===== *)
(** * Resolved evidence

    What [EvidenceResolver.resolve] puts into a manifest and its projection, and what
    [select_evidence] accepts of a model's choice. *)

From S2P Require Import Prelude Tables Catalog Governance Provenance Artifacts AtomicState Worklist Evidence Lineage.
Local Open Scope Z_scope.

Module Resolution.
Import AtomicState Evidence Lineage.

Section resolution.
Context `{Encoding, Governance.CustomIndex} (rv : resolver).

(** The digest of what is stored under a reference now: of the Source, of the revision,
    and for a Memory also of its current revision and state. *)
Definition fresh (s : adb) (r : reference) (digest : text) : Prop :=
  match r with
  | ToSource x => ∃ row, a_sources s !! (scope_id rv, x.1, x.2) = Some row ∧
      digest = content_digest (source_json (source_value row))
  | ToArtifact x => ∃ a, Artifacts.stored s (key_in (scope_id rv) x) a ∧ art_self a = x ∧
      if decide (ref_family x = atomic_memory) then
        ∃ h st, a_heads s !! (scope_id rv, atomic_memory, ref_id x) = Some h ∧ reads_as st h ∧
          digest = content_digest (artifact_json a ++
                     reference_key (ToArtifact (mkRef atomic_memory (ref_id x) (head_revision h))) ++ state_json st)
      else digest = content_digest (artifact_json a)
  end.

Definition described (s : adb) (k : text) (n : node) : Prop :=
  node_id n = k ∧ ∃ r, k = evidence_id r ∧ fresh s r (node_digest n).

Lemma read_atomic_fresh s r a locked owner x :
  read_atomic rv s r a locked owner = Ok x → Artifacts.stored s (key_in (scope_id rv) r) a → art_self a = r → is_atomic a →
  described s (evidence_id (ToArtifact r)) x.1.1.
Proof.
  unfold read_atomic, is_atomic. intros H1 Hst <- Hat.
  apply result_bind_ok in H1 as (c & (s1 & Hl)%ask_ok & H1).
  apply result_bind_ok in H1 as (st & (s2 & Hget)%ask_ok & H1).
  apply result_bind_ok in H1 as ([] & _ & [= <-]).
  apply latest_of in Hl as (_ & h & Hh & Hc).
  2: { intros a' Hk. destruct locked; simplify_eq. done. }
  apply atomic_get_ok in Hget as (_ & h' & Hh' & Hr & _). simplify_eq.
  split; [done|]. exists (ToArtifact (art_self a)). split; [done|]. exists a. split_and!; [done|done|].
  rewrite decide_True by done. exists h, st. split_and!; [done|done|]. simpl. by rewrite Hc.
Qed.

Lemma read_artifact_fresh s r locked owner t x :
  read_artifact rv s r locked owner t = Ok x → described s (evidence_id (ToArtifact r)) x.1.1.
Proof.
  unfold read_artifact. intros H1. apply result_bind_ok in H1 as (a & (s1 & Hg)%ask_ok & H1).
  apply Artifacts.get_ok in Hg as (-> & Hst & Hself).
  assert (Hplain : ∀ k ro old, ¬ is_atomic a → described s (evidence_id (ToArtifact r)) (artifact_node r a k ro old)).
  { intros k ro old Hat. split; [done|]. exists (ToArtifact r). split; [done|]. exists a. split_and!; [done|done|].
    rewrite decide_False by (by rewrite <- Hself). done. }
  case_decide as Hat.
  { apply result_bind_ok in H1 as (y & Hy & [= <-]). apply read_atomic_fresh in Hy; [|done..]. by case_decide. }
  repeat (case_decide; [injection H1 as <-; repeat case_decide; by apply Hplain|]).
  apply result_bind_ok in H1 as (c & _ & [= <-]). by apply Hplain.
Qed.

Lemma read_ok s r direct locked owner t x t' :
  read rv s r direct locked owner t = Ok (x, t') →
  described s (evidence_id r) x.1.1 ∧ t_nodes t' = t_nodes t ∧ t_edges t' = t_edges t.
Proof.
  destruct r as [r|r]; simpl.
  - unfold read_source. intros ([v e] & ? & [Hf ->]%lift_ok & H1)%M_bind_ok.
    apply fetch_source_ok in Hf as ((row & Hrow & ->) & _).
    apply M_bind_ok in H1 as (pr & ? & [-> ->]%gets_ok & H1). apply M_bind_ok in H1 as (b & ? & [_ ->]%lift_ok & H1).
    apply M_bind_ok in H1 as ([] & ? & ->%modifies_ok & [-> ->]%M_ret_ok). split_and!; [|by destruct e..].
    split; [done|]. exists (ToSource r). split; [done|]. by exists row.
  - intros [Hr ->]%reads_ok. split_and!; [by eapply read_artifact_fresh|done|done].
Qed.

(** ** The traversal *)

(** Every node describes what is stored, every edge is between nodes, the limits hold. *)
Record sound (s : adb) (t : traversal) : Prop := {
  sound_nodes : ∀ k n, (k, n) ∈ t_nodes t → described s k n;
  sound_keys : NoDup (t_nodes t).*1;
  sound_edges : ∀ a b, (a, b) ∈ t_edges t → a ∈ (t_nodes t).*1 ∧ b ∈ (t_nodes t).*1;
  sound_size : Z.of_nat (length (t_nodes t)) ≤ max_nodes (limits_of rv);
  sound_degree : Z.of_nat (size (t_edges t)) ≤ max_edges (limits_of rv)
}.

Lemma sound_ids s t : sound s t → node_id <$> (t_nodes t).*2 = (t_nodes t).*1.
Proof.
  intros Hs. rewrite <- list_fmap_compose. apply list_fmap_ext. intros i [k n] Hin%list_elem_of_lookup_2. simpl.
  by destruct (sound_nodes _ _ Hs _ _ Hin).
Qed.

(** A traversal only adds nodes. *)
Definition grows (t t' : traversal) : Prop := (t_nodes t).*1 ⊆ (t_nodes t').*1.

Lemma sound_same s t t' : t_nodes t' = t_nodes t → t_edges t' = t_edges t → sound s t → sound s t'.
Proof. intros Hn He [H1 H2 H3 H4 H5]. split; rewrite ?Hn, ?He; done. Qed.

Lemma visit_ok fuel s locked r direct owner t k t' :
  visit rv fuel s locked r direct owner t = Ok (k, t') → sound s t →
  sound s t' ∧ grows t t' ∧ k = evidence_id r ∧ k ∈ (t_nodes t').*1.
Proof.
  revert r direct owner t k t'. induction fuel as [|fuel IH]; intros r direct owner t k t'; [done|]. cbn [visit].
  intros H1 Hs. apply M_bind_ok in H1 as ([] & ? & [_ ->]%lift_ok & H1).
  apply M_bind_ok in H1 as (x & t1 & (Hx & Hn1 & He1)%not_found_ok%read_ok & H1).
  pose proof (sound_same s t t1 Hn1 He1 Hs) as Hs1. assert (Hg1 : grows t t1) by (unfold grows; by rewrite Hn1).
  apply M_bind_ok in H1 as (known & ? & [-> ->]%gets_ok & H1).
  destruct (dget (evidence_id r) (t_nodes t1)) as [n|] eqn:Hk.
  { apply M_ret_ok in H1 as [-> ->]. split_and!; [done|done|done|]. apply dget_is_Some. by eexists. }
  apply M_bind_ok in H1 as ([] & t2 & ->%modifies_ok & H1).
  apply M_bind_ok in H1 as ([] & t3 & [Hlim%raise_if_ok ->]%reads_ok & H1).
  set (t2 := set_t_bodies _ _) in *.
  assert (Hkeys2 : (t_nodes t2).*1 = (t_nodes t1).*1 ++ [evidence_id r]).
  { subst t2. simpl. rewrite dset_keys, decide_False; [done|]. by apply dget_None. }
  assert (Hs2 : sound s t2).
  { destruct Hs1 as [S1 S2 S3 S4 S5]. split.
    - intros k' n Hin. apply dget_Some_elem in Hin; [|subst t2; by apply dset_NoDup].
      subst t2. simpl in Hin. rewrite dget_dset in Hin. case_decide as Hd; [by injection Hin as <-; subst k'|].
      by apply S1, dget_elem.
    - subst t2. by apply dset_NoDup.
    - rewrite Hkeys2. intros a b [Ha Hb]%S3. split; apply elem_of_app; by left.
    - lia.
    - done. }
  assert (Hr2 : evidence_id r ∈ (t_nodes t2).*1) by (rewrite Hkeys2; apply elem_of_app; right; left).
  assert (Hg2 : grows t t2).
  { intros k' Hk'. rewrite Hkeys2. apply elem_of_app. left. by apply Hg1. }
  clearbody t2. clear Hlim Hkeys2 Hk Hs1 Hg1 Hn1 He1.
  apply M_bind_ok in H1 as ([] & t4 & Hloop & [-> ->]%M_ret_ok).
  assert (Hinv : sound s t4 ∧ grows t t4 ∧ evidence_id r ∈ (t_nodes t4).*1).
  { revert Hloop. apply (for_each_preserves (λ t4, sound s t4 ∧ grows t t4 ∧ evidence_id r ∈ (t_nodes t4).*1)); [|done].
    intros c ta [] tb _ (Hsa & Hga & Hra) H1. apply M_bind_ok in H1 as (k' & tc & Hv & H1).
    apply IH in Hv as (Hsc & Hgc & -> & Hkc); [|done].
    apply M_bind_ok in H1 as ([] & ? & ->%modifies_ok & [Hlim%raise_if_ok ->]%reads_ok).
    simpl in Hlim. split; [|split; [intros z Hz; by apply Hgc, Hga|by apply Hgc]]. destruct Hsc as [S1 S2 S3 S4 S5].
    split; simpl; try done; [|lia].
    intros a b [[= -> ->]%elem_of_singleton|Hab]%elem_of_union; [split; [by apply Hgc|done]|by apply S3]. }
  destruct Hinv as (? & ? & ?). by split_and!.
Qed.

Lemma visit_fueled fuel s locked r direct owner :
  (∀ f r s, authorize rv = Some f → fueled (f r s)) → fueledM (visit rv fuel s locked r direct owner).
Proof.
  intros Hauth. revert r direct owner. induction fuel as [|fuel IH]; intros r direct owner; [unfold visit, limit_error; fuel|].
  cbn [visit].
  assert (Hread : fueledM (read rv s r direct locked owner)).
  { pose proof read_source_fueled. pose proof read_atomic_fueled. pose proof Artifacts.get_fueled.
    pose proof Artifacts.latest_fueled. unfold read, read_artifact. fuel. }
  pose proof (authorize_fueled rv Hauth r s).
  assert (Hloop : ∀ (l : list child) (g : text → M traversal unit), (∀ k, fueledM (g k)) →
    fueledM (for_each (λ c, visit rv fuel s locked c.1 false c.2 ≫= g) l)).
  { intros l g Hg. induction l as [|c l IHl]; simpl; fuel. }
  unfold limit_error. fuel. apply Hloop. intros k. fuel.
Qed.

Lemma traverse_ok s locked refs t t' :
  traverse rv s locked refs t = Ok (tt, t') → sound s t →
  sound s t' ∧ grows t t' ∧ ∀ r, r ∈ refs → evidence_id r ∈ (t_nodes t').*1.
Proof.
  unfold traverse. revert t. induction refs as [|r refs IH]; intros t; cbn [for_each].
  - intros [_ ->]%M_ret_ok Hs. split_and!; [done|by intros k|by intros r ?%not_elem_of_nil].
  - intros H1 Hs. apply M_bind_ok in H1 as ([] & t1 & H1 & H2).
    apply M_bind_ok in H1 as (k & ? & (Hs1 & Hg1 & -> & Hk)%visit_ok & [_ ->]%M_ret_ok); [|done].
    apply IH in H2 as (Hs2 & Hg2 & Hall); [|done]. split_and!; [done|intros z Hz; by apply Hg2, Hg1|].
    intros r' [->|?]%elem_of_cons; [by apply Hg2|by apply Hall].
Qed.

(** The roles may change, the rest stays. *)
Lemma sound_relabel s t nodes :
  sound s t → nodes.*1 = (t_nodes t).*1 →
  (∀ k n, (k, n) ∈ nodes → ∃ n0, (k, n0) ∈ t_nodes t ∧ node_id n = node_id n0 ∧ node_digest n = node_digest n0) →
  sound s (set_nodes nodes t).
Proof.
  intros [S1 S2 S3 S4 S5] Hk Hn. split; simpl; rewrite ?Hk; try done.
  - intros k n (n0 & (Hid & r & Hr & Hf)%S1 & E1 & E2)%Hn. split; [congruence|]. exists r. by rewrite E2.
  - rewrite <- (length_fmap fst), Hk, length_fmap. done.
Qed.

Lemma mark_target_ok s target t :
  sound s t → sound s (mark_target target t) ∧ (t_nodes (mark_target target t)).*1 = (t_nodes t).*1.
Proof.
  intros Hs. unfold mark_target. destruct target as [r|]; [|done].
  destruct (dget _ (t_nodes t)) as [n|] eqn:Hn; [|done].
  assert (Hk : (dset (evidence_id (ToArtifact r)) (with_role as_target n) (t_nodes t)).*1 = (t_nodes t).*1).
  { rewrite dset_keys, decide_True; [done|]. apply dget_is_Some. by eexists. }
  split; [|done]. apply sound_relabel; [done|done|]. intros k m Hin.
  apply dget_Some_elem in Hin; [|rewrite Hk; by apply (sound_keys s t)].
  rewrite dget_dset in Hin. case_decide as Hd.
  - injection Hin as <-. subst k. exists n. split; [by apply dget_elem|done].
  - exists m. split; [by apply dget_elem|done].
Qed.

Lemma dset_all_get {V} (l : list (text * V)) d k v :
  dget k (dset_all l d) = Some v → (k, v) ∈ l ∨ dget k d = Some v.
Proof.
  revert d. induction l as [|[k' v'] l IH]; intros d; simpl; [by right|]. intros [?|H1]%IH; [left; by right|].
  rewrite dget_dset in H1. case_decide as Hk; [injection H1 as <-; subst k'; left; left|by right].
Qed.

(** The pinned snapshot has the ids, the edges and the digests of the traversal. *)
Definition matches (old : manifest) (t : traversal) : Prop :=
  (∀ k n, (k, n) ∈ t_nodes t → n ∈ m_nodes old) ∧
  (∀ k, k ∈ (t_nodes t).*1 ↔ ∃ n, n ∈ m_nodes old ∧ node_id n = k) ∧
  (∀ e, e ∈ t_edges t ↔ e ∈ m_edges old).

Lemma dset_all_keys {V} (l : list (text * V)) d k : k ∈ (dset_all l d).*1 ↔ k ∈ l.*1 ∨ k ∈ d.*1.
Proof.
  revert d. induction l as [|[k' v'] l IH]; intros d; simpl; [set_solver|]. rewrite IH, dset_keys.
  case_decide; [|rewrite elem_of_app, list_elem_of_singleton]; rewrite elem_of_cons; naive_solver.
Qed.

Lemma restore_snapshot_ok s old t t' :
  restore_snapshot old t = Ok t' → sound s t →
  sound s t' ∧ (t_nodes t').*1 = (t_nodes t).*1 ∧ matches old t'.
Proof.
  unfold restore_snapshot. intros H1 Hs. apply result_bind_ok in H1 as ([] & _ & H1).
  set (before := dset_all _ _) in *.
  assert (Hbefore : ∀ k n, dget k before = Some n → n ∈ m_nodes old ∧ node_id n = k).
  { intros k n [(n' & [= -> ->] & ?)%list_elem_of_fmap|]%dset_all_get; done. }
  apply result_bind_ok in H1 as ([] & Hsame%raise_if_ok & H1).
  apply result_bind_ok in H1 as (nodes & Hn%map_result_ok & [= <-]).
  assert (Hrow : ∀ k n, (k, n) ∈ nodes → n ∈ m_nodes old ∧ node_id n = k ∧
    ∃ n0, (k, n0) ∈ t_nodes t ∧ node_digest n = node_digest n0).
  { intros k n Hin. destruct (Forall2_elem_r _ _ _ _ Hn Hin) as ([k0 n0] & Hin0 & Hx). simpl in Hx.
    destruct (dget k0 before) as [n1|] eqn:Hb; [|done].
    apply result_bind_ok in Hx as ([] & Hd%raise_if_ok & [= <- <-]). apply dec_stable in Hd.
    destruct (Hbefore _ _ Hb). split_and!; [done|done|]. by exists n0. }
  assert (Hkeys : nodes.*1 = (t_nodes t).*1).
  { clear -Hn. induction Hn as [|[k n] y l l' Hx _ IH]; [done|]. rewrite !fmap_cons, IH. f_equal. simpl in *.
    destruct (dget k before); [|done]. by apply result_bind_ok in Hx as ([] & _ & [= <-]). }
  destruct (decide (list_to_set before.*1 = (list_to_set (t_nodes t).*1 : gset text))) as [Hk|]; [|destruct Hsame; by left].
  destruct (decide (list_to_set (m_edges old) = t_edges t)) as [He|]; [|destruct Hsame; by right].
  split_and!; [|done|].
  - apply sound_relabel; [done|done|]. intros k n (Hold & Hid & n0 & Hin & Hdig)%Hrow. exists n0. split_and!; [done| |done].
    destruct (sound_nodes _ _ Hs _ _ Hin) as [-> _]. done.
  - split; [by intros k n (? & _)%Hrow|]. split; simpl.
    + intros k. rewrite Hkeys. rewrite <- (elem_of_list_to_set (C := gset text)), <- Hk, elem_of_list_to_set.
      unfold before. rewrite dset_all_keys, list_elem_of_fmap. split.
      * intros [([k' n] & -> & (n' & [= -> ->] & ?)%list_elem_of_fmap)|?%not_elem_of_nil]; [by exists n'|done].
      * intros (n & Hin & <-). left. exists (node_id n, n). split; [done|]. apply list_elem_of_fmap. by exists n.
    + intros e. by rewrite <- He, elem_of_list_to_set.
Qed.

(** ** The manifest *)

Lemma project_node_id project t kn x : project_node project t kn = Ok x → p_id x = kn.1.
Proof. unfold project_node. intros H1. by run. Qed.

Lemma compose_ok o t m p :
  compose rv o t = Ok (m, p) →
  m_nodes m ≡ₚ (t_nodes t).*2 ∧ m_edges m ≡ₚ elements (t_edges t) ∧
  (∀ k, k ∈ p_id <$> p_evidence p ↔ ∃ n, (k, n) ∈ t_nodes t ∧ ¬ hidden (include_memory_text o) n) ∧
  projection_bytes m = len (projection_json p) ∧
  (o_project o = true →
     Z.of_nat (length (p_evidence p)) ≤ max_items (limits_of rv) ∧ projection_bytes m ≤ max_bytes (limits_of rv) ∧
     ∀ old, pinned o = Some old → projection_digest m = projection_digest old).
Proof.
  unfold compose. intros H1. apply result_bind_ok in H1 as (groups & _ & H1).
  apply result_bind_ok in H1 as (evidence & He%map_result_ok & H1).
  apply result_bind_ok in H1 as ([] & Hlim%raise_if_ok & H1).
  apply result_bind_ok in H1 as ([] & Hch%raise_if_ok & [= <- <-]). simpl in *. split_and!.
  - by rewrite merge_sort_Permutation.
  - apply merge_sort_Permutation.
  - intros k. rewrite list_elem_of_fmap. split.
    + intros (x & -> & Hx). destruct (Forall2_elem_r _ _ _ _ He Hx) as ([k n] & Hin & Hp%project_node_id).
      apply list_elem_of_filter in Hin as [Hh Hin]. rewrite merge_sort_Permutation in Hin. rewrite Hp. by exists n.
    + intros (n & Hin & Hh). destruct (Forall2_elem_l _ _ _ (k, n) He) as (x & Hx & Hp%project_node_id).
      { apply list_elem_of_filter. by rewrite merge_sort_Permutation. }
      by exists x.
  - done.
  - intros Hp. rewrite Hp in Hlim, Hch. split_and!; [lia..|]. intros old Ho. rewrite Ho in Hch. simpl in Hch.
    destruct (decide (content_digest (projection_json (mkProjection evidence groups
      (bool_decide (Exists (λ kn, role kn.2 = as_unresolved) (t_nodes t))))) = projection_digest old)); [done|tauto].
Qed.

Definition cited_refs (o : options) : list reference := (ToSource <$> o_sources o) ++ (ToArtifact <$> o_artifacts o).

Lemma resolve_once_ok o locked s m p :
  valid_limits (limits_of rv) → resolve_once rv o locked s = Ok (m, p) →
  ∃ t, sound s t ∧ compose rv o t = Ok (m, p) ∧ (∀ r, r ∈ cited_refs o → evidence_id r ∈ (t_nodes t).*1) ∧
    (∀ old, pinned o = Some old → matches old t).
Proof.
  unfold resolve_once. intros Hv H1. apply result_bind_ok in H1 as (t & ([] & Ht)%finish_ok & H1).
  apply traverse_ok in Ht as (Hs & _ & Hall).
  2: { split; simpl; [by intros k n ?%not_elem_of_nil|apply NoDup_nil_2|by intros a b ?%not_elem_of_empty|..].
       all: unfold valid_limits in Hv; try change (set_size _) with 0%nat; lia. }
  destruct (mark_target_ok s (o_target o) t Hs) as [Hs1 Hk1].
  apply result_bind_ok in H1 as (t2 & H2 & H1). exists t2.
  assert (Hall1 : ∀ r, r ∈ cited_refs o → evidence_id r ∈ (t_nodes (mark_target (o_target o) t)).*1)
    by (intros r Hr; rewrite Hk1; by apply Hall).
  destruct (pinned o) as [old|] eqn:Hpin.
  - apply (restore_snapshot_ok s) in H2 as (Hs2 & Hk2 & Hm); [|done]. split_and!; [done|done| |by intros ? [= <-]].
    intros r Hr. rewrite Hk2. by apply Hall1.
  - injection H2 as <-. split_and!; done.
Qed.

Lemma resolve_ok waits o lock s m p s' :
  resolve rv waits o lock s = Ok ((m, p), s') →
  resolve_once rv o lock s' = Ok (m, p) ∧ (s' = s ∨ lock = true ∧ s' = waits s).
Proof.
  unfold resolve. destruct lock.
  - intros H1. apply M_bind_ok in H1 as (observed & ? & [_ ->]%reads_ok & H1).
    apply M_bind_ok in H1 as ([] & ? & ->%modifies_ok & H1). apply M_bind_ok in H1 as ([] & s2 & Hl & [H1 ->]%reads_ok).
    unfold Artifacts.lock_heads in Hl. apply reads_ok in Hl as [_ ->]. split; [done|by right].
  - intros [H1 ->]%reads_ok. split; [done|by left].
Qed.

(** C26: A resolution stays within its limits: the manifest has at most the nodes and the
    edges the limits allow, each node once and each edge between its nodes, and when
    text is projected the model sees at most the allowed items and bytes, the bytes
    the manifest records. *)
Theorem resolution_within_limits waits o lock s m p s' :
  valid_limits (limits_of rv) → resolve rv waits o lock s = Ok ((m, p), s') →
  Z.of_nat (length (m_nodes m)) ≤ max_nodes (limits_of rv) ∧ Z.of_nat (length (m_edges m)) ≤ max_edges (limits_of rv) ∧
  NoDup (node_id <$> m_nodes m) ∧
  (∀ a b, (a, b) ∈ m_edges m → a ∈ node_id <$> m_nodes m ∧ b ∈ node_id <$> m_nodes m) ∧
  projection_bytes m = len (projection_json p) ∧
  (o_project o = true → Z.of_nat (length (p_evidence p)) ≤ max_items (limits_of rv) ∧
     projection_bytes m ≤ max_bytes (limits_of rv)).
Proof.
  intros Hv (H1 & _)%resolve_ok. destruct (resolve_once_ok _ _ _ _ _ Hv H1) as (t & Hs & Hc & _ & _).
  apply compose_ok in Hc as (Hn & He & _ & Hb & Hp).
  pose proof (sound_ids _ _ Hs) as Hids.
  pose proof (sound_size _ _ Hs). pose proof (sound_degree _ _ Hs). split_and!.
  - by rewrite Hn, length_fmap.
  - by rewrite He.
  - rewrite Hn, Hids. exact (sound_keys _ _ Hs).
  - intros a b. rewrite He, elem_of_elements, Hn, Hids. exact (sound_edges _ _ Hs a b).
  - done.
  - intros ?. split; by apply Hp.
Qed.

(** C25: A manifest is a faithful snapshot: every cited reference has a node, every node's
    digest is that of what is stored under its reference when the locks are held, the
    model sees exactly the nodes that are not hidden, and against a pinned manifest
    only an unchanged graph with unchanged digests resolves, to the pinned nodes. *)
Theorem resolution_is_snapshot waits o lock s m p s' :
  valid_limits (limits_of rv) → resolve rv waits o lock s = Ok ((m, p), s') →
  (s' = s ∨ lock = true ∧ s' = waits s) ∧
  (∀ r, r ∈ cited_refs o → evidence_id r ∈ node_id <$> m_nodes m) ∧
  (∀ n, n ∈ m_nodes m → ∃ r, node_id n = evidence_id r ∧ fresh s' r (node_digest n)) ∧
  (∀ k, k ∈ p_id <$> p_evidence p ↔ ∃ n, n ∈ m_nodes m ∧ node_id n = k ∧ ¬ hidden (include_memory_text o) n) ∧
  (∀ old, pinned o = Some old →
     (∀ n, n ∈ m_nodes m → n ∈ m_nodes old) ∧ (∀ k, k ∈ node_id <$> m_nodes m ↔ k ∈ node_id <$> m_nodes old) ∧
     (∀ e, e ∈ m_edges m ↔ e ∈ m_edges old) ∧ (o_project o = true → projection_digest m = projection_digest old)).
Proof.
  intros Hv (H1 & Hw)%resolve_ok. destruct (resolve_once_ok _ _ _ _ _ Hv H1) as (t & Hs & Hc & Hall & Hpin).
  apply compose_ok in Hc as (Hn & He & Hev & _ & Hp).
  pose proof (sound_ids _ _ Hs) as Hids.
  assert (Hin : ∀ n, n ∈ m_nodes m ↔ (node_id n, n) ∈ t_nodes t).
  { intros n. rewrite Hn, list_elem_of_fmap. split.
    - intros ([k n'] & -> & Hin). simpl. by destruct (sound_nodes _ _ Hs _ _ Hin) as [-> _].
    - intros Hin. by exists (node_id n, n). }
  split_and!.
  - done.
  - intros r Hr. rewrite Hn, Hids. by apply Hall.
  - intros n Hnn%Hin. by destruct (sound_nodes _ _ Hs _ _ Hnn) as (_ & r & ? & ?); exists r.
  - intros k. rewrite Hev. split.
    + intros (n & Hkn & Hh). destruct (sound_nodes _ _ Hs _ _ Hkn) as [<- _]. exists n. by rewrite Hin.
    + intros (n & Hnn%Hin & <- & Hh). by exists n.
  - intros old Ho. destruct (Hpin old Ho) as (M1 & M2 & M3). split_and!.
    + intros n Hnn%Hin. by eapply M1.
    + intros k. rewrite Hn, Hids, M2, list_elem_of_fmap. naive_solver.
    + intros e. by rewrite He, elem_of_elements, M3.
    + intros Hpr. by apply Hp.
Qed.

(** ** Selection *)

(** [k] derives from [start] along the edges of a manifest. *)
Definition leads_to (m : manifest) (start k : text) : Prop := rtc (edge_in (m_edges m)) start k.

(** The chosen evidence: what the model used but for targets, and the cited Artifacts
    that derive from it. *)
Definition used_support (m : manifest) (used : list text) (k : text) : Prop :=
  k ∈ used ∧ is_support (nodes_by_id m) k.
Definition chosen_support (m : manifest) (used : list text) (k : text) : Prop :=
  used_support m used k ∨
  ∃ o u, o ∈ m_artifacts m ∧ k = evidence_id (ToArtifact o) ∧ is_support (nodes_by_id m) k ∧
    used_support m used u ∧ leads_to m k u.

Lemma reachable_ok start m found : reachable start m = Ok found → ∀ k, k ∈ found ↔ leads_to m start k.
Proof.
  unfold reachable. intros H1 k. apply result_bind_ok in H1 as (visited & (s1 & Hrun)%ask_ok & [= <-]).
  apply (edge_walk_ok _ (m_edges m) (λ _ _, True)) in Hrun as [_ Hk]; [|by intros ???? [-> _]%M_ret_ok|done..].
  by rewrite elem_of_list_to_set, Hk.
Qed.

Lemma add_origins_ok (m : manifest) (nodes : dict text node) (origins : list art_ref) (base chosen found : gset text) :
  add_origins m nodes origins chosen = Ok found →
  base ⊆ chosen → (∀ x, x ∈ chosen → ∃ b, b ∈ base ∧ leads_to m x b) →
  ∀ k, k ∈ found ↔ k ∈ chosen ∨
    ∃ o b, o ∈ origins ∧ k = evidence_id (ToArtifact o) ∧ is_support nodes k ∧ b ∈ base ∧ leads_to m k b.
Proof.
  revert chosen. induction origins as [|o origins IH]; intros chosen; simpl.
  { intros [= <-] _ _ k. split; [by left|]. intros [?|(o & b & ?%not_elem_of_nil & _)]; done. }
  set (ko := evidence_id (ToArtifact o)). destruct (dget ko nodes) as [n|] eqn:Hn; [|done].
  intros H1 Hsub Hch k. setoid_rewrite elem_of_cons.
  assert (Hstep : ∀ chosen', add_origins m nodes origins chosen' = Ok found → base ⊆ chosen' →
    (∀ x, x ∈ chosen' → ∃ b, b ∈ base ∧ leads_to m x b) →
    (∀ x, x ∈ chosen' ↔ x ∈ chosen ∨ x = ko ∧ is_support nodes ko ∧ ∃ b, b ∈ base ∧ leads_to m ko b) →
    k ∈ found ↔ k ∈ chosen ∨ ∃ o0 b, (o0 = o ∨ o0 ∈ origins) ∧ k = evidence_id (ToArtifact o0) ∧ is_support nodes k ∧
      b ∈ base ∧ leads_to m k b).
  { intros chosen' Hrun Hs Hc Heq. rewrite (IH _ Hrun Hs Hc), Heq. subst ko. naive_solver. }
  case_decide as Ht.
  { eapply Hstep; [done..|]. intros x. split; [by left|]. intros [?|(_ & Hsup & _)]; [done|].
    unfold is_support in Hsup. by rewrite Hn in Hsup. }
  apply result_bind_ok in H1 as (from & Hf & H1). pose proof (reachable_ok _ _ _ Hf) as Hfrom.
  assert (Hsup : is_support nodes ko) by (unfold is_support; by rewrite Hn).
  case_decide as Hd.
  - eapply Hstep; [done..|]. intros x. split; [by left|]. intros [?|(_ & _ & b & Hb & Hl)]; [done|]. exfalso.
    assert (b ∈ from ∩ chosen); [|set_solver]. apply elem_of_intersection. split; [by apply Hfrom|by apply Hsub].
  - assert (Hx : ∃ b, b ∈ base ∧ leads_to m ko b).
    { destruct (set_choose_L _ Hd) as (x & [Hx1%Hfrom Hx2]%elem_of_intersection).
      destruct (Hch _ Hx2) as (b & ? & ?). exists b. split; [done|]. unfold leads_to in *. by etrans. }
    eapply Hstep; [done|set_solver| |].
    + intros x [->%elem_of_singleton|?]%elem_of_union; [done|by apply Hch].
    + intros x. rewrite elem_of_union, elem_of_singleton. naive_solver.
Qed.

Lemma any_memory_ok nodes keys b :
  any_memory nodes keys = Ok b → (b = true ↔ ∃ k n, k ∈ keys ∧ dget k nodes = Some n ∧ kind n = memory_kind).
Proof.
  induction keys as [|k keys IH]; simpl.
  - intros [= <-]. split; [done|]. intros (k & n & ?%not_elem_of_nil & _). done.
  - destruct (dget k nodes) as [n|] eqn:Hn; [|done]. case_decide as Hk.
    + intros [= <-]. split; [|done]. intros _. exists k, n. split_and!; [left|done|done].
    + intros ->%IH. setoid_rewrite elem_of_cons. naive_solver.
Qed.

Lemma nodes_by_id_NoDup m : NoDup (nodes_by_id m).*1.
Proof.
  unfold nodes_by_id. assert (Hd : NoDup ([] : dict text node).*1) by apply NoDup_nil_2. revert Hd.
  generalize ([] : dict text node). induction ((λ n, (node_id n, n)) <$> m_nodes m) as [|[k n] l IH]; intros d Hd; [done|].
  simpl. by apply IH, dset_NoDup.
Qed.

Lemma nodes_omap {A} m (f : text * node → option A) x :
  x ∈ omap f (nodes_by_id m) ↔ ∃ k n, dget k (nodes_by_id m) = Some n ∧ f (k, n) = Some x.
Proof.
  rewrite list_elem_of_omap. split.
  - intros ([k n] & Hin & Hx). exists k, n. split; [|done]. by apply dget_Some_elem; [apply nodes_by_id_NoDup|].
  - intros (k & n & Hin%dget_elem & Hf). by exists (k, n).
Qed.

Lemma guarded_ok (P : Prop) `{Decision P} {A} (o : option A) x :
  (if decide P then o else None) = Some x ↔ P ∧ o = Some x.
Proof. case_decide; naive_solver. Qed.

(** C27: A selection rests on the evidence the model was given and nothing else: every id
    it used is a visible node (no Memory for a Skill), the target never supports its own
    revision, the Sources are exactly the roots the chosen evidence derives from, the
    Artifacts are the chosen entries and the target, Memory is never used without a
    Source, and at most 32 references are kept. *)
Theorem selection_is_supported m used skill target catalog sel :
  select_evidence m used skill target catalog = Ok sel →
  let nodes := nodes_by_id m in
  (∀ k, k ∈ used → usable skill (dget k nodes)) ∧ (∃ k, used_support m used k) ∧
  (∀ src, src ∈ s_sources sel ↔ ∃ c k n, chosen_support m used c ∧ leads_to m c k ∧
     dget k nodes = Some n ∧ role n = as_root ∧ node_source n = Some src) ∧
  (∀ r, r ∈ s_artifacts sel ↔ target = Some r ∨ ∃ c n, chosen_support m used c ∧
     dget c nodes = Some n ∧ kind n ∈ artifact_kinds catalog ∧ node_artifact n = Some r) ∧
  ((∃ c k n, chosen_support m used c ∧ leads_to m c k ∧ dget k nodes = Some n ∧ kind n = memory_kind) →
     s_sources sel ≠ []) ∧
  (skill = true → s_artifacts sel ≠ []) ∧
  Z.of_nat (length (s_sources sel)) + Z.of_nat (length (s_artifacts sel)) ≤ 32.
Proof.
  unfold select_evidence. intros H1. set (nodes := nodes_by_id m) in *.
  apply result_bind_ok in H1 as ([] & Hused%check_each_ok & H1).
  set (base := list_to_set (filter (is_support nodes) used) : gset text) in *.
  apply result_bind_ok in H1 as ([] & Hne%raise_if_ok & H1).
  apply result_bind_ok in H1 as (chosen & Hc & H1). apply result_bind_ok in H1 as (found & Hf%map_result_ok & H1).
  apply result_bind_ok in H1 as (md & Hmd & H1). apply result_bind_ok in H1 as ([] & Hm%raise_if_ok & H1).
  apply result_bind_ok in H1 as ([] & Hs%raise_if_ok & H1). apply result_bind_ok in H1 as ([] & Hl%raise_if_ok & [= <-]).
  assert (Hbase : ∀ k, k ∈ base ↔ used_support m used k).
  { intros k. subst base. rewrite elem_of_list_to_set, list_elem_of_filter. unfold used_support. tauto. }
  assert (Hchosen : ∀ k, k ∈ chosen ↔ chosen_support m used k).
  { intros k. rewrite (add_origins_ok _ _ _ base _ _ Hc); [|done|intros x Hx; exists x; split; [done|apply rtc_refl]].
    unfold chosen_support. setoid_rewrite Hbase. naive_solver. }
  assert (Hdeps : ∀ k, k ∈ (⋃ found : gset text) ↔ ∃ c, chosen_support m used c ∧ leads_to m c k).
  { intros k. rewrite elem_of_union_list. split.
    - intros (X & HX & Hk). destruct (Forall2_elem_r _ _ _ _ Hf HX) as (c & Hcc & Hr). exists c.
      rewrite <- Hchosen, <- (reachable_ok _ _ _ Hr). by rewrite elem_of_elements in Hcc.
    - intros (c & Hcc%Hchosen & Hk). destruct (Forall2_elem_l _ _ _ c Hf) as (X & HX & Hr); [by apply elem_of_elements|].
      exists X. split; [done|]. by apply (reachable_ok _ _ _ Hr). }
  simpl. split_and!.
  - intros k Hk. rewrite Forall_forall in Hused. specialize (Hused k Hk). apply raise_if_ok in Hused. by apply dec_stable in Hused.
  - apply set_choose_L in Hne as [k Hk]. exists k. by apply Hbase.
  - intros src. etrans; [apply nodes_omap|]. setoid_rewrite guarded_ok. simpl. setoid_rewrite Hdeps. naive_solver.
  - intros r. assert (Har : r ∈ omap (λ kn : text * node, if decide (kn.1 ∈ chosen ∧ kind kn.2 ∈ artifact_kinds catalog)
        then node_artifact kn.2 else None) nodes ↔ ∃ c n, chosen_support m used c ∧
        dget c nodes = Some n ∧ kind n ∈ artifact_kinds catalog ∧ node_artifact n = Some r).
    { etrans; [apply nodes_omap|]. setoid_rewrite guarded_ok. simpl. setoid_rewrite Hchosen. naive_solver. }
    destruct target as [tg|]; [|rewrite Har; naive_solver].
    rewrite nub_elem, elem_of_app, Har, list_elem_of_singleton. naive_solver.
  - intros (c & k & n & Hcc & Hk & Hn & Hkind) Hnil. apply Hm. split; [|done]. apply (any_memory_ok _ _ _ Hmd).
    exists k, n. rewrite elem_of_elements, Hdeps. naive_solver.
  - intros -> Hnil. by apply Hs.
  - lia.
Qed.

(** ** Termination *)

Lemma select_evidence_fueled m used skill target catalog : fueled (select_evidence m used skill target catalog).
Proof.
  assert (Hr : ∀ k, fueled (reachable k m)).
  { intros k. unfold reachable. apply fueled_bind; [|done]. unfold ask.
    pose proof (edges_fueled (λ current, mret (upstream_of (m_edges m) current)) (m_edges m) k empty_adb) as Hw.
    destruct (worklist _ _ _ _ _ _ _) as [[]|e]; [done|]. intros [= ->]. apply Hw; [done| |done].
    by intros ???? [-> _]%M_ret_ok. }
  assert (Ho : ∀ nodes origins chosen, fueled (add_origins m nodes origins chosen)).
  { intros nodes origins. induction origins as [|o origins IH]; intros chosen; simpl; [done|]. fuel. }
  assert (Hm : ∀ nodes keys, fueled (any_memory nodes keys)).
  { intros nodes keys. induction keys as [|k keys IH]; simpl; [done|]. fuel. }
  unfold select_evidence, invalid_output, limit_error. fuel.
Qed.

Lemma resolve_once_fueled o locked s :
  (∀ f r s, authorize rv = Some f → fueled (f r s)) → fueled (resolve_once rv o locked s).
Proof.
  intros Hauth. assert (Ht : ∀ refs, fueledM (traverse rv s locked refs)).
  { intros refs. unfold traverse. induction refs as [|r refs IH]; [done|]. cbn [for_each].
    pose proof (visit_fueled (depth_fuel rv) s locked r true None Hauth). fuel. }
  unfold resolve_once, restore_snapshot, compose, groups_of, project_node, unavailable_error, limit_error.
  apply fueled_bind; [apply finish_fueled, Ht|]. intros t. fuel.
Qed.

(** C28: The traversals of the evidence graph end on every stored graph, cycles and
    forgotten histories included: with the fuel of the model neither validation, nor
    resolution, nor selection runs out, whatever other transactions commit while locks
    are awaited. *)
Theorem evidence_terminates waits :
  (∀ f r s, authorize rv = Some f → fueled (f r s)) →
  (∀ sources artifacts, fueledM (validate rv waits sources artifacts)) ∧
  (∀ o lock, fueledM (resolve rv waits o lock)) ∧
  (∀ m used skill target catalog, fueled (select_evidence m used skill target catalog)).
Proof.
  intros Hauth. split_and!.
  - intros. by apply validate_fueled.
  - intros o lock. pose proof (λ o l s, resolve_once_fueled o l s Hauth).
    assert (Hl : ∀ refs, fueledM (Artifacts.lock_heads (scope_id rv) refs)).
    { intros refs. unfold Artifacts.lock_heads, require_scope, require_identifier. fuel. }
    unfold resolve. fuel.
  - apply select_evidence_fueled.
Qed.
End resolution.

(** ** Concrete runs *)

#[local] Existing Instance Lineage.no_custom_index.
#[local] Existing Instance Lineage.demo_encoding.

(** The merged Memory with its two inputs and their Sources. *)
Definition demo_options (old : option manifest) : options :=
  mkOptions [demo_source 7] [demo_memory 2] None true old true false false.
Definition demo_resolve (old : option manifest) : M adb (manifest * projection) :=
  resolve demo_resolver id (demo_options old) true.
Definition demo_manifest : manifest :=
  Eval vm_compute in match ask (demo_resolve None) demo_db with
                     | Ok (m, _) => m
                     | Err _ => mkManifest [] [] [] [] [] [] [] 0 false
                     end.
Definition demo_id (r : reference) : text := evidence_id r.

Example demo_manifest_size : length (m_nodes demo_manifest) = 6%nat.
Proof. reflexivity. Qed.

Lemma demo_resolved old x : ask (demo_resolve old) demo_db = Ok x → ∃ s', demo_resolve old demo_db = Ok (x.1, x.2, s').
Proof. intros [s' H1]%ask_ok. exists s'. by destruct x. Qed.

Lemma demo_pinned_run :
  match ask (demo_resolve (Some demo_manifest)) demo_db with Ok (m, _) => m_nodes m = m_nodes demo_manifest | Err _ => False end.
Proof. vm_compute. reflexivity. Qed.

Lemma demo_limits : valid_limits (limits_of demo_resolver).
Proof. unfold valid_limits. simpl. lia. Qed.

Lemma resolution_within_limits_witness :
  ∃ m p s', demo_resolve None demo_db = Ok (m, p, s') ∧ Z.of_nat (length (m_nodes m)) ≤ 128.
Proof.
  destruct (ask (demo_resolve None) demo_db) as [[m p]|e] eqn:E; [|vm_compute in E; discriminate].
  destruct (demo_resolved _ _ E) as [s' Hrun]. exists m, p, s'. split; [exact Hrun|].
  apply (resolution_within_limits demo_resolver id (demo_options None) true demo_db m p s' demo_limits Hrun).
Defined.

Lemma resolution_is_snapshot_witness :
  ∃ m p s', demo_resolve (Some demo_manifest) demo_db = Ok (m, p, s') ∧ ∀ n, n ∈ m_nodes m → n ∈ m_nodes demo_manifest.
Proof.
  pose proof demo_pinned_run as Hok.
  destruct (ask (demo_resolve (Some demo_manifest)) demo_db) as [[m p]|e] eqn:E; [|destruct Hok].
  destruct (demo_resolved _ _ E) as [s' Hrun]. exists m, p, s'. split; [exact Hrun|].
  destruct (resolution_is_snapshot demo_resolver id (demo_options (Some demo_manifest)) true demo_db m p s' demo_limits Hrun)
    as (_ & _ & _ & _ & Hpin).
  apply (Hpin demo_manifest eq_refl).
Defined.

(** The model names a Source: the Memory it was selected through is kept with it. *)
Lemma demo_selection :
  select_evidence demo_manifest [demo_id (ToSource (demo_source 7))] false None false =
  Ok (mkSelected [demo_source 7; demo_source 8] [demo_memory 2]).
Proof. vm_compute. reflexivity. Qed.

Lemma selection_is_supported_witness : ∃ k, used_support demo_manifest [demo_id (ToSource (demo_source 7))] k.
Proof.
  apply (selection_is_supported demo_manifest [demo_id (ToSource (demo_source 7))] false None false _ demo_selection).
Defined.

Lemma evidence_terminates_witness : fueledM (demo_resolve None).
Proof.
  apply (evidence_terminates demo_resolver id). unfold demo_resolver. simpl. intros f r s [= <-]. discriminate.
Defined.
End Resolution.
