(* ===== verification/MergePlans.v ===== *)
(** * Merge plans and the environment of a merge service

    [builtin/artifacts/merge_models.py] and the protocols of
    [builtin/artifacts/merge.py]: what a plan reads and writes, and what a merge
    service expects of access control, of its Family and of tags. *)

From S2P Require Import Prelude Tables Catalog Governance Artifacts.
Local Open Scope Z_scope.

Module MergePlans.
Import Governance.

(** ** Plans *)

(** [ArtifactMergeRead]. *)
Record merge_read := mkMergeRead {
  read_ref : art_ref;
  read_state : lifecycle;
  state_version : Z;
  read_merged_into : option text;
  read_replacement : option text
}.
#[export] Instance merge_read_eq_dec : EqDecision merge_read.
Proof. solve_decision. Defined.

(** [ArtifactMergeRecord]. *)
Record record := mkRecord { rec_artifact : artifact; rec_state : governance }.
#[export] Instance record_eq_dec : EqDecision record.
Proof. solve_decision. Defined.

Definition rec_ref (r : record) : art_ref := art_self (rec_artifact r).
Definition as_read (r : record) : merge_read :=
  mkMergeRead (rec_ref r) (g_state (rec_state r)) (g_generation (rec_state r))
    (g_merged_into (rec_state r)) (g_replacement (rec_state r)).

(** [ArtifactMergeRestoreItem]. *)
Record restore_item := mkRestoreItem {
  item_id : text;
  source_revision : Z;
  creates_revision : bool
}.
#[export] Instance restore_item_eq_dec : EqDecision restore_item.
Proof. solve_decision. Defined.

(** [ArtifactMergeWrite]. *)
Record write := mkWrite {
  w_id : text;
  w_state : lifecycle;
  w_draft : option draft;
  w_merged_into : option text;
  w_current : option record;
  w_inputs : list text;
  w_replacement : option text
}.
#[export] Instance write_eq_dec : EqDecision write.
Proof. solve_decision. Defined.

Inductive operation := CHANGE | MERGE | FORGET | RESTORE | UNDO_MERGE.
#[export] Instance operation_eq_dec : EqDecision operation.
Proof. solve_decision. Defined.

(** [ArtifactMergePlan]. *)
Record plan := mkPlan {
  plan_scope : text;
  plan_subject : text;
  plan_reads : list merge_read;
  plan_writes : list write;
  plan_primary : text;
  plan_operation : operation;
  plan_endpoint : option merge_read;
  plan_target_revision : option Z;
  plan_undone : list text;
  plan_restore : list restore_item;
  plan_token : option text
}.
#[export] Instance plan_eq_dec : EqDecision plan.
Proof. solve_decision. Defined.

(** [PreparedArtifactMerge] and [ArtifactMergeMutationResult]. *)
Record prepared (P : Type) := mkPrepared { prepared_plan : plan; projections : dict text P }.
Arguments mkPrepared {P}.
Arguments prepared_plan {P}.
Arguments projections {P}.

Record mutation := mkMutation {
  changed : bool;
  mutated : list record;
  primary_id : text;
  retired_refs : list art_ref;
  undone_results : list text
}.
#[export] Instance mutation_eq_dec : EqDecision mutation.
Proof. solve_decision. Defined.

(** [ArtifactRestorationWrite] and [ArtifactRestorationOutcome] of
    [builtin/sources/content.py]. *)
Record restoration_result := mkRestorationResult {
  before_ref : art_ref;
  content_from_ref : art_ref;
  after_ref : art_ref;
  after_state : lifecycle
}.
Record restoration_outcome := mkOutcome {
  outcome_operation : operation;
  outcome_target : art_ref;
  outcome_writes : list restoration_result;
  outcome_undone : list art_ref
}.

(** ** The environment of a service

    Access control, the Family's adapter and the tags keep state of their own
    ([ext]); they read the Artifact tables and do not write them.  An effect
    answers its successor state or raises. *)

Inductive action := READ | WRITE | CREATE.

Class Environment := {
  context : Type;
  ext : Type;
  projection : Type;
  (* [ArtifactMergeSecurity] *)
  subject : context → text;
  authorize : text → context → action → option art_ref → adb → ext → result ext;
  authorize_sources : text → context → list source_ref → adb → ext → result ext;
  authorize_creates : text → context → list art_ref → adb → ext → result ext;
  establish_owners : text → list text → context → adb → ext → result ext;
  (* [ArtifactMergeAdapter] *)
  merge_family : text;
  make_draft : content → lineage → list art_ref → bool → result draft;
  prepare_content : content → result projection;
  validate_prepared : projection → result unit;
  publish : text → record → projection → context → adb → ext → result ext;
  publish_many : text → list (record * projection) → context → adb → ext → result ext;
  remove : text → text → adb → ext → result ext;
  (* [MergeTags] *)
  merge_tags : text → text → list text → adb → ext → result ext;
  (* [ArtifactMergePreviewSigner]: the endpoint a valid token names *)
  token_endpoint : text → text → text → operation → text → option Z → ext → result merge_read;
  (* the processing tables of the same transaction, and the payload of a Source
     that records an outcome under a fresh name *)
  processing : ext → pdb;
  set_processing : pdb → ext → ext;
  outcome_payload : restoration_outcome → source_target → ext → text * ext
}.

(** What the service relies on: a draft is of the Family and carries the lineage
    it was asked for; no call of the environment raises the model's own
    [OutOfFuel], which is no exception of the program. *)
Class EnvironmentLaws (E : Environment) := {
  make_draft_family : ∀ c l inputs historical d,
    make_draft c l inputs historical = Ok d → draft_family d = merge_family;
  make_draft_sources : ∀ c l inputs historical d,
    make_draft c l inputs historical = Ok d → draft_sources d = lineage_sources l;
  make_draft_artifacts : ∀ c l inputs historical d,
    make_draft c l inputs historical = Ok d → draft_artifacts d = lineage_artifacts l;
  make_draft_fuel : ∀ c l inputs historical, make_draft c l inputs historical ≠ Err OutOfFuel;
  authorize_fuel : ∀ scope_id c a r s x, authorize scope_id c a r s x ≠ Err OutOfFuel;
  token_fuel : ∀ token scope_id subject op i n x,
    token_endpoint token scope_id subject op i n x ≠ Err OutOfFuel
}.

(** A transaction over the Artifact tables and the environment. *)
Notation MX E := (M (adb * @ext E)).

Definition on_tables {X A} (m : M adb A) : M (adb * X) A := λ s,
  match m s.1 with Ok (a, t) => Ok (a, (t, s.2)) | Err e => Err e end.
Definition on_ext {X} (f : adb → X → result X) : M (adb * X) unit := λ s,
  match f s.1 s.2 with Ok x => Ok (tt, (s.1, x)) | Err e => Err e end.

Lemma on_tables_ok {X A} (m : M adb A) (s : adb * X) a s' :
  on_tables m s = Ok (a, s') ↔ m s.1 = Ok (a, s'.1) ∧ s'.2 = s.2.
Proof.
  unfold on_tables. destruct (m s.1) as [[b t]|e]; [|by split; [|intros []]].
  destruct s' as [t' x']. simpl. split; [by intros [= -> -> ->]|by intros [[= -> ->] ->]].
Qed.

Lemma on_ext_ok {X} (f : adb → X → result X) s u s' :
  on_ext f s = Ok (u, s') → s'.1 = s.1.
Proof. unfold on_ext. by destruct (f s.1 s.2); intros [= _ <-]. Qed.

Lemma fueledM_on_tables {X A} (m : M adb A) : fueledM m → fueledM (on_tables (X := X) m).
Proof.
  intros Hm [t x]. unfold on_tables. simpl. specialize (Hm t). destruct (m t) as [[a t']|e]; [done|].
  intros [= ->]. by apply Hm.
Qed.

Lemma fueledM_on_ext {X} (f : adb → X → result X) : (∀ t x, fueled (f t x)) → fueledM (on_ext f).
Proof.
  intros Hf [t x]. unfold on_ext. simpl. specialize (Hf t x). destruct (f t x); [done|].
  intros [= ->]. by apply Hf.
Qed.
#[export] Hint Resolve fueledM_on_tables fueledM_on_ext : fuel.
End MergePlans.
