(* ===== verification/Restoration.v ===== *)
(** * Restoration of a merge group

    [calculate_restoration] of [builtin/artifacts/merge_restoration.py]: follow
    the merge path of an Artifact to its endpoint, then undo the results of the
    path from the endpoint inward, and plan the group's final states. *)

From S2P Require Import Prelude Tables Catalog Governance Artifacts MergePlans.
Local Open Scope Z_scope.

Module Restoration.
Import Governance MergePlans.

Definition retired (c : record) : Prop := g_state (rec_state c) = RETIRED.
#[export] Instance retired_dec c : Decision (retired c).
Proof. unfold retired. apply _. Defined.

(** At least two distinct inputs of the Family, none of them the result. *)
Definition marked_inputs_ok (family result_id : text) (refs : list art_ref) : Prop :=
  (2 ≤ length refs)%nat ∧ NoDup (ref_id <$> refs) ∧
  Forall (λ r, ref_family r = family ∧ ref_id r ≠ result_id) refs.
#[export] Instance marked_inputs_ok_dec f i refs : Decision (marked_inputs_ok f i refs).
Proof. unfold marked_inputs_ok. apply _. Defined.

(** A record of the group merged into [result_id] that the result does not mark. *)
Definition unmarked (result_id : text) (refs : list art_ref) (records : gmap text record) : Prop :=
  ¬ map_Forall (λ i c, ¬ (g_merged_into (rec_state c) = Some result_id ∧ i ∉ ref_id <$> refs)) records.
#[export] Instance unmarked_dec i refs records : Decision (unmarked i refs records).
Proof. unfold unmarked. apply _. Defined.

(** An input still frozen into [result_id] at its marked version. *)
Definition frozen_as (result_id : text) (r : art_ref) (c : record) : Prop :=
  g_state (rec_state c) = DEPRECATED ∧ g_merged_into (rec_state c) = Some result_id ∧ rec_ref c = r.
#[export] Instance frozen_as_dec i r c : Decision (frozen_as i r c).
Proof. unfold frozen_as. apply _. Defined.

(** [sorted(final.items())]: the keys are distinct. *)
Definition sorted_items {A} (m : gmap text A) : list (text * A) :=
  omap (λ k, (λ v, (k, v)) <$> m !! k) (sorted_text (map_to_list m).*1).

Lemma sorted_items_elem {A} (m : gmap text A) k v : (k, v) ∈ sorted_items m ↔ m !! k = Some v.
Proof.
  unfold sorted_items. rewrite list_elem_of_omap. split.
  - intros (k' & _ & H). by destruct (m !! k') eqn:E; simplify_eq/=.
  - intros Hk. exists k. rewrite Hk. split; [|done]. apply sorted_text_elem, list_elem_of_fmap.
    exists (k, v). split; [done|]. by apply elem_of_map_to_list.
Qed.

Lemma sorted_items_keys {A} (m : gmap text A) : (sorted_items m).*1 = sorted_text (map_to_list m).*1.
Proof.
  unfold sorted_items. rewrite fmap_omap.
  assert (H : ∀ k, k ∈ sorted_text (map_to_list m).*1 → is_Some (m !! k)).
  { intros k Hk%(proj1 (sorted_text_elem _ _)). apply list_elem_of_fmap in Hk as ([j v] & -> & Hv%elem_of_map_to_list).
    by exists v. }
  induction (sorted_text _) as [|k l IH]; [done|]. csimpl.
  destruct (H k) as [v ->]; [left|]. csimpl. f_equal. apply IH. intros k' Hk'. apply H. by right.
Qed.

Lemma sorted_items_sorted {A} (m : gmap text A) :
  NoDup (sorted_items m).*1 ∧ StronglySorted text_le (sorted_items m).*1.
Proof.
  rewrite sorted_items_keys. split; [|apply sorted_text_sorted]. apply sorted_text_NoDup, NoDup_fst_map_to_list.
Qed.

Section restoration.
Context `{Environment}.
Context (load_current : text → MX _ record) (load_inputs : text → MX _ (list art_ref)).

(** The [while] loop over [merged_into_id]. *)
Fixpoint walk (fuel : nat) (records : gmap text record) (result_ids : list text) (cursor : record)
    : MX _ (gmap text record * list text * record) :=
  match g_merged_into (rec_state cursor) with
  | None => mret (records, result_ids, cursor)
  | Some next_id =>
      match fuel with
      | O => lift (Err OutOfFuel)
      | S fuel' =>
          lift (raise_if (is_Some (records !! next_id))
                  (ArtifactMergeRelationError "the current merge path is missing or cyclic")) ;;
          cursor ← load_current next_id;
          lift (raise_if (retired cursor)
                  (ArtifactMergeRelationError "a live merge path cannot end in a retired result")) ;;
          walk fuel' (<[next_id := cursor]> records) (result_ids ++ [next_id]) cursor
      end
  end.

(** The loop over the marked inputs of one result. *)
Fixpoint expand_inputs (result_id : text) (refs : list art_ref) (records : gmap text record)
    (final : gmap text lifecycle) : MX _ (gmap text record * gmap text lifecycle) :=
  match refs with
  | [] => mret (records, final)
  | r :: refs' =>
      found ← match records !! ref_id r with
              | Some c => mret (c, records)
              | None => c ← load_current (ref_id r); mret (c, <[ref_id r := c]> records)
              end;
      lift (raise_if (¬ frozen_as result_id r found.1)
              (ArtifactMergeRelationError "merge inputs do not match their current destination and frozen version")) ;;
      expand_inputs result_id refs' found.2 (<[ref_id r := ACTIVE]> final)
  end.

(** [_expand_undo]. *)
Fixpoint expand_undo (family : text) (undo_ids : list text) (records : gmap text record)
    (final : gmap text lifecycle) : MX _ (gmap text record * gmap text lifecycle) :=
  match undo_ids with
  | [] => mret (records, final)
  | result_id :: undo_ids' =>
      refs ← load_inputs result_id;
      lift (raise_if (¬ marked_inputs_ok family result_id refs)
              (ArtifactMergeRelationError "the result has no valid marked merge inputs")) ;;
      lift (raise_if (unmarked result_id refs records)
              (ArtifactMergeRelationError "the merge path input is absent from the result marked inputs")) ;;
      next ← expand_inputs result_id refs records (<[result_id := RETIRED]> final);
      expand_undo family undo_ids' next.1 next.2
  end.

(** The content an identity is restored from: the selected revision of the target. *)
Definition source_of (target_id : text) (selected : option artifact) (artifact_id : text) (current : record)
    : artifact :=
  match selected with
  | Some a => if decide (artifact_id = target_id) then a else rec_artifact current
  | None => rec_artifact current
  end.

Definition write_changes (target_id : text) (selected : option artifact) (artifact_id : text)
    (state : lifecycle) (current : record) : Prop :=
  state ≠ g_state (rec_state current) ∨ g_merged_into (rec_state current) ≠ None ∨
  g_replacement (rec_state current) ≠ None ∨ (artifact_id = target_id ∧ selected ≠ None).
#[export] Instance write_changes_dec t o i st c : Decision (write_changes t o i st c).
Proof. unfold write_changes. apply _. Defined.

(** One identity of [_restoration_writes]. *)
Definition restoration_write (records : gmap text record) (target_id : text) (selected : option artifact)
    (artifact_id : text) (state : lifecycle) : result (option write * option restore_item) :=
  match records !! artifact_id with
  | None => Err (RuntimeError "KeyError")
  | Some current =>
      let source := source_of target_id selected artifact_id current in
      d ← if decide (write_changes target_id selected artifact_id state current) then
            d ← make_draft (art_content source)
                  (mkLineage [] (nub [rec_ref current; art_self source]) None) [] true;
            Ok (Some d)
          else Ok None;
      Ok (match d with
          | Some d => Some (mkWrite artifact_id state (Some d) None (Some current) [] None)
          | None => None
          end,
          if decide (state = ACTIVE) then
            Some (mkRestoreItem artifact_id (ref_revision (art_self source)) (bool_decide (d ≠ None)))
          else None)
  end.

Definition restoration_writes (final : gmap text lifecycle) (records : gmap text record)
    (target_id : text) (selected : option artifact) : result (list write * list restore_item) :=
  out ← map_result (λ i : text * lifecycle, restoration_write records target_id selected i.1 i.2) (sorted_items final);
  Ok (omap (M := list) (λ o : option write * option restore_item, o.1) out,
      omap (M := list) (λ o : option write * option restore_item, o.2) out).

(** [calculate_restoration].  Every step of the path meets another head, so as
    many steps as there are heads are enough. *)
Definition calculate_restoration (scope_id subject : text) (target : record) (op : operation)
    (selected : option artifact) : MX _ plan :=
  lift (raise_if (retired target)
          (InvalidArtifactMergeStateError "retired Artifact identities cannot be restored")) ;;
  lift (raise_if (op = UNDO_MERGE ∧ selected ≠ None)
          (InvalidArtifactMergeStateError "undo_merge does not accept a content revision")) ;;
  let target_id := ref_id (rec_ref target) in
  fuel ← gets (λ s : adb * ext, size (a_heads s.1));
  path ← walk fuel {[ target_id := target ]} [] target;
  let undo_ids := reverse path.1.2 ++ (if decide (op = UNDO_MERGE) then [target_id] else []) in
  group ← expand_undo (ref_family (rec_ref target)) undo_ids path.1.1 ∅;
  let records := group.1 in
  let final := if decide (op = RESTORE) then <[target_id := ACTIVE]> group.2 else group.2 in
  out ← lift (restoration_writes final records target_id selected);
  mret (mkPlan scope_id subject ((λ i : text * record, as_read i.2) <$> sorted_items records)
          out.1 target_id op (Some (as_read path.2))
          ((λ a, ref_revision (art_self a)) <$> selected) undo_ids out.2 None).
End restoration.

(** ** Specification

    What a plan is about: the merge path of the target and the marked inputs of
    the results it undoes, read off the Artifact tables. *)

Section specification.
Context (scope_id family : text) (t : adb).

Definition head_at (i : text) : option head := a_heads t !! (scope_id, family, i).

(** [c] is the current record of the identity [i]. *)
Definition current (i : text) (c : record) : Prop :=
  ∃ h, head_at i = Some h ∧ rec_state c = governance_of (scope_id, family, i) h ∧
    Artifacts.stored t (scope_id, family, i, head_revision h) (rec_artifact c).

(** [merged_into_id] leads from [i] through [path] to the endpoint [e]. *)
Inductive merge_path : text → list text → text → Prop :=
  | path_end i h : head_at i = Some h → head_merged_into h = None → merge_path i [] i
  | path_step i h n path e : head_at i = Some h → head_merged_into h = Some n →
      merge_path n path e → merge_path i (n :: path) e.

(** The marked inputs of a result, and that they are all still frozen into it. *)
Definition marked (i : text) : list art_ref :=
  (filter (λ x : art_ref * bool, x.2 = true) (Artifacts.artifact_refs_of (scope_id, family, i, 1) t)).*1.
Definition whole (result_id : text) : Prop :=
  marked_inputs_ok family result_id (marked result_id) ∧
  Forall (λ r, ∃ h, head_at (ref_id r) = Some h ∧ head_state h = DEPRECATED ∧
                    head_merged_into h = Some result_id ∧ head_revision h = ref_revision r) (marked result_id).

(** The final state of an identity of the group. *)
Definition input_of (undone : list text) (i : text) : Prop :=
  Exists (λ r, i ∈ ref_id <$> marked r) undone.
#[export] Instance input_of_dec undone i : Decision (input_of undone i).
Proof. unfold input_of. apply _. Defined.
Definition destined (target_id : text) (op : operation) (undone : list text) (i : text) (st : lifecycle) : Prop :=
  match st with
  | RETIRED => i ∈ undone
  | ACTIVE => i ∉ undone ∧ ((op = RESTORE ∧ i = target_id) ∨ input_of undone i)
  | DEPRECATED => False
  end.

(** A write copies the restored content onto a new revision of the identity and
    cites its current version and, when another one is restored, that one. *)
Definition copies `{Environment} (target_id : text) (selected : option artifact) (w : write) : Prop :=
  ∃ c d, let source := source_of target_id selected (w_id w) c in
    current (w_id w) c ∧ w = mkWrite (w_id w) (w_state w) (Some d) None (Some c) [] None ∧
    make_draft (art_content source) (mkLineage [] (nub [rec_ref c; art_self source]) None) [] true = Ok d.

(** What a restoration plan is. *)
Record restores `{Environment} (target_id : text) (op : operation) (selected : option artifact) (p : plan)
    : Prop := {
  restores_path : ∃ path e c, merge_path target_id path e ∧ current e c ∧
    plan_undone p = reverse path ++ (if decide (op = UNDO_MERGE) then [target_id] else []) ∧
    plan_endpoint p = Some (as_read c);
  restores_undone : NoDup (plan_undone p) ∧ Forall whole (plan_undone p);
  restores_live i : i = target_id ∨ i ∈ plan_undone p ∨ input_of (plan_undone p) i →
    ∃ c, current i c ∧ ¬ retired c;
  restores_writes i st : (∃ w, w ∈ plan_writes p ∧ w_id w = i ∧ w_state w = st) ↔
    destined target_id op (plan_undone p) i st ∧ ∃ c, current i c ∧ write_changes target_id selected i st c;
  restores_changes i st c : destined target_id op (plan_undone p) i st → i ≠ target_id ∨ st = RETIRED →
    current i c → write_changes target_id selected i st c;
  restores_copies : Forall (copies target_id selected) (plan_writes p);
  restores_once : NoDup (w_id <$> plan_writes p) ∧ StronglySorted text_le (w_id <$> plan_writes p);
  restores_reads x : x ∈ plan_reads p ↔
    ∃ i c, (i = target_id ∨ i ∈ plan_undone p ∨ input_of (plan_undone p) i) ∧ current i c ∧ x = as_read c;
  restores_items i : i ∈ item_id <$> plan_restore p ↔ destined target_id op (plan_undone p) i ACTIVE
}.
End specification.

(** What the loaders of [inspect_restore] promise. *)
Class GroupReads (E : Environment) (scope_id family : text) (load_current : text → MX E record)
    (load_inputs : text → MX E (list art_ref)) := {
  load_current_ok : ∀ i s c s',
    load_current i s = Ok (c, s') → s'.1 = s.1 ∧ current scope_id family s.1 i c;
  load_inputs_ok : ∀ i s refs s',
    load_inputs i s = Ok (refs, s') → s'.1 = s.1 ∧ refs = marked scope_id family s.1 i;
  load_current_fuel : ∀ i s, load_current i s ≠ Err OutOfFuel;
  load_inputs_fuel : ∀ i s, load_inputs i s ≠ Err OutOfFuel
}.

(** ** The plan meets its specification *)

Section facts.
Context (scope_id family : text).
Notation current := (current scope_id family).
Notation merge_path := (merge_path scope_id family).

Lemma current_head t i c h :
  current t i c → head_at scope_id family t i = Some h → rec_state c = governance_of (scope_id, family, i) h.
Proof. by intros (h' & -> & ? & _) [= <-]. Qed.

Lemma current_ref t i c : current t i c → rec_ref c = g_artifact (rec_state c) ∧ ref_id (rec_ref c) = i ∧
  ref_family (rec_ref c) = family.
Proof. intros (h & _ & E & Hs & _). unfold rec_ref. by rewrite E, Hs. Qed.

Lemma current_fun t i c c' : current t i c → current t i c' → rec_state c = rec_state c' ∧ rec_ref c = rec_ref c'.
Proof.
  intros Hc Hc'. assert (E : rec_state c = rec_state c').
  { destruct Hc as (h & Hh & -> & _). symmetry. by apply (current_head t). }
  split; [done|]. destruct (current_ref _ _ _ Hc) as [-> _], (current_ref _ _ _ Hc') as [-> _]. by rewrite E.
Qed.

Lemma current_as_read t i c c' : current t i c → current t i c' → as_read c = as_read c'.
Proof. intros Hc Hc'. destruct (current_fun _ _ _ _ Hc Hc') as [E1 E2]. unfold as_read. by rewrite E1, E2. Qed.

(** Every record held is the current one of its identity. *)
Definition coherent (t : adb) (records : gmap text record) : Prop := map_Forall (current t) records.

Lemma coherent_insert t i c records : coherent t records → current t i c → coherent t (<[i := c]> records).
Proof. intros. by apply map_Forall_insert_2. Qed.

Context (E : Environment) (load_current : text → MX E record) (load_inputs : text → MX E (list art_ref)).
Context `{!GroupReads E scope_id family load_current load_inputs}.

(** The walk follows the merge path; its identities are all new and live. *)
Lemma walk_ok fuel records ids i cursor s records' ids' e s' :
  walk load_current fuel records ids cursor s = Ok ((records', ids', e), s') →
  current s.1 i cursor → coherent s.1 records →
  ∃ path e_id, s'.1 = s.1 ∧ ids' = ids ++ path ∧ merge_path s.1 i path e_id ∧ current s.1 e_id e ∧
    coherent s.1 records' ∧ dom records' = dom records ∪ list_to_set path ∧
    NoDup path ∧ (∀ j, j ∈ path → j ∉ dom records) ∧
    (∀ j c, j ∈ path → current s.1 j c → ¬ retired c).
Proof.
  revert records ids i cursor s. induction fuel as [|fuel IH]; intros records ids i cursor s H Hi Hr;
    simpl in H; pose proof Hi as (h & Hh & E1 & _);
    destruct (g_merged_into (rec_state cursor)) as [n|] eqn:Hm; rewrite E1 in Hm; simpl in Hm; try done.
  1, 3: run; exists [], i; rewrite app_nil_r; split_and!; try done;
    [by eapply path_end|set_solver|constructor|set_solver|set_solver].
  apply M_bind_ok in H as ([] & ? & [Hnew%raise_if_ok ->]%lift_ok & H).
  apply M_bind_ok in H as (c & s1 & [Es Hc]%load_current_ok & H).
  apply M_bind_ok in H as ([] & ? & [Hret%raise_if_ok ->]%lift_ok & H).
  rewrite <- Es in Hc, Hr. apply (IH _ _ n) in H as (path & e_id & Es' & -> & Hp & He & Hc' & Hd & Hnd & Hin & Hlive);
    [|done|by apply coherent_insert].
  rewrite Es in *. rewrite <- eq_None_not_Some, <- not_elem_of_dom in Hnew.
  exists (n :: path), e_id. split_and!; try done.
  - by rewrite <- app_assoc.
  - by eapply path_step.
  - rewrite Hd, dom_insert_L. set_solver.
  - constructor; [|done]. intros Hn%Hin. rewrite dom_insert_L in Hn. set_solver.
  - intros j [->|Hj]%elem_of_cons; [done|]. specialize (Hin _ Hj). rewrite dom_insert_L in Hin. set_solver.
  - intros j c' [->|Hj]%elem_of_cons Hcur; [|by eapply Hlive].
    destruct (current_fun _ _ _ _ Hcur Hc) as [E2 _]. unfold retired in *. by rewrite E2.
Qed.

Lemma coherent_size t records : coherent t records → (size records ≤ size (a_heads t))%nat.
Proof.
  intros Hr. set (keys := (λ i : text, (scope_id, family, i)) <$> (map_to_list records).*1).
  assert (Hnd : NoDup keys).
  { apply (NoDup_fmap_2 _), NoDup_fst_map_to_list. }
  replace (size records) with (length keys)
    by by unfold keys; rewrite !length_fmap, length_map_to_list.
  rewrite <- (size_list_to_set (C := gset head_key) keys Hnd), <- (size_dom (D := gset head_key)).
  apply subseteq_size. intros k Hk%elem_of_list_to_set.
  apply list_elem_of_fmap in Hk as (i & -> & Hi).
  apply list_elem_of_fmap in Hi as ([j c] & -> & Hc%elem_of_map_to_list).
  destruct (Hr _ _ Hc) as (h & Hh & _). apply elem_of_dom. by exists h.
Qed.

(** As many steps as there are heads are enough. *)
Lemma walk_fuel fuel records ids i cursor s :
  current s.1 i cursor → coherent s.1 records → (size (a_heads s.1) < fuel + size records)%nat →
  walk load_current fuel records ids cursor s ≠ Err OutOfFuel.
Proof.
  revert records ids i cursor s. induction fuel as [|fuel IH]; intros records ids i cursor s Hi Hr Hf; simpl;
    destruct (g_merged_into (rec_state cursor)) as [n|] eqn:Hm; try done.
  { apply coherent_size in Hr. lia. }
  unfold mbind, M_bind, lift, raise_if. case_decide as Hn; [done|].
  destruct (load_current n s) as [[c s1]|e] eqn:Hl; [|intros [= ->]; by eapply load_current_fuel].
  case_decide; [done|]. apply load_current_ok in Hl as [Es Hc].
  rewrite <- eq_None_not_Some in Hn. rewrite <- Es in *. apply (IH _ _ n); [done|by apply coherent_insert|].
  rewrite map_size_insert_None by done. lia.
Qed.

Notation marked := (marked scope_id family).
Notation whole := (whole scope_id family).
Notation input_of := (input_of scope_id family).

(** The heads of the marked inputs a result is checked against. *)
Definition frozen_head (t : adb) (result_id : text) (r : art_ref) : Prop :=
  ∃ h, head_at scope_id family t (ref_id r) = Some h ∧ head_state h = DEPRECATED ∧
       head_merged_into h = Some result_id ∧ head_revision h = ref_revision r.

Lemma frozen_as_head t result_id r i c : current t i c → frozen_as result_id r c → frozen_head t result_id r.
Proof.
  intros Hc (E1 & E2 & Er). pose proof (current_ref _ _ _ Hc) as (Eg & Ei & _). destruct Hc as (h & Hh & Es & _).
  exists h. rewrite <- Er, Ei, Eg, Es in *. by simpl in *.
Qed.

Lemma expand_inputs_ok result_id refs records final s records' final' s' :
  expand_inputs load_current result_id refs records final s = Ok ((records', final'), s') →
  coherent s.1 records →
  s'.1 = s.1 ∧ coherent s.1 records' ∧ dom records' = dom records ∪ list_to_set (ref_id <$> refs) ∧
  Forall (frozen_head s.1 result_id) refs ∧
  (∀ i, final' !! i = if decide (i ∈ ref_id <$> refs) then Some ACTIVE else final !! i).
Proof.
  revert records final s. induction refs as [|r refs IH]; intros records final s H Hr; simpl in H.
  - run. split_and!; try done. set_solver.
  - apply M_bind_ok in H as ([c rec1] & s1 & Hf & H). apply M_bind_ok in H as ([] & ? & [Hz ->]%lift_ok & H).
    apply raise_if_ok, dec_stable in Hz. simpl in Hz, H.
    assert (s1.1 = s.1 ∧ current s.1 (ref_id r) c ∧ coherent s.1 rec1 ∧ dom rec1 = dom records ∪ {[ref_id r]})
      as (Es & Hc & Hr1 & Hd1).
    { destruct (records !! ref_id r) as [c0|] eqn:Hc0.
      - run. split_and!; try done; [by apply Hr|]. apply elem_of_dom_2 in Hc0. set_solver.
      - apply M_bind_ok in Hf as (c0 & s2 & [Es Hc]%load_current_ok & Hf). run.
        split_and!; try done; [by apply coherent_insert|rewrite dom_insert_L; set_solver]. }
    apply IH in H as (Es' & Hr' & Hd' & Hfz & Hfin); [|by rewrite Es]. rewrite Es in *.
    split_and!; try done.
    + rewrite Hd', Hd1. set_solver.
    + constructor; [by eapply frozen_as_head|done].
    + intros i. rewrite Hfin, lookup_insert. repeat case_decide; set_solver.
Qed.

(** An undone result is not a marked input of a result undone after it. *)
Definition inward (t : adb) (undone : list text) : Prop :=
  StronglySorted (λ e r, ∀ h, head_at scope_id family t e = Some h → head_merged_into h ≠ Some r) undone.

Lemma expand_undo_ok undone records final s records' final' s' :
  expand_undo load_current load_inputs family undone records final s = Ok ((records', final'), s') →
  coherent s.1 records → NoDup undone → inward s.1 undone →
  s'.1 = s.1 ∧ coherent s.1 records' ∧ Forall (whole s.1) undone ∧
  (∀ i, i ∈ dom records' ↔ i ∈ dom records ∨ input_of s.1 undone i) ∧
  (∀ i, i ∈ undone → final' !! i = Some RETIRED) ∧
  (∀ i, i ∉ undone → input_of s.1 undone i → final' !! i = Some ACTIVE) ∧
  (∀ i, i ∉ undone → ¬ input_of s.1 undone i → final' !! i = final !! i).
Proof.
  revert records final s. induction undone as [|r undone IH]; intros records final s H Hr Hnd Hin; simpl in H.
  - run. split_and!; try done; intros i; unfold Restoration.input_of; rewrite ?Exists_nil; first [tauto|set_solver].
  - apply M_bind_ok in H as (refs & s1 & [Es ->]%load_inputs_ok & H).
    apply M_bind_ok in H as ([] & ? & [Hok%raise_if_ok%dec_stable ->]%lift_ok & H).
    apply M_bind_ok in H as ([] & ? & [_ ->]%lift_ok & H).
    apply M_bind_ok in H as ([rec1 fin1] & s2 & Hi & H). rewrite <- Es in Hr.
    apply expand_inputs_ok in Hi as (Es1 & Hr1 & Hd1 & Hfz & Hfin1); [|done]. rewrite Es in *.
    apply NoDup_cons in Hnd as [Hrn Hnd]. apply StronglySorted_inv in Hin as [Hin Hrin].
    apply IH in H as (Es' & Hr' & Hw & Hd' & Hret & Hact & Hother); [|by rewrite ?Es1, ?Es..].
    rewrite Es1 in *.
    assert (Hin1 : ∀ i, input_of s.1 (r :: undone) i ↔ i ∈ ref_id <$> marked s.1 r ∨ input_of s.1 undone i).
    { intros i. apply Exists_cons. }
    assert (Hrnot : ¬ input_of s.1 undone r).
    { intros (r' & Hr'u & (x & Ex & Hx)%list_elem_of_fmap)%Exists_exists. rewrite Forall_forall in Hw, Hrin.
      destruct (Hw _ Hr'u) as [_ Hz]. rewrite Forall_forall in Hz. destruct (Hz _ Hx) as (h & Hh & _ & Hm & _).
      rewrite <- Ex in Hh. by apply (Hrin r' Hr'u h). }
    assert (Hrm : r ∉ ref_id <$> marked s.1 r).
    { destruct Hok as (_ & _ & Hok). rewrite Forall_forall in Hok.
      intros (x & Ex & Hx)%list_elem_of_fmap. by destruct (Hok _ Hx). }
    split_and!; try done.
    + constructor; [|done]. by split.
    + intros i. rewrite Hd', Hin1. simpl. rewrite Hd1. set_solver.
    + intros i [->|Hiu]%elem_of_cons; [|by apply Hret].
      rewrite Hother by done. simpl. rewrite Hfin1, decide_False, lookup_insert, decide_True; done.
    + intros i [Hir Hiu]%not_elem_of_cons Hii.
      destruct (decide (input_of s.1 undone i)) as [Hiu'|Hiu']; [by apply Hact|].
      rewrite Hother by done. apply Hin1 in Hii as [Hii|?]; [|done]. simpl. rewrite Hfin1, decide_True; done.
    + intros i [Hir Hiu]%not_elem_of_cons Hii. rewrite Hin1 in Hii.
      rewrite Hother by tauto. simpl. rewrite Hfin1, decide_False, lookup_insert_ne by (try tauto; done). done.
Qed.

Lemma expand_inputs_fuel result_id refs records final s :
  expand_inputs load_current result_id refs records final s ≠ Err OutOfFuel.
Proof.
  revert records final s. induction refs as [|r refs IH]; intros records final s; simpl; [done|].
  unfold mbind, M_bind, lift, raise_if. destruct (records !! ref_id r) as [c|]; simpl.
  - case_decide; [done|]. apply IH.
  - destruct (load_current (ref_id r) s) as [[c s1]|e] eqn:Hl; [|intros [= ->]; by eapply load_current_fuel].
    simpl. case_decide; [done|]. apply IH.
Qed.

Lemma expand_undo_fuel undone records final s :
  expand_undo load_current load_inputs family undone records final s ≠ Err OutOfFuel.
Proof.
  revert records final s. induction undone as [|r undone IH]; intros records final s; simpl; [done|].
  unfold mbind, M_bind, lift, raise_if.
  destruct (load_inputs r s) as [[refs s1]|e] eqn:Hl; [|intros [= ->]; by eapply load_inputs_fuel].
  case_decide; [done|]. case_decide; [done|].
  destruct (expand_inputs _ _ _ _ _ _) as [[[rec1 fin1] s2]|e] eqn:Hx; [|intros [= ->]; by eapply expand_inputs_fuel].
  apply IH.
Qed.

(** *** The order of the undone results *)

Lemma path_head t i path e j : merge_path t i path e → j ∈ i :: path → ∃ h, head_at scope_id family t j = Some h.
Proof. induction 1; intros [->|Hj]%elem_of_cons; eauto; by apply not_elem_of_nil in Hj. Qed.

Lemma path_merged t i path e j h m :
  merge_path t i path e → j ∈ i :: path → head_at scope_id family t j = Some h → head_merged_into h = Some m →
  m ∈ path.
Proof.
  induction 1 as [i h' Hh Hm|i h' n path e Hh Hm Hp IH]; intros Hj Hjh Hjm.
  - apply list_elem_of_singleton in Hj as ->. congruence.
  - apply elem_of_cons in Hj as [->|Hj]; [|by right; apply IH]. assert (m = n) as -> by congruence. left.
Qed.

Lemma path_inward t i path e : merge_path t i path e → NoDup (i :: path) → inward t (reverse (i :: path)).
Proof.
  induction 1 as [i h Hh Hm|i h n path e Hh Hm Hp IH]; intros [Hi Hnd]%NoDup_cons; unfold inward in *.
  - rewrite reverse_singleton. repeat constructor.
  - rewrite reverse_cons. apply StronglySorted_app_2; [|by apply IH|repeat constructor].
    intros x r Hx ->%list_elem_of_singleton h' Hh' Hm'. rewrite elem_of_reverse in Hx.
    eapply path_merged in Hm' as Hin; [|done..]. by apply Hi; right.
Qed.

(** *** The writes *)

Section writes.
Context (t : adb) (records : gmap text record) (final : gmap text lifecycle).
Context (target_id : text) (selected : option artifact) (Hrec : coherent t records).

Lemma restoration_write_ok i st w item :
  restoration_write records target_id selected i st = Ok (w, item) →
  ∃ c, records !! i = Some c ∧
    (is_Some w ↔ write_changes target_id selected i st c) ∧
    (∀ x, w = Some x → w_id x = i ∧ w_state x = st ∧ copies scope_id family t target_id selected x) ∧
    (is_Some item ↔ st = ACTIVE) ∧ (∀ x, item = Some x → item_id x = i).
Proof.
  unfold restoration_write. destruct (records !! i) as [c|] eqn:Hc; [|done].
  intros (d & Hd & [= <- <-])%result_bind_ok. exists c. split; [done|].
  assert (Hi : is_Some (if decide (st = ACTIVE) then
     Some (mkRestoreItem i (ref_revision (art_self (source_of target_id selected i c))) (bool_decide (d ≠ None)))
     else None) ↔ st = ACTIVE).
  { destruct (decide (st = ACTIVE)); split; intros Hs; first [done|by eexists|by destruct Hs]. }
  destruct (decide (write_changes target_id selected i st c)) as [Hch|Hch].
  - apply result_bind_ok in Hd as (d' & Hd & [= <-]).
    split; [by split; [|by eexists]|]. split; [|split; [done|intros x; destruct (decide (st = ACTIVE)); by intros [= <-]]].
    intros x [= <-]. split_and!; try done. exists c, d'. split_and!; try done. by apply Hrec.
  - injection Hd as <-. split; [by split; [intros []|]|].
    split; [done|split; [done|intros x; destruct (decide (st = ACTIVE)); by intros [= <-]]].
Qed.

Lemma restoration_writes_ok writes items :
  restoration_writes final records target_id selected = Ok (writes, items) →
  (∀ i st, (∃ w, w ∈ writes ∧ w_id w = i ∧ w_state w = st) ↔
     final !! i = Some st ∧ ∃ c, records !! i = Some c ∧ write_changes target_id selected i st c) ∧
  Forall (copies scope_id family t target_id selected) writes ∧
  NoDup (w_id <$> writes) ∧ StronglySorted text_le (w_id <$> writes) ∧
  (∀ i, i ∈ item_id <$> items ↔ final !! i = Some ACTIVE).
Proof.
  intros (out & Hout%map_result_ok & [= <- <-])%result_bind_ok.
  assert (Hw : ∀ x y z, restoration_write records target_id selected x.1 x.2 = Ok y → y.1 = Some z → w_id z = x.1).
  { intros x [w item] z (c & _ & _ & Hx & _)%restoration_write_ok Hz. by apply Hx. }
  pose proof (omap_sublist _ (λ o : option write * option restore_item, o.1) w_id fst _ _ Hout Hw) as Hsub.
  destruct (sorted_items_sorted final) as [Hnd Hs].
  assert (Hiff : ∀ i st, final !! i = Some st →
    ∃ o, o ∈ out ∧ restoration_write records target_id selected i st = Ok o).
  { intros i st Hi%sorted_items_elem. destruct (Forall2_elem_l _ _ _ _ Hout Hi) as (o & Ho & Eo). by exists o. }
  assert (Hinv : ∀ o, o ∈ out → ∃ i st, final !! i = Some st ∧
    restoration_write records target_id selected i st = Ok o).
  { intros o Ho. destruct (Forall2_elem_r _ _ _ _ Hout Ho) as ([i st] & Hi%sorted_items_elem & Eo). eauto. }
  split_and!.
  - intros i st. split.
    + intros (w & (o & Ho & Hw')%list_elem_of_omap & Ei & Est).
      destruct (Hinv _ Ho) as (j & st' & Hi & Eo). destruct o as [w' item]. simpl in Hw'. subst w'.
      apply restoration_write_ok in Eo as (c & Hc & Hch & Hx & _). destruct (Hx w eq_refl) as (E1 & E2 & _).
      rewrite <- Ei, <- Est, E1, E2.
      split; [done|]. exists c. split; [done|]. by apply Hch.
    + intros (Hi & c & Hc & Hch). destruct (Hiff _ _ Hi) as ([w item] & Ho & Eo).
      apply restoration_write_ok in Eo as (c' & Hc' & Hch' & Hx & _). simplify_eq.
      destruct (proj2 Hch' Hch) as [x Ew]. subst w. destruct (Hx x eq_refl) as (E1 & E2 & _). exists x.
      split; [|done]. apply list_elem_of_omap. by exists (Some x, item).
  - apply Forall_forall. intros w Hwin. apply list_elem_of_omap in Hwin as (o & Ho & Hw').
    destruct (Hinv _ Ho) as (i & st & _ & Eo). destruct o as [w' item]. simpl in Hw'. subst w'.
    apply restoration_write_ok in Eo as (c & _ & _ & Hx & _). by apply (Hx w eq_refl).
  - by eapply sublist_NoDup.
  - by eapply sublist_sorted.
  - intros i. split.
    + intros Hi'. apply list_elem_of_fmap in Hi' as (x & Ei & Hi').
      apply list_elem_of_omap in Hi' as (o & Ho & Hx).
      destruct (Hinv _ Ho) as (j & st & Hi & Eo). destruct o as [w' item]. simpl in Hx. subst item.
      apply restoration_write_ok in Eo as (c & _ & _ & _ & Hst & Hid). rewrite Ei, (Hid x eq_refl), Hi.
      f_equal. by apply Hst.
    + intros Hi. destruct (Hiff _ _ Hi) as ([w item] & Ho & Eo).
      apply restoration_write_ok in Eo as (c' & _ & _ & _ & Hst & Hid).
      destruct (proj2 Hst eq_refl) as [x ->]. apply list_elem_of_fmap. exists x.
      split; [by rewrite (Hid x eq_refl)|]. apply list_elem_of_omap. by exists (w, Some x).
Qed.
End writes.

(** *** The whole plan *)

Lemma write_changes_state t target_id selected i st c c' :
  current t i c → current t i c' → write_changes target_id selected i st c → write_changes target_id selected i st c'.
Proof. intros Hc Hc'. unfold write_changes. destruct (current_fun _ _ _ _ Hc Hc') as [-> _]. done. Qed.

(** What the final map assigns is what the group is destined to. *)
Lemma final_destined (t : adb) (target_id : text) (op : operation) (undone : list text)
    (final : gmap text lifecycle) (i : text) (st : lifecycle) :
  (op = RESTORE → target_id ∉ undone) →
  (∀ i, i ∈ undone → final !! i = Some RETIRED) →
  (∀ i, i ∉ undone → input_of t undone i → final !! i = Some ACTIVE) →
  (∀ i, i ∉ undone → ¬ input_of t undone i → final !! i = None) →
  (if decide (op = RESTORE) then <[target_id := ACTIVE]> final else final) !! i = Some st ↔
  destined scope_id family t target_id op undone i st.
Proof.
  intros Ht Hret Hact Hnone.
  assert (H0 : final !! i = Some st ↔ destined scope_id family t target_id CHANGE undone i st).
  { unfold destined. destruct (decide (i ∈ undone)) as [Hu|Hu].
    - rewrite (Hret i Hu). destruct st; naive_solver.
    - destruct (decide (input_of t undone i)) as [Hi|Hi].
      + rewrite (Hact i Hu Hi). destruct st; naive_solver.
      + rewrite (Hnone i Hu Hi). destruct st; naive_solver. }
  unfold destined in *. case_decide as Hop; [|rewrite H0; destruct st; naive_solver].
  rewrite lookup_insert. case_decide as Hi; [subst i|rewrite H0; destruct st; naive_solver].
  specialize (Ht Hop). destruct st; naive_solver.
Qed.

Lemma calculate_restoration_ok subject target op selected s p s' :
  calculate_restoration load_current load_inputs scope_id subject target op selected s = Ok (p, s') →
  current s.1 (ref_id (rec_ref target)) target → op = RESTORE ∨ op = UNDO_MERGE →
  s'.1 = s.1 ∧ plan_scope p = scope_id ∧ plan_subject p = subject ∧ plan_primary p = ref_id (rec_ref target) ∧
  plan_operation p = op ∧ plan_target_revision p = (λ a, ref_revision (art_self a)) <$> selected ∧
  plan_token p = None ∧ restores scope_id family s.1 (ref_id (rec_ref target)) op selected p.
Proof.
  intros H Hc Hop. unfold calculate_restoration in H. set (target_id := ref_id (rec_ref target)) in *.
  apply M_bind_ok in H as ([] & ? & [Hlive%raise_if_ok ->]%lift_ok & H).
  apply M_bind_ok in H as ([] & ? & [_ ->]%lift_ok & H).
  apply M_bind_ok in H as (fuel & ? & [-> ->]%gets_ok & H).
  apply M_bind_ok in H as ([[records1 path] e] & s1 & Hw & H). cbn [fst snd] in H.
  apply (walk_ok _ _ _ target_id) in Hw
    as (path' & e_id & Es & -> & Hp & He & Hr1 & Hd1 & Hnd & Hout & Hplive); [|done|by apply map_Forall_singleton].
  rewrite app_nil_l in *. set (undone := reverse path' ++ _) in *.
  rewrite dom_singleton_L in Hd1, Hout.
  assert (Hchain : NoDup (target_id :: path')) by (constructor; [intros Hin%Hout|]; set_solver).
  assert (Hund : ∀ i, i ∈ undone ↔ i ∈ path' ∨ (op = UNDO_MERGE ∧ i = target_id)).
  { intros i. unfold undone. rewrite elem_of_app, elem_of_reverse. pose proof (not_elem_of_nil i).
    destruct (decide (op = UNDO_MERGE)); rewrite ?list_elem_of_singleton; tauto. }
  assert (Hndu : NoDup undone ∧ inward s.1 undone).
  { pose proof (path_inward _ _ _ _ Hp Hchain) as Hi. assert (Hn : NoDup (reverse (target_id :: path'))) by by rewrite reverse_Permutation.
    rewrite reverse_cons in Hi, Hn. unfold undone. destruct (decide (op = UNDO_MERGE)); [done|]. rewrite app_nil_r.
    split; [by apply NoDup_app in Hn as [? _]|].
    unfold inward in *. by apply StronglySorted_app_1_l in Hi. }
  destruct Hndu as [Hndu Hinw].
  apply M_bind_ok in H as ([records final] & s2 & Hx & H). cbn [fst snd] in H.
  rewrite (proj2 (proj2 (current_ref _ _ _ Hc))) in Hx. rewrite <- Es in Hr1, Hinw.
  apply expand_undo_ok in Hx as (Es2 & Hr & Hwhole & Hd & Hret & Hact & Hnone); [|done..].
  rewrite Es in *. clear Es Hr1.
  apply M_bind_ok in H as ([ws items] & ? & [Hout' ->]%lift_ok & H). apply M_ret_ok in H as [-> ->].
  destruct (restoration_writes_ok _ _ _ _ _ Hr _ _ Hout') as (Hws & Hcopies & Hndw & Hsw & Hitems).
  assert (Hdest : ∀ i st, (if decide (op = RESTORE) then <[target_id := ACTIVE]> final else final) !! i = Some st ↔
    destined scope_id family s.1 target_id op undone i st).
  { intros i st. apply final_destined; try done.
    intros -> [Hin|[? _]]%Hund; [|done]. by apply NoDup_cons in Hchain as [? _]. }
  assert (Hdom : ∀ i, i ∈ dom records ↔ i = target_id ∨ i ∈ undone ∨ input_of s.1 undone i).
  { intros i. rewrite Hd, Hd1, Hund. rewrite elem_of_union, elem_of_singleton, elem_of_list_to_set. tauto. }
  assert (Hindom : ∀ i st, destined scope_id family s.1 target_id op undone i st → ∃ c, records !! i = Some c).
  { intros i st Hi. apply elem_of_dom, Hdom. unfold destined in Hi. destruct st; naive_solver. }
  assert (Hfrozen : ∀ i c, current s.1 i c → input_of s.1 undone i → g_state (rec_state c) = DEPRECATED).
  { intros i c Hic (r & Hru & Hin)%Exists_exists.
    rewrite Forall_forall in Hwhole. destruct (Hwhole _ Hru) as [_ Hz]. rewrite Forall_forall in Hz.
    apply list_elem_of_fmap in Hin as (x & -> & Hx). destruct (Hz _ Hx) as (h & Hh & Hst & _).
    by rewrite (current_head _ _ _ _ Hic Hh). }
  assert (Htarget : ∀ c, current s.1 target_id c → ¬ retired c).
  { intros c Hic. unfold retired in *. by destruct (current_fun _ _ _ _ Hc Hic) as [<- _]. }
  assert (Hundone : ∀ i c, current s.1 i c → i ∈ undone → ¬ retired c).
  { intros i c Hic [Hi|[_ ->]]%Hund; [by eapply Hplive|by apply Htarget]. }
  split_and!; try done. split; simpl.
  - exists path', e_id, e. done.
  - done.
  - intros i Hi. pose proof (proj2 (Hdom i) Hi) as [c Hic]%elem_of_dom. apply Hr in Hic. exists c. split; [done|].
    destruct Hi as [->|[Hi|Hi]]; [by apply Htarget|by eapply Hundone|]. unfold retired.
    by rewrite (Hfrozen _ _ Hic Hi).
  - intros i st. rewrite Hws, Hdest. split.
    + intros (Hi & c & Hic & Hch). split; [done|]. exists c. split; [by apply Hr|done].
    + intros (Hi & c & Hic & Hch). split; [done|]. destruct (Hindom _ _ Hi) as [c' Hc'].
      exists c'. split; [done|]. eapply write_changes_state; [|apply Hr|]; done.
  - intros i st c Hi Hne Hic. destruct st; [|done|].
    + destruct Hi as [_ [[? ?]|Hin]]; [naive_solver|]. left. by rewrite (Hfrozen _ _ Hic Hin).
    + left. intros Hst. by eapply Hundone.
  - done.
  - done.
  - intros x. rewrite list_elem_of_fmap. split.
    + intros ([i c] & -> & Hic%sorted_items_elem). exists i, c. split; [|split; [by apply Hr|done]].
      apply Hdom, elem_of_dom. by exists c.
    + intros (i & c & Hi & Hic & ->). apply Hdom, elem_of_dom in Hi as [c' Hc']. exists (i, c').
      split; [|by apply sorted_items_elem]. simpl. by apply (current_as_read s.1 i); [|apply Hr].
  - intros i. by rewrite Hitems, Hdest.
Qed.

Lemma restoration_write_fuel `{!EnvironmentLaws E} records target_id selected i st :
  restoration_write records target_id selected i st ≠ Err OutOfFuel.
Proof.
  unfold restoration_write. destruct (records !! i) as [c|]; [|done].
  intros [H|(d & _ & H)]%result_bind_err; [|done].
  destruct (decide (write_changes target_id selected i st c)); [|done].
  apply result_bind_err in H as [H|(d & _ & H)]; [|done]. by eapply make_draft_fuel.
Qed.

Lemma calculate_restoration_fuel `{!EnvironmentLaws E} subject target op selected s :
  current s.1 (ref_id (rec_ref target)) target →
  calculate_restoration load_current load_inputs scope_id subject target op selected s ≠ Err OutOfFuel.
Proof.
  intros Hc. unfold calculate_restoration. unfold mbind, M_bind, lift, raise_if, gets.
  case_decide; [done|]. case_decide; [done|].
  destruct (walk _ _ _ _ _ _) as [[[[records path] e] s1]|ex] eqn:Hw.
  2: { intros [= ->]. eapply walk_fuel; [done| |..|exact Hw]; [by apply map_Forall_singleton|].
       rewrite map_size_singleton. lia. }
  simpl. destruct (expand_undo _ _ _ _ _ _ _) as [[[records1 final] s2]|ex] eqn:Hx.
  2: { intros [= ->]. rewrite (proj2 (proj2 (current_ref _ _ _ Hc))) in Hx. by eapply expand_undo_fuel. }
  simpl. destruct (restoration_writes _ _ _ _) as [out|ex] eqn:Ho; [done|]. intros [= ->].
  unfold restoration_writes in Ho. apply result_bind_err in Ho as [Ho|(? & _ & ?)]; [|done].
  apply map_result_err in Ho as (x & _ & Hx'). by eapply restoration_write_fuel.
Qed.
End facts.
End Restoration.
