(* ===== verification/Merge.v ===== *)
(** * The Artifact merge service

    [ArtifactMergeService] of [builtin/artifacts/merge.py]: inspect a change, a
    merge, a deprecation or a restoration into a plan; prepare its projections
    without a transaction; validate and commit a window of plans. *)

From S2P Require Import Prelude Tables Cursors Journal Catalog Governance Artifacts MergePlans Restoration.
Local Open Scope Z_scope.

Module Merge.
Import Governance MergePlans.

Section service.
Context (repo : Artifacts.repository) `{CustomIndex} `{Journal.SourceRegistry} `{Environment}.

Definition may (scope_id : text) (ctx : context) (a : action) (r : art_ref) : MX _ unit :=
  on_ext (authorize scope_id ctx a (Some r)).

(** ** Reads *)

Definition get (scope_id artifact_id : text) (ctx : context) (revision : option Z) (for_update : bool)
    : MX _ record :=
  identity ← lift (new_ref merge_family artifact_id (default 1 revision));
  may scope_id ctx READ identity ;;
  stored ← on_tables (match revision with
                      | None => Artifacts.latest repo scope_id merge_family artifact_id for_update None
                      | Some _ => Artifacts.get repo scope_id identity for_update
                      end);
  state ← on_tables (Governance.get scope_id merge_family artifact_id);
  mret (mkRecord stored state).

(** [_unique_reads]: one read per identity of the Family, in identity order. *)
Fixpoint unique_from (reads : list merge_read) (unique : gmap text merge_read)
    : result (gmap text merge_read) :=
  match reads with
  | [] => Ok unique
  | r :: reads' =>
      raise_if (ref_family (read_ref r) ≠ merge_family)
        (ArtifactMergeRelationError "read dependencies must belong to the service Family") ;;
      raise_if (unique !! ref_id (read_ref r) ≠ None ∧ unique !! ref_id (read_ref r) ≠ Some r)
        (ArtifactMergeConflictError "a plan cannot mix versions of the same Artifact") ;;
      unique_from reads' (<[ref_id (read_ref r) := r]> unique)
  end.
Definition unique_reads (reads : list merge_read) : result (list merge_read) :=
  unique ← unique_from reads ∅;
  Ok ((λ i : text * merge_read, i.2) <$> Restoration.sorted_items unique).

(** The lifecycle rows of identities a window reads and does not write. *)
Definition read_head_states (scope_id : text) (ids : list text) (s : adb)
    : result (list (text * governance)) :=
  found ← map_result (λ batch : list text,
    map_result (λ ih : text * head,
      g ← decode_artifact_governance (scope_id, merge_family, ih.1) ih.2; Ok (ih.1, g))
      (omap (λ i, (λ h, (i, h)) <$> a_heads s !! (scope_id, merge_family, i)) (nub batch)))
    (batches SELECTION_BATCH_SIZE ids);
  Ok (concat found).

Definition read_of_state (g : governance) : merge_read :=
  mkMergeRead (g_artifact g) (g_state g) (g_generation g) (g_merged_into g) (g_replacement g).

Definition changed_error : exn :=
  ArtifactMergeConflictError "Artifact content, state or merge relation changed; prepare again".

(** The loop of [_check_dependencies]. *)
Fixpoint check_reads (scope_id : text) (ctx : context) (for_update : bool) (head_states : gmap text governance)
    (l : list merge_read) (records : gmap text record) : MX _ (gmap text record) :=
  match l with
  | [] => mret records
  | expected :: l' =>
      let i := ref_id (read_ref expected) in
      match head_states !! i with
      | Some state =>
          may scope_id ctx READ (read_ref expected) ;;
          may scope_id ctx WRITE (g_artifact state) ;;
          lift (raise_if (read_of_state state ≠ expected) changed_error) ;;
          check_reads scope_id ctx for_update head_states l' records
      | None =>
          current ← get scope_id i ctx None for_update;
          may scope_id ctx WRITE (rec_ref current) ;;
          lift (raise_if (as_read current ≠ expected) changed_error) ;;
          (if for_update then
             on_tables (require_summary scope_id merge_family i (rec_state current)) ;; mret tt
           else mret tt) ;;
          check_reads scope_id ctx for_update head_states l' (<[i := current]> records)
      end
  end.

Definition check_dependencies (scope_id : text) (reads_ : list merge_read) (ctx : context) (for_update : bool)
    (full_records : option (list text)) : MX _ (gmap text record) :=
  head_states ← on_tables (reads (λ s,
    match full_records with
    | None => Ok []
    | Some ids => read_head_states scope_id
                    (filter (λ i, i ∉ ids) ((λ r, ref_id (read_ref r)) <$> reads_)) s
    end));
  unique ← lift (unique_reads reads_);
  check_reads scope_id ctx for_update (list_to_map head_states) unique ∅.

(** [_validate_draft]: a Source the host created for this target is not the
    caller's evidence. *)
Definition validate_draft (scope_id : text) (target : art_ref) (d : draft) (ctx : context)
    (system_sources : list source_ref) (read_set : option Artifacts.source_read_set)
    : MX _ Artifacts.validated_sources :=
  on_ext (authorize_sources scope_id ctx (filter (λ r, r ∉ system_sources) (draft_sources d))) ;;
  validated ← on_tables (Artifacts.validated_for repo scope_id target (draft_sources d) read_set);
  for_each (may scope_id ctx READ) (draft_artifacts d) ;;
  on_tables (Artifacts.get_many repo scope_id (draft_artifacts d)) ;;
  mret validated.

(** [_expected]. *)
Definition require_expected (current : record) (revision : Z) (version : option Z) : result unit :=
  raise_if (ref_revision (rec_ref current) ≠ revision) (RevisionConflictError (ref_revision (rec_ref current))) ;;
  raise_if (version ≠ None ∧ version ≠ Some (g_generation (rec_state current)))
    (ArtifactMergeConflictError "the expected Artifact state version is stale").

Definition editable (g : governance) : Prop :=
  g_merged_into g = None ∧ (g_state g = ACTIVE ∨ g_state g = DEPRECATED).
#[export] Instance editable_dec g : Decision (editable g).
Proof. unfold editable. apply _. Defined.

(** ** Inspection *)

Definition unique_refs (refs : list art_ref) : list art_ref := nub refs.

Definition with_artifacts (d : draft) (refs : list art_ref) : draft :=
  mkDraft (draft_family d) (draft_content d) (draft_sources d) refs.
Definition with_sources (d : draft) (refs : list source_ref) : draft :=
  mkDraft (draft_family d) (draft_content d) refs (draft_artifacts d).

Definition empty_lineage : lineage := mkLineage [] [] None.

(** [_inspect_change]. *)
Definition inspect_change_with (scope_id artifact_id : text) (c : content) (ctx : context)
    (expected_revision expected_version : option Z) (l : option lineage) (reads_ : list merge_read)
    (read_set : option Artifacts.source_read_set) (create_authorized : bool) : MX _ plan :=
  d ← lift (make_draft c (default empty_lineage l) [] false);
  step ← match expected_revision with
         | None =>
             target ← lift (new_ref merge_family artifact_id 1);
             (if create_authorized then mret tt else may scope_id ctx CREATE target) ;;
             mret (None, target, ACTIVE, d)
         | Some revision =>
             current ← get scope_id artifact_id ctx None false;
             may scope_id ctx WRITE (rec_ref current) ;;
             lift (require_expected current revision expected_version) ;;
             lift (raise_if (¬ editable (rec_state current))
                     (InvalidArtifactMergeStateError "merged and retired Artifacts cannot be edited")) ;;
             target ← lift (new_ref merge_family artifact_id (ref_revision (rec_ref current) + 1));
             mret (Some current, target, g_state (rec_state current),
                   with_artifacts d (unique_refs (draft_artifacts d ++ [rec_ref current])))
         end;
  let '(current, target, state, d) := step in
  validate_draft scope_id target d ctx [] read_set ;;
  let dependencies := reads_ ++ match current with Some c => [as_read c] | None => [] end in
  check_dependencies scope_id dependencies ctx false None ;;
  unique ← lift (unique_reads dependencies);
  mret (mkPlan scope_id (subject ctx) unique
          [mkWrite artifact_id state (Some d) None current [] (c ← current; g_replacement (rec_state c))]
          artifact_id CHANGE None None [] [] None).

Definition inspect_change (scope_id artifact_id : text) (c : content) (ctx : context)
    (expected_revision expected_version : option Z) (l : option lineage) (reads_ : list merge_read)
    (read_set : option Artifacts.source_read_set) : MX _ plan :=
  inspect_change_with scope_id artifact_id c ctx expected_revision expected_version l reads_ read_set false.

Fixpoint inspect_each (scope_id : text) (items : list (text * content)) (ctx : context) : MX _ (list plan) :=
  match items with
  | [] => mret []
  | i :: items' =>
      p ← inspect_change_with scope_id i.1 i.2 ctx None None None [] None true;
      ps ← inspect_each scope_id items' ctx; mret (p :: ps)
  end.

Definition inspect_creates (scope_id : text) (items : list (text * content)) (ctx : context) : MX _ (list plan) :=
  if decide (items = []) then mret [] else
    refs ← lift (map_result (λ i : text * content, new_ref merge_family i.1 1) items);
    on_ext (authorize_creates scope_id ctx refs) ;;
    inspect_each scope_id items ctx.

(** [_require_merge_draft]. *)
Definition require_merge_draft (artifact_id : text) (d : draft) (inputs : list merge_read) : result unit :=
  let refs := read_ref <$> inputs in
  raise_if ((length refs < 2)%nat ∨ ¬ NoDup (ref_id <$> refs) ∨ artifact_id ∈ ref_id <$> refs)
    (ArtifactMergeRelationError "merge requires distinct inputs and a new result identity") ;;
  raise_if (draft_family d ≠ merge_family ∨ Exists (λ r, ref_family r ≠ merge_family) refs)
    (ArtifactMergeRelationError "merge inputs and result must have the same Family") ;;
  raise_if (Exists (λ r, count_occ art_ref_eq_dec (draft_artifacts d) r ≠ 1%nat) refs ∨
            ¬ Forall (λ r, r ∈ draft_artifacts d) refs ∨
            Exists (λ r, ref_family r = merge_family ∧ ref_id r ∈ ref_id <$> refs ∧ r ∉ refs) (draft_artifacts d))
    (ArtifactMergeRelationError "merge inputs require their supplied exact active versions in lineage").

(** The loop over the selected inputs of a merge. *)
Fixpoint current_inputs (scope_id : text) (ctx : context) (inputs : list merge_read) : MX _ (list record) :=
  match inputs with
  | [] => mret []
  | expected :: inputs' =>
      current ← get scope_id (ref_id (read_ref expected)) ctx None false;
      may scope_id ctx WRITE (rec_ref current) ;;
      lift (raise_if (as_read current ≠ expected)
              (ArtifactMergeConflictError "merge inputs changed before preparation")) ;;
      lift (raise_if (g_state (rec_state current) ≠ ACTIVE ∨ g_merged_into (rec_state current) ≠ None)
              (InvalidArtifactMergeStateError "only active Artifacts can be merge inputs")) ;;
      rest ← current_inputs scope_id ctx inputs';
      mret (current :: rest)
  end.

Definition freeze_input (artifact_id : text) (c : record) : write :=
  mkWrite (ref_id (rec_ref c)) DEPRECATED None (Some artifact_id) (Some c) [] None.

Definition inspect_merge (scope_id artifact_id : text) (selected : list merge_read) (c : content) (ctx : context)
    (l : option lineage) (reads_ : list merge_read) (read_set : option Artifacts.source_read_set) : MX _ plan :=
  let ids := (λ r, ref_id (read_ref r)) <$> selected in
  lift (raise_if ((length ids < 2)%nat ∨ ¬ NoDup ids ∨ artifact_id ∈ ids ∨
                  Exists (λ r, ref_family (read_ref r) ≠ merge_family) selected)
          (ArtifactMergeRelationError "merge needs at least two distinct inputs and a new result identity")) ;;
  target ← lift (new_ref merge_family artifact_id 1);
  may scope_id ctx CREATE target ;;
  inputs ← current_inputs scope_id ctx selected;
  d ← lift (make_draft c (default empty_lineage l) (read_ref <$> selected) false);
  let d := if decide (l = None) then with_artifacts d (read_ref <$> selected) else d in
  lift (require_merge_draft artifact_id d selected) ;;
  validate_draft scope_id target d ctx [] read_set ;;
  dependencies ← lift (unique_reads (reads_ ++ selected));
  check_dependencies scope_id dependencies ctx false None ;;
  mret (mkPlan scope_id (subject ctx) dependencies
          (mkWrite artifact_id ACTIVE (Some d) None None ids None :: (freeze_input artifact_id <$> inputs))
          artifact_id MERGE None None [] [] None).

Definition inspect_forget (scope_id artifact_id : text) (ctx : context) (expected_revision expected_version : Z)
    : MX _ plan :=
  current ← get scope_id artifact_id ctx None false;
  may scope_id ctx WRITE (rec_ref current) ;;
  lift (require_expected current expected_revision (Some expected_version)) ;;
  lift (raise_if (¬ editable (rec_state current))
          (InvalidArtifactMergeStateError "only active or deprecated Artifacts can be deprecated")) ;;
  mret (mkPlan scope_id (subject ctx) [as_read current]
          (if decide (g_state (rec_state current) = DEPRECATED) then []
           else [mkWrite artifact_id DEPRECATED None None (Some current) [] None])
          artifact_id FORGET None None [] [] None).

(** The two loaders of [inspect_restore]. *)
Definition load_current (scope_id : text) (ctx : context) (identity : text) : MX _ record :=
  c ← get scope_id identity ctx None false;
  may scope_id ctx WRITE (rec_ref c) ;;
  mret c.
Definition load_inputs (scope_id : text) (ctx : context) (identity : text) : MX _ (list art_ref) :=
  r ← lift (new_ref merge_family identity 1);
  may scope_id ctx READ r ;;
  on_tables (Artifacts.merge_inputs repo scope_id r).

Definition with_token (p : plan) (token : option text) : plan :=
  mkPlan (plan_scope p) (plan_subject p) (plan_reads p) (plan_writes p) (plan_primary p) (plan_operation p)
    (plan_endpoint p) (plan_target_revision p) (plan_undone p) (plan_restore p) token.

(** [_signer().validate]. *)
Definition validate_token (token scope_id subject_ : text) (op : operation) (artifact_id : text) (revision : option Z)
    : MX _ merge_read :=
  reads (λ s, token_endpoint token scope_id subject_ op artifact_id revision s.2).

Definition inspect_restore (scope_id artifact_id : text) (ctx : context) (op : operation) (revision : option Z)
    (token : option text) : MX _ plan :=
  lift (raise_if (op ≠ RESTORE ∧ op ≠ UNDO_MERGE)
          (InvalidArtifactMergeStateError "unknown restoration operation")) ;;
  lift (raise_if (op = UNDO_MERGE ∧ revision ≠ None)
          (InvalidArtifactMergeStateError "undo_merge does not accept a content revision")) ;;
  target ← get scope_id artifact_id ctx None false;
  endpoint ← match token with
             | None => mret None
             | Some t => e ← validate_token t scope_id (subject ctx) op artifact_id revision; mret (Some e)
             end;
  may scope_id ctx WRITE (rec_ref target) ;;
  selected ← match revision with
             | None => mret None
             | Some _ => r ← get scope_id artifact_id ctx revision false; mret (Some (rec_artifact r))
             end;
  p ← Restoration.calculate_restoration (load_current scope_id ctx) (load_inputs scope_id ctx)
        scope_id (subject ctx) target op selected;
  lift (raise_if (endpoint ≠ None ∧ plan_endpoint p ≠ endpoint)
          (ArtifactMergePreviewStaleError "the restoration preview endpoint changed")) ;;
  mret (with_token p token).

(** ** Preparation, without a transaction *)

Definition written_content (w : write) : option content :=
  match w_draft w with
  | Some d => Some (draft_content d)
  | None => (λ c, art_content (rec_artifact c)) <$> w_current w
  end.

Definition prepare_change (p : plan) : result (prepared projection) :=
  out ← map_result (λ w : write,
    match written_content w with
    | None => Err (ArtifactMergeRelationError "active publication has no content")
    | Some c => x ← prepare_content c; Ok (w_id w, x)
    end) (filter (λ w, w_state w = ACTIVE) (plan_writes p));
  Ok (mkPrepared p out).

(** A processing plan without writes still protects what it read. *)
Definition validate_read_set (scope_id : text) (reads_ : list merge_read) (ctx : context) : MX _ unit :=
  on_tables (Artifacts.lock_heads scope_id (read_ref <$> reads_)) ;;
  check_dependencies scope_id reads_ ctx true None ;;
  mret tt.

(** ** Validation of a window of plans *)

Definition restores (op : operation) : Prop := op = RESTORE ∨ op = UNDO_MERGE.
#[export] Instance restores_dec op : Decision (restores op).
Proof. unfold restores. apply _. Defined.

(** A write that freezes its identity into the new result. *)
Definition freezes_into (result_id : text) (m : option write) : Prop :=
  match m with
  | None => False
  | Some m => w_state m = DEPRECATED ∧ w_merged_into m = Some result_id
  end.
#[local] Instance freezes_into_dec i m : Decision (freezes_into i m).
Proof. destruct m; apply _. Defined.

(** [_require_merge_plan]. *)
Definition require_merge_plan (p : plan) (w : write) (reads_ : gmap text merge_read) : result unit :=
  raise_if (plan_operation p ≠ MERGE ∨ w_current w ≠ None ∨ w_draft w = None)
    (ArtifactMergeRelationError "merge creation belongs only to a new result") ;;
  raise_if (Exists (λ i, reads_ !! i = None) (w_inputs w))
    (ArtifactMergeRelationError "merge inputs require exact read dependencies") ;;
  let inputs := omap (λ i, reads_ !! i) (w_inputs w) in
  match w_draft w with
  | None => Ok tt
  | Some d => require_merge_draft (w_id w) d inputs
  end ;;
  let writes : gmap text write := list_to_map ((λ x, (w_id x, x)) <$> reverse (plan_writes p)) in
  check_each (λ expected : merge_read,
    raise_if (read_state expected ≠ ACTIVE ∨
              ¬ freezes_into (w_id w) (writes !! ref_id (read_ref expected)))
      (ArtifactMergeRelationError "all active merge inputs must freeze into the new result")) inputs.

(** The body of the loop of [_require_plan]. *)
Definition require_write (p : plan) (reads_ : gmap text merge_read) (w : write) : result unit :=
  match w_current w with
  | Some c =>
      raise_if (g_state (rec_state c) = RETIRED)
        (InvalidArtifactMergeStateError "retired Artifact identities cannot be modified") ;;
      raise_if (reads_ !! w_id w ≠ Some (as_read c))
        (ArtifactMergeRelationError "every existing write requires its exact current read dependency")
  | None =>
      raise_if (w_draft w = None ∨ w_state w ≠ ACTIVE)
        (ArtifactMergeRelationError "new Artifacts require active content")
  end ;;
  match w_draft w with
  | None => Ok tt
  | Some d =>
      if decide (w_inputs w ≠ []) then require_merge_plan p w reads_ else
        make_draft (draft_content d) (mkLineage (draft_sources d) (draft_artifacts d) None) []
          (bool_decide (restores (plan_operation p))) ;;
        match w_current w with
        | Some c => raise_if (plan_operation p = CHANGE ∧ ¬ editable (rec_state c))
                      (InvalidArtifactMergeStateError "merged and retired Artifacts cannot be edited")
        | None => Ok tt
        end
  end.

(** [_require_plan]. *)
Definition require_plan (p : plan) : result unit :=
  raise_if (¬ NoDup (w_id <$> plan_writes p))
    (ArtifactMergeRelationError "one plan cannot write an identity twice") ;;
  unique ← unique_reads (plan_reads p);
  let reads_ : gmap text merge_read := list_to_map ((λ r, (ref_id (read_ref r), r)) <$> unique) in
  check_each (require_write p reads_) (plan_writes p).

(** [_require_window]: the identities written so far. *)
Fixpoint require_window (scope_id subject_ : text) (plans : list plan) (identities : list text) : result unit :=
  match plans with
  | [] => Ok tt
  | p :: plans' =>
      raise_if (plan_scope p ≠ scope_id ∨ plan_subject p ≠ subject_)
        (InvalidArtifactMergeStateError "window scope or identity differs from preparation") ;;
      require_plan p ;;
      raise_if (Exists (λ w, w_id w ∈ identities) (plan_writes p))
        (ArtifactMergeRelationError "window decisions must coordinate each Artifact into one final write") ;;
      require_window scope_id subject_ plans' (identities ++ (w_id <$> plan_writes p))
  end.

(** Every active write of a prepared plan has a valid projection. *)
Definition require_projections (item : prepared projection) : result unit :=
  check_each (λ x : text * projection, validate_prepared x.2) (projections item) ;;
  let given := dset_all (projections item) [] in
  raise_if (Exists (λ w, w_state w = ACTIVE ∧ dget (w_id w) given = None) (plan_writes (prepared_plan item)))
    (ArtifactMergeRelationError "active publication requires a prepared projection").

(** [_validate_preview]. *)
Definition validate_preview (p : plan) (ctx : context) : MX _ unit :=
  match plan_token p with
  | None => mret tt
  | Some token =>
      endpoint ← validate_token token (plan_scope p) (plan_subject p) (plan_operation p) (plan_primary p)
                   (plan_target_revision p);
      current ← get (plan_scope p) (ref_id (read_ref endpoint)) ctx None true;
      lift (raise_if (as_read current ≠ endpoint)
              (ArtifactMergePreviewStaleError "the restoration preview endpoint changed"))
  end.

(** A restoration is inspected again under the locks and must come out the same. *)
Definition verify_restoration (scope_id : text) (ctx : context) (p : plan) : MX _ unit :=
  if decide (restores (plan_operation p)) then
    verified ← inspect_restore scope_id (plan_primary p) ctx (plan_operation p) (plan_target_revision p) (plan_token p);
    lift (raise_if (verified ≠ p)
            (ArtifactMergeConflictError "restoration relations changed; prepare the whole group again"))
  else mret tt.

(** ** Commit *)

Definition key_error {A} (o : option A) : result A :=
  match o with Some a => Ok a | None => Err (RuntimeError "KeyError") end.

(** [SourceRepository.add] over the processing tables of this transaction. *)
Definition add_source (scope_id : text) (v : source) : MX _ source_ref := λ s,
  match Journal.add scope_id v (set_source_rows (a_sources s.1) (processing s.2)) with
  | Ok (st, p) => Ok (Journal.ref st, (set_sources (p_sources p) s.1, set_processing p s.2))
  | Err e => Err e
  end.

Definition with_revision (r : art_ref) (n : Z) : art_ref := mkRef (ref_family r) (ref_id r) n.

(** What one write of a restoration will have done. *)
Definition restoration_result_of (p : plan) (current : gmap text record) (w : write) : result restoration_result :=
  c ← key_error (current !! w_id w);
  let before := rec_ref c in
  let from := match plan_target_revision p with
              | Some n => if decide (w_id w = plan_primary p) then with_revision before n else before
              | None => before
              end in
  Ok (mkRestorationResult before from (with_revision before (ref_revision before + 1)) (w_state w)).

(** [_record_restoration]: one outcome Source, bound to the primary's new revision. *)
Definition record_restoration (p : plan) (current : gmap text record)
    : MX _ (option (restoration_outcome * source_ref)) :=
  if decide (¬ restores (plan_operation p) ∨ plan_writes p = []) then mret None else
    lift (raise_if (Artifacts.has_sources repo = false)
            (InvalidArtifactMergeStateError "restoration requires a configured Source repository")) ;;
    writes ← lift (map_result (restoration_result_of p current) (plan_writes p));
    target ← lift (key_error (current !! plan_primary p));
    undone ← lift (map_result (λ i, c ← key_error (current !! i); Ok (rec_ref c)) (plan_undone p));
    let outcome := mkOutcome (plan_operation p) (rec_ref target) writes undone in
    primary ← lift (match filter (λ x, ref_id (after_ref x) = plan_primary p) writes with
                    | x :: _ => Ok (after_ref x)
                    | [] => Err (RuntimeError "StopIteration")
                    end);
    let bound := mkSourceTarget (plan_scope p) (ref_family primary) (ref_id primary) (ref_revision primary) in
    payload ← (λ s, Ok ((outcome_payload outcome bound s.2).1, (s.1, (outcome_payload outcome bound s.2).2)));
    r ← add_source (plan_scope p) (ContentSource (mkContentSource payload NoExpiry false (Some bound) false));
    mret (Some (outcome, r)).

(** The first loop of [_commit_writes]: the drafts with their validated evidence,
    the items to create in bulk and every reference to create. *)
Record drafting := mkDrafting {
  drafts : gmap text (draft * Artifacts.validated_sources);
  creates : list Artifacts.new_item;
  create_refs : list art_ref
}.

Fixpoint draft_writes (scope_id : text) (writes : list write) (current : gmap text record) (ctx : context)
    (system_sources : gmap text (list source_ref)) (read_set : option Artifacts.source_read_set) (acc : drafting)
    : MX _ drafting :=
  match writes with
  | [] => mret acc
  | w :: writes' =>
      match w_draft w with
      | None => draft_writes scope_id writes' current ctx system_sources read_set acc
      | Some d =>
          let before := current !! w_id w in
          target ← lift (new_ref merge_family (w_id w)
                           (match before with None => 1 | Some c => ref_revision (rec_ref c) + 1 end));
          sources ← lift (key_error (system_sources !! w_id w));
          let d := if decide (sources = []) then d else with_sources d (nub (draft_sources d ++ sources)) in
          validated ← validate_draft scope_id target d ctx sources read_set;
          draft_writes scope_id writes' current ctx system_sources read_set
            (mkDrafting (<[w_id w := (d, validated)]> (drafts acc))
               (match before with
                | None => if decide (w_inputs w = []) then creates acc ++ [(w_id w, d, Some validated)] else creates acc
                | Some _ => creates acc
                end)
               (match before with None => create_refs acc ++ [target] | Some _ => create_refs acc end))
      end
  end.

(** The revision one write stores, with the governance it is stored under. *)
Definition store_write (scope_id : text) (w : write) (before : option record) (acc : drafting)
    (created : gmap text artifact) (merge_inputs : gmap text (list (art_ref * Z))) (ctx : context)
    : MX _ (artifact * governance) :=
  match w_draft w with
  | Some _ =>
      dv ← lift (key_error (drafts acc !! w_id w));
      match before with
      | None =>
          a ← (if decide (w_inputs w ≠ []) then
                 inputs ← lift (key_error (merge_inputs !! w_id w));
                 a ← on_tables (Artifacts.create_merge_result repo scope_id (w_id w) dv.1 inputs (Some dv.2));
                 on_ext (establish_owners scope_id [w_id w] ctx) ;;
                 on_ext (merge_tags scope_id (w_id w) (w_inputs w)) ;;
                 mret a
               else lift (key_error (created !! w_id w)));
          g ← lift (new_governance (mkGovernance (art_self a) ACTIVE None None 0));
          mret (a, g)
      | Some c =>
          a ← on_tables (if decide (g_merged_into (rec_state c) ≠ None) then
                           Artifacts.revise_for_restoration repo scope_id (rec_artifact c) dv.1 (rec_state c) (Some dv.2)
                         else Artifacts.revise repo scope_id (rec_artifact c) dv.1 false (Some dv.2));
          mret (a, rec_state c)
      end
  | None =>
      match before with
      | None => lift (Err (ArtifactMergeRelationError "state transitions require an existing Artifact"))
      | Some c => mret (rec_artifact c, rec_state c)
      end
  end.

(** The body of the second loop of [_commit_writes]. *)
Definition commit_write (scope_id : text) (current : gmap text record) (acc : drafting)
    (created : gmap text artifact) (merge_inputs : gmap text (list (art_ref * Z))) (ctx : context) (w : write)
    : MX _ record :=
  let before := current !! w_id w in
  ag ← store_write scope_id w before acc created merge_inputs ctx;
  g ← (if decide (before ≠ None ∨ w_state w ≠ ACTIVE ∨ w_merged_into w ≠ None ∨ w_replacement w ≠ None) then
         on_tables (transition_merge scope_id merge_family (w_id w) ag.2 (w_state w) (w_merged_into w) (w_replacement w))
       else mret ag.2);
  mret (mkRecord ag.1 g).

Fixpoint commit_each (scope_id : text) (current : gmap text record) (acc : drafting)
    (created : gmap text artifact) (merge_inputs : gmap text (list (art_ref * Z))) (ctx : context)
    (writes : list write) (records : dict text record) : MX _ (dict text record) :=
  match writes with
  | [] => mret records
  | w :: writes' =>
      r ← commit_write scope_id current acc created merge_inputs ctx w;
      commit_each scope_id current acc created merge_inputs ctx writes' (dset (w_id w) r records)
  end.

(** Publication of the final records: projections of the active ones, in bulk when
    the group only created; the others are removed from the index. *)
Definition publish_records (scope_id : text) (records : dict text record) (given : dict text projection)
    (bulk : bool) (ctx : context) : MX _ unit :=
  if bulk then
    items ← lift (map_result (λ i : text * record, x ← key_error (dget i.1 given); Ok (i.2, x)) records);
    on_ext (publish_many scope_id items ctx)
  else
    for_each (λ i : text * record,
      if decide (g_state (rec_state i.2) = ACTIVE) then
        match dget i.1 given with
        | None => lift (Err (ArtifactMergeRelationError "active publication requires a prepared projection"))
        | Some x => on_ext (publish scope_id i.2 x ctx)
        end
      else on_ext (remove scope_id i.1)) records.

(** [_commit_writes]. *)
Definition commit_writes (scope_id : text) (writes : list write) (current : gmap text record)
    (given : dict text projection) (ctx : context) (system_sources : gmap text (list source_ref))
    (merge_inputs : gmap text (list (art_ref * Z))) (read_set : option Artifacts.source_read_set)
    : MX _ (dict text record) :=
  acc ← draft_writes scope_id writes current ctx system_sources read_set (mkDrafting ∅ [] []);
  on_ext (authorize_creates scope_id ctx (create_refs acc)) ;;
  artifacts ← on_tables (Artifacts.create_many repo scope_id (creates acc) false);
  let created : gmap text artifact := list_to_map ((λ a, (ref_id (art_self a), a)) <$> reverse artifacts) in
  (if decide (created = ∅) then mret tt
   else on_ext (establish_owners scope_id (nub ((λ a, ref_id (art_self a)) <$> artifacts)) ctx)) ;;
  records ← commit_each scope_id current acc created merge_inputs ctx writes [];
  publish_records scope_id records given
    (bool_decide (created ≠ ∅ ∧ size created = length writes ∧
                  Forall (λ i : text * record, g_state (rec_state i.2) = ACTIVE) records)) ctx ;;
  mret records.

(** What [_commit_locked] gathers from the plans of one group. *)
Record gathered := mkGathered {
  gathered_writes : list write;
  gathered_projections : dict text projection;
  gathered_sources : gmap text (list source_ref);
  gathered_inputs : gmap text (list (art_ref * Z));
  gathered_restorations : list (option (restoration_outcome * source_ref))
}.

Definition gather_write (p : plan) (direct : option source_ref)
    (restoration : option (restoration_outcome * source_ref)) (acc : gathered) (w : write) : gathered :=
  let restored := if decide (w_id w = plan_primary p) then snd <$> restoration else None in
  mkGathered (gathered_writes acc ++ [w]) (gathered_projections acc)
    (<[w_id w := option_list direct ++ option_list restored]> (gathered_sources acc))
    (<[w_id w := (λ r, (read_ref r, state_version r)) <$>
                   filter (λ r, ref_id (read_ref r) ∈ w_inputs w) (plan_reads p)]> (gathered_inputs acc))
    (gathered_restorations acc).

Fixpoint gather (group : list (prepared projection * option source_ref)) (current : gmap text record)
    (acc : gathered) : MX _ gathered :=
  match group with
  | [] => mret acc
  | (item, direct) :: group' =>
      let p := prepared_plan item in
      restoration ← record_restoration p current;
      gather group' current
        (foldl (gather_write p direct restoration)
           (mkGathered (gathered_writes acc) (dset_all (projections item) (gathered_projections acc))
              (gathered_sources acc) (gathered_inputs acc) (gathered_restorations acc ++ [restoration]))
           (plan_writes p))
  end.

(** The result of one committed plan. *)
Definition mutation_of (p : plan) (restoration : option (restoration_outcome * source_ref))
    (current : gmap text record) (committed : dict text record) : result mutation :=
  written ← map_result (λ w, r ← key_error (dget (w_id w) committed); Ok (w_id w, r)) (plan_writes p);
  records ← if decide (dget (plan_primary p) written = None) then
              c ← key_error (current !! plan_primary p); Ok (written ++ [(plan_primary p, c)])
            else Ok written;
  match restoration with
  | None => Ok tt
  | Some (outcome, _) =>
      check_each (λ x : restoration_result,
        r ← key_error (dget (ref_id (after_ref x)) records);
        raise_if (rec_ref r ≠ after_ref x ∨ g_state (rec_state r) ≠ after_state x)
          (ArtifactMergeRelationError "restoration outcome differs from committed revisions")) (outcome_writes outcome)
  end ;;
  Ok (mkMutation (bool_decide (plan_writes p ≠ []))
        (omap (λ i, dget i records) (sorted_text records.*1)) (plan_primary p)
        (rec_ref <$> filter (λ r, g_state (rec_state r) = RETIRED) records.*2) (plan_undone p)).

(** [_commit_locked]. *)
Definition commit_locked (scope_id : text) (group : list (prepared projection * option source_ref))
    (current : gmap text record) (ctx : context) (read_set : option Artifacts.source_read_set)
    : MX _ (list mutation) :=
  if decide (length group = 0%nat) then mret [] else
    acc ← gather group current (mkGathered [] [] ∅ ∅ []);
    committed ← commit_writes scope_id (gathered_writes acc) current (gathered_projections acc) ctx
                  (gathered_sources acc) (gathered_inputs acc) read_set;
    lift (map_result (λ x : prepared projection * option source_ref * option (restoration_outcome * source_ref),
            mutation_of (prepared_plan x.1.1) x.2 current committed)
            (zip group (gathered_restorations acc))).

(** A plan that only creates one active Artifact without Artifact evidence. *)
Definition independent_create (p : plan) : Prop :=
  plan_operation p = CHANGE ∧
  match plan_writes p with
  | [w] => w_current w = None ∧ from_option (λ d, draft_artifacts d = []) False (w_draft w) ∧
           w_state w = ACTIVE ∧ w_inputs w = [] ∧ w_merged_into w = None ∧ w_replacement w = None
  | _ => False
  end.
#[export] Instance independent_create_dec p : Decision (independent_create p).
Proof.
  unfold independent_create. destruct (plan_writes p) as [|w [|]]; try apply _.
  destruct (w_draft w); simpl; apply _.
Defined.

Fixpoint commit_groups (scope_id : text) (groups : list (list (prepared projection * option source_ref)))
    (current : gmap text record) (ctx : context) (read_set : option Artifacts.source_read_set)
    : MX _ (list mutation) :=
  match groups with
  | [] => mret []
  | g :: groups' =>
      done ← commit_locked scope_id g current ctx read_set;
      rest ← commit_groups scope_id groups' current ctx read_set;
      mret (done ++ rest)
  end.

Definition commit_window (scope_id : text) (items : list (prepared projection)) (ctx : context)
    (read_set : list merge_read) (direct_source : option source_ref)
    (direct_sources : option (list (option source_ref))) (sources : option Artifacts.source_read_set)
    : MX _ (list mutation) :=
  let plans := prepared_plan <$> items in
  lift (raise_if (direct_sources ≠ None ∧
                  (direct_source ≠ None ∨ length (default [] direct_sources) ≠ length items))
          (ValueError "direct sources must match the prepared window")) ;;
  let operation_sources := default (replicate (length items) direct_source) direct_sources in
  lift (require_window scope_id (subject ctx) plans []) ;;
  lift (check_each require_projections items) ;;
  reads_ ← lift (unique_reads (read_set ++ (p ← plans; plan_reads p)));
  on_tables (Artifacts.lock_heads scope_id (read_ref <$> reads_)) ;;
  for_each (λ p, validate_preview p ctx) plans ;;
  current ← check_dependencies scope_id reads_ ctx true
              (Some (p ← plans; plan_primary p :: (w_id <$> plan_writes p)));
  for_each (verify_restoration scope_id ctx) plans ;;
  let paired := zip items operation_sources in
  commit_groups scope_id
    (if decide (Forall independent_create plans) then [paired] else (λ x, [x]) <$> paired) current ctx sources.

Definition commit (item : prepared projection) (ctx : context) (direct_source : option source_ref) : MX _ mutation :=
  results ← commit_window (plan_scope (prepared_plan item)) [item] ctx [] direct_source None None;
  match results with m :: _ => mret m | [] => lift (Err (RuntimeError "IndexError")) end.
End service.

(** ** What the reads of the service answer *)

Section reads.
Context (repo : Artifacts.repository) `{CustomIndex} `{Journal.SourceRegistry} (E : Environment).
Context `{!EnvironmentLaws E}.

Notation current scope_id := (Restoration.current scope_id merge_family).

Lemma may_ok scope_id ctx a r s u s' : may scope_id ctx a r s = Ok (u, s') → s'.1 = s.1.
Proof. apply on_ext_ok. Qed.

Lemma may_fueled scope_id ctx a r : fueledM (may scope_id ctx a r).
Proof. apply fueledM_on_ext. intros. apply authorize_fuel. Qed.

(** Reading a current record under any authorization writes nothing. *)
Lemma get_current_ok scope_id i ctx u s c s' :
  get repo scope_id i ctx None u s = Ok (c, s') → s'.1 = s.1 ∧ current scope_id s.1 i c ∧
    valid_ref (mkRef merge_family i 1) ∧ valid_governance (rec_state c).
Proof.
  unfold get. intros H'. apply M_bind_ok in H' as (r & ? & [Hr ->]%lift_ok & H').
  apply Artifacts.new_ref_ok in Hr as [-> Hv].
  apply M_bind_ok in H' as ([] & s1 & E1%may_ok & H').
  apply M_bind_ok in H' as (a & s2 & [Ha E2]%on_tables_ok & H').
  apply Artifacts.latest_ok in Ha as (E3 & h & Hh & Hst & _).
  apply M_bind_ok in H' as (g & s3 & [Hg E4]%on_tables_ok & H').
  apply M_ret_ok in H' as [-> ->]. pose proof Hg as Hg'.
  apply governance_get_ok in Hg as (E5 & h' & Hh' & ->).
  rewrite E5, E3, E1 in *. assert (h' = h) as -> by congruence. split_and!; try done.
  - by exists h.
  - unfold Governance.get in Hg'. apply reads_ok in Hg' as [Hg' _]. rewrite Hh' in Hg'.
    unfold decode_artifact_governance, new_governance in Hg'.
    apply result_bind_ok in Hg' as ([] & Hn%raise_if_ok & _). simpl. unfold governance_of in *.
    by apply dec_stable.
Qed.

Lemma get_revision_ok scope_id i ctx n u s c s' :
  get repo scope_id i ctx (Some n) u s = Ok (c, s') → s'.1 = s.1 ∧
    Artifacts.stored s.1 (scope_id, merge_family, i, n) (rec_artifact c) ∧
    rec_ref c = mkRef merge_family i n.
Proof.
  unfold get. intros H'. apply M_bind_ok in H' as (r & ? & [Hr ->]%lift_ok & H').
  apply Artifacts.new_ref_ok in Hr as [-> Hv].
  apply M_bind_ok in H' as ([] & s1 & E1%may_ok & H').
  apply M_bind_ok in H' as (a & s2 & [Ha E2]%on_tables_ok & H').
  apply Artifacts.get_for_update_ok in Ha as (E3 & Hst & Hself).
  apply M_bind_ok in H' as (g & s3 & [Hg E4]%on_tables_ok & H').
  apply M_ret_ok in H' as [-> ->]. apply governance_get_ok in Hg as (E5 & _).
  rewrite E5, E3, E1 in *. done.
Qed.

Lemma governance_get_fueled scope_id family i : fueledM (Governance.get scope_id family i).
Proof. unfold Governance.get, decode_artifact_governance, new_governance. fuel. Qed.

Lemma get_record_fueled scope_id i ctx n u : fueledM (get repo scope_id i ctx n u).
Proof.
  pose proof may_fueled. pose proof governance_get_fueled. pose proof Artifacts.latest_fueled.
  pose proof Artifacts.get_fueled. pose proof Artifacts.new_ref_fueled. unfold get. fuel.
Qed.

(** The loaders of a restoration meet their contract. *)
#[export] Instance loaders scope_id ctx :
  Restoration.GroupReads E scope_id merge_family (load_current repo scope_id ctx) (load_inputs repo scope_id ctx).
Proof.
  split.
  - intros i s c s' H'. unfold load_current in H'.
    apply M_bind_ok in H' as (c0 & s1 & (E1 & Hc & _)%get_current_ok & H').
    apply M_bind_ok in H' as ([] & s2 & E2%may_ok & H'). apply M_ret_ok in H' as [-> ->]. by rewrite E2.
  - intros i s refs s' H'. unfold load_inputs in H'.
    apply M_bind_ok in H' as (r & ? & [Hr ->]%lift_ok & H'). apply Artifacts.new_ref_ok in Hr as [-> _].
    apply M_bind_ok in H' as ([] & s1 & E1%may_ok & H').
    apply on_tables_ok in H' as [Hm E2]. apply Artifacts.merge_inputs_ok_refs in Hm as [E3 ->].
    rewrite E3, E1. done.
  - intros i. pose proof get_record_fueled. pose proof may_fueled. change (fueledM (load_current repo scope_id ctx i)).
    unfold load_current. fuel.
  - intros i. pose proof may_fueled. pose proof Artifacts.new_ref_fueled. pose proof Artifacts.merge_inputs_fueled.
    change (fueledM (load_inputs repo scope_id ctx i)). unfold load_inputs. fuel.
Qed.

Lemma validate_token_ok token scope_id subject_ op i n s e s' :
  validate_token token scope_id subject_ op i n s = Ok (e, s') →
  s' = s ∧ token_endpoint token scope_id subject_ op i n s.2 = Ok e.
Proof. unfold validate_token. by intros [Ht ->]%reads_ok. Qed.

(** All that a returned plan says of the tables. *)
Lemma inspect_restore_ok scope_id i ctx op revision token s p s' :
  inspect_restore repo scope_id i ctx op revision token s = Ok (p, s') →
  s'.1 = s.1 ∧ (op = RESTORE ∨ op = UNDO_MERGE) ∧
  plan_scope p = scope_id ∧ plan_subject p = subject ctx ∧ plan_primary p = i ∧ plan_operation p = op ∧
  plan_target_revision p = revision ∧ plan_token p = token ∧
  ∃ selected,
    match selected, revision with
    | None, None => True
    | Some a, Some n => op = RESTORE ∧ Artifacts.stored s.1 (scope_id, merge_family, i, n) a
    | _, _ => False
    end ∧
    Restoration.restores scope_id merge_family s.1 i op selected p ∧
    (∀ t, token = Some t → ∃ x e,
       token_endpoint t scope_id (subject ctx) op i revision x = Ok e ∧ plan_endpoint p = Some e).
Proof.
  unfold inspect_restore. intros H'.
  apply M_bind_ok in H' as ([] & ? & [Hop%raise_if_ok ->]%lift_ok & H').
  apply M_bind_ok in H' as ([] & ? & [Hrev%raise_if_ok ->]%lift_ok & H').
  assert (Hops : op = RESTORE ∨ op = UNDO_MERGE) by (destruct op; try tauto; by destruct Hop).
  apply M_bind_ok in H' as (target & s1 & (E1 & Hc & _)%get_current_ok & H').
  apply M_bind_ok in H' as (endpoint & s2 & He & H').
  assert (s2 = s1 ∧ ∀ t, token = Some t → ∃ x e, token_endpoint t scope_id (subject ctx) op i revision x = Ok e ∧
    endpoint = Some e) as [-> Hep].
  { destruct token as [t|]; [|by run]. apply M_bind_ok in He as (e & s3 & [-> Ht]%validate_token_ok & He).
    apply M_ret_ok in He as [-> ->]. split; [done|]. intros ? [= <-]. eauto. }
  apply M_bind_ok in H' as ([] & s3 & E3%may_ok & H'). apply M_bind_ok in H' as (selected & s4 & Hs & H').
  assert (s4.1 = s3.1 ∧ match selected, revision with
    | None, None => True
    | Some a, Some n => Artifacts.stored s.1 (scope_id, merge_family, i, n) a ∧ ref_revision (art_self a) = n
    | _, _ => False end) as [E4 Hsel].
  { destruct revision as [n|]; [|by run]. apply M_bind_ok in Hs as (r & s5 & (E5 & Hst & Href)%get_revision_ok & Hs).
    apply M_ret_ok in Hs as [-> ->]. split; [done|]. rewrite <- E1, <- E3. split; [done|].
    unfold rec_ref in Href. by rewrite Href. }
  apply M_bind_ok in H' as (q & s5 & Hq & H').
  apply M_bind_ok in H' as ([] & ? & [Hend%raise_if_ok ->]%lift_ok & H'). apply M_ret_ok in H' as [-> ->].
  pose proof (Restoration.current_ref _ _ _ _ _ Hc) as (_ & Hi & _).
  rewrite <- E1, <- E3, <- E4 in Hc.
  apply (Restoration.calculate_restoration_ok scope_id merge_family) in Hq
    as (E5 & P1 & P2 & P3 & P4 & P5 & P6 & Hr); [|apply loaders|by rewrite Hi|done].
  rewrite E4, E3, E1, Hi in *. split_and!; try done.
  { simpl. rewrite P5. destruct selected, revision; naive_solver. }
  exists selected. split_and!.
  - destruct selected, revision; naive_solver.
  - by destruct Hr.
  - intros t Ht. destruct (Hep t Ht) as (x & e & Hx & ->). exists x, e. split; [done|]. simpl.
    by destruct (decide (plan_endpoint q = Some e)); [|destruct Hend].
Qed.

(** C32: A restoration plan is exact.  Inspecting a restoration or an undo writes
    nothing.  A plan it returns follows the merge path of the target to its
    endpoint, undoes every result of the path from the endpoint inward (and the
    target itself on an undo), requires every undone result to be whole, that is
    all its marked inputs still frozen into it at the marked version, and plans
    one write per changed identity: it retires exactly the undone results and
    activates exactly their other marked inputs and the restored target, each
    with a copy of its content that cites its current version.  Its reads are
    exactly the identities involved, and a preview token holds it to the
    previewed endpoint. *)
Theorem restoration_plan_exact scope_id i ctx op revision token s p s' :
  inspect_restore repo scope_id i ctx op revision token s = Ok (p, s') →
  s'.1 = s.1 ∧ (op = RESTORE ∨ op = UNDO_MERGE) ∧
  plan_scope p = scope_id ∧ plan_subject p = subject ctx ∧ plan_primary p = i ∧ plan_operation p = op ∧
  plan_target_revision p = revision ∧ plan_token p = token ∧
  ∃ selected,
    match selected, revision with
    | None, None => True
    | Some a, Some n => op = RESTORE ∧ Artifacts.stored s.1 (scope_id, merge_family, i, n) a
    | _, _ => False
    end ∧
    Restoration.restores scope_id merge_family s.1 i op selected p ∧
    (∀ t, token = Some t → ∃ x e,
       token_endpoint t scope_id (subject ctx) op i revision x = Ok e ∧ plan_endpoint p = Some e).
Proof. apply inspect_restore_ok. Qed.

(** Planning a restoration terminates.  Whatever the tables hold, cyclic
    merge relations included, the walk along the merge path ends within as many
    steps as there are heads: the planner answers a plan or raises one of the
    program's own errors. *)
Theorem restoration_terminates scope_id i ctx op revision token s :
  inspect_restore repo scope_id i ctx op revision token s ≠ Err OutOfFuel.
Proof.
  pose proof may_fueled. pose proof get_record_fueled. pose proof token_fuel. revert s.
  change (fueledM (inspect_restore repo scope_id i ctx op revision token)).
  unfold inspect_restore. apply fueledM_bind; [fuel|intros _]. apply fueledM_bind; [fuel|intros _].
  intros s [H'|(target & s1 & (E1 & Hc & _)%get_current_ok & H')]%M_bind_err; [by eapply get_record_fueled|].
  apply M_bind_err in H' as [H'|(endpoint & s2 & He & H')].
  { revert H'. unfold validate_token. destruct token; [|done]. apply fueledM_bind; fuel. intros. apply token_fuel. }
  assert (s2 = s1) as ->.
  { destruct token as [t|]; [|by run]. apply M_bind_ok in He as (e & s3 & [-> _]%validate_token_ok & He). by run. }
  apply M_bind_err in H' as [H'|([] & s3 & E3%may_ok & H')]; [by eapply may_fueled|].
  apply M_bind_err in H' as [H'|(selected & s4 & Hs & H')].
  { revert H'. destruct revision; [|done]. by apply fueledM_bind; fuel. }
  assert (s4.1 = s3.1) as E4.
  { destruct revision as [n|]; [|by run]. apply M_bind_ok in Hs as (r & s5 & (E5 & _)%get_revision_ok & Hs). by run. }
  apply M_bind_err in H' as [H'|(q & s5 & _ & H')].
  - pose proof (Restoration.current_ref _ _ _ _ _ Hc) as (_ & Hi & _). rewrite <- E1, <- E3, <- E4 in Hc.
    revert H'. apply (Restoration.calculate_restoration_fuel scope_id merge_family);
      [apply loaders|done|by rewrite Hi].
  - revert H'. by apply fueledM_bind; fuel.
Qed.
End reads.

(** ** Concrete runs *)

#[local] Existing Instance Artifacts.no_custom_index.
#[local] Existing Instance Journal.demo_registry.

(** An unrestricted local environment: its extension holds the processing tables
    and the identities in the search index. *)
#[local] Instance demo_environment : Environment := {|
  context := unit;
  ext := pdb * list text;
  projection := content;
  subject _ := [];
  authorize _ _ _ _ _ x := Ok x;
  authorize_sources _ _ _ _ x := Ok x;
  authorize_creates _ _ _ _ x := Ok x;
  establish_owners _ _ _ _ x := Ok x;
  merge_family := Artifacts.demo_family;
  make_draft c l _ _ := Ok (mkDraft Artifacts.demo_family c (lineage_sources l) (lineage_artifacts l));
  prepare_content c := Ok c;
  validate_prepared _ := Ok tt;
  publish _ r _ _ _ x := Ok (x.1, x.2 ++ [ref_id (rec_ref r)]);
  publish_many _ l _ _ x := Ok (x.1, x.2 ++ ((λ r, ref_id (rec_ref r.1)) <$> l));
  remove _ i _ x := Ok (x.1, filter (λ j, j ≠ i) x.2);
  merge_tags _ _ _ _ x := Ok x;
  token_endpoint _ _ _ _ _ _ _ := Err (InvalidArtifactMergePreviewError "no signing key");
  processing x := x.1;
  set_processing p x := (p, x.2);
  outcome_payload _ _ x := ([5], x)
|}.

#[local] Instance demo_laws : EnvironmentLaws demo_environment.
Proof. split; by intros * [= <-] || done. Qed.

Notation demo_state := (adb * (pdb * list text))%type.
Definition demo_read (i n g : Z) : merge_read := mkMergeRead (Artifacts.demo_ref i n) ACTIVE g None None.

(** Artifacts [1] and [2] are merged into [3]; then [3] is undone. *)
Definition demo_before : demo_state := (Artifacts.demo_start, (empty_pdb sqlite, [])).
Definition run_merge : M demo_state mutation :=
  p ← inspect_merge Artifacts.demo_repository Artifacts.demo_scope [3] [demo_read 1 1 0; demo_read 2 1 0]
        (mkContent [1] [4]) tt None [] None;
  item ← lift (prepare_change p);
  commit Artifacts.demo_repository item tt None.
Definition plan_undo : M demo_state plan :=
  inspect_restore Artifacts.demo_repository Artifacts.demo_scope [3] tt UNDO_MERGE None None.

Definition final {A} (r : result (A * demo_state)) : demo_state :=
  match r with Ok (_, s) => s | Err _ => demo_before end.
Definition demo_merged : demo_state := Eval vm_compute in final (run_merge demo_before).
Definition demo_undo : plan := Eval vm_compute in
  match plan_undo demo_merged with Ok (p, _) => p | Err _ => mkPlan [] [] [] [] [] CHANGE None None [] [] None end.
Definition demo_undone : demo_state := Eval vm_compute in
  final ((item ← lift (prepare_change demo_undo); commit Artifacts.demo_repository item tt None) demo_merged).

Lemma demo_plan_undo : plan_undo demo_merged = Ok (demo_undo, demo_merged).
Proof. vm_compute. reflexivity. Qed.

Lemma restoration_plan_exact_witness :
  Restoration.restores Artifacts.demo_scope Artifacts.demo_family demo_merged.1 [3] UNDO_MERGE None demo_undo.
Proof.
  destruct (restoration_plan_exact Artifacts.demo_repository demo_environment Artifacts.demo_scope [3] tt UNDO_MERGE
    None None demo_merged demo_undo demo_merged demo_plan_undo)
    as (_ & _ & _ & _ & _ & _ & _ & _ & [a|] & Hsel & Hr & _); [destruct Hsel|exact Hr].
Defined.

Lemma restoration_terminates_witness : plan_undo demo_merged ≠ Err OutOfFuel.
Proof. apply (restoration_terminates Artifacts.demo_repository demo_environment). Defined.

(** After the undo both inputs are active again, the result is retired, each at a
    new revision, and only the inputs are indexed. *)
Example demo_undo_heads :
  (λ i : Z, a_heads demo_undone.1 !! (Artifacts.demo_scope, Artifacts.demo_family, [i])) <$> [1; 2; 3] =
  [Some (mkHead 2 ACTIVE None None 2); Some (mkHead 2 ACTIVE None None 2); Some (mkHead 2 RETIRED None None 1)] ∧
  demo_undone.2.2 = [[1]; [2]].
Proof. vm_compute. done. Qed.
End Merge.
