(* ===== verification/MergeCommit.v ===== *)
(** * What committing a window of merge plans does

    Facts about [commit_window] of [Merge]: a committed window ran entirely
    against the reads it was planned on, is a path of the Artifact store's own
    transitions, and leaves every written identity exactly as planned. *)

From S2P Require Import Prelude Tables Cursors Journal Catalog Governance Artifacts MergePlans Restoration Merge.
Local Open Scope Z_scope.

Module MergeCommit.
Import Governance MergePlans Merge.

Section commit.
Context (repo : Artifacts.repository) `{CustomIndex} `{Journal.SourceRegistry} (E : Environment).
Context (scope_id : text).

Notation head_at := (Restoration.head_at scope_id merge_family).
Notation key i := (scope_id, merge_family, i).
Notation current := (Restoration.current scope_id merge_family).
Notation steps := (rtc (Artifacts.step repo)).

(** ** Reads *)

(** The tables still hold exactly what was read. *)
Definition holds (t : adb) (r : merge_read) : Prop :=
  ∃ h, head_at t (ref_id (read_ref r)) = Some h ∧
       r = read_of_state (governance_of (key (ref_id (read_ref r))) h).

Lemma current_holds t i c : current t i c → holds t (as_read c) ∧ ref_id (read_ref (as_read c)) = i.
Proof.
  intros Hc. pose proof (Restoration.current_ref _ _ _ _ _ Hc) as (Eg & Ei & _).
  destruct Hc as (h & Hh & Es & _). simpl. rewrite Ei. split; [|done].
  exists h. simpl. rewrite Ei. split; [done|]. unfold as_read, read_of_state. by rewrite Eg, Es.
Qed.

Lemma unique_from_ok reads_ unique unique' :
  unique_from reads_ unique = Ok unique' →
  (∀ i r, unique' !! i = Some r → unique !! i = Some r ∨ (r ∈ reads_ ∧ ref_id (read_ref r) = i)) ∧
  (∀ i r, unique !! i = Some r → unique' !! i = Some r) ∧
  (∀ r, r ∈ reads_ → unique' !! ref_id (read_ref r) = Some r ∧ ref_family (read_ref r) = merge_family).
Proof.
  revert unique. induction reads_ as [|x reads_ IH]; intros unique; simpl.
  - intros [= <-]. split_and!; [tauto|done|]. by intros r ?%not_elem_of_nil.
  - intros ([] & Hf%raise_if_ok & H')%result_bind_ok. apply result_bind_ok in H' as ([] & Hp%raise_if_ok & H').
    apply IH in H' as (H1' & H2' & H3').
    assert (Hx : ∀ r, unique !! ref_id (read_ref x) = Some r → r = x).
    { intros r Hr. rewrite Hr in Hp. destruct (decide (r = x)) as [|Hne]; [done|]. destruct Hp. by split; [|intros [= ?]]. }
    split_and!.
    + intros i r Hi. destruct (H1' _ _ Hi) as [Hu|[? ?]]; [|right; split; [by right|done]].
      apply lookup_insert_Some in Hu as [[<- <-]|[_ ?]]; [right; split; [left|done]|by left].
    + intros i r Hi. apply H2'. destruct (decide (i = ref_id (read_ref x))) as [->|].
      * rewrite (Hx _ Hi). by rewrite lookup_insert_eq.
      * by rewrite lookup_insert_ne.
    + intros r [->|Hr]%elem_of_cons; [|by apply H3']. split; [apply H2'; by rewrite lookup_insert_eq|].
      by apply dec_stable.
Qed.

Lemma unique_reads_ok reads_ l :
  unique_reads reads_ = Ok l →
  (∀ r, r ∈ l ↔ r ∈ reads_) ∧ (∀ r r', r ∈ l → r' ∈ l → ref_id (read_ref r) = ref_id (read_ref r') → r = r').
Proof.
  unfold unique_reads. intros (m & (H1' & _ & H3')%unique_from_ok & [= <-])%result_bind_ok.
  assert (Hl : ∀ r, r ∈ (λ i : text * merge_read, i.2) <$> Restoration.sorted_items m ↔ r ∈ reads_).
  { intros r. split.
    - intros Hr. apply list_elem_of_fmap in Hr as ([i r'] & -> & Hi%Restoration.sorted_items_elem). simpl.
      destruct (H1' _ _ Hi) as [?|[? _]]; [|done]. by rewrite lookup_empty in *.
    - intros Hr. apply list_elem_of_fmap. exists (ref_id (read_ref r), r). split; [done|].
      apply Restoration.sorted_items_elem. by apply H3'. }
  split; [done|]. intros r r' Hr%Hl Hr'%Hl Hi. destruct (H3' _ Hr) as [E1 _], (H3' _ Hr') as [E2 _].
  rewrite Hi in E1. congruence.
Qed.

Lemma read_head_states_ok ids t l i g :
  read_head_states scope_id ids t = Ok l → (i, g) ∈ l →
  i ∈ ids ∧ ∃ h, head_at t i = Some h ∧ g = governance_of (key i) h.
Proof.
  unfold read_head_states. intros (found & Hf%map_result_ok & [= <-])%result_bind_ok Hin.
  apply concat_elem_inv in Hin as (b & Hb & Hin).
  destruct (Forall2_elem_r _ _ _ _ Hf Hb) as (batch & Hbatch & Hr%map_result_ok).
  destruct (Forall2_elem_r _ _ _ _ Hr Hin) as ([j h] & Hj & Hg). simpl in Hg.
  apply result_bind_ok in Hg as (g' & Hg & [= -> ->]). unfold decode_artifact_governance, new_governance in Hg.
  apply result_bind_ok in Hg as ([] & _ & [= <-]).
  apply list_elem_of_omap in Hj as (j' & Hj' & Hh). apply (proj1 (nub_elem _ _)) in Hj'.
  destruct (a_heads t !! key j') as [h'|] eqn:Hh'; simplify_eq/=.
  split; [|by exists h]. rewrite <- (batches_concat SELECTION_BATCH_SIZE ids); [|unfold SELECTION_BATCH_SIZE; lia].
  apply list_elem_of_In, in_concat. exists batch. by rewrite <- !list_elem_of_In.
Qed.

Lemma check_reads_ok (ctx : context) (u : bool) (hs : gmap text governance) (l : list merge_read)
    (records : gmap text record) (s : adb * ext) (records' : gmap text record) (s' : adb * ext) :
  check_reads repo scope_id ctx u hs l records s = Ok (records', s') →
  (∀ i g, hs !! i = Some g → ∃ h, head_at s.1 i = Some h ∧ g = governance_of (key i) h) →
  (∀ r r', r ∈ l → r' ∈ l → ref_id (read_ref r) = ref_id (read_ref r') → r = r') →
  s'.1 = s.1 ∧ (∀ r, r ∈ l → holds s.1 r) ∧
  (∀ i c, records' !! i = Some c → records !! i = Some c ∨ current s.1 i c) ∧
  (∀ r, r ∈ l → hs !! ref_id (read_ref r) = None →
     ∃ c, records' !! ref_id (read_ref r) = Some c ∧ as_read c = r) ∧
  (∀ i, (∀ r, r ∈ l → ref_id (read_ref r) ≠ i) → records' !! i = records !! i).
Proof.
  intros H' Hhs. revert records s H' Hhs. induction l as [|x l IH]; intros records s H' Hhs Hu; simpl in H'.
  { apply M_ret_ok in H' as [-> ->]. split_and!; try done; try (by intros ? ?%not_elem_of_nil). by left. }
  assert (Hu' : ∀ r r', r ∈ l → r' ∈ l → ref_id (read_ref r) = ref_id (read_ref r') → r = r').
  { intros r r' Hr Hr'. apply Hu; by right. }
  assert (Hstep : ∃ s1 records1,
    check_reads repo scope_id ctx u hs l records1 s1 = Ok (records', s') ∧ s1.1 = s.1 ∧ holds s.1 x ∧
    (∀ i c, records1 !! i = Some c → records !! i = Some c ∨ current s.1 i c) ∧
    (hs !! ref_id (read_ref x) = None → ∃ c, records1 !! ref_id (read_ref x) = Some c ∧ as_read c = x) ∧
    (∀ i, i ≠ ref_id (read_ref x) → records1 !! i = records !! i)).
  { destruct (hs !! ref_id (read_ref x)) as [g|] eqn:Hg.
    - apply M_bind_ok in H' as ([] & s1 & E1%on_ext_ok & H').
      apply M_bind_ok in H' as ([] & s2 & E2%on_ext_ok & H').
      apply M_bind_ok in H' as ([] & ? & [Hx%raise_if_ok ->]%lift_ok & H').
      exists s2, records. split_and!; try done; [congruence| |by left].
      destruct (Hhs _ _ Hg) as (h & Hh & ->). exists h. split; [done|]. symmetry. by apply dec_stable.
    - apply M_bind_ok in H' as (c & s1 & (E1 & Hc & _)%get_current_ok & H').
      apply M_bind_ok in H' as ([] & s2 & E2%on_ext_ok & H').
      apply M_bind_ok in H' as ([] & ? & [Hx%raise_if_ok ->]%lift_ok & H').
      apply M_bind_ok in H' as ([] & s3 & Hsum & H').
      assert (E3 : s3.1 = s2.1).
      { destruct u; [|by apply M_ret_ok in Hsum as [_ ->]].
        apply M_bind_ok in Hsum as (g & s4 & [Hr Ex]%on_tables_ok & Hsum). apply M_ret_ok in Hsum as [_ ->].
        unfold require_summary in Hr. apply M_bind_ok in Hr as (g' & t4 & (-> & _)%governance_get_ok & Hr).
        apply M_bind_ok in Hr as ([] & t5 & [_ ->]%lift_ok & Hr). by apply M_ret_ok in Hr as [_ ->]. }
      apply dec_stable in Hx. exists s3, (<[ref_id (read_ref x) := c]> records).
      split_and!; [done|congruence| | | |].
      + rewrite <- Hx. by eapply current_holds.
      + intros i c' [[<- <-]|[_ ?]]%lookup_insert_Some; [by right|by left].
      + intros _. exists c. by rewrite lookup_insert_eq.
      + intros i Hi. by rewrite lookup_insert_ne. }
  destruct Hstep as (s1 & records1 & H1' & E1 & Hx & Hc1 & Hs1 & Hf1).
  apply IH in H1' as (E2 & Hl & Hc & Hsome & Hf); [|by rewrite E1|done]. rewrite E1 in *.
  split_and!; try done.
  - intros r [->|Hr]%elem_of_cons; [done|by apply Hl].
  - intros i c [?|?]%Hc; [by apply Hc1|by right].
  - intros r Hr Hnone. destruct (decide (r ∈ l)) as [|Hn]; [by apply Hsome|].
    apply elem_of_cons in Hr as [->|]; [|done]. destruct (Hs1 Hnone) as (c & Hcr & Ex). exists c. split; [|done].
    rewrite Hf; [done|]. intros r' Hr' Heq. apply Hn. by rewrite <- (Hu r' x); [|by right|left|].
  - intros i Hi. rewrite Hf; [apply Hf1|].
    + intros ->. by apply (Hi x); [left|].
    + intros r Hr. apply Hi. by right.
Qed.

(** Dependencies are checked against the tables; the records of the identities in
    [ids] are all there, and no record of another identity than a read one. *)
Lemma check_dependencies_ok reads_ ctx ids s records s' :
  check_dependencies repo scope_id reads_ ctx true (Some ids) s = Ok (records, s') →
  s'.1 = s.1 ∧ (∀ r, r ∈ reads_ → holds s.1 r) ∧ Restoration.coherent scope_id merge_family s.1 records ∧
  (∀ r, r ∈ reads_ → ref_id (read_ref r) ∈ ids →
     ∃ c, records !! ref_id (read_ref r) = Some c ∧ as_read c = r) ∧
  (∀ i, (∀ r, r ∈ reads_ → ref_id (read_ref r) ≠ i) → records !! i = None).
Proof.
  unfold check_dependencies. intros H'. apply M_bind_ok in H' as (hs & s1 & [Hr Ex]%on_tables_ok & H').
  apply reads_ok in Hr as [Hr E1]. rewrite <- E1 in Hr.
  apply M_bind_ok in H' as (l & ? & [Hl ->]%lift_ok & H'). apply unique_reads_ok in Hl as [Hl Hu].
  assert (Hhs : ∀ i g, (list_to_map hs : gmap text governance) !! i = Some g →
    i ∉ ids ∧ ∃ h, head_at s1.1 i = Some h ∧ g = governance_of (key i) h).
  { intros i g Hi%elem_of_list_to_map_2. destruct (read_head_states_ok _ _ _ _ _ Hr Hi) as [Hids Hh].
    by apply list_elem_of_filter in Hids as [? _]. }
  apply check_reads_ok in H' as (E2 & Hall & Hc & Hsome & Hf); [|intros i g Hi; by apply Hhs|done].
  rewrite E2, E1 in *. split_and!; [done| | | |].
  - intros r Hr'. by apply Hall, Hl.
  - intros i c Hi. destruct (Hc _ _ Hi) as [?|?]; [by rewrite lookup_empty in *|done].
  - intros r Hr' Hi. apply Hsome; [by apply Hl|]. destruct (list_to_map hs !! _) as [g|] eqn:Hg; [|done].
    by destruct (Hhs _ _ Hg) as [? _].
  - intros i Hi. rewrite Hf by (intros r Hin; apply Hi, Hl, Hin). apply lookup_empty.
Qed.

Lemma validate_draft_ok target d ctx sys rs s v s' :
  validate_draft repo scope_id target d ctx sys rs s = Ok (v, s') → s'.1 = s.1.
Proof.
  unfold validate_draft. intros H'. apply M_bind_ok in H' as ([] & s1 & E1%on_ext_ok & H').
  apply M_bind_ok in H' as (v' & s2 & [Hv Ex]%on_tables_ok & H'). unfold Artifacts.validated_for in Hv.
  apply M_bind_ok in Hv as ([] & t & Hval & Hv). apply M_ret_ok in Hv as [_ E2].
  apply Artifacts.validate_lineage_sources_ok in Hval.
  apply M_bind_ok in H' as ([] & s3 & Hauth & H').
  assert (E3 : s3.1 = s2.1).
  { eapply (for_each_preserves (λ x, x.1 = s2.1)); [|done|exact Hauth].
    intros r x u x' _ Hx Hm%on_ext_ok. congruence. }
  apply M_bind_ok in H' as (l & s4 & [Hg Ey]%on_tables_ok & H'). apply Artifacts.get_many_ok in Hg as [E4 _].
  apply M_ret_ok in H' as [-> ->]. congruence.
Qed.

(** ** Drafts *)

(** The validated draft of a write keeps its content and Artifact evidence. *)
Definition drafted (acc : drafting) (w : write) : Prop := ∀ d, w_draft w = Some d →
  ∃ d' v, drafts acc !! w_id w = Some (d', v) ∧ draft_content d' = draft_content d ∧
    draft_family d' = draft_family d ∧ draft_artifacts d' = draft_artifacts d.

(** The writes whose Artifacts are created in bulk. *)
Definition bulk (records : gmap text record) (w : write) : Prop :=
  w_draft w ≠ None ∧ records !! w_id w = None ∧ w_inputs w = [].

Definition new_item_of (acc : drafting) (w : write) (item : Artifacts.new_item) : Prop :=
  ∃ d v, drafts acc !! w_id w = Some (d, v) ∧ item = (w_id w, d, Some v).

Lemma draft_writes_ok (ws : list write) (records : gmap text record) (ctx : context) sys rs (acc : drafting)
    (s : adb * ext) acc' s' :
  draft_writes repo scope_id ws records ctx sys rs acc s = Ok (acc', s') → NoDup (w_id <$> ws) →
  s'.1 = s.1 ∧ Forall (drafted acc') ws ∧ (∀ i, i ∉ w_id <$> ws → drafts acc' !! i = drafts acc !! i) ∧
  ∃ more, creates acc' = creates acc ++ more ∧
    (∀ item, item ∈ more → ∃ w, w ∈ ws ∧ bulk records w ∧ new_item_of acc' w item) ∧
    (∀ w, w ∈ ws → bulk records w → ∃ item, item ∈ more ∧ new_item_of acc' w item).
Proof.
  revert acc s. induction ws as [|w ws IH]; intros acc s H' Hnd; simpl in H'.
  { apply M_ret_ok in H' as [-> ->]. split_and!; try done. exists [].
    split_and!; [by rewrite app_nil_r|by intros ? ?%not_elem_of_nil..]. }
  rewrite fmap_cons in Hnd. apply NoDup_cons in Hnd as [Hw Hnd]. destruct (w_draft w) as [d|] eqn:Hd.
  - apply M_bind_ok in H' as (target & ? & [_ ->]%lift_ok & H').
    apply M_bind_ok in H' as (sources & ? & [_ ->]%lift_ok & H').
    set (d' := if decide (sources = []) then d else _) in H'.
    assert (Hd' : draft_content d' = draft_content d ∧ draft_family d' = draft_family d ∧
      draft_artifacts d' = draft_artifacts d) by (unfold d'; by destruct (decide (sources = []))).
    apply M_bind_ok in H' as (v & s1 & E1%validate_draft_ok & H').
    apply IH in H' as (E2 & Hall & Hf & more & Hc & Hc1 & Hc2); [|done]. simpl in *.
    assert (Hself : drafts acc' !! w_id w = Some (d', v)) by (rewrite Hf by done; by rewrite lookup_insert_eq).
    split_and!.
    + congruence.
    + constructor; [|done]. intros d0 [= <-]%(eq_trans (eq_sym Hd)). exists d', v. tauto.
    + intros i [Hi Hi']%not_elem_of_cons. rewrite Hf by done. by rewrite lookup_insert_ne.
    + destruct (records !! w_id w) as [c|] eqn:Hr; [|destruct (decide (w_inputs w = [])) as [Hi|Hi]].
      2: { exists ((w_id w, d', Some v) :: more). split_and!.
           - by rewrite Hc, <- app_assoc.
           - intros item [->|Hitem]%elem_of_cons.
             + exists w. split; [left|]. split; [by split; [rewrite Hd|]|]. by exists d', v.
             + destruct (Hc1 _ Hitem) as (w' & ? & ?). exists w'. split; [by right|done].
           - intros w' [->|Hw']%elem_of_cons Hb.
             + exists (w_id w, d', Some v). split; [left|]. by exists d', v.
             + destruct (Hc2 _ Hw' Hb) as (item & ? & ?). exists item. split; [by right|done]. }
      all: exists more; split_and!; [done| |].
      all: try (intros item Hitem; destruct (Hc1 _ Hitem) as (w' & ? & ?); exists w'; split; [by right|done]).
      all: intros w' [->|Hw']%elem_of_cons Hb; [destruct Hb as (_ & ? & ?); congruence|by apply Hc2].
  - apply IH in H' as (E2 & Hall & Hf & more & Hc & Hc1 & Hc2); [|done]. split_and!; [done| | |].
    + constructor; [|done]. by intros d0 ?%(eq_trans (eq_sym Hd)).
    + intros i [Hi Hi']%not_elem_of_cons. by apply Hf.
    + exists more. split_and!; [done| |].
      * intros item Hitem. destruct (Hc1 _ Hitem) as (w' & ? & ?). exists w'. split; [by right|done].
      * intros w' [->|Hw']%elem_of_cons Hb; [by destruct Hb|by apply Hc2].
Qed.

(** ** One write *)

(** Only the head of [i] may have changed. *)
Definition only_head (i : text) (t t' : adb) : Prop := ∀ k, k ≠ key i → a_heads t' !! k = a_heads t !! k.

Definition has_content (t : adb) (w : write) (n : Z) : Prop :=
  ∀ d, w_draft w = Some d → ∃ b, a_bodies t !! (key (w_id w), n) = Some b ∧ body_content b = draft_content d.

Definition new_revision (w : write) : Z := match w_draft w with Some _ => 1 | None => 0 end.

Definition unchanged (w : write) (h : head) : Prop :=
  head_state h = w_state w ∧ head_merged_into h = w_merged_into w ∧ head_replacement h = w_replacement w.
#[local] Instance unchanged_dec w h : Decision (unchanged w h).
Proof. unfold unchanged. apply _. Defined.

(** The references a result freezes, by identity. *)
Context (sel : text → list art_ref).
Notation marked := (Restoration.marked scope_id merge_family).

(** A created merge result marks the selected references of its evidence. *)
Definition has_marks (t : adb) (w : write) : Prop := w_inputs w ≠ [] → ∀ d, w_draft w = Some d →
  is_Some (a_bodies t !! (key (w_id w), 1)) ∧
  marked t (w_id w) = filter (λ r, r ∈ sel (w_id w)) (draft_artifacts d).

(** The identity of a write reached its planned state over the head it had. *)
Definition reached (base : option head) (t : adb) (w : write) : Prop :=
  ∃ h', head_at t (w_id w) = Some h' ∧ unchanged w h' ∧ has_content t w (head_revision h') ∧
    match base with
    | None => head_revision h' = 1 ∧ has_marks t w
    | Some h => head_revision h' = head_revision h + new_revision w ∧
                head_generation h' = head_generation h + (if decide (unchanged w h) then 0 else 1)
    end.

(** A write of the Family's own drafts. *)
Definition typed (w : write) : Prop := ∀ d, w_draft w = Some d → draft_family d = merge_family.

(** What the second loop finds: the current head of a known identity, the fresh
    head of one created in bulk. *)
Definition ready (records : gmap text record) (t : adb) (w : write) : Prop :=
  match records !! w_id w with
  | Some c => ∃ h, head_at t (w_id w) = Some h ∧ rec_state c = governance_of (key (w_id w)) h ∧
                   rec_ref c = mkRef merge_family (w_id w) (head_revision h)
  | None => bulk records w → head_at t (w_id w) = Some Artifacts.new_head ∧ has_content t w 1
  end.

Lemma created_one item t t' :
  Artifacts.created scope_id [item] t t' →
  a_heads t !! head_of scope_id (Artifacts.i_ref item) = None ∧
  a_heads t' = <[head_of scope_id (Artifacts.i_ref item) := Artifacts.new_head]> (a_heads t) ∧
  ∃ b, a_bodies t' !! key_in scope_id (Artifacts.i_ref item) = Some b ∧ body_content b = Artifacts.i_content item.
Proof.
  intros (Hnew & _ & t1 & Hins & ->). split; [by apply (Hnew item); left|]. split; [done|].
  destruct (Artifacts.inserted_lookup _ _ _ _ item Hins) as (Hb & _); [left|]. simpl. eauto.
Qed.

Lemma created_refs item t t' :
  Artifacts.created scope_id [item] t t' →
  a_artifact_refs t' !! key_in scope_id (Artifacts.i_ref item) = Some (Artifacts.new_lineage item).
Proof.
  intros (_ & _ & t1 & Hins & ->).
  destruct (Artifacts.inserted_lookup _ _ _ _ item Hins) as (_ & _ & Hr); [left|]. done.
Qed.

Lemma appended_one item h t t' :
  Artifacts.appended scope_id item h t t' →
  a_heads t' = <[head_of scope_id (Artifacts.i_ref item) :=
                   mkHead (head_revision h + 1) (head_state h) (head_replacement h) (head_merged_into h)
                     (head_generation h)]> (a_heads t) ∧
  ∃ b, a_bodies t' !! key_in scope_id (Artifacts.i_ref item) = Some b ∧ body_content b = Artifacts.i_content item.
Proof.
  intros (_ & _ & _ & t1 & Hins & -> & _). split; [done|].
  destruct (Artifacts.inserted_lookup _ _ _ _ item Hins) as (Hb & _); [left|]. simpl. eauto.
Qed.

(** A revision of a current record, whether or not it was frozen. *)
Lemma revise_record_ok (c : record) d v t a t' h i :
  (if decide (g_merged_into (rec_state c) ≠ None) then
     Artifacts.revise_for_restoration repo scope_id (rec_artifact c) d (rec_state c) v
   else Artifacts.revise repo scope_id (rec_artifact c) d false v) t = Ok (a, t') →
  head_at t i = Some h → rec_ref c = mkRef merge_family i (head_revision h) →
  Artifacts.step repo t t' ∧ only_head i t t' ∧
  head_at t' i = Some (mkHead (head_revision h + 1) (head_state h) (head_replacement h) (head_merged_into h)
                         (head_generation h)) ∧
  ∃ b, a_bodies t' !! (key i, head_revision h + 1) = Some b ∧ body_content b = draft_content d.
Proof.
  intros H' Hh Hc. assert (Artifacts.step repo t t' ∧ ∃ restoration v',
    Artifacts.revise_with repo scope_id (rec_artifact c) d restoration false v' t = Ok (a, t')) as (Hs & g & v' & Hr).
  { destruct (decide (g_merged_into (rec_state c) ≠ None)).
    - split; [by eapply Artifacts.step_restore|]. unfold Artifacts.revise_for_restoration in H'.
      apply M_bind_ok in H' as ([] & ? & [_ ->]%lift_ok & H'). eauto.
    - split; [by eapply Artifacts.step_revise|]. unfold Artifacts.revise in H'. eauto. }
  apply Artifacts.revise_with_ok in Hr as (h' & Happ & _ & _ & _ & _ & _ & _).
  pose proof Happ as (Hh' & _). apply appended_one in Happ as (Eh & b & Hb & Eb).
  unfold rec_ref in Hc. unfold Artifacts.next_revision, head_of, key_in in *. simpl in *. rewrite Hc in *. simpl in *.
  unfold Restoration.head_at in *. rewrite Hh in Hh'. injection Hh' as <-. rewrite Eh.
  split_and!; [done| |by rewrite lookup_insert_eq|eauto].
  intros k Hk. by rewrite Eh, lookup_insert_ne.
Qed.

Lemma store_write_ok (w : write) (records : gmap text record) (acc : drafting) (created : gmap text artifact)
    (inputs : gmap text (list (art_ref * Z))) (ctx : context) (s : adb * ext) ag s' :
  store_write repo scope_id w (records !! w_id w) acc created inputs ctx s = Ok (ag, s') →
  ready records s.1 w → drafted acc w → typed w →
  (∀ ins, inputs !! w_id w = Some ins → ins.*1 = sel (w_id w)) →
  steps s.1 s'.1 ∧ only_head (w_id w) s.1 s'.1 ∧
  ∃ h1, head_at s'.1 (w_id w) = Some h1 ∧ has_content s'.1 w (head_revision h1) ∧
    match records !! w_id w with
    | Some _ => ∃ h, head_at s.1 (w_id w) = Some h ∧
        h1 = mkHead (head_revision h + new_revision w) (head_state h) (head_replacement h) (head_merged_into h)
               (head_generation h)
    | None => h1 = Artifacts.new_head ∧ has_marks s'.1 w ∧ (¬ bulk records w → head_at s.1 (w_id w) = None)
    end.
Proof.
  unfold store_write, ready, new_revision. intros H' Hready Hd Hty Hsel.
  destruct (w_draft w) as [d|] eqn:Ed.
  2: { destruct (records !! w_id w) as [c|]; [|by apply lift_ok in H' as [? _]].
       apply M_ret_ok in H' as [_ ->]. destruct Hready as (h & Hh & _). split; [done|]. split; [done|].
       exists h. split; [done|]. split; [by intros d ?%(eq_trans (eq_sym Ed))|]. exists h. split; [done|].
       rewrite Z.add_0_r. by destruct h. }
  apply M_bind_ok in H' as (dv & ? & [Hdv ->]%lift_ok & H').
  destruct (Hd d Ed) as (d' & v & Hdv' & Ec & Ef & Ea). rewrite Hdv' in Hdv. injection Hdv as <-. simpl in H'.
  destruct (records !! w_id w) as [c|] eqn:Hrec.
  - apply M_bind_ok in H' as (a & s1 & [Ha E2]%on_tables_ok & H'). apply M_ret_ok in H' as [_ ->].
    destruct Hready as (h & Hh & _ & Hc).
    destruct (revise_record_ok _ _ _ _ _ _ _ _ Ha Hh Hc) as (Hs & Ho & Hh' & b & Hb & Eb).
    split; [by apply rtc_once|]. split; [done|]. eexists. split; [done|]. split; [|by exists h].
    intros d0 [= <-]%(eq_trans (eq_sym Ed)). exists b. split; [done|]. congruence.
  - apply M_bind_ok in H' as (a & s1 & Ha & H'). apply M_bind_ok in H' as (g & ? & [_ ->]%lift_ok & H').
    apply M_ret_ok in H' as [_ ->]. destruct (decide (w_inputs w ≠ [])) as [Hi|Hi].
    + apply M_bind_ok in Ha as (ins & ? & [Hins ->]%lift_ok & Ha).
      destruct (inputs !! w_id w) as [ins'|] eqn:Hin; [|done]. injection Hins as ->.
      apply M_bind_ok in Ha as (a' & s2 & [Hm E2]%on_tables_ok & Ha).
      apply M_bind_ok in Ha as ([] & s3 & E3%on_ext_ok & Ha). apply M_bind_ok in Ha as ([] & s4 & E4%on_ext_ok & Ha).
      apply M_ret_ok in Ha as [_ ->]. rewrite E4, E3 in *.
      assert (Hst : Artifacts.step repo s.1 s2.1).
      { by eapply Artifacts.step_merge_result. }
      apply Artifacts.create_merge_result_ok in Hm as (_ & _ & t1 & Hcr & Et). rewrite Et in Hst |- *.
      apply Artifacts.create_ok in Hcr as (_ & Hcr & _). pose proof (created_refs _ _ _ Hcr) as Hrefs.
      apply created_one in Hcr as (Hnone & Eh & b & Hb & Eb).
      unfold head_of, key_in in *. simpl in *. rewrite Ef, (Hty d Ed) in *.
      split; [by apply rtc_once|]. unfold Restoration.head_at. simpl. rewrite Eh.
      split; [intros k Hk; simpl; by rewrite Eh, lookup_insert_ne|].
      exists Artifacts.new_head. rewrite lookup_insert_eq. split; [done|]. split.
      { intros d0 [= <-]%(eq_trans (eq_sym Ed)). exists b. split; [done|]. congruence. }
      split; [done|]. split; [|done]. intros _ d0 [= <-]%(eq_trans (eq_sym Ed)). simpl. split; [by exists b|].
      unfold Restoration.marked, Artifacts.artifact_refs_of. simpl. rewrite lookup_alter_eq, Hrefs. simpl.
      unfold Artifacts.new_lineage. rewrite Artifacts.flagged_refs. simpl. by rewrite Ea, (Hsel ins).
    + apply lift_ok in Ha as [_ ->].
      assert (Hb : bulk records w) by (split; [by rewrite Ed|split; [done|by apply dec_stable]]).
      destruct (Hready Hb) as [Hh Hc]. split; [done|]. split; [done|]. exists Artifacts.new_head.
      split; [done|]. split; [done|]. split; [done|]. split; [|done]. intros Hne. by destruct Hb as (_ & _ & ?).
Qed.

Lemma has_content_steps t t' w n : steps t t' → has_content t w n → has_content t' w n.
Proof.
  intros [[Hk _] _]%Artifacts.steps_ok Hc d Hd. destruct (Hc d Hd) as (b & Hb & Eb).
  exists b. split; [|done]. by apply Hk.
Qed.

Lemma has_marks_steps t t' w : steps t t' → has_marks t w → has_marks t' w.
Proof.
  intros [[Hk _] _]%Artifacts.steps_ok Hm Hi d Hd. destruct (Hm Hi d Hd) as [[b Hb] Em].
  destruct (Hk _ _ Hb) as (Hb' & _ & Er). split; [by exists b|]. rewrite <- Em.
  unfold Restoration.marked, Artifacts.artifact_refs_of. by rewrite Er.
Qed.

(** A transition to the state a head already has does nothing. *)
Lemma transition_same family i g st merged repl t g' t' h :
  transition_merge scope_id family i g st merged repl t = Ok (g', t') →
  a_heads t !! (scope_id, family, i) = Some h →
  head_state h = st → head_merged_into h = merged → head_replacement h = repl → t' = t.
Proof.
  unfold transition_merge, require_summary. intros H' Hh E1 E2 E3.
  apply M_bind_ok in H' as ([] & t1 & ->%prepare_custom_ok & H').
  apply M_bind_ok in H' as ([] & ? & [_ ->]%lift_ok & H').
  apply M_bind_ok in H' as (c & t2 & Hr & H').
  apply M_bind_ok in Hr as (c' & t3 & (-> & h' & Hh' & ->)%governance_get_ok & Hr).
  apply M_bind_ok in Hr as ([] & ? & [Hs%raise_if_ok%dec_stable ->]%lift_ok & Hr). apply M_ret_ok in Hr as [-> ->].
  assert (h' = h) as -> by congruence. destruct Hs as (F1 & F2 & F3 & _). simpl in F1, F2, F3.
  rewrite decide_True in H' by (split_and!; congruence). by apply M_ret_ok in H' as [_ ->].
Qed.

Definition base_head (records : gmap text record) (t : adb) (w : write) : option head :=
  match records !! w_id w with Some _ => head_at t (w_id w) | None => None end.

Lemma commit_write_ok (w : write) (records : gmap text record) (acc : drafting) (created : gmap text artifact)
    (inputs : gmap text (list (art_ref * Z))) (ctx : context) (s : adb * ext) r s' :
  commit_write repo scope_id records acc created inputs ctx w s = Ok (r, s') →
  ready records s.1 w → drafted acc w → typed w →
  (∀ ins, inputs !! w_id w = Some ins → ins.*1 = sel (w_id w)) →
  steps s.1 s'.1 ∧ only_head (w_id w) s.1 s'.1 ∧ reached (base_head records s.1 w) s'.1 w ∧
  (records !! w_id w = None → ¬ bulk records w → head_at s.1 (w_id w) = None).
Proof.
  unfold commit_write. intros H' Hr Hd Hty Hsel. apply M_bind_ok in H' as ([a g] & s1 & Hst & H').
  apply store_write_ok in Hst as (Hs & Ho & h1 & Hh1 & Hc & Hb); [|done..].
  apply M_bind_ok in H' as (g' & s2 & Ht & H'). apply M_ret_ok in H' as [_ ->]. simpl in Ht.
  assert (Hnone : records !! w_id w = None → ¬ bulk records w → head_at s.1 (w_id w) = None).
  { intros Hn. rewrite Hn in Hb. by destruct Hb as (_ & _ & ?). }
  assert (Hbase : match base_head records s.1 w with
    | None => h1 = Artifacts.new_head ∧ has_marks s1.1 w
    | Some h => h1 = mkHead (head_revision h + new_revision w) (head_state h) (head_replacement h)
                       (head_merged_into h) (head_generation h)
    end).
  { unfold base_head. destruct (records !! w_id w); [|by destruct Hb as (? & ? & _)]. by destruct Hb as (h & -> & ->). }
  clear Hb. destruct (decide _) as [Hneed|Hneed].
  - apply on_tables_ok in Ht as [Ht E2]. pose proof Ht as Ht'.
    apply transition_merge_ok in Ht as (h & Hh & _ & _ & _ & _ & _ & _ & Hcase).
    unfold Restoration.head_at in Hh1. rewrite Hh1 in Hh. injection Hh as <-.
    assert (Hun : ∀ h, base_head records s.1 w = Some h → (unchanged w h ↔ unchanged w h1)).
    { intros h Hbh. rewrite Hbh in Hbase. by subst h1. }
    assert (Hgen : ∀ h, base_head records s.1 w = Some h → head_revision h1 = head_revision h + new_revision w ∧
      head_generation h1 = head_generation h).
    { intros h Hbh. rewrite Hbh in Hbase. by subst h1. }
    destruct (decide (unchanged w h1)) as [Hsame|Hsame].
    + pose proof Hsame as (F1 & F2 & F3). rewrite (transition_same _ _ _ _ _ _ _ _ _ _ Ht' Hh1 F1 F2 F3).
      split_and!; try done. exists h1. split_and!; try done.
      destruct (base_head records s.1 w) as [h|] eqn:Hbh; [|by destruct Hbase as [-> ?]].
      rewrite decide_True by (by apply (Hun h)). destruct (Hgen h eq_refl). lia.
    + destruct Hcase as [(F1 & F2 & F3 & _)|(_ & Htr & _)]; [by destruct Hsame|].
      assert (Ht1 : Artifacts.step repo s1.1 s2.1) by (eapply Artifacts.step_transition_merge; exact Ht').
      rewrite Htr. split_and!; [| | |done].
      * rewrite <- Htr. by eapply rtc_r.
      * intros k Hk. simpl. rewrite lookup_insert_ne by done. by apply Ho.
      * eexists. unfold Restoration.head_at. simpl. rewrite lookup_insert_eq. split; [done|].
        split; [done|]. split; [done|]. simpl.
        destruct (base_head records s.1 w) as [h|] eqn:Hbh.
        2: { destruct Hbase as [-> Hmk]. split; [done|]. rewrite <- Htr. by eapply has_marks_steps, Hmk; apply rtc_once. }
        rewrite decide_False by (by intros ?%(Hun h)). destruct (Hgen h eq_refl). lia.
  - apply M_ret_ok in Ht as [_ ->]. split_and!; try done. exists h1. split_and!; try done.
    all: assert (Hn : records !! w_id w = None) by (apply dec_stable; tauto).
    all: assert (base_head records s.1 w = None) as Hbn by (unfold base_head; by rewrite Hn).
    all: rewrite Hbn in Hbase; rewrite ?Hbn; destruct Hbase as [-> Hmk]; simpl.
    + unfold unchanged. simpl. split_and!; symmetry; apply dec_stable; tauto.
    + done.
Qed.

(** ** All writes of a group *)

Lemma ready_steps records t t' w :
  steps t t' → head_at t' (w_id w) = head_at t (w_id w) → ready records t w → ready records t' w.
Proof.
  intros Hs Eh. unfold ready. rewrite Eh. destruct (records !! w_id w); [done|].
  intros Hr Hb. destruct (Hr Hb) as [? Hc]. split; [done|]. by eapply has_content_steps.
Qed.

Lemma reached_steps base t t' w :
  steps t t' → head_at t' (w_id w) = head_at t (w_id w) → reached base t w → reached base t' w.
Proof.
  intros Hs Eh (h' & Hh & Hu & Hc & Hb). exists h'. rewrite Eh. split_and!; try done; [by eapply has_content_steps|].
  destruct base; [done|]. destruct Hb as [? ?]. split; [done|]. by eapply has_marks_steps.
Qed.

(** Only the heads of the written identities may have changed. *)
Definition frame (ids : list text) (t t' : adb) : Prop :=
  ∀ k, (∀ i, i ∈ ids → k ≠ key i) → a_heads t' !! k = a_heads t !! k.

Lemma frame_head ids t t' i : frame ids t t' → i ∉ ids → head_at t' i = head_at t i.
Proof. intros Hf Hi. apply Hf. by intros j Hj [= ->]. Qed.

Lemma commit_each_ok (ws : list write) (records : gmap text record) (acc : drafting) (created : gmap text artifact)
    (inputs : gmap text (list (art_ref * Z))) (ctx : context) (out : dict text record) (s : adb * ext) out' s' :
  commit_each repo scope_id records acc created inputs ctx ws out s = Ok (out', s') →
  NoDup (w_id <$> ws) → Forall (ready records s.1) ws → Forall (drafted acc) ws → Forall typed ws →
  Forall (λ w, ∀ ins, inputs !! w_id w = Some ins → ins.*1 = sel (w_id w)) ws →
  steps s.1 s'.1 ∧ frame (w_id <$> ws) s.1 s'.1 ∧
  Forall (λ w, reached (base_head records s.1 w) s'.1 w) ws ∧
  Forall (λ w, records !! w_id w = None → ¬ bulk records w → head_at s.1 (w_id w) = None) ws.
Proof.
  revert out s. induction ws as [|w ws IH]; intros out s H' Hnd Hr Hd Hty Hsel; simpl in H'.
  { apply M_ret_ok in H' as [-> ->]. split_and!; constructor || done. }
  apply M_bind_ok in H' as (r & s1 & Hw & H'). rewrite fmap_cons in Hnd. apply NoDup_cons in Hnd as [Hnin Hnd].
  apply Forall_cons in Hr as [Hr1 Hr], Hd as [Hd1 Hd], Hty as [Ht1 Hty], Hsel as [Hs0 Hsel].
  apply commit_write_ok in Hw as (Hs1 & Ho & Hre & Hn); [|done..].
  assert (Hsame : ∀ w', w' ∈ ws → head_at s1.1 (w_id w') = head_at s.1 (w_id w')).
  { intros w' Hw'. apply Ho. intros [= E']. apply Hnin. rewrite <- E'. by apply list_elem_of_fmap_2. }
  apply IH in H' as (Hs2 & Hf & Hre2 & Hn2); [|done| |done..].
  2: { rewrite Forall_forall in Hr |- *. intros w' Hw'. eapply ready_steps; [done|by apply Hsame|by apply Hr]. }
  split_and!.
  - by etrans.
  - intros k Hk. rewrite Hf; [apply Ho, Hk; left|]. intros i Hi. apply Hk. by right.
  - constructor.
    + eapply reached_steps; [done|by eapply frame_head|done].
    + rewrite Forall_forall in Hre2 |- *. intros w' Hw'. unfold base_head in *. rewrite <- Hsame by done. by apply Hre2.
  - constructor; [done|]. rewrite Forall_forall in Hn2 |- *. intros w' Hw'. rewrite <- Hsame by done. by apply Hn2.
Qed.

(** Bulk creation: the fresh heads, one per created Artifact. *)
Lemma create_bulk_ok (items : list Artifacts.new_item) t l t' :
  Artifacts.create_many repo scope_id items false t = Ok (l, t') →
  (∀ i, i ∈ items → draft_family i.1.2 = merge_family) →
  steps t t' ∧ frame ((λ i : Artifacts.new_item, i.1.1) <$> items) t t' ∧
  (∀ i, i ∈ items → head_at t i.1.1 = None ∧ head_at t' i.1.1 = Some Artifacts.new_head ∧
     ∃ b, a_bodies t' !! (key i.1.1, 1) = Some b ∧ body_content b = draft_content i.1.2).
Proof.
  intros H' Hfam. split; [apply rtc_once; by eapply Artifacts.step_create|].
  apply Artifacts.create_many_ok in H' as (_ & (Hnew & Hnd & t1 & Hins & ->) & _).
  assert (Hkey : ∀ i, i ∈ items → head_of scope_id (Artifacts.i_ref (Artifacts.first_revision i)) = key i.1.1).
  { intros i Hi. unfold head_of. simpl. by rewrite Hfam. }
  split.
  - intros k Hk. simpl. apply Artifacts.puts_other. intros Hin.
    apply list_elem_of_fmap in Hin as (x & -> & Hx). apply list_elem_of_fmap in Hx as (i & -> & Hi).
    apply (Hk i.1.1); [|by apply Hkey]. apply list_elem_of_fmap. by exists i.
  - intros i Hi. assert (Hx : Artifacts.first_revision i ∈ Artifacts.first_revision <$> items).
    { apply list_elem_of_fmap. by exists i. }
    destruct (Hnew _ Hx) as [_ Hnone]. destruct (Artifacts.inserted_lookup _ _ _ _ _ Hins Hx) as (Hb & _).
    unfold Restoration.head_at. rewrite <- (Hkey i Hi). split; [done|]. simpl. split.
    + pose proof (Artifacts.puts_elem (λ i, head_of scope_id (Artifacts.i_ref i)) (λ _, Artifacts.new_head)
        (Artifacts.first_revision <$> items) (a_heads t) _ Hnd Hx) as Hp. exact Hp.
    + eexists. split; [exact Hb|]. done.
Qed.

Lemma NoDup_fmap_inj {A B} (f : A → B) (l : list A) x y :
  NoDup (f <$> l) → x ∈ l → y ∈ l → f x = f y → x = y.
Proof.
  induction l as [|z l IH]; [by intros _ ?%not_elem_of_nil|]. rewrite fmap_cons. intros [Hz Hnd]%NoDup_cons.
  intros [->|Hx]%elem_of_cons [->|Hy]%elem_of_cons Heq; try done; [| |by apply IH]; destruct Hz.
  - rewrite Heq. by apply list_elem_of_fmap_2.
  - rewrite <- Heq. by apply list_elem_of_fmap_2.
Qed.

(** The records in hand are current for the identities of the writes. *)
Definition known (records : gmap text record) (t : adb) (w : write) : Prop :=
  ∀ c, records !! w_id w = Some c → ∃ h, head_at t (w_id w) = Some h ∧
    rec_state c = governance_of (key (w_id w)) h ∧ rec_ref c = mkRef merge_family (w_id w) (head_revision h).

(** What is written without a record in hand is new. *)
Definition fresh (records : gmap text record) (t : adb) (w : write) : Prop :=
  records !! w_id w = None → head_at t (w_id w) = None.

(** Every write reached its planned state, nothing else did anything. *)
Definition effect (ws : list write) (t t' : adb) : Prop :=
  steps t t' ∧ frame (w_id <$> ws) t t' ∧ Forall (λ w, reached (head_at t (w_id w)) t' w) ws.

Lemma publish_records_ok records given b ctx (s : adb * ext) u s' :
  publish_records scope_id records given b ctx s = Ok (u, s') → s'.1 = s.1.
Proof.
  unfold publish_records. destruct b.
  - intros H'. apply M_bind_ok in H' as (items & ? & [_ ->]%lift_ok & H'). by apply on_ext_ok in H'.
  - intros H'. destruct u. eapply (for_each_preserves (λ x, x.1 = s.1)); [|done|exact H'].
    intros [i r] x u x' _ Hx Hm. simpl in Hm. destruct (decide _).
    + destruct (dget i given); [|by apply lift_ok in Hm as [? _]]. apply on_ext_ok in Hm. congruence.
    + apply on_ext_ok in Hm. congruence.
Qed.

Lemma commit_writes_ok (ws : list write) (records : gmap text record) (given : dict text projection) (ctx : context)
    sys inputs rs (s : adb * ext) out s' :
  commit_writes repo scope_id ws records given ctx sys inputs rs s = Ok (out, s') →
  NoDup (w_id <$> ws) → Forall (known records s.1) ws → Forall typed ws →
  Forall (λ w, ∀ ins : list (art_ref * Z), inputs !! w_id w = Some ins → ins.*1 = sel (w_id w)) ws →
  effect ws s.1 s'.1 ∧ Forall (fresh records s.1) ws.
Proof.
  unfold commit_writes. intros H' Hnd Hk Hty Hsel. rewrite !Forall_forall in Hk, Hty.
  apply M_bind_ok in H' as (acc & s1 & (E1 & Hd & _ & items & Hc & Hc1 & Hc2)%draft_writes_ok & H'); [|done].
  simpl in Hc. rewrite Forall_forall in Hd.
  apply M_bind_ok in H' as ([] & s2 & E2%on_ext_ok & H').
  apply M_bind_ok in H' as (l & s3 & [Hcr Ex]%on_tables_ok & H'). rewrite E2, E1, Hc in Hcr.
  assert (Hitem : ∀ item, item ∈ items → ∃ w d, w ∈ ws ∧ bulk records w ∧ w_draft w = Some d ∧ item.1.1 = w_id w ∧
    draft_content item.1.2 = draft_content d ∧ draft_family item.1.2 = merge_family).
  { intros item Hi. destruct (Hc1 _ Hi) as (w & Hw & Hb & d' & v & Hdr & ->). pose proof Hb as (Hsome & _).
    destruct (w_draft w) as [d|] eqn:Ed; [|done]. destruct (Hd w Hw d Ed) as (d'' & v' & Hdr' & Ec & Ef & _).
    rewrite Hdr in Hdr'. injection Hdr' as <- <-. exists w, d. split_and!; try done. simpl. rewrite Ef. by eapply Hty. }
  destruct (create_bulk_ok _ _ _ _ Hcr) as (Hs & Hf & Hnew).
  { intros i Hi. by destruct (Hitem _ Hi) as (w & d & _ & _ & _ & _ & _ & ?). }
  assert (Hsame : ∀ w, w ∈ ws → ¬ bulk records w → head_at s3.1 (w_id w) = head_at s.1 (w_id w)).
  { intros w Hw Hnb. eapply frame_head; [done|]. intros Hin.
    apply list_elem_of_fmap in Hin as (item & Ei & Hi). destruct (Hitem _ Hi) as (w' & d & Hw' & Hb & _ & Ei' & _).
    assert (w = w') as ->; [|done]. apply (NoDup_fmap_inj w_id ws); [done..|congruence]. }
  apply M_bind_ok in H' as ([] & s4 & Hown & H').
  assert (E4 : s4.1 = s3.1).
  { destruct (decide _); [by apply M_ret_ok in Hown as [_ ->]|by apply on_ext_ok in Hown]. }
  apply M_bind_ok in H' as (outs & s5 & Hce & H'). apply M_bind_ok in H' as ([] & s6 & E6%publish_records_ok & H').
  apply M_ret_ok in H' as [-> ->].
  assert (Hbulk : ∀ w, w ∈ ws → bulk records w → head_at s.1 (w_id w) = None ∧
    head_at s3.1 (w_id w) = Some Artifacts.new_head ∧ has_content s3.1 w 1).
  { intros w Hw Hb. destruct (Hc2 w Hw Hb) as (item & Hi & d' & v & Hdr & ->).
    destruct (Hnew _ Hi) as (Hn & Hh & b & Hbb & Eb). simpl in *. split; [done|]. split; [done|].
    intros d Ed. destruct (Hd w Hw d Ed) as (d'' & v' & Hdr' & Ec & _). rewrite Hdr in Hdr'.
    injection Hdr' as <- <-. exists b. split; [done|]. congruence. }
  apply commit_each_ok in Hce as (Hs2 & Hf2 & Hre & Hn); [|done| | | |done]; rewrite ?E4 in *.
  2: { apply Forall_forall. intros w Hw. unfold ready. destruct (records !! w_id w) as [c|] eqn:Hrec.
       - destruct (Hk w Hw c Hrec) as (h & Hh & Es & Er). exists h. split; [|done]. rewrite Hsame; [done|done|].
         by intros (_ & ? & _); congruence.
       - intros Hb. by apply Hbulk. }
  2: by apply Forall_forall.
  2: by apply Forall_forall.
  assert (Hfresh : ∀ w, w ∈ ws → fresh records s.1 w).
  { intros w Hw Hrec. destruct (decide (w_draft w ≠ None ∧ w_inputs w = [])) as [Hb|Hb].
    - by destruct (Hbulk w Hw) as [-> _]; [by split; [|split]; try apply Hb|].
    - assert (Hnb : ¬ bulk records w) by (intros (? & _ & ?); tauto).
      rewrite <- Hsame by done. rewrite Forall_forall in Hn. by apply Hn. }
  rewrite E6. split; [split_and!|by apply Forall_forall].
  - by etrans.
  - intros k Hkey. rewrite Hf2 by done. apply Hf. intros i Hi. apply list_elem_of_fmap in Hi as (item & -> & Hi).
    destruct (Hitem _ Hi) as (w & d & Hw & _ & _ & -> & _). apply Hkey. by apply list_elem_of_fmap_2.
  - rewrite Forall_forall in Hre, Hn |- *. intros w Hw. specialize (Hre w Hw). specialize (Hn w Hw).
    unfold base_head in Hre. destruct (records !! w_id w) as [c|] eqn:Hrec.
    + rewrite <- Hsame; [done|done|]. intros (_ & ? & _). congruence.
    + by rewrite (Hfresh w Hw Hrec).
Qed.

(** ** Groups and windows *)

Lemma coherent_known records t w : Restoration.coherent scope_id merge_family t records → known records t w.
Proof.
  intros Hr c Hc. destruct (Hr _ _ Hc) as (h & Hh & Es & Est & _). exists h. split_and!; try done.
Qed.

Lemma known_head records t t' w :
  head_at t' (w_id w) = head_at t (w_id w) → known records t w → known records t' w.
Proof. intros Eh Hk c Hc. rewrite Eh. by apply Hk. Qed.

Lemma effect_app ws1 ws2 t t1 t2 :
  effect ws1 t t1 → effect ws2 t1 t2 → NoDup (w_id <$> ws1 ++ ws2) → effect (ws1 ++ ws2) t t2.
Proof.
  intros (Hs1 & Hf1 & Hr1) (Hs2 & Hf2 & Hr2) Hnd. rewrite fmap_app, NoDup_app in Hnd. destruct Hnd as (_ & Hd & _).
  split_and!.
  - by etrans.
  - intros k Hk. rewrite fmap_app in Hk. rewrite Hf2, Hf1; [done|..]; intros i Hi; apply Hk, elem_of_app; auto.
  - apply Forall_app. rewrite !Forall_forall in *. split; intros w Hw.
    + eapply reached_steps; [done| |by apply Hr1]. eapply frame_head; [done|]. by apply Hd, list_elem_of_fmap_2.
    + rewrite <- (frame_head _ _ _ _ Hf1); [by apply Hr2|]. intros Hin. apply (Hd _ Hin). by apply list_elem_of_fmap_2.
Qed.

Lemma effect_after ws t t1 t2 :
  steps t t1 → a_heads t1 = a_heads t → effect ws t1 t2 → effect ws t t2.
Proof.
  intros Hs Eh (Hs2 & Hf & Hr). split_and!; [by etrans| |].
  - intros k Hk. rewrite Hf by done. by rewrite Eh.
  - rewrite Forall_forall in Hr |- *. intros w Hw. specialize (Hr w Hw). unfold Restoration.head_at in *. by rewrite <- Eh.
Qed.

Lemma record_restoration_ok p records (s : adb * ext) x s' :
  record_restoration repo p records s = Ok (x, s') → steps s.1 s'.1 ∧ a_heads s'.1 = a_heads s.1.
Proof.
  unfold record_restoration. destruct (decide _); [by intros [_ ->]%M_ret_ok|]. intros H'.
  apply M_bind_ok in H' as ([] & ? & [_ ->]%lift_ok & H'). apply M_bind_ok in H' as (ws & ? & [_ ->]%lift_ok & H').
  apply M_bind_ok in H' as (tg & ? & [_ ->]%lift_ok & H'). apply M_bind_ok in H' as (un & ? & [_ ->]%lift_ok & H').
  apply M_bind_ok in H' as (pr & ? & [_ ->]%lift_ok & H'). apply M_bind_ok in H' as (pl & s1 & Hpl & H').
  injection Hpl as _ E1. apply M_bind_ok in H' as (r & s2 & Hadd & H'). apply M_ret_ok in H' as [_ ->].
  unfold add_source in Hadd. destruct (Journal.add _ _ _) as [[st q]|]; [|done]. injection Hadd as _ <-.
  simpl. subst s1. simpl. split; [|done]. apply rtc_once.
  apply (Artifacts.step_environment repo s.1 (a_now s.1) (a_rollback s.1) (p_sources q) (a_publications s.1)).
Qed.

Notation writes_of group := (group ≫= λ x : prepared projection * option source_ref, plan_writes (prepared_plan x.1)).

Lemma gather_writes p direct restoration acc ws :
  gathered_writes (foldl (gather_write p direct restoration) acc ws) = gathered_writes acc ++ ws.
Proof.
  revert acc. induction ws as [|w ws IH]; intros acc; [by rewrite app_nil_r|].
  change (foldl (gather_write p direct restoration) acc (w :: ws)) with
    (foldl (gather_write p direct restoration) (gather_write p direct restoration acc w) ws).
  rewrite IH. simpl. by rewrite <- app_assoc.
Qed.

Lemma gather_ok group records acc (s : adb * ext) acc' s' :
  gather repo group records acc s = Ok (acc', s') →
  steps s.1 s'.1 ∧ a_heads s'.1 = a_heads s.1 ∧
  gathered_writes acc' = gathered_writes acc ++ writes_of group.
Proof.
  revert acc s. induction group as [|[item direct] group IH]; intros acc s H'; simpl in H'.
  - apply M_ret_ok in H' as [-> ->]. by rewrite app_nil_r.
  - apply M_bind_ok in H' as (x & s1 & [Hs1 E1]%record_restoration_ok & H').
    apply IH in H' as (Hs2 & E2 & ->). rewrite gather_writes. split_and!; [by etrans|congruence|].
    simpl. by rewrite <- app_assoc.
Qed.

(** The references selected for each result are those its plan read. *)
Definition selects (p : plan) : Prop := Forall (λ w,
  sel (w_id w) = read_ref <$> filter (λ r, ref_id (read_ref r) ∈ w_inputs w) (plan_reads p)) (plan_writes p).

Lemma gather_inputs group records acc (s : adb * ext) acc' s' :
  gather repo group records acc s = Ok (acc', s') →
  Forall (λ x : prepared projection * option source_ref, selects (prepared_plan x.1)) group →
  (∀ i ins, gathered_inputs acc !! i = Some ins → ins.*1 = sel i) →
  ∀ i ins, gathered_inputs acc' !! i = Some ins → ins.*1 = sel i.
Proof.
  revert acc s. induction group as [|[item direct] group IH]; intros acc s H' Hsel Hacc; simpl in H'.
  { by apply M_ret_ok in H' as [-> ->]. }
  apply M_bind_ok in H' as (x & s1 & _ & H'). apply Forall_cons in Hsel as [Hp Hsel].
  unfold selects in Hp. simpl in Hp. refine (IH _ _ H' Hsel _).
  match goal with |- context [foldl _ ?a _] => assert (Ha : ∀ i ins, gathered_inputs a !! i = Some ins → ins.*1 = sel i)
    by exact Hacc; revert Ha; generalize a end.
  clear -Hp. induction (plan_writes (prepared_plan item)) as [|w ws IH]; intros a Ha; [exact Ha|].
  apply Forall_cons in Hp as [Hw Hp]. simpl. apply IH; [done|]. simpl.
  intros i ins [[<- <-]|[_ ?]]%lookup_insert_Some; [|by apply Ha].
  rewrite Hw, <- list_fmap_compose. done.
Qed.

Lemma commit_locked_ok group records ctx rs (s : adb * ext) l s' :
  commit_locked repo scope_id group records ctx rs s = Ok (l, s') →
  NoDup (w_id <$> writes_of group) → Forall (known records s.1) (writes_of group) → Forall typed (writes_of group) →
  Forall (λ x : prepared projection * option source_ref, selects (prepared_plan x.1)) group →
  effect (writes_of group) s.1 s'.1 ∧ Forall (fresh records s.1) (writes_of group) ∧ length l = length group.
Proof.
  unfold commit_locked. intros H' Hnd Hk Hty Hsel. destruct (decide (length group = 0%nat)) as [Hl|Hl].
  { destruct group; [|done]. apply M_ret_ok in H' as [-> ->].
    split_and!; [split_and!; [done|done|constructor]|constructor|done]. }
  apply M_bind_ok in H' as (acc & s1 & Hg & H'). pose proof Hg as (Hs1 & E1 & Ew)%gather_ok. simpl in Ew.
  apply M_bind_ok in H' as (out & s2 & Hc & H'). apply lift_ok in H' as [Hm ->]. rewrite Ew in Hc.
  apply commit_writes_ok in Hc as [Hc Hfresh]; [|done| |done|].
  2: { rewrite Forall_forall in Hk |- *. intros w Hw. eapply known_head; [|by apply Hk].
       unfold Restoration.head_at. by rewrite E1. }
  2: { apply Forall_forall. intros w _. by eapply gather_inputs. }
  split; [by eapply effect_after|]. split.
  { eapply Forall_impl; [exact Hfresh|]. intros w Hw. unfold fresh, Restoration.head_at in *. by rewrite <- E1. }
  apply map_result_ok, Forall2_length in Hm. rewrite <- Hm, length_zip.
  assert (Hr : length (gathered_restorations acc) = length group); [|lia].
  clear -Hg. change (length group) with (length (gathered_restorations (mkGathered [] [] ∅ ∅ [] : gathered)) + length group)%nat.
  revert s Hg. generalize (mkGathered [] [] ∅ ∅ [] : gathered). induction group as [|[item direct] group IH]; intros a s Hg; simpl in Hg.
  - apply M_ret_ok in Hg as [-> _]. simpl. lia.
  - apply M_bind_ok in Hg as (x & s3 & _ & Hg). apply IH in Hg. rewrite Hg.
    assert (Hf : ∀ ws b, gathered_restorations (foldl (gather_write (prepared_plan item) direct x) b ws) =
      gathered_restorations b).
    { intros ws. induction ws as [|w ws IHw]; intros b; [done|]. simpl. by rewrite IHw. }
    rewrite Hf. simpl. rewrite length_app. simpl. lia.
Qed.

Lemma commit_groups_ok groups records ctx rs (s : adb * ext) l s' :
  commit_groups repo scope_id groups records ctx rs s = Ok (l, s') →
  NoDup (w_id <$> writes_of (concat groups)) → Forall (known records s.1) (writes_of (concat groups)) →
  Forall typed (writes_of (concat groups)) →
  Forall (λ x : prepared projection * option source_ref, selects (prepared_plan x.1)) (concat groups) →
  effect (writes_of (concat groups)) s.1 s'.1 ∧ Forall (fresh records s.1) (writes_of (concat groups)) ∧
  length l = length (concat groups).
Proof.
  revert s l. induction groups as [|g groups IH]; intros s l H' Hnd Hk Hty Hsel; simpl in H'.
  { apply M_ret_ok in H' as [-> ->]. split_and!; [split_and!; [done|done|constructor]|constructor|done]. }
  apply M_bind_ok in H' as (l1 & s1 & H1' & H'). apply M_bind_ok in H' as (l2 & s2 & H2' & H').
  apply M_ret_ok in H' as [-> ->]. simpl in *. rewrite bind_app in *. pose proof Hnd as Hnd'.
  rewrite fmap_app, NoDup_app in Hnd. destruct Hnd as (Hn1 & Hdis & Hn2).
  apply Forall_app in Hk as [Hk1 Hk2], Hty as [Ht1 Ht2], Hsel as [Hsel1 Hsel2].
  apply commit_locked_ok in H1' as (He1 & Hf1 & Hl1); [|done..].
  apply IH in H2' as (He2 & Hf2 & Hl2); [|done| |done..].
  - split; [by eapply effect_app|]. split; [|rewrite !length_app; lia]. apply Forall_app. split; [done|].
    rewrite Forall_forall in Hf2 |- *. intros w Hw Hrec. destruct He1 as (_ & Hf & _).
    rewrite <- (frame_head _ _ _ _ Hf); [by apply Hf2|]. intros Hin. apply (Hdis _ Hin). by apply list_elem_of_fmap_2.
  - rewrite Forall_forall in Hk2 |- *. intros w Hw. eapply known_head; [|by apply Hk2].
    destruct He1 as (_ & Hf & _). eapply frame_head; [done|]. intros Hin. apply (Hdis _ Hin). by apply list_elem_of_fmap_2.
Qed.

Lemma require_write_current p reads_ w u c :
  require_write p reads_ w = Ok u → w_current w = Some c → reads_ !! w_id w = Some (as_read c).
Proof.
  unfold require_write. intros H' Hc. rewrite Hc in H'.
  apply result_bind_ok in H' as ([] & Hr & _). apply result_bind_ok in Hr as ([] & _ & Hr%raise_if_ok).
  by apply dec_stable.
Qed.

Lemma require_plan_ok p u :
  require_plan p = Ok u → NoDup (w_id <$> plan_writes p) ∧
  ∀ w c, w ∈ plan_writes p → w_current w = Some c → as_read c ∈ plan_reads p.
Proof.
  unfold require_plan. intros ([] & Hnd%raise_if_ok & H')%result_bind_ok. split; [by apply dec_stable|].
  apply result_bind_ok in H' as (l & [Hl _]%unique_reads_ok & H'). apply check_each_ok in H'.
  rewrite Forall_forall in H'. intros w c Hw Hc. specialize (H' w Hw).
  apply (require_write_current _ _ _ _ c) in H'; [|done]. apply elem_of_list_to_map_2 in H'.
  apply list_elem_of_fmap in H' as (r & [= _ ->] & Hr). by apply Hl.
Qed.

Lemma require_window_ok subject_ plans identities u :
  require_window scope_id subject_ plans identities = Ok u →
  NoDup (w_id <$> (plans ≫= plan_writes)) ∧
  (∀ i, i ∈ w_id <$> (plans ≫= plan_writes) → i ∉ identities) ∧
  Forall (λ p, plan_scope p = scope_id ∧ plan_subject p = subject_ ∧ require_plan p = Ok tt) plans.
Proof.
  clear sel.
  revert identities. induction plans as [|p plans IH]; intros identities H'; simpl in H'.
  { split_and!; [constructor|by intros ? ?%not_elem_of_nil|done]. }
  apply result_bind_ok in H' as ([] & Hs%raise_if_ok & H'). apply result_bind_ok in H' as ([] & Hp & H').
  apply result_bind_ok in H' as ([] & Hd%raise_if_ok & H'). apply IH in H' as (Hnd & Hout & Hall).
  destruct (require_plan_ok _ _ Hp) as [Hndp _]. rewrite Exists_exists in Hd.
  assert (Hpout : ∀ i, i ∈ w_id <$> plan_writes p → i ∉ identities).
  { intros i Hi Hin. apply list_elem_of_fmap in Hi as (w & -> & Hw). apply Hd. by exists w. }
  simpl. rewrite fmap_app. split_and!.
  - apply NoDup_app. split_and!; [done| |done]. intros i Hi Hi'. apply (Hout i Hi'). apply elem_of_app. by right.
  - intros i [Hi|Hi]%elem_of_app; [by apply Hpout|]. intros Hin. apply (Hout i Hi). apply elem_of_app. by left.
  - constructor; [|done]. split_and!; [apply dec_stable; tauto..|done].
Qed.

Lemma validate_previews_ok plans ctx (s : adb * ext) u s' :
  for_each (λ p, validate_preview repo p ctx) plans s = Ok (u, s') → s'.1 = s.1.
Proof.
  intros H'. destruct u. eapply (for_each_preserves (λ x, x.1 = s.1)); [|done|exact H'].
  intros p x u x' _ Hx Hm. unfold validate_preview in Hm. destruct (plan_token p) as [t|]; [|by apply M_ret_ok in Hm as [_ ->]].
  apply M_bind_ok in Hm as (e & x1 & [-> _]%validate_token_ok & Hm).
  apply M_bind_ok in Hm as (c & x2 & (E1 & _)%get_current_ok & Hm). apply lift_ok in Hm as [_ ->]. congruence.
Qed.

Context `{!EnvironmentLaws E}.

(** Restorations come out the same under the locks. *)
Definition verified (ctx : context) (t : adb) (p : plan) : Prop :=
  restores (plan_operation p) → ∃ x y, x.1 = t ∧
    inspect_restore repo scope_id (plan_primary p) ctx (plan_operation p) (plan_target_revision p) (plan_token p) x
    = Ok (p, y).

Lemma verify_restorations_ok ctx plans (s : adb * ext) u s' :
  for_each (verify_restoration repo scope_id ctx) plans s = Ok (u, s') →
  s'.1 = s.1 ∧ Forall (verified ctx s.1) plans.
Proof.
  revert s. induction plans as [|p plans IH]; intros s H'; simpl in H'; [by apply M_ret_ok in H' as [_ ->]|].
  apply M_bind_ok in H' as ([] & s1 & Hv & H'). apply IH in H' as [E2 Hall].
  assert (s1.1 = s.1 ∧ verified ctx s.1 p) as [E1 Hp].
  { unfold verify_restoration in Hv. unfold verified. destruct (decide (restores (plan_operation p))) as [Hr|Hr].
    - apply M_bind_ok in Hv as (q & s2 & Hq & Hv). apply lift_ok in Hv as [Hv%raise_if_ok%dec_stable ->]. subst q.
      split; [by apply inspect_restore_ok in Hq as [? _]|]. intros _. eauto.
    - apply M_ret_ok in Hv as [_ ->]. by split. }
  rewrite E1 in *. split; [done|]. by constructor.
Qed.

End commit.

(** The references selected for each result of a window. *)
Definition selected_of (plans : list plan) (i : text) : list art_ref :=
  p ← plans; w ← filter (λ w, w_id w = i) (plan_writes p);
  read_ref <$> filter (λ r, ref_id (read_ref r) ∈ w_inputs w) (plan_reads p).

Lemma filter_id (ws : list write) w :
  NoDup (w_id <$> ws) → w ∈ ws → filter (λ x, w_id x = w_id w) ws = [w].
Proof.
  induction ws as [|x ws IH]; [by intros _ ?%not_elem_of_nil|]. rewrite fmap_cons. intros [Hx Hnd]%NoDup_cons.
  rewrite filter_cons. intros [->|Hw]%elem_of_cons.
  - rewrite decide_True by done. f_equal. apply filter_none. intros y Hy Heq. apply Hx. rewrite <- Heq.
    by apply list_elem_of_fmap_2.
  - rewrite decide_False; [by apply IH|]. intros Heq. apply Hx. rewrite Heq. by apply list_elem_of_fmap_2.
Qed.

Lemma selected_of_selects plans :
  NoDup (w_id <$> (plans ≫= plan_writes)) → Forall (selects (selected_of plans)) plans.
Proof.
  intros Hnd. apply Forall_forall. intros p Hp. apply Forall_forall. intros w Hw.
  induction plans as [|q plans IH]; [by apply not_elem_of_nil in Hp|].
  simpl in Hnd. rewrite fmap_app, NoDup_app in Hnd. destruct Hnd as (Hnd1 & Hdis & Hnd2).
  unfold selected_of. simpl. apply elem_of_cons in Hp as [->|Hp].
  - rewrite (filter_id _ w) by done. simpl. rewrite app_nil_r.
    match goal with |- _ ++ ?l = _ => assert (l = []) as ->; [|by rewrite app_nil_r] end.
    assert (Hout : ∀ x, x ∈ plans ≫= plan_writes → w_id x ≠ w_id w).
    { intros x Hx Heq. apply (Hdis (w_id w)); [by apply list_elem_of_fmap_2|]. rewrite <- Heq.
      by apply list_elem_of_fmap_2. }
    clear -Hout. induction plans as [|q' plans IH]; [done|]. simpl in *.
    rewrite filter_none by (intros x Hx; apply Hout, elem_of_app; by left). simpl.
    apply IH. intros x Hx. apply Hout, elem_of_app. by right.
  - rewrite filter_none; [by apply IH|]. intros x Hx Heq.
    apply (Hdis (w_id x)); [by apply list_elem_of_fmap_2|]. rewrite Heq.
    apply list_elem_of_fmap_2, list_elem_of_bind. eauto.
Qed.

Section window.
Context (repo : Artifacts.repository) `{CustomIndex} `{Journal.SourceRegistry} (E : Environment).
Context (scope_id : text) `{!EnvironmentLaws E}.

Notation holds := (holds E scope_id).
Notation typed := (typed E).
Notation effect := (effect repo E scope_id).
Notation verified := (verified repo E scope_id).
Notation writes_of group := (group ≫= λ x : prepared projection * option source_ref, plan_writes (prepared_plan x.1)).

(** All that a committed window says of the tables. *)
Lemma commit_window_ok items ctx read_set direct directs rs (s : adb * ext) results s' :
  commit_window repo scope_id items ctx read_set direct directs rs s = Ok (results, s') →
  Forall typed ((prepared_plan <$> items) ≫= plan_writes) →
  (∀ r, r ∈ read_set ++ ((prepared_plan <$> items) ≫= plan_reads) → holds s.1 r) ∧
  (∀ w c, w ∈ (prepared_plan <$> items) ≫= plan_writes → w_current w = Some c → holds s.1 (as_read c)) ∧
  Forall (verified ctx s.1) (prepared_plan <$> items) ∧
  NoDup (w_id <$> ((prepared_plan <$> items) ≫= plan_writes)) ∧
  effect (selected_of (prepared_plan <$> items)) ((prepared_plan <$> items) ≫= plan_writes) s.1 s'.1 ∧
  (∀ w, w ∈ (prepared_plan <$> items) ≫= plan_writes →
     (∀ r, r ∈ read_set ++ ((prepared_plan <$> items) ≫= plan_reads) → ref_id (read_ref r) ≠ w_id w) →
     Restoration.head_at scope_id merge_family s.1 (w_id w) = None) ∧
  length results = length items.
Proof.
  unfold commit_window. intros H' Hty. set (plans := prepared_plan <$> items) in *.
  apply M_bind_ok in H' as ([] & ? & [Hdir%raise_if_ok ->]%lift_ok & H').
  apply M_bind_ok in H' as ([] & ? & [Hwin ->]%lift_ok & H').
  apply require_window_ok in Hwin as (Hnd & _ & Hplans).
  apply M_bind_ok in H' as ([] & ? & [_ ->]%lift_ok & H').
  apply M_bind_ok in H' as (rds & ? & [[Hrds _]%unique_reads_ok ->]%lift_ok & H').
  apply M_bind_ok in H' as ([] & s1 & [Hl Ex]%on_tables_ok & H').
  assert (E1 : s1.1 = s.1) by (unfold Artifacts.lock_heads in Hl; by apply reads_ok in Hl as [_ ?]).
  apply M_bind_ok in H' as ([] & s2 & E2%validate_previews_ok & H').
  apply M_bind_ok in H' as (records & s3 & (E3 & Hh & Hcoh & _ & Hnone)%check_dependencies_ok & H').
  apply M_bind_ok in H' as ([] & s4 & [E4 Hver]%(verify_restorations_ok repo E scope_id) & H').
  set (ops := default (replicate (length items) direct) directs) in *.
  assert (Hlen : length ops = length items).
  { unfold ops. destruct directs as [l|]; simpl; [|by rewrite length_replicate].
    destruct (decide (length l = length items)); [done|]. destruct Hdir. by split; [|right]. }
  set (paired := zip items ops) in *.
  assert (Hpair : paired.*1 = items) by (apply fst_zip; lia).
  assert (Hws : ∀ g : list (prepared projection * option source_ref), g.*1 = items → writes_of g = plans ≫= plan_writes).
  { intros g <-. unfold plans. clear. induction g as [|x g IH]; [done|]. csimpl. f_equal. exact IH. }
  assert (Hcat : concat (if decide (Forall independent_create plans) then [paired] else (λ x, [x]) <$> paired) = paired).
  { destruct (decide _); [simpl; apply app_nil_r|]. clear. induction paired as [|x l IH]; [done|]. csimpl. f_equal. exact IH. }
  apply (commit_groups_ok repo E scope_id (selected_of plans)) in H' as (He & Hfresh & Hr); rewrite ?Hcat, ?(Hws paired Hpair) in *; [|done| |done|].
  - rewrite E4, E3, E2, E1 in *.
    assert (Hall : ∀ r, r ∈ read_set ++ (plans ≫= plan_reads) → holds s.1 r).
    { intros r Hin. apply Hh, Hrds. exact Hin. }
    split_and!; try done.
    + intros w c Hw Hc. apply list_elem_of_bind in Hw as (p & Hw & Hp). rewrite Forall_forall in Hplans.
      destruct (Hplans p Hp) as (_ & _ & Hreq). apply require_plan_ok in Hreq as [_ Hcur].
      apply Hall, elem_of_app. right. apply list_elem_of_bind. exists p. split; [by eapply Hcur|done].
    + intros w Hw Hnr. rewrite Forall_forall in Hfresh. apply Hfresh; [done|]. apply Hnone.
      intros r Hin. by apply Hnr, Hrds.
    + rewrite Hr. transitivity (length paired.*1); [by rewrite length_fmap|by rewrite Hpair].
  - apply Forall_forall. intros w _. rewrite E4, E3. by apply coherent_known.
  - apply Forall_forall. intros x Hx. pose proof (selected_of_selects plans Hnd) as Hs.
    rewrite Forall_forall in Hs. apply Hs. unfold plans. rewrite <- Hpair, <- list_fmap_compose.
    apply list_elem_of_fmap. by exists x.
Qed.

(** C30: A committed window was current, and does exactly what it planned.  When
    [commit_window] returns, every read of every plan and of the window still
    held when its locks were taken, so a plan made on a stale head, content
    revision, lifecycle or merge relation never commits; restorations were
    planned again under the locks with the same outcome.  The commit is a path of
    the Artifact store's own transitions, so stored revisions stay as they are;
    every written identity, each written once, ends in its planned state,
    relation and replacement, with exactly one new revision holding the planned
    content where the plan has one and a generation that moves only with its
    state; an identity that was written without being read was new; no other head
    changes, and every plan has its result. *)
Theorem commit_window_effect items ctx read_set direct directs rs (s : adb * ext) results s' :
  commit_window repo scope_id items ctx read_set direct directs rs s = Ok (results, s') →
  Forall typed ((prepared_plan <$> items) ≫= plan_writes) →
  (∀ r, r ∈ read_set ++ ((prepared_plan <$> items) ≫= plan_reads) → holds s.1 r) ∧
  (∀ w c, w ∈ (prepared_plan <$> items) ≫= plan_writes → w_current w = Some c → holds s.1 (as_read c)) ∧
  Forall (verified ctx s.1) (prepared_plan <$> items) ∧
  NoDup (w_id <$> ((prepared_plan <$> items) ≫= plan_writes)) ∧
  effect (selected_of (prepared_plan <$> items)) ((prepared_plan <$> items) ≫= plan_writes) s.1 s'.1 ∧
  (∀ w, w ∈ (prepared_plan <$> items) ≫= plan_writes →
     (∀ r, r ∈ read_set ++ ((prepared_plan <$> items) ≫= plan_reads) → ref_id (read_ref r) ≠ w_id w) →
     Restoration.head_at scope_id merge_family s.1 (w_id w) = None) ∧
  length results = length items.
Proof. apply commit_window_ok. Qed.
End window.

(** ** A concrete window: the merge of [Merge.demo_before] *)

#[local] Existing Instance Artifacts.no_custom_index.
#[local] Existing Instance Journal.demo_registry.
#[local] Existing Instance Merge.demo_environment.
#[local] Existing Instance Merge.demo_laws.

Definition demo_merge : plan := Eval vm_compute in
  match inspect_merge Artifacts.demo_repository Artifacts.demo_scope [3] [demo_read 1 1 0; demo_read 2 1 0]
          (mkContent [1] [4]) tt None [] None demo_before with
  | Ok (p, _) => p
  | Err _ => mkPlan [] [] [] [] [] CHANGE None None [] [] None
  end.
Definition demo_item : prepared content := Eval vm_compute in
  match prepare_change demo_merge with Ok x => x | Err _ => mkPrepared demo_merge [] end.
Definition run_window : M demo_state (list mutation) :=
  commit_window Artifacts.demo_repository Artifacts.demo_scope [demo_item] tt [] None None None.

Definition demo_results : list mutation := Eval vm_compute in
  match run_window demo_before with Ok (l, _) => l | Err _ => [] end.

Lemma demo_window : run_window demo_before = Ok (demo_results, demo_merged).
Proof. vm_compute. reflexivity. Qed.

Lemma commit_window_effect_witness :
  effect Artifacts.demo_repository demo_environment Artifacts.demo_scope (selected_of [demo_merge])
    (plan_writes demo_merge) demo_before.1 demo_merged.1.
Proof.
  destruct (commit_window_effect Artifacts.demo_repository demo_environment Artifacts.demo_scope
    [demo_item] tt [] None None None demo_before demo_results demo_merged demo_window) as (_ & _ & _ & _ & He & _ & _).
  - change ((prepared_plan <$> [demo_item]) ≫= plan_writes) with (plan_writes demo_merge).
    unfold demo_merge. simpl. repeat constructor; by intros d [= <-].
  - exact He.
Defined.
End MergeCommit.
