(* ===== verification/MergeGroups.v ===== *)
(** * Plans and merge groups over several transactions

    What the inspectors of [Merge] hand to a later commit, and what a committed
    merge followed by a committed undo leaves behind. *)

From S2P Require Import Prelude Tables Cursors Journal Catalog Governance Artifacts MergePlans Restoration Merge.
From S2P Require Import MergeCommit.
Local Open Scope Z_scope.

Module MergeGroups.
Import Governance MergePlans Merge MergeCommit.

Section plans.
Context (repo : Artifacts.repository) `{CustomIndex} `{Journal.SourceRegistry} (E : Environment).
Context `{!EnvironmentLaws E} (scope_id : text) (ctx : context).

Notation head_at := (Restoration.head_at scope_id merge_family).
Notation current := (Restoration.current scope_id merge_family).
Notation marked := (Restoration.marked scope_id merge_family).
Notation whole := (Restoration.whole scope_id merge_family).
Notation typed := (typed E).

(** ** The type of a plan *)

Definition read_by (p : plan) (r : merge_read) : Prop := r ∈ plan_reads p.

(** An input of a merge is read as active and frozen into the result. *)
Definition input_planned (p : plan) (w : write) (i : text) : Prop :=
  (∃ r, r ∈ plan_reads p ∧ ref_id (read_ref r) = i ∧ read_state r = ACTIVE) ∧
  ∃ w', w' ∈ plan_writes p ∧ w_id w' = i ∧ w_state w' = DEPRECATED ∧ w_merged_into w' = Some (w_id w) ∧
        w_draft w' = None.

(** What every plan is, whichever inspector made it. *)
Record well_planned (p : plan) : Prop := {
  planned_for : plan_scope p = scope_id ∧ plan_subject p = subject ctx;
  planned_once : NoDup (w_id <$> plan_writes p);
  planned_typed : Forall typed (plan_writes p);
  planned_reads : (∀ r, r ∈ plan_reads p → ref_family (read_ref r) = merge_family) ∧
    ∀ r r', r ∈ plan_reads p → r' ∈ plan_reads p → ref_id (read_ref r) = ref_id (read_ref r') → r = r';
  planned_current : Forall (λ w, ∀ c, w_current w = Some c →
    as_read c ∈ plan_reads p ∧ ref_id (rec_ref c) = w_id w ∧ ¬ Restoration.retired c) (plan_writes p);
  planned_new : Forall (λ w, w_current w = None →
    w_state w = ACTIVE ∧ is_Some (w_draft w) ∧ w_merged_into w = None) (plan_writes p);
  planned_inputs : Forall (λ w, w_inputs w ≠ [] →
    plan_operation p = MERGE ∧ w_id w = plan_primary p ∧ w_current w = None ∧
    (2 ≤ length (w_inputs w))%nat ∧ NoDup (w_inputs w) ∧ w_id w ∉ w_inputs w ∧
    Forall (input_planned p w) (w_inputs w)) (plan_writes p)
}.

(** A plan that some inspector returned, on any state of the tables. *)
Inductive inspected : plan → Prop :=
  | inspected_change artifact_id c revision version l reads_ read_set authorized s p s' :
      inspect_change_with repo scope_id artifact_id c ctx revision version l reads_ read_set authorized s = Ok (p, s') →
      inspected p
  | inspected_creates items s ps s' p :
      inspect_creates repo scope_id items ctx s = Ok (ps, s') → p ∈ ps → inspected p
  | inspected_merge artifact_id selected c l reads_ read_set s p s' :
      inspect_merge repo scope_id artifact_id selected c ctx l reads_ read_set s = Ok (p, s') → inspected p
  | inspected_forget artifact_id revision version s p s' :
      inspect_forget repo scope_id artifact_id ctx revision version s = Ok (p, s') → inspected p
  | inspected_restore artifact_id op revision token s p s' :
      inspect_restore repo scope_id artifact_id ctx op revision token s = Ok (p, s') → inspected p.

Lemma unique_reads_family reads_ l r :
  unique_reads reads_ = Ok l → r ∈ l → ref_family (read_ref r) = merge_family.
Proof.
  intros Hl Hr. pose proof (proj1 (proj1 (unique_reads_ok _ _ _ Hl) r) Hr) as Hin.
  unfold unique_reads in Hl. apply result_bind_ok in Hl as (u & Hu & _).
  apply unique_from_ok in Hu as (_ & _ & Hall). by apply Hall.
Qed.

Lemma editable_live c : editable (rec_state c) → ¬ Restoration.retired c.
Proof. unfold editable, Restoration.retired. intros [_ [-> | ->]]; done. Qed.

(** *** Changes *)

Lemma inspect_change_with_ok artifact_id c revision version l reads_ read_set authorized (s : adb * ext) p s' :
  inspect_change_with repo scope_id artifact_id c ctx revision version l reads_ read_set authorized s = Ok (p, s') →
  ∃ d st cur rep deps,
    p = mkPlan scope_id (subject ctx) deps [mkWrite artifact_id st (Some d) None cur [] rep]
          artifact_id CHANGE None None [] [] None ∧
    draft_family d = merge_family ∧
    unique_reads (reads_ ++ match cur with Some x => [as_read x] | None => [] end) = Ok deps ∧
    match cur with
    | Some x => ref_id (rec_ref x) = artifact_id ∧ ¬ Restoration.retired x
    | None => st = ACTIVE
    end.
Proof.
  unfold inspect_change_with. intros H'. apply M_bind_ok in H' as (d & ? & [Hd%make_draft_family ->]%lift_ok & H').
  apply M_bind_ok in H' as ([[[cur target] st] d'] & s1 & Hstep & H').
  apply M_bind_ok in H' as (v & s2 & _ & H'). apply M_bind_ok in H' as (records & s3 & _ & H').
  apply M_bind_ok in H' as (deps & s4 & [Hu ->]%lift_ok & H'). apply M_ret_ok in H' as [-> ->].
  exists d', st, cur, (cur ≫= λ x, g_replacement (rec_state x)), deps. split; [done|].
  destruct revision as [n|].
  - apply M_bind_ok in Hstep as (x & t1 & (_ & Hx & _)%get_current_ok & Hstep).
    apply M_bind_ok in Hstep as ([] & t2 & _ & Hstep). apply M_bind_ok in Hstep as ([] & t3 & _ & Hstep).
    apply M_bind_ok in Hstep as ([] & t4 & [Hed%raise_if_ok _]%lift_ok & Hstep). apply M_bind_ok in Hstep as (y & t5 & _ & Hstep).
    apply M_ret_ok in Hstep as [[= -> -> -> ->] ->]. split_and!; try done; [by eapply Restoration.current_ref|].
    by apply editable_live, dec_stable.
  - apply M_bind_ok in Hstep as (y & t1 & _ & Hstep). apply M_bind_ok in Hstep as ([] & t2 & _ & Hstep).
    apply M_ret_ok in Hstep as [[= -> -> -> ->] ->]. done.
Qed.

Lemma single_planned d st cur rep reads_ deps artifact_id :
  draft_family d = merge_family →
  unique_reads (reads_ ++ match cur with Some x => [as_read x] | None => [] end) = Ok deps →
  match cur with Some x => ref_id (rec_ref x) = artifact_id ∧ ¬ Restoration.retired x | None => st = ACTIVE end →
  well_planned (mkPlan scope_id (subject ctx) deps [mkWrite artifact_id st (Some d) None cur [] rep]
    artifact_id CHANGE None None [] [] None).
Proof.
  intros Hd Hu Hc. pose proof (unique_reads_ok _ _ _ Hu) as [Hin Hone]. split; simpl; try done.
  - apply NoDup_singleton.
  - apply Forall_singleton. by intros ? [= <-].
  - split; [intros r; by apply (unique_reads_family _ _ _ Hu)|done].
  - apply Forall_singleton. intros c [= ->]. destruct Hc. split_and!; try done. apply Hin, elem_of_app. right. left.
  - apply Forall_singleton. simpl. intros ->. eauto.
  - apply Forall_singleton. done.
Qed.

Lemma inspect_each_planned items (s : adb * ext) ps s' :
  inspect_each repo scope_id items ctx s = Ok (ps, s') → Forall well_planned ps.
Proof.
  revert s ps. induction items as [|x items IH]; intros s ps H'; simpl in H'.
  { by apply M_ret_ok in H' as [-> ->]. }
  apply M_bind_ok in H' as (p & s1 & (d & st & cur & rep & deps & -> & H1 & H2 & H3)%inspect_change_with_ok & H').
  apply M_bind_ok in H' as (rest & s2 & Hrest & H'). apply M_ret_ok in H' as [-> ->].
  constructor; [by eapply single_planned|by eapply IH].
Qed.

(** *** Merges *)

Lemma current_inputs_ok selected (s : adb * ext) l s' :
  current_inputs repo scope_id ctx selected s = Ok (l, s') →
  Forall2 (λ r c, as_read c = r ∧ ref_id (rec_ref c) = ref_id (read_ref r) ∧ read_state r = ACTIVE) selected l.
Proof.
  revert s l. induction selected as [|x selected IH]; intros s l H'; simpl in H'.
  { by apply M_ret_ok in H' as [-> _]. }
  apply M_bind_ok in H' as (c & s1 & (_ & Hc & _)%get_current_ok & H').
  apply M_bind_ok in H' as ([] & s2 & _ & H').
  apply M_bind_ok in H' as ([] & ? & [Hx%raise_if_ok%dec_stable ->]%lift_ok & H').
  apply M_bind_ok in H' as ([] & ? & [Hst%raise_if_ok ->]%lift_ok & H').
  apply M_bind_ok in H' as (rest & s3 & Hrest & H'). apply M_ret_ok in H' as [-> ->]. apply IH in Hrest.
  constructor; [|done]. split_and!; [done| |].
  - by eapply Restoration.current_ref in Hc as (_ & -> & _).
  - rewrite <- Hx. simpl. destruct (decide (g_state (rec_state c) = ACTIVE)); tauto.
Qed.

(** All that a merge plan is. *)
Lemma inspect_merge_ok artifact_id selected c l reads_ read_set (s : adb * ext) p s' :
  inspect_merge repo scope_id artifact_id selected c ctx l reads_ read_set s = Ok (p, s') →
  let ids := (λ r, ref_id (read_ref r)) <$> selected in
  ∃ d inputs deps,
    p = mkPlan scope_id (subject ctx) deps
          (mkWrite artifact_id ACTIVE (Some d) None None ids None :: (freeze_input artifact_id <$> inputs))
          artifact_id MERGE None None [] [] None ∧
    (2 ≤ length ids)%nat ∧ NoDup ids ∧ artifact_id ∉ ids ∧
    draft_family d = merge_family ∧ require_merge_draft artifact_id d selected = Ok tt ∧
    unique_reads (reads_ ++ selected) = Ok deps ∧
    Forall2 (λ r c, as_read c = r ∧ ref_id (rec_ref c) = ref_id (read_ref r) ∧ read_state r = ACTIVE) selected inputs.
Proof.
  unfold inspect_merge. intros H'. apply M_bind_ok in H' as ([] & ? & [Hids%raise_if_ok ->]%lift_ok & H').
  apply M_bind_ok in H' as (target & ? & [_ ->]%lift_ok & H'). apply M_bind_ok in H' as ([] & s1 & _ & H').
  apply M_bind_ok in H' as (inputs & s2 & Hin%current_inputs_ok & H').
  apply M_bind_ok in H' as (d & ? & [Hd%make_draft_family ->]%lift_ok & H').
  apply M_bind_ok in H' as ([] & ? & [Hreq ->]%lift_ok & H'). apply M_bind_ok in H' as (v & s3 & _ & H').
  apply M_bind_ok in H' as (deps & ? & [Hdeps ->]%lift_ok & H'). apply M_bind_ok in H' as (records & s4 & _ & H').
  apply M_ret_ok in H' as [-> _]. eexists _, inputs, deps. split; [reflexivity|].
  destruct (decide (2 ≤ length ((λ r : merge_read, ref_id (read_ref r)) <$> selected))%nat) as [?|?];
    [|destruct Hids; left; lia].
  destruct (decide (NoDup ((λ r : merge_read, ref_id (read_ref r)) <$> selected))) as [?|?]; [|destruct Hids; tauto].
  split_and!; try done; [tauto|]. by destruct (decide (l = None)).
Qed.

Lemma frozen_ids (selected : list merge_read) inputs artifact_id :
  Forall2 (λ r c, as_read c = r ∧ ref_id (rec_ref c) = ref_id (read_ref r) ∧ read_state r = ACTIVE) selected inputs →
  w_id <$> (freeze_input artifact_id <$> inputs) = (λ r, ref_id (read_ref r)) <$> selected.
Proof. induction 1 as [|r c ? ? (_ & Hid & _) _ IH]; [done|]. csimpl. rewrite Hid. by f_equal. Qed.

Lemma merge_planned artifact_id selected c l reads_ read_set (s : adb * ext) p s' :
  inspect_merge repo scope_id artifact_id selected c ctx l reads_ read_set s = Ok (p, s') → well_planned p.
Proof.
  intros (d & inputs & deps & -> & Hlen & Hnd & Hnin & Hd & _ & Hu & Hin)%inspect_merge_ok.
  pose proof (unique_reads_ok _ _ _ Hu) as [Hel Hone]. pose proof (frozen_ids _ _ artifact_id Hin) as Hids.
  split; simpl; try done.
  - change (NoDup (artifact_id :: (w_id <$> (freeze_input artifact_id <$> inputs)))). rewrite Hids. by constructor.
  - constructor; [by intros ? [= <-]|]. apply Forall_fmap, Forall_forall. by intros x _ d'.
  - split; [intros r; by apply (unique_reads_family _ _ _ Hu)|done].
  - constructor; [done|]. apply Forall_fmap, Forall_forall. intros x Hx c' [= <-].
    apply list_elem_of_lookup in Hx as [k Hk].
    destruct (Forall2_lookup_r _ _ _ _ _ Hin Hk) as (r & Hr & Er & _ & Est). split_and!; [|done|].
    + rewrite Er. apply Hel, elem_of_app. right. by eapply list_elem_of_lookup_2.
    + unfold Restoration.retired. rewrite <- Er in Est. simpl in Est. congruence.
  - constructor; [by eauto|]. apply Forall_fmap, Forall_forall. done.
  - constructor; [|apply Forall_fmap, Forall_forall; done]. intros _. split_and!; try done.
    apply Forall_fmap, Forall_forall. intros r Hr. apply list_elem_of_lookup in Hr as [k Hk].
    destruct (Forall2_lookup_l _ _ _ _ _ Hin Hk) as (x & Hx & Ex & Eid & Est). split.
    + exists r. split_and!; try done. apply Hel, elem_of_app. right. by eapply list_elem_of_lookup_2.
    + exists (freeze_input artifact_id x). split_and!; try done. simpl. right. apply list_elem_of_fmap_2.
      by eapply list_elem_of_lookup_2.
Qed.

(** *** Forgetting and restoring *)

Lemma forget_planned artifact_id revision version (s : adb * ext) p s' :
  inspect_forget repo scope_id artifact_id ctx revision version s = Ok (p, s') → well_planned p.
Proof.
  unfold inspect_forget. intros H'. apply M_bind_ok in H' as (c & s1 & (_ & Hc & _)%get_current_ok & H').
  apply M_bind_ok in H' as ([] & s2 & _ & H'). apply M_bind_ok in H' as ([] & s3 & _ & H').
  apply M_bind_ok in H' as ([] & s4 & [Hed%raise_if_ok%dec_stable%editable_live _]%lift_ok & H').
  apply M_ret_ok in H' as [-> _].
  apply Restoration.current_ref in Hc as (_ & Hid & Hf).
  assert (Hreads : (∀ r, r ∈ [as_read c] → ref_family (read_ref r) = merge_family) ∧
    ∀ r r', r ∈ [as_read c] → r' ∈ [as_read c] → ref_id (read_ref r) = ref_id (read_ref r') → r = r').
  { split; [by intros r ->%list_elem_of_singleton|].
    by intros r r' ->%list_elem_of_singleton ->%list_elem_of_singleton. }
  destruct (decide _); split; simpl; try done; try apply NoDup_nil_2; try apply NoDup_singleton;
    apply Forall_singleton; [done| |done..]. intros c' [= <-]. by split; [left|].
Qed.

Lemma restore_planned artifact_id op revision token (s : adb * ext) p s' :
  inspect_restore repo scope_id artifact_id ctx op revision token s = Ok (p, s') → well_planned p.
Proof.
  intros H'. apply inspect_restore_ok in H' as (_ & _ & Hs & Hsub & _ & _ & _ & _ & selected & _ & Hr & _); [|done].
  destruct Hr as [_ _ Hlive Hw _ Hcopies [Hnd _] Hreads _].
  assert (Hcp : ∀ w, w ∈ plan_writes p → ∃ x d, current s.1 (w_id w) x ∧ draft_family d = merge_family ∧
    w = mkWrite (w_id w) (w_state w) (Some d) None (Some x) [] None).
  { rewrite Forall_forall in Hcopies. intros w Hin. destruct (Hcopies w Hin) as (x & d & Hx & Ew & Hd).
    exists x, d. split_and!; try done. by eapply make_draft_family. }
  split; try done.
  - apply Forall_forall. intros w Hin. destruct (Hcp w Hin) as (x & d & _ & Hd & ->). by intros ? [= <-].
  - split.
    + intros r (i & x & _ & Hx & ->)%Hreads. simpl. by apply Restoration.current_ref in Hx as (_ & _ & ?).
    + intros r r' (i & x & _ & Hx & ->)%Hreads (j & y & _ & Hy & ->)%Hreads Heq.
      change (ref_id (rec_ref x) = ref_id (rec_ref y)) in Heq.
      pose proof (Restoration.current_ref _ _ _ _ _ Hx) as (_ & Ei & _).
      pose proof (Restoration.current_ref _ _ _ _ _ Hy) as (_ & Ej & _).
      assert (i = j) as <- by congruence. by eapply Restoration.current_as_read.
  - apply Forall_forall. intros w Hin c Hc. destruct (Hcp w Hin) as (x & d & Hx & _ & Ew). rewrite Ew in Hc.
    injection Hc as <-. assert (Hg : w_id w = artifact_id ∨ w_id w ∈ plan_undone p ∨
      Restoration.input_of scope_id merge_family s.1 (plan_undone p) (w_id w)); [|split_and!].
    2: by apply Hreads; exists (w_id w), x.
    2: by apply Restoration.current_ref in Hx as (_ & ? & _).
    2: { destruct (Hlive _ Hg) as (y & Hy & Hl). unfold Restoration.retired in *.
         by destruct (Restoration.current_fun _ _ _ _ _ _ Hx Hy) as [-> _]. }
    destruct (proj1 (Hw (w_id w) (w_state w))) as [Hdst _]; [by eauto|].
    destruct (w_state w); simpl in Hdst; [|done|tauto]. destruct Hdst as [_ [[_ ?]|?]]; tauto.
  - apply Forall_forall. intros w Hin. destruct (Hcp w Hin) as (x & d & _ & _ & ->). done.
  - apply Forall_forall. intros w Hin. destruct (Hcp w Hin) as (x & d & _ & _ & ->). done.
Qed.

(** C33: Plans are well formed.  Whatever inspector made a plan and whatever the
    tables held, the plan is for the Scope and the subject it was asked for;
    writes each identity once, with drafts of the service's Family; reads each
    identity of the Family in one version; cites as a read the very record every
    write of an existing identity was planned on, never a retired one; creates only
    active content;
    and marks inputs only on the new result of a merge: at least two distinct
    ones, each read as active and frozen into the result by the same plan. *)
Theorem inspected_well_planned p : inspected p → well_planned p.
Proof.
  intros [artifact_id c revision version l reads_ read_set authorized s q s' H'|items s ps s' q H' Hin|
    artifact_id selected c l reads_ read_set s q s' H'|artifact_id revision version s q s' H'|
    artifact_id op revision token s q s' H'].
  - apply inspect_change_with_ok in H' as (d & st & cur & rep & deps & -> & ? & ? & ?). by eapply single_planned.
  - unfold inspect_creates in H'. destruct (decide _); [apply M_ret_ok in H' as [-> _]; by apply not_elem_of_nil in Hin|].
    apply M_bind_ok in H' as (refs & s1 & _ & H'). apply M_bind_ok in H' as ([] & s2 & _ & H').
    apply inspect_each_planned in H'. rewrite Forall_forall in H'. by apply H'.
  - by eapply merge_planned.
  - by eapply forget_planned.
  - by eapply restore_planned.
Qed.

(** ** One committed plan *)

Lemma commit_ok item p direct (s : adb * ext) m s' :
  commit repo item ctx direct s = Ok (m, s') → prepared_plan item = p → plan_scope p = scope_id →
  Forall typed (plan_writes p) →
  (∀ r, r ∈ plan_reads p → holds E scope_id s.1 r) ∧ verified repo E scope_id ctx s.1 p ∧
  effect repo E scope_id (selected_of [p]) (plan_writes p) s.1 s'.1 ∧
  (∀ w, w ∈ plan_writes p → (∀ r, r ∈ plan_reads p → ref_id (read_ref r) ≠ w_id w) → head_at s.1 (w_id w) = None).
Proof.
  unfold commit. intros H' Hp Hs Hty. rewrite Hp, Hs in H'. apply M_bind_ok in H' as (l & s1 & Hw & H').
  assert (s' = s1) as -> by (destruct l; [done|by apply M_ret_ok in H' as [_ ->]]).
  apply commit_window_ok in Hw; [|done|];
    cbn [fmap list_fmap mbind list_bind app] in *; rewrite Hp, ?app_nil_r in *; [|done].
  destruct Hw as (Hr & _ & Hv & _ & He & Hn & _). apply Forall_cons in Hv as [Hv _]. split_and!; [exact Hr|exact Hv|exact He|exact Hn].
Qed.

Lemma count_once_NoDup (refs l : list art_ref) :
  (∀ r, r ∈ refs → (count_occ art_ref_eq_dec l r ≤ 1)%nat) → NoDup (filter (λ r, r ∈ refs) l).
Proof.
  induction l as [|x l IH]; intros Hc; [constructor|]. rewrite filter_cons.
  assert (Hl : ∀ r, r ∈ refs → (count_occ art_ref_eq_dec l r ≤ 1)%nat).
  { intros r Hr. specialize (Hc r Hr). simpl in Hc. destruct (art_ref_eq_dec x r); lia. }
  destruct (decide (x ∈ refs)) as [Hx|]; [|by apply IH]. constructor; [|by apply IH].
  intros [_ Hin]%list_elem_of_filter. specialize (Hc x Hx). simpl in Hc.
  destruct (art_ref_eq_dec x x); [|done]. apply list_elem_of_In, (count_occ_In art_ref_eq_dec) in Hin. lia.
Qed.

(** The marked references are exactly the selected ones, each once. *)
Lemma marks_selected artifact_id d selected deps reads_ :
  require_merge_draft artifact_id d selected = Ok tt → unique_reads (reads_ ++ selected) = Ok deps →
  filter (λ r, r ∈ read_ref <$> filter (λ r, ref_id (read_ref r) ∈ (λ r, ref_id (read_ref r)) <$> selected) deps)
    (draft_artifacts d) ≡ₚ read_ref <$> selected.
Proof.
  unfold require_merge_draft. intros Hreq Hu. apply unique_reads_ok in Hu as [Hel Hone].
  apply result_bind_ok in Hreq as ([] & Hnd%raise_if_ok & Hreq).
  apply result_bind_ok in Hreq as ([] & _ & Hcount%raise_if_ok).
  assert (Hsel : ∀ x, x ∈ read_ref <$> filter (λ r, ref_id (read_ref r) ∈ (λ r, ref_id (read_ref r)) <$> selected) deps
    ↔ x ∈ read_ref <$> selected).
  { intros x. rewrite !list_elem_of_fmap. split.
    - intros (r & -> & [(r' & Hid & Hr')%list_elem_of_fmap Hr]%list_elem_of_filter). exists r. split; [done|].
      rewrite (Hone r r'); [done|done| |done]. apply Hel, elem_of_app. by right.
    - intros (r & -> & Hr). exists r. split; [done|]. apply list_elem_of_filter. split.
      + apply (list_elem_of_fmap_2 (λ r, ref_id (read_ref r)) _ _ Hr).
      + apply Hel, elem_of_app. by right. }
  assert (Honce : ∀ r, r ∈ read_ref <$> selected → count_occ art_ref_eq_dec (draft_artifacts d) r = 1%nat).
  { intros r Hr. destruct (decide (count_occ art_ref_eq_dec (draft_artifacts d) r = 1%nat)) as [|Hne]; [done|].
    destruct Hcount. left. apply Exists_exists. by exists r. }
  apply NoDup_Permutation.
  - apply count_once_NoDup. intros r Hr%Hsel. by rewrite Honce.
  - apply (NoDup_fmap_1 ref_id). by destruct (decide (NoDup (ref_id <$> (read_ref <$> selected)))); [|destruct Hnd; tauto].
  - intros x. rewrite list_elem_of_filter, Hsel. split; [by intros [? _]|]. intros Hx. split; [done|].
    apply list_elem_of_In, (count_occ_In art_ref_eq_dec). rewrite Honce by done. lia.
Qed.

Lemma merged_frame artifact_id selected c l reads_ read_set item direct (s s1 s2 s3 : adb * ext) m :
  inspect_merge repo scope_id artifact_id selected c ctx l reads_ read_set s = Ok (prepared_plan item, s1) →
  commit repo item ctx direct s2 = Ok (m, s3) →
  frame E scope_id (artifact_id :: ((λ r, ref_id (read_ref r)) <$> selected)) s2.1 s3.1.
Proof.
  intros Hp Hc. pose proof (merge_planned _ _ _ _ _ _ _ _ _ Hp) as [[Hs _] _ Hty _ _ _ _].
  apply inspect_merge_ok in Hp as (d & inputs & deps & Ep & _ & _ & _ & _ & _ & _ & Hin).
  pose proof (commit_ok _ _ _ _ _ _ Hc eq_refl Hs Hty) as (_ & _ & (_ & Hframe & _) & _).
  rewrite Ep in Hframe. cbn [plan_writes] in Hframe. rewrite fmap_cons, (frozen_ids _ _ _ Hin) in Hframe. exact Hframe.
Qed.

(** What a committed merge leaves: a whole result that marks what was selected. *)
Definition merged_whole (artifact_id : text) (selected : list merge_read) (t : adb) : Prop :=
  (∃ h, head_at t artifact_id = Some h ∧ head_revision h = 1 ∧ head_state h = ACTIVE ∧
        head_merged_into h = None ∧ head_replacement h = None) ∧
  whole t artifact_id ∧ marked t artifact_id ≡ₚ read_ref <$> selected.

Lemma merged_whole_ok artifact_id selected c l reads_ read_set item direct (s s1 s2 s3 : adb * ext) m :
  inspect_merge repo scope_id artifact_id selected c ctx l reads_ read_set s = Ok (prepared_plan item, s1) →
  (∀ r, r ∈ reads_ → ref_id (read_ref r) ≠ artifact_id) →
  commit repo item ctx direct s2 = Ok (m, s3) →
  merged_whole artifact_id selected s3.1 ∧ rtc (Artifacts.step repo) s2.1 s3.1.
Proof.
  intros Hp Hreads Hc. pose proof (merge_planned _ _ _ _ _ _ _ _ _ Hp) as [[Hs _] _ Hty _ _ _ _].
  apply inspect_merge_ok in Hp as (d & inputs & deps & Ep & Hlen & Hnd & Hnin & _ & Hreq & Hu & Hin).
  pose proof (commit_ok _ _ _ _ _ _ Hc eq_refl Hs Hty) as (Hholds & _ & (Hsteps & _ & Hre) & Hnew).
  split; [|done]. set (p := prepared_plan item) in *. pose proof (unique_reads_ok _ _ _ Hu) as [Hel _].
  assert (Hdeps : plan_reads p = deps) by by rewrite Ep.
  set (w := mkWrite artifact_id ACTIVE (Some d) None None ((λ r, ref_id (read_ref r)) <$> selected) None) in *.
  assert (Hwrites : plan_writes p = w :: (freeze_input artifact_id <$> inputs)) by by rewrite Ep.
  assert (Hbase : head_at s2.1 artifact_id = None).
  { apply (Hnew w); [rewrite Hwrites; left|]. rewrite Hdeps. intros r [Hr|Hr]%Hel%elem_of_app; [by apply Hreads|].
    intros Heq. apply Hnin. simpl in Heq. rewrite <- Heq. exact (list_elem_of_fmap_2 (λ r, ref_id (read_ref r)) _ _ Hr). }
  assert (Hsel : selected_of [p] artifact_id = read_ref <$> filter (λ r, ref_id (read_ref r) ∈ w_inputs w) deps).
  { assert (Hone : NoDup (w_id <$> plan_writes p)).
    { rewrite Hwrites, fmap_cons, (frozen_ids _ _ _ Hin). by constructor. }
    pose proof (selected_of_selects [p]) as Hsel. cbn [mbind list_bind] in Hsel. rewrite app_nil_r in Hsel.
    specialize (Hsel Hone). apply Forall_cons in Hsel as [Hsel _]. unfold selects in Hsel. rewrite Hwrites, Hdeps in Hsel.
    by apply Forall_cons in Hsel as [Hsel _]. }
  rewrite Hwrites in Hre. apply Forall_cons in Hre as [Hw Hre].
  assert (Hmark : marked s3.1 artifact_id ≡ₚ read_ref <$> selected).
  { destruct Hw as (h & _ & _ & _ & Hb). simpl in Hb. rewrite Hbase in Hb. destruct Hb as [_ Hm].
    destruct (Hm ltac:(simpl; by destruct selected) d eq_refl) as [_ Em].
    change (marked s3.1 artifact_id = filter (λ r, r ∈ selected_of [p] artifact_id) (draft_artifacts d)) in Em.
    rewrite Em, Hsel.
    by eapply marks_selected. }
  split_and!.
  - destruct Hw as (h & Hh & (? & ? & ?) & _ & Hb). exists h. simpl in *. rewrite Hbase in Hb. tauto.
  - split.
    + unfold Restoration.marked_inputs_ok. rewrite Hmark, !length_fmap in *. split_and!; [done| |].
      * by rewrite <- list_fmap_compose.
      * apply Forall_fmap, Forall_forall. intros r Hr. split.
        -- apply (unique_reads_family _ _ _ Hu), Hel, elem_of_app. by right.
        -- simpl. intros Heq. apply Hnin. rewrite <- Heq. exact (list_elem_of_fmap_2 (λ r, ref_id (read_ref r)) _ _ Hr).
    + rewrite Hmark. apply Forall_fmap, Forall_forall. intros r Hr. pose proof Hr as Hr'.
      apply list_elem_of_lookup in Hr as [k Hk].
      destruct (Forall2_lookup_l _ _ _ _ _ Hin Hk) as (x & Hx & Ex & Eid & Est).
      rewrite Forall_fmap, Forall_forall in Hre. apply list_elem_of_lookup_2 in Hx.
      destruct (Hre _ Hx) as (h & Hh & (Hst & Hm & _) & _ & Hb). simpl in *. rewrite Eid in *.
      exists h. split_and!; try done. destruct (Hholds r) as (h0 & Hh0 & Er).
      { rewrite Hdeps. apply Hel, elem_of_app. by right. }
      rewrite Hh0 in Hb. destruct Hb as [-> _]. unfold new_revision. simpl. rewrite Er. simpl. lia.
  - done.
Qed.

(** A copy of the revision [n] of an identity is its newest one. *)
Definition copied_back (t t' : adb) (i : text) (n : Z) : Prop :=
  ∃ h b a refs d, head_at t' i = Some h ∧ head_revision h = n + 1 ∧
    head_state h = ACTIVE ∧ head_merged_into h = None ∧ head_replacement h = None ∧
    a_bodies t' !! ((scope_id, merge_family, i), head_revision h) = Some b ∧ body_content b = draft_content d ∧
    make_draft (art_content a) (mkLineage [] refs None) [] true = Ok d ∧
    Artifacts.stored t ((scope_id, merge_family, i), n) a.

(** What a committed undo of an unmerged result does. *)
Lemma undo_ok artifact_id token item direct (x y s s' : adb * ext) m h0 :
  inspect_restore repo scope_id artifact_id ctx UNDO_MERGE None token x = Ok (prepared_plan item, y) →
  commit repo item ctx direct s = Ok (m, s') →
  head_at s.1 artifact_id = Some h0 → head_merged_into h0 = None →
  (∃ h, head_at s'.1 artifact_id = Some h ∧ head_state h = RETIRED ∧ head_merged_into h = None) ∧
  Forall (λ r, copied_back s.1 s'.1 (ref_id r) (ref_revision r)) (marked s.1 artifact_id) ∧
  frame E scope_id (artifact_id :: (ref_id <$> marked s.1 artifact_id)) s.1 s'.1 ∧
  rtc (Artifacts.step repo) s.1 s'.1.
Proof.
  intros Hp Hc Hh0 Hm0. pose proof (restore_planned _ _ _ _ _ _ _ Hp) as [[Hs _] _ Hty _ _ _ _].
  apply inspect_restore_ok in Hp as (_ & _ & _ & _ & Hprim & Hop & Hrev & _); [|done].
  pose proof (commit_ok _ _ _ _ _ _ Hc eq_refl Hs Hty) as (_ & Hv & (Hsteps & Hframe & Hre) & _).
  set (p := prepared_plan item) in *. unfold verified in Hv. rewrite Hop in Hv.
  destruct Hv as (x' & y' & Ex & Hv); [by right|]. rewrite Hprim, Hrev in Hv.
  apply inspect_restore_ok in Hv as (_ & _ & _ & _ & _ & _ & _ & _ & [a|] & Hsel & Hr & _); [done| |done].
  rewrite Ex in Hr. destruct Hr as [(path & e & ce & Hpath & _ & Hund & _) [_ Hwhole] Hlive Hw Hchanges Hcopies _ _ _].
  assert (path = []) as -> by (inversion Hpath; congruence).
  rewrite decide_True in Hund by done. simpl in Hund. rewrite Hund in *.
  apply Forall_cons in Hwhole as [[(_ & _ & Hids) Hfrozen] _]. rewrite Forall_forall in Hids, Hfrozen. rewrite Forall_forall in Hre, Hcopies.
  assert (Hin : ∀ i, Restoration.input_of scope_id merge_family s.1 [artifact_id] i ↔ i ∈ ref_id <$> marked s.1 artifact_id).
  { intros i. unfold Restoration.input_of. rewrite Exists_cons, Exists_nil. tauto. }
  split_and!; [| | |done].
  - destruct (Hlive artifact_id) as (c & Hcur & _); [by left|].
    destruct (proj2 (Hw artifact_id RETIRED)) as (w & Hww & Eid & Est).
    { split; [left|]. exists c. split; [done|]. apply Hchanges; [left|by right|done]. }
    destruct (Hcopies _ Hww) as (c' & d & _ & Ew & _). destruct (Hre _ Hww) as (h & Hh & (? & Hmi & _) & _).
    rewrite Eid in Hh. exists h. split_and!; [done|congruence|]. by rewrite Hmi, Ew.
  - apply Forall_forall. intros r Hr. destruct (Hids r Hr) as [_ Hne].
    assert (Hri : ref_id r ∈ ref_id <$> marked s.1 artifact_id) by by apply list_elem_of_fmap_2.
    assert (Hdst : Restoration.destined scope_id merge_family s.1 artifact_id UNDO_MERGE [artifact_id] (ref_id r) ACTIVE).
    { split; [by intros ?%list_elem_of_singleton|]. right. by apply Hin. }
    destruct (Hlive (ref_id r)) as (c & Hcur & _); [right; right; by apply Hin|].
    destruct (proj2 (Hw (ref_id r) ACTIVE)) as (w & Hww & Eid & Est).
    { split; [done|]. exists c. split; [done|]. apply Hchanges; [done|by left|done]. }
    destruct (Hcopies _ Hww) as (c' & d & Hcur' & Ew & Hd). simpl in Hd.
    destruct (Hre _ Hww) as (h & Hh & (Hst & Hmi & Hrp) & Hcont & Hb).
    destruct (Hcont d) as (b & Hbody & Eb); [by rewrite Ew|].
    rewrite Eid in *. destruct (Hfrozen r Hr) as (h1 & Hh1 & _ & _ & Hrv). rewrite Hh1 in Hb. destruct Hb as [Hn _].
    destruct Hcur' as (h2 & Hh2 & _ & Hstored). rewrite Hh1 in Hh2. injection Hh2 as <-. rewrite Hrv in *.
    exists h, b, (rec_artifact c'), (nub [rec_ref c'; art_self (rec_artifact c')]), d.
    rewrite Ew in Hn, Hst, Hmi, Hrp. simpl in *. split_and!; try done. congruence.
  - intros k Hk. apply Hframe. intros i (w & -> & Hww)%list_elem_of_fmap. apply Hk.
    destruct (proj1 (Hw (w_id w) (w_state w))) as [Hdst _]; [by eauto|].
    destruct (w_state w); simpl in Hdst; [|done|].
    + destruct Hdst as [_ [[? _]|Hi%Hin]]; [done|]. by right.
    + apply list_elem_of_singleton in Hdst as ->. left.
Qed.
End plans.

Section groups.
Context (repo : Artifacts.repository) `{CustomIndex} `{Journal.SourceRegistry} (E : Environment).
Context `{!EnvironmentLaws E} (scope_id : text).

Notation head_at := (Restoration.head_at scope_id merge_family).

(** A committed merge is whole.  When a merge of selected versions into a new
    identity was planned, on whatever state, and its plan commits later, the new
    identity is active at its first revision and marks exactly the selected
    versions; each selected identity is then frozen into it at the very version
    selected, and nothing stored before is changed.  So the result can be undone:
    it is whole in the sense restorations require. *)
Theorem merge_is_whole artifact_id selected c ctx l reads_ read_set item direct (s s1 s2 s3 : adb * ext) m :
  inspect_merge repo scope_id artifact_id selected c ctx l reads_ read_set s = Ok (prepared_plan item, s1) →
  (∀ r, r ∈ reads_ → ref_id (read_ref r) ≠ artifact_id) →
  commit repo item ctx direct s2 = Ok (m, s3) →
  merged_whole E scope_id artifact_id selected s3.1 ∧ rtc (Artifacts.step repo) s2.1 s3.1.
Proof. intros. by eapply merged_whole_ok. Qed.

(** C31: Undoing a merge gives its inputs back.  After a merge has committed, a
    committed undo of its result, by any actor and with any other processing
    between planning and committing it, retires the result and makes every merged
    identity active and unmerged again, at one new revision that holds a copy of
    the very version that was merged; no head but those of the group is changed by
    the two transactions. *)
Theorem merge_undo_roundtrip artifact_id selected c ctx l reads_ read_set item direct (s s1 s2 s3 : adb * ext) m
    actor token undo source (x y s4 : adb * ext) m' :
  inspect_merge repo scope_id artifact_id selected c ctx l reads_ read_set s = Ok (prepared_plan item, s1) →
  (∀ r, r ∈ reads_ → ref_id (read_ref r) ≠ artifact_id) →
  commit repo item ctx direct s2 = Ok (m, s3) →
  inspect_restore repo scope_id artifact_id actor UNDO_MERGE None token x = Ok (prepared_plan undo, y) →
  commit repo undo actor source s3 = Ok (m', s4) →
  (∃ h, head_at s4.1 artifact_id = Some h ∧ head_state h = RETIRED ∧ head_merged_into h = None) ∧
  Forall (λ r, copied_back E scope_id s3.1 s4.1 (ref_id (read_ref r)) (ref_revision (read_ref r))) selected ∧
  frame E scope_id (artifact_id :: ((λ r, ref_id (read_ref r)) <$> selected)) s2.1 s4.1.
Proof.
  intros Hp Hreads Hc Hu Hcu.
  pose proof (merged_whole_ok repo E scope_id ctx _ _ _ _ _ _ _ _ _ _ _ _ _ Hp Hreads Hc) as
    [[(h & Hh & _ & _ & Hm & _) (_ & Hmarks)] _].
  destruct (undo_ok repo E scope_id actor _ _ _ _ _ _ _ _ _ _ Hu Hcu Hh Hm) as (Hret & Hback & Hframe & _).
  split_and!; [done| |].
  - rewrite Hmarks, Forall_fmap in Hback. exact Hback.
  - intros k Hk. rewrite Hframe.
    + by eapply merged_frame.
    + intros i [->|Hi]%elem_of_cons; [by apply Hk; left|]. apply Hk. right. rewrite Hmarks in Hi.
      by rewrite <- list_fmap_compose in Hi.
Qed.
End groups.

(** ** The concrete runs of [Merge]: a merge, then its undo *)

#[local] Existing Instance Artifacts.no_custom_index.
#[local] Existing Instance Journal.demo_registry.
#[local] Existing Instance Merge.demo_environment.
#[local] Existing Instance Merge.demo_laws.

Definition demo_inputs : list merge_read := [demo_read 1 1 0; demo_read 2 1 0].
Definition demo_undo_item : prepared content := Eval vm_compute in
  match prepare_change demo_undo with Ok x => x | Err _ => mkPrepared demo_undo [] end.

Lemma demo_inspected :
  inspect_merge Artifacts.demo_repository Artifacts.demo_scope [3] demo_inputs (mkContent [1] [4]) tt None [] None
    demo_before = Ok (prepared_plan demo_item, demo_before).
Proof. vm_compute. reflexivity. Qed.

Definition result_of (r : result (mutation * demo_state)) : mutation :=
  match r with Ok (m, _) => m | Err _ => mkMutation false [] [] [] [] end.
Definition demo_mutation : mutation := Eval vm_compute in
  result_of (commit Artifacts.demo_repository demo_item tt None demo_before).
Definition demo_undo_mutation : mutation := Eval vm_compute in
  result_of (commit Artifacts.demo_repository demo_undo_item tt None demo_merged).

Lemma demo_committed :
  commit Artifacts.demo_repository demo_item tt None demo_before = Ok (demo_mutation, demo_merged).
Proof. vm_compute. reflexivity. Qed.

Lemma demo_undo_committed :
  commit Artifacts.demo_repository demo_undo_item tt None demo_merged = Ok (demo_undo_mutation, demo_undone).
Proof. vm_cast_no_check (eq_refl (Ok (demo_undo_mutation, demo_undone))). Qed.

Lemma inspected_well_planned_witness : well_planned demo_environment Artifacts.demo_scope tt demo_merge.
Proof.
  apply (inspected_well_planned Artifacts.demo_repository demo_environment Artifacts.demo_scope tt demo_merge).
  eapply inspected_merge. exact demo_inspected.
Defined.

Lemma merge_is_whole_witness :
  merged_whole demo_environment Artifacts.demo_scope [3] demo_inputs demo_merged.1.
Proof.
  apply (merge_is_whole Artifacts.demo_repository demo_environment Artifacts.demo_scope [3] demo_inputs
    (mkContent [1] [4]) tt None [] None demo_item None demo_before demo_before demo_before demo_merged demo_mutation).
  - exact demo_inspected.
  - intros r Hr. exact (False_ind _ (proj1 (elem_of_nil r) Hr)).
  - exact demo_committed.
Defined.

Lemma merge_undo_roundtrip_witness :
  Forall (λ r, copied_back demo_environment Artifacts.demo_scope demo_merged.1 demo_undone.1
    (ref_id (read_ref r)) (ref_revision (read_ref r))) demo_inputs.
Proof.
  apply (merge_undo_roundtrip Artifacts.demo_repository demo_environment Artifacts.demo_scope [3] demo_inputs
    (mkContent [1] [4]) tt None [] None demo_item None demo_before demo_before demo_before demo_merged demo_mutation
    tt None demo_undo_item None demo_merged demo_merged demo_undone demo_undo_mutation).
  - exact demo_inspected.
  - intros r Hr. exact (False_ind _ (proj1 (elem_of_nil r) Hr)).
  - exact demo_committed.
  - exact demo_plan_undo.
  - exact demo_undo_committed.
Defined.
End MergeGroups.
