(* ===== verification/Candidates.v ===== *)
(** * Candidate versions and decisions

    [builtin/persistence/candidates.py] over the Candidate tables, with the domain
    values of [builtin/review/models.py]: immutable proposal versions under one
    mutable head per Candidate, revised, rejected and approved by compare and swap. *)

From S2P Require Import Prelude Tables Catalog.
From stdpp Require Import pretty.
Local Open Scope Z_scope.

Module Candidates.

Definition MAX_CANDIDATE_EVIDENCE : Z := 32.
Definition MAX_CANDIDATE_PAGE_SIZE : Z := 100.
Definition MAX_CANDIDATE_REASON_LENGTH : Z := 2000.

(** ** Values *)

Inductive candidate_status := PENDING | APPROVED | REJECTED.
#[export] Instance candidate_status_eq_dec : EqDecision candidate_status.
Proof. solve_decision. Defined.

Definition status_value (s : candidate_status) : string :=
  match s with PENDING => "pending" | APPROVED => "approved" | REJECTED => "rejected" end.

(** [CandidateAudit]. *)
Record audit := mkAudit {
  audit_operation : text;
  dream_run_id : text;
  spec_version : text;
  audit_digest : text;
  evidence_manifest_ref : text;
  validation_policy_digest : text;
  proposal_fingerprint : option text
}.
#[export] Instance audit_eq_dec : EqDecision audit.
Proof. solve_decision. Defined.

Record candidate := mkCandidate {
  candidate_id : text;
  version : Z;
  family : text;
  status : candidate_status;
  proposal : content;
  sources : list source_ref;
  artifacts : list art_ref;
  target : option art_ref;
  reason : option text;
  result_artifact : option art_ref;
  decision_reason : option text;
  candidate_audit : option audit
}.
#[export] Instance candidate_eq_dec : EqDecision candidate.
Proof. solve_decision. Defined.

(** The validators of [Candidate]. *)
Definition valid_reason (r : option text) : Prop :=
  match r with None => True | Some t => trimmed t ∧ len t ≤ MAX_CANDIDATE_REASON_LENGTH end.
#[export] Instance valid_reason_dec r : Decision (valid_reason r).
Proof. destruct r; apply _. Defined.

Definition valid_evidence (c : candidate) : Prop :=
  (sources c ≠ [] ∨ artifacts c ≠ []) ∧
  Z.of_nat (length (sources c)) + Z.of_nat (length (artifacts c)) ≤ MAX_CANDIDATE_EVIDENCE ∧
  match target c with None => True | Some t => ref_family t = family c end.
#[export] Instance valid_evidence_dec c : Decision (valid_evidence c).
Proof. unfold valid_evidence. destruct (target c); apply _. Defined.

Definition valid_lifecycle (c : candidate) : Prop :=
  (status c = APPROVED ↔ result_artifact c ≠ None) ∧ (status c = REJECTED ↔ decision_reason c ≠ None).
#[export] Instance valid_lifecycle_dec c : Decision (valid_lifecycle c).
Proof. unfold valid_lifecycle. apply _. Defined.

Definition valid_candidate (c : candidate) : Prop :=
  valid_part (candidate_id c) MAX_ARTIFACT_ID_LENGTH ∧ 1 ≤ version c ∧ trimmed (family c) ∧
  valid_reason (reason c) ∧ valid_reason (decision_reason c) ∧ valid_evidence c ∧ valid_lifecycle c.
#[export] Instance valid_candidate_dec c : Decision (valid_candidate c).
Proof. unfold valid_candidate. apply _. Defined.

(** Constructing a [Candidate] validates it. *)
Definition new_candidate (c : candidate) : result candidate :=
  raise_if (¬ valid_candidate c) (ValueError "Candidate") ;; Ok c.

(** ** Tables *)

Inductive candidate_kind := ARTIFACT | TAG.
#[export] Instance candidate_kind_eq_dec : EqDecision candidate_kind.
Proof. solve_decision. Defined.

(** [pc_candidate_versions]: the proposal payload decodes to a proposal and its audit. *)
Record version_row := mkVersion {
  v_family : text;
  v_proposal : content;
  v_audit : option audit;
  v_sources : list source_ref;
  v_artifacts : list art_ref;
  v_target : option art_ref;
  v_reason : option text
}.
#[export] Instance version_row_eq_dec : EqDecision version_row.
Proof. solve_decision. Defined.

(** [pc_candidate_heads]. *)
Record head_row := mkHeadRow {
  h_family : text;
  h_version : Z;
  h_status : candidate_status;
  h_kind : candidate_kind;
  h_result_payload : option text;
  h_result : option art_ref;
  h_reason : option text
}.
#[export] Instance head_row_eq_dec : EqDecision head_row.
Proof. solve_decision. Defined.

(** [ck_pc_candidate_heads_terminal_result]. *)
Definition head_row_check (h : head_row) : Prop :=
  match h_status h, h_kind h with
  | PENDING, _ => h_result_payload h = None ∧ h_result h = None ∧ h_reason h = None
  | REJECTED, _ => h_result_payload h = None ∧ h_result h = None ∧ h_reason h ≠ None
  | APPROVED, ARTIFACT =>
      h_result_payload h = None ∧ match h_result h with Some r => 0 < ref_revision r | None => False end ∧ h_reason h = None
  | APPROVED, TAG => h_result_payload h ≠ None ∧ h_result h = None ∧ h_reason h = None
  end.
#[export] Instance head_row_check_dec h : Decision (head_row_check h).
Proof. unfold head_row_check. destruct (h_status h), (h_kind h), (h_result h); apply _. Defined.

Notation candidate_key := (text * text)%type.

(** The tables of one review transaction. *)
Record rdb := mkRdb {
  r_adb : adb;
  r_versions : gmap (text * text * Z) version_row;
  r_heads : gmap candidate_key head_row
}.

Definition set_versions (v : gmap (text * text * Z) version_row) (s : rdb) : rdb := mkRdb (r_adb s) v (r_heads s).
Definition set_candidate_heads (v : gmap candidate_key head_row) (s : rdb) : rdb := mkRdb (r_adb s) (r_versions s) v.

(** Foreign keys to [pc_artifacts]. *)
Definition revision_exists (scope_id : text) (r : option art_ref) (s : rdb) : Prop :=
  match r with None => True | Some r => is_Some (a_bodies (r_adb s) !! key_in scope_id r) end.
#[export] Instance revision_exists_dec sc r s : Decision (revision_exists sc r s).
Proof. unfold revision_exists. destruct r; apply _. Defined.

Definition insert_version (k : candidate_key) (n : Z) (v : version_row) : M rdb unit := λ s,
  if decide (r_versions s !! (k, n) = None ∧ 0 < n ∧ revision_exists k.1 (v_target v) s)
  then Ok (tt, set_versions (<[(k, n) := v]> (r_versions s)) s)
  else Err (IntegrityError "candidate_versions").

Definition head_fits (k : candidate_key) (h : head_row) (s : rdb) : Prop :=
  head_row_check h ∧ is_Some (r_versions s !! (k, h_version h)) ∧ revision_exists k.1 (h_result h) s.
#[export] Instance head_fits_dec k h s : Decision (head_fits k h s).
Proof. unfold head_fits. apply _. Defined.

Definition insert_candidate_head (k : candidate_key) (h : head_row) : M rdb unit := λ s,
  if decide (r_heads s !! k = None ∧ head_fits k h s)
  then Ok (tt, set_candidate_heads (<[k := h]> (r_heads s)) s)
  else Err (IntegrityError "candidate_heads").

(** UPDATE ... WHERE kind = 'artifact' AND version = expected AND status = 'pending':
    the row count. *)
Definition matches (expected : Z) (h : head_row) : Prop :=
  h_kind h = ARTIFACT ∧ h_version h = expected ∧ h_status h = PENDING.
#[export] Instance matches_dec e h : Decision (matches e h).
Proof. unfold matches. apply _. Defined.

Definition update_pending (k : candidate_key) (expected : Z) (f : head_row → head_row) : M rdb Z := λ s,
  match r_heads s !! k with
  | Some h =>
      if decide (matches expected h) then
        if decide (head_fits k (f h) s)
        then Ok (1, set_candidate_heads (<[k := f h]> (r_heads s)) s)
        else Err (IntegrityError "candidate_heads")
      else Ok (0, s)
  | None => Ok (0, s)
  end.

(** [try ... except IntegrityError], as the failed statements left no head. *)
Definition catch_integrity {A} (m h : M rdb A) : M rdb A := λ s,
  match m s with
  | Err (IntegrityError t) => match h s with Ok _ => Err (IntegrityError t) | Err e => Err e end
  | r => r
  end.

(** ** [CandidateRepository] *)

Section repository.

(** [_proposal_types]: the content class of each registered Family; the digest of a
    proposal is a hash of its canonical payload. *)
Context (proposal_types : dict text text) (proposal_digest : content → text).

Definition new_repository : result (dict text text) :=
  raise_if (proposal_types = []) (ValueError "at least one Candidate proposal type is required") ;; Ok proposal_types.

Definition require_proposal (fam : text) (p : content) : result unit :=
  match dget fam proposal_types with
  | None => Err (InvalidCandidateError "family")
  | Some cls => raise_if (content_class p ≠ cls) (InvalidCandidateError "proposal")
  end.

Definition version_row_of (c : candidate) : version_row :=
  mkVersion (family c) (proposal c) (candidate_audit c) (sources c) (artifacts c) (target c) (reason c).

Definition find_head (scope_id candidate_id : text) (s : rdb) : option head_row :=
  h ← r_heads s !! (scope_id, candidate_id); if decide (h_kind h = ARTIFACT) then Some h else None.

(** [_find_current]: the head joined with the version it names. *)
Definition find_current (scope_id candidate_id : text) (s : rdb) : option (head_row * version_row) :=
  h ← find_head scope_id candidate_id s;
  v ← r_versions s !! (scope_id, candidate_id, h_version h);
  Some (h, v).

Definition decode_candidate (candidate_id : text) (row : head_row * version_row) : result candidate :=
  let '(h, v) := row in
  match dget (h_family h) proposal_types with
  | None => Err (InvalidCandidateError "family")
  | Some cls =>
      raise_if (content_class (v_proposal v) ≠ cls) (InvalidStoredPayloadError "candidate-proposal") ;;
      new_candidate (mkCandidate candidate_id (h_version h) (h_family h) (h_status h) (v_proposal v) (v_sources v)
        (v_artifacts v) (v_target v) (v_reason v) (h_result h) (h_reason h) (v_audit v))
  end.

(** [get]; the row lock of [current] has no effect. *)
Definition get (scope_id candidate_id : text) : M rdb candidate := reads (λ s,
  require_scope scope_id ;;
  match find_current scope_id candidate_id s with
  | None => Err CandidateNotFoundError
  | Some row => decode_candidate candidate_id row
  end).

(** A bulk creation takes distinct pending first versions. *)
Definition check_new (seen : list text) (c : candidate) : result (list text) :=
  require_proposal (family c) (proposal c) ;;
  raise_if (version c ≠ 1 ∨ status c ≠ PENDING) (InvalidCandidateError "candidate") ;;
  raise_if (candidate_id c ∈ seen) (CandidateConflictError 1 1) ;;
  Ok (candidate_id c :: seen).
Fixpoint check_new_all (seen : list text) (l : list candidate) : result unit :=
  match l with
  | [] => Ok tt
  | c :: l' => seen' ← check_new seen c; check_new_all seen' l'
  end.

Definition insert_candidates (scope_id : text) (l : list candidate) : M rdb unit :=
  for_each (λ c, insert_version (scope_id, candidate_id c) (version c) (version_row_of c)) l ;;
  for_each (λ c, insert_candidate_head (scope_id, candidate_id c)
                   (mkHeadRow (family c) 1 PENDING ARTIFACT None None None)) l.

(** The first Candidate that already has a head conflicts with it. *)
Definition existing_conflict (scope_id : text) (s : rdb) (c : candidate) : result unit :=
  match find_head scope_id (candidate_id c) s with
  | Some h => Err (CandidateConflictError 1 (h_version h))
  | None => Ok tt
  end.
Definition classify_conflict (scope_id : text) (l : list candidate) : M rdb unit := reads (λ s,
  check_each (existing_conflict scope_id s) l).

Definition create_many (scope_id : text) (l : list candidate) : M rdb (list candidate) :=
  lift (require_scope scope_id) ;;
  if decide (l = []) then mret [] else
    lift (check_new_all [] l) ;;
    catch_integrity (insert_candidates scope_id l) (classify_conflict scope_id l) ;;
    mret l.

(** What a proposal states: its content, evidence, target and reason. *)
Record statement := mkStatement {
  st_proposal : content;
  st_sources : list source_ref;
  st_artifacts : list art_ref;
  st_target : option art_ref;
  st_reason : option text
}.

Definition pending_candidate (candidate_id : text) (n : Z) (fam : text) (p : statement) (a : option audit) : candidate :=
  mkCandidate candidate_id n fam PENDING (st_proposal p) (st_sources p) (st_artifacts p) (st_target p) (st_reason p)
    None None a.

Definition create (scope_id candidate_id fam : text) (p : statement) : M rdb candidate :=
  lift (require_scope scope_id) ;;
  lift (require_proposal fam (st_proposal p)) ;;
  c ← lift (new_candidate (pending_candidate candidate_id 1 fam p None));
  created ← create_many scope_id [c];
  match created with c :: _ => mret c | [] => lift (Err (RuntimeError "IndexError")) end.

(** ** Decisions under the pending compare and swap *)

Definition raise_stale_or_terminal (c : candidate) (expected : Z) : exn :=
  if decide (status c ≠ PENDING) then CandidateTerminalError (status_value (status c))
  else CandidateConflictError expected (version c).

Definition lock_pending (scope_id candidate_id : text) (expected : Z) : M rdb candidate :=
  lift (require_scope scope_id) ;;
  locked ← update_pending (scope_id, candidate_id) expected id;
  current ← get scope_id candidate_id;
  lift (raise_if (locked ≠ 1) (raise_stale_or_terminal current expected)) ;;
  mret current.

(** The compare and swap of a transition; a lost one reports the latest head. *)
Definition swap_pending (scope_id candidate_id : text) (expected : Z) (f : head_row → head_row) : M rdb unit :=
  count ← update_pending (scope_id, candidate_id) expected f;
  if decide (count = 1) then mret tt else
    latest ← get scope_id candidate_id;
    lift (Err (raise_stale_or_terminal latest expected)).

(** The audit of a revised proposal. *)
Definition revised_audit (candidate_id : text) (n : Z) (p : content) (a : audit) : audit :=
  mkAudit (audit_operation a) (dream_run_id a) (spec_version a) (proposal_digest p)
    (str "candidate:" ++ candidate_id ++ str ":" ++ str (pretty n)) (validation_policy_digest a) None.

Definition revise (scope_id candidate_id : text) (expected : Z) (p : statement) : M rdb candidate :=
  current ← lock_pending scope_id candidate_id expected;
  lift (require_proposal (family current) (st_proposal p)) ;;
  let n := version current + 1 in
  revised ← lift (new_candidate (pending_candidate candidate_id n (family current) p
                     (revised_audit candidate_id n (st_proposal p) <$> candidate_audit current)));
  insert_version (scope_id, candidate_id) n (version_row_of revised) ;;
  swap_pending scope_id candidate_id expected
    (λ h, mkHeadRow (h_family h) n (h_status h) (h_kind h) (h_result_payload h) (h_result h) (h_reason h)) ;;
  mret revised.

(** [model_copy] does not validate the reason; the service does. *)
Definition rejected (c : candidate) (why : text) : candidate :=
  mkCandidate (candidate_id c) (version c) (family c) REJECTED (proposal c) (sources c) (artifacts c) (target c)
    (reason c) (result_artifact c) (Some why) (candidate_audit c).

Definition reject (scope_id candidate_id : text) (expected : Z) (why : text) : M rdb candidate :=
  current ← lock_pending scope_id candidate_id expected;
  swap_pending scope_id candidate_id expected
    (λ h, mkHeadRow (h_family h) (h_version h) REJECTED (h_kind h) (h_result_payload h) (h_result h) (Some why)) ;;
  mret (rejected current why).

Definition mark_approved (scope_id candidate_id : text) (expected : Z) (r : art_ref) : M rdb candidate :=
  swap_pending scope_id candidate_id expected
    (λ h, mkHeadRow (h_family h) (h_version h) APPROVED (h_kind h) (h_result_payload h) (Some r) (h_reason h)) ;;
  get scope_id candidate_id.

(** [attach_candidate_audit]: completes a version created in the same transaction. *)
Definition attach_candidate_audit (scope_id : text) (c : candidate) (a : audit) : M rdb unit :=
  lift (raise_if (version c ≠ 1 ∨ candidate_audit c ≠ None ∨ status c ≠ PENDING) (InvalidCandidateError "audit")) ;;
  modifies (λ s, set_versions
    (alter (λ v, mkVersion (v_family v) (proposal c) (Some a) (v_sources v) (v_artifacts v) (v_target v) (v_reason v))
       (scope_id, candidate_id c, 1) (r_versions s)) s).

(** ** The Review Inbox *)

Definition key_le (a b : candidate_key * head_row) : Prop := text_le a.1.2 b.1.2.
#[local] Instance key_le_dec : RelDecision key_le := λ a b, text_le_dec _ _.

(** The selected heads of the Scope after the cursor, by Candidate identity. *)
Definition inbox_row (scope_id : text) (st : candidate_status) (fam cursor : option text)
    (kh : candidate_key * head_row) : Prop :=
  kh.1.1 = scope_id ∧ h_kind kh.2 = ARTIFACT ∧ h_status kh.2 = st ∧
  match fam with None => True | Some f => h_family kh.2 = f end ∧
  match cursor with None => True | Some c => ¬ text_le kh.1.2 c end.
#[local] Instance inbox_row_dec sc st f c kh : Decision (inbox_row sc st f c kh).
Proof. unfold inbox_row. destruct f, c; apply _. Defined.

Definition list_candidates (scope_id : text) (st : candidate_status) (fam cursor : option text) (limit : Z)
    : M rdb (list candidate * option text) := reads (λ s,
  raise_if (is_Some fam ∧ (fam ≫= λ f, dget f proposal_types) = None) (InvalidCandidateError "family") ;;
  require_scope scope_id ;;
  raise_if (¬ (1 ≤ limit ∧ limit ≤ MAX_CANDIDATE_PAGE_SIZE)) (InvalidRepositoryArgumentError "limit") ;;
  let rows := take (Z.to_nat (limit + 1))
    (omap (λ kh : candidate_key * head_row,
             (λ v, (kh.1.2, (kh.2, v))) <$> r_versions s !! (kh.1, h_version kh.2))
       (merge_sort key_le (filter (inbox_row scope_id st fam cursor) (map_to_list (r_heads s))))) in
  items ← map_result (λ r, decode_candidate r.1 r.2) (take (Z.to_nat limit) rows);
  Ok (items, if decide (limit < Z.of_nat (length rows)) then fst <$> rows !! Z.to_nat (limit - 1) else None)).

(** ** Abstract specification

    A Candidate is the list of its proposal versions and at most one decision. *)

Inductive decision := Undecided | Approved (r : art_ref) | Rejected (why : text).
#[local] Instance decision_eq_dec : EqDecision decision.
Proof. solve_decision. Defined.

Record entry := mkEntry { e_family : text; e_versions : list version_row; e_decision : decision }.

Notation entries := (gmap candidate_key entry).

Definition decision_status (d : decision) : candidate_status :=
  match d with Undecided => PENDING | Approved _ => APPROVED | Rejected _ => REJECTED end.
Definition decision_result (d : decision) : option art_ref := match d with Approved r => Some r | _ => None end.
Definition decision_why (d : decision) : option text := match d with Rejected why => Some why | _ => None end.

(** The Candidate an entry shows: its last version under its decision. *)
Definition view (candidate_id : text) (e : entry) : option candidate :=
  (λ v, mkCandidate candidate_id (Z.of_nat (length (e_versions e))) (e_family e) (decision_status (e_decision e))
     (v_proposal v) (v_sources v) (v_artifacts v) (v_target v) (v_reason v)
     (decision_result (e_decision e)) (decision_why (e_decision e)) (v_audit v)) <$> last (e_versions e).

(** A decision or a revision is taken on an undecided Candidate at its last version. *)
Definition spec_pending (a : entries) (k : candidate_key) (expected : Z) : result entry :=
  match a !! k with
  | None => Err CandidateNotFoundError
  | Some e =>
      if decide (e_decision e ≠ Undecided) then Err (CandidateTerminalError (status_value (decision_status (e_decision e))))
      else if decide (Z.of_nat (length (e_versions e)) = expected) then Ok e
      else Err (CandidateConflictError expected (Z.of_nat (length (e_versions e))))
  end.

Definition spec_decide (k : candidate_key) (expected : Z) (d : decision) (a : entries) : result entries :=
  e ← spec_pending a k expected;
  Ok (<[k := mkEntry (e_family e) (e_versions e) d]> a).

Definition next_version (candidate_id : text) (e : entry) (p : statement) : version_row :=
  let n := Z.of_nat (length (e_versions e)) + 1 in
  mkVersion (e_family e) (st_proposal p)
    (revised_audit candidate_id n (st_proposal p) <$> (last (e_versions e) ≫= v_audit))
    (st_sources p) (st_artifacts p) (st_target p) (st_reason p).

Definition spec_revise (k : candidate_key) (expected : Z) (p : statement) (a : entries) : result entries :=
  e ← spec_pending a k expected;
  Ok (<[k := mkEntry (e_family e) (e_versions e ++ [next_version k.2 e p]) (e_decision e)]> a).

(** Every Candidate of a bulk creation is new, or the first that is not conflicts. *)
Definition spec_new (scope_id : text) (a : entries) (c : candidate) : result unit :=
  match a !! (scope_id, candidate_id c) with
  | Some e => Err (CandidateConflictError 1 (Z.of_nat (length (e_versions e))))
  | None => Ok tt
  end.
Definition spec_create (scope_id : text) (l : list candidate) (a : entries) : entries :=
  foldl (λ a c, <[(scope_id, candidate_id c) := mkEntry (family c) [version_row_of c] Undecided]> a) a l.

Definition spec_create_many (scope_id : text) (l : list candidate) (a : entries) : result entries :=
  raise_if (¬ NoDup (candidate_id <$> l)) (CandidateConflictError 1 1) ;;
  check_each (spec_new scope_id a) l ;;
  Ok (spec_create scope_id l a).

(** The rows of one entry, and a key without a Candidate. *)
Record holds (s : rdb) (k : candidate_key) (e : entry) : Prop := {
  hold_head : r_heads s !! k =
    Some (mkHeadRow (e_family e) (Z.of_nat (length (e_versions e))) (decision_status (e_decision e)) ARTIFACT None
            (decision_result (e_decision e)) (decision_why (e_decision e)));
  hold_versions n : r_versions s !! (k, n) = if decide (1 ≤ n) then e_versions e !! Z.to_nat (n - 1) else None;
  hold_valid c : view k.2 e = Some c → valid_candidate c ∧ require_proposal (family c) (proposal c) = Ok tt;
  hold_some : e_versions e ≠ []
}.
Definition vacant (s : rdb) (k : candidate_key) : Prop :=
  match r_heads s !! k with Some h => h_kind h = TAG | None => ∀ n, r_versions s !! (k, n) = None end.

Definition abstracts (s : rdb) (a : entries) : Prop :=
  ∀ k, match a !! k with Some e => holds s k e | None => vacant s k end.

(** ** Reads follow the specification *)

Lemma view_Some candidate_id e : e_versions e ≠ [] → ∃ c, view candidate_id e = Some c.
Proof.
  intros Hne. unfold view. destruct (last (e_versions e)) as [v|] eqn:E; [by eexists|].
  by apply last_None in E.
Qed.

Lemma view_id id e c : view id e = Some c → candidate_id c = id.
Proof. unfold view. destruct (last (e_versions e)); [|done]. by intros [= <-]. Qed.

Lemma hold_last s k e v :
  holds s k e → last (e_versions e) = Some v → r_versions s !! (k, Z.of_nat (length (e_versions e))) = Some v.
Proof.
  intros H Hv. pose proof (hold_some _ _ _ H). assert (length (e_versions e) ≠ 0%nat) by by destruct (e_versions e).
  rewrite (hold_versions _ _ _ H), decide_True by lia. rewrite last_lookup in Hv. rewrite <- Hv. f_equal. lia.
Qed.

Lemma find_current_holds s sc id e v :
  holds s (sc, id) e → last (e_versions e) = Some v →
  find_current sc id s = Some (mkHeadRow (e_family e) (Z.of_nat (length (e_versions e))) (decision_status (e_decision e))
    ARTIFACT None (decision_result (e_decision e)) (decision_why (e_decision e)), v).
Proof.
  intros H Hv. unfold find_current, find_head. rewrite (hold_head _ _ _ H). simpl.
  by rewrite (hold_last _ _ _ _ H Hv).
Qed.

Lemma get_holds s sc id e c :
  require_scope sc = Ok tt → holds s (sc, id) e → view id e = Some c → get sc id s = Ok (c, s).
Proof.
  intros Hsc H Hc. destruct (hold_valid _ _ _ H c Hc) as [Hval Hprop]. unfold get, reads. rewrite Hsc. simpl.
  unfold view in Hc. destruct (last (e_versions e)) as [v|] eqn:Hv; [|done]. injection Hc as <-.
  rewrite (find_current_holds _ _ _ _ _ H Hv). unfold decode_candidate. simpl in *.
  unfold require_proposal in Hprop. destruct (dget (e_family e) proposal_types) as [cls|]; [|done].
  apply raise_if_ok in Hprop.
  rewrite raise_if_skip by done. simpl. unfold new_candidate. rewrite raise_if_skip; [done|]. intros Hn. by apply Hn.
Qed.

Lemma get_vacant s sc id : require_scope sc = Ok tt → vacant s (sc, id) → get sc id s = Err CandidateNotFoundError.
Proof.
  intros Hsc Hv. unfold get, reads, find_current, find_head. rewrite Hsc. simpl. unfold vacant in Hv.
  destruct (r_heads s !! (sc, id)) as [h|]; simpl; [|done]. rewrite decide_False by (intros ?; congruence). done.
Qed.

(** ** The pending compare and swap *)

Lemma update_vacant s k expected f : vacant s k → update_pending k expected f s = Ok (0, s).
Proof.
  unfold vacant, update_pending. destruct (r_heads s !! k) as [h|]; [|done]. intros Hk.
  rewrite decide_False; [done|]. intros (H & _). congruence.
Qed.

Definition pending_at (e : entry) (expected : Z) : Prop :=
  e_decision e = Undecided ∧ Z.of_nat (length (e_versions e)) = expected.
#[local] Instance pending_at_dec e n : Decision (pending_at e n).
Proof. unfold pending_at. apply _. Defined.

Definition head_of_entry (e : entry) : head_row :=
  mkHeadRow (e_family e) (Z.of_nat (length (e_versions e))) (decision_status (e_decision e)) ARTIFACT None
    (decision_result (e_decision e)) (decision_why (e_decision e)).

Lemma update_holds s k e expected f :
  r_heads s !! k = Some (head_of_entry e) →
  update_pending k expected f s =
    if decide (pending_at e expected) then
      if decide (head_fits k (f (head_of_entry e)) s)
      then Ok (1, set_candidate_heads (<[k := f (head_of_entry e)]> (r_heads s)) s)
      else Err (IntegrityError "candidate_heads")
    else Ok (0, s).
Proof.
  intros H. unfold update_pending. rewrite H.
  destruct (decide (pending_at e expected)) as [[Hd He]|Hp].
  - rewrite decide_True; [done|]. unfold matches. simpl. by rewrite Hd.
  - rewrite decide_False; [done|]. intros (_ & Hn & Hs). apply Hp. split; [|done]. simpl in Hs.
    by destruct (e_decision e).
Qed.

Lemma spec_pending_holds a k e expected :
  a !! k = Some e →
  spec_pending a k expected = if decide (pending_at e expected) then Ok e else
    Err (if decide (e_decision e ≠ Undecided) then CandidateTerminalError (status_value (decision_status (e_decision e)))
         else CandidateConflictError expected (Z.of_nat (length (e_versions e)))).
Proof.
  intros Hk. unfold spec_pending. rewrite Hk. destruct (decide (pending_at e expected)) as [[Hd He]|Hp].
  - rewrite decide_False by naive_solver. by rewrite decide_True.
  - case_decide as Hd; [done|]. rewrite decide_False; [done|]. intros He. apply Hp. split; [|done].
    destruct (decide (e_decision e = Undecided)); tauto.
Qed.

Lemma stale_or_terminal id e c expected :
  view id e = Some c →
  raise_stale_or_terminal c expected =
    if decide (e_decision e ≠ Undecided) then CandidateTerminalError (status_value (decision_status (e_decision e)))
    else CandidateConflictError expected (Z.of_nat (length (e_versions e))).
Proof.
  unfold view. destruct (last (e_versions e)); [|done]. intros [= <-]. unfold raise_stale_or_terminal. simpl.
  destruct (e_decision e); simpl; repeat case_decide; naive_solver.
Qed.

Lemma lock_fits s k e : holds s k e → e_decision e = Undecided → head_fits k (head_of_entry e) s.
Proof.
  intros H Hd. unfold head_fits, head_of_entry, head_row_check, revision_exists. simpl. rewrite Hd. simpl. split_and!; try done.
  destruct (last (e_versions e)) as [v|] eqn:Hv; [|apply last_None in Hv; by destruct (hold_some _ _ _ H)].
  by rewrite (hold_last _ _ _ _ H Hv).
Qed.

Lemma lock_pending_spec s a sc id expected :
  require_scope sc = Ok tt → abstracts s a →
  lock_pending sc id expected s =
    match spec_pending a (sc, id) expected with
    | Ok e => match view id e with Some c => Ok (c, s) | None => Err OutOfFuel end
    | Err e => Err e
    end.
Proof.
  intros Hsc Ha. unfold lock_pending, mbind, M_bind, lift. rewrite Hsc. specialize (Ha (sc, id)).
  destruct (a !! (sc, id)) as [e|] eqn:Hk.
  - destruct (view_Some id e) as [c Hc]; [apply Ha|].
    rewrite (update_holds _ _ _ _ _ (hold_head _ _ _ Ha)), (spec_pending_holds _ _ e) by done.
    destruct (decide (pending_at e expected)) as [[Hd He]|Hp].
    + rewrite decide_True by (by apply lock_fits). simpl.
      replace (set_candidate_heads _ s) with s.
      2: { unfold head_of_entry. rewrite insert_id by apply Ha. by destruct s. }
      by rewrite (get_holds _ _ _ _ _ Hsc Ha Hc), Hc.
    + rewrite (get_holds _ _ _ _ _ Hsc Ha Hc). unfold raise_if. rewrite decide_True by lia. by rewrite (stale_or_terminal id e).
  - rewrite update_vacant by done. unfold spec_pending. rewrite Hk. by rewrite (get_vacant _ _ _ Hsc Ha).
Qed.

(** ** Transitions refine the specification *)

(** Nothing but the rows of one key changed. *)
Definition only_key (k : candidate_key) (s s' : rdb) : Prop :=
  ∀ k', k' ≠ k → r_heads s' !! k' = r_heads s !! k' ∧ ∀ n, r_versions s' !! (k', n) = r_versions s !! (k', n).

Lemma holds_frame s s' k e :
  r_heads s' !! k = r_heads s !! k → (∀ n, r_versions s' !! (k, n) = r_versions s !! (k, n)) → holds s k e → holds s' k e.
Proof. intros Hh Hv [H1 H2 H3 H4]. split; [by rewrite Hh|intros n; by rewrite Hv|done|done]. Qed.

Lemma vacant_frame s s' k :
  r_heads s' !! k = r_heads s !! k → (∀ n, r_versions s' !! (k, n) = r_versions s !! (k, n)) → vacant s k → vacant s' k.
Proof. unfold vacant. intros -> Hv. destruct (r_heads s !! k); [done|]. intros H n. by rewrite Hv. Qed.

Lemma abstracts_insert s s' a k e :
  abstracts s a → only_key k s s' → holds s' k e → abstracts s' (<[k := e]> a).
Proof.
  intros Ha Ho He k'. destruct (decide (k' = k)) as [->|Hne]; [by rewrite lookup_insert_eq|].
  rewrite lookup_insert_ne by done. destruct (Ho k' Hne) as [Hh Hv]. specialize (Ha k').
  destruct (a !! k'); [by eapply holds_frame|by eapply vacant_frame].
Qed.

Lemma only_key_head k h s : only_key k s (set_candidate_heads (<[k := h]> (r_heads s)) s).
Proof. intros k' Hk. simpl. by rewrite lookup_insert_ne. Qed.

(** A call simulates a step of the specification: it takes the step and returns
    Candidates the new entries show, or fails as the step does, or rejects its input. *)
Definition simulates (sc : text) (spec : result entries) (rejects : exn → Prop) (r : result (list candidate * rdb)) : Prop :=
  match r with
  | Ok (cs, s') => ∃ a', spec = Ok a' ∧ abstracts s' a' ∧
      Forall (λ c, ∃ e, a' !! (sc, candidate_id c) = Some e ∧ view (candidate_id c) e = Some c) cs
  | Err e => spec = Err e ∨ rejects e
  end.

Definition one (m : M rdb candidate) : M rdb (list candidate) := c ← m; mret [c].

Definition decided (e : entry) (d : decision) : entry := mkEntry (e_family e) (e_versions e) d.

Lemma decided_view id e d c :
  view id e = Some c → e_decision e = Undecided →
  view id (decided e d) =
    Some (mkCandidate id (version c) (family c) (decision_status d) (proposal c) (sources c) (artifacts c) (target c)
            (reason c) (decision_result d) (decision_why d) (candidate_audit c)).
Proof. unfold view. simpl. intros Hc Hd. destruct (last (e_versions e)); [|done]. by injection Hc as <-. Qed.

Lemma decided_holds s k e d :
  holds s k e → e_decision e = Undecided → valid_reason (decision_why d) →
  holds (set_candidate_heads (<[k := head_of_entry (decided e d)]> (r_heads s)) s) k (decided e d).
Proof.
  intros H Hd Hwhy. split; simpl; [by rewrite lookup_insert_eq|apply H| |apply H].
  intros c Hc. destruct (view_Some k.2 e (hold_some _ _ _ H)) as [c0 Hc0].
  rewrite (decided_view _ _ d _ Hc0 Hd) in Hc. injection Hc as <-.
  destruct (hold_valid _ _ _ H _ Hc0) as [(V1 & V2 & V3 & V4 & _ & V6 & _) Hp]. split; [|done].
  unfold valid_candidate, valid_evidence, valid_lifecycle in *. simpl. split_and!; try done; try apply V6.
  - by unfold view in Hc0; destruct (last _); [|done]; injection Hc0 as <-.
  - destruct d; simpl; naive_solver.
  - destruct d; simpl; naive_solver.
Qed.

Lemma swap_pending_spec s a sc id expected f :
  require_scope sc = Ok tt → abstracts s a →
  swap_pending sc id expected f s =
    match spec_pending a (sc, id) expected with
    | Ok e => if decide (head_fits (sc, id) (f (head_of_entry e)) s)
              then Ok (tt, set_candidate_heads (<[(sc, id) := f (head_of_entry e)]> (r_heads s)) s)
              else Err (IntegrityError "candidate_heads")
    | Err e => Err e
    end.
Proof.
  intros Hsc Ha. unfold swap_pending, mbind, M_bind, lift. specialize (Ha (sc, id)).
  destruct (a !! (sc, id)) as [e|] eqn:Hk.
  - destruct (view_Some id e) as [c Hc]; [apply Ha|].
    rewrite (update_holds _ _ _ _ _ (hold_head _ _ _ Ha)), (spec_pending_holds _ _ e) by done.
    destruct (decide (pending_at e expected)); [by case_decide|]. simpl.
    rewrite (get_holds _ _ _ _ _ Hsc Ha Hc). by rewrite (stale_or_terminal id e).
  - rewrite update_vacant by done. unfold spec_pending. rewrite Hk. simpl. by rewrite (get_vacant _ _ _ Hsc Ha).
Qed.

Lemma spec_pending_Ok a k expected e :
  spec_pending a k expected = Ok e → a !! k = Some e ∧ pending_at e expected.
Proof.
  unfold spec_pending. destruct (a !! k) as [e'|]; [|done]. case_decide as Hd; [done|]. case_decide; [|done].
  intros [= <-]. split; [done|]. split; [|done]. destruct (decide (e_decision e' = Undecided)); tauto.
Qed.

(** The step of the specification for a decision, once the head has been written. *)
Lemma decide_simulates s a sc id expected d e :
  abstracts s a → spec_pending a (sc, id) expected = Ok e → valid_reason (decision_why d) →
  let s' := set_candidate_heads (<[(sc, id) := head_of_entry (decided e d)]> (r_heads s)) s in
  spec_decide (sc, id) expected d a = Ok (<[(sc, id) := decided e d]> a) ∧ abstracts s' (<[(sc, id) := decided e d]> a).
Proof.
  intros Ha Hp Hwhy s'. unfold spec_decide. rewrite Hp. split; [done|]. apply spec_pending_Ok in Hp as [Hk [Hd _]].
  eapply abstracts_insert; [done|apply only_key_head|]. specialize (Ha (sc, id)). rewrite Hk in Ha. by apply decided_holds.
Qed.

Lemma reject_simulates s a sc id expected why :
  require_scope sc = Ok tt → abstracts s a → valid_reason (Some why) →
  simulates sc (spec_decide (sc, id) expected (Rejected why) a) (λ _, False) (one (reject sc id expected why) s).
Proof.
  intros Hsc Ha Hwhy. unfold one, reject, mbind, M_bind. rewrite (lock_pending_spec s a) by done.
  destruct (spec_pending a (sc, id) expected) as [e|x] eqn:Hp.
  2: { simpl. left. unfold spec_decide. by rewrite Hp. }
  pose proof (spec_pending_Ok _ _ _ _ Hp) as [Hk [Hd He]]. pose proof (Ha (sc, id)) as Hh. rewrite Hk in Hh.
  destruct (view_Some id e (hold_some _ _ _ Hh)) as [c Hc]. rewrite Hc, (swap_pending_spec s a), Hp by done.
  assert (Hf : head_of_entry (decided e (Rejected why)) =
    mkHeadRow (h_family (head_of_entry e)) (h_version (head_of_entry e)) REJECTED (h_kind (head_of_entry e))
      (h_result_payload (head_of_entry e)) (h_result (head_of_entry e)) (Some why)).
  { unfold head_of_entry, decided. simpl. by rewrite Hd. }
  rewrite <- Hf, decide_True.
  2: { destruct (lock_fits _ _ _ Hh Hd) as (_ & Hv & _). by split_and!. }
  destruct (decide_simulates s a sc id expected (Rejected why) e Ha Hp Hwhy) as [Hs Ha'].
  exists (<[(sc, id) := decided e (Rejected why)]> a). split_and!; [done..|]. constructor; [|constructor].
  exists (decided e (Rejected why)).
  pose proof (view_id _ _ _ Hc) as Hid.
  simpl. rewrite Hid. split; [by rewrite lookup_insert_eq|].
  rewrite (decided_view _ _ _ _ Hc Hd). unfold rejected. rewrite Hid. simpl. do 2 f_equal.
  unfold view in Hc. destruct (last _); [|done]. injection Hc as <-. simpl. by rewrite Hd.
Qed.

(** The result must be a stored revision. *)
Definition approve_rejects (sc : text) (r : art_ref) (s : rdb) (x : exn) : Prop :=
  x = IntegrityError "candidate_heads" ∧ ¬ (0 < ref_revision r ∧ revision_exists sc (Some r) s).

Lemma approve_simulates s a sc id expected r :
  require_scope sc = Ok tt → abstracts s a →
  simulates sc (spec_decide (sc, id) expected (Approved r) a) (approve_rejects sc r s) (one (mark_approved sc id expected r) s).
Proof.
  intros Hsc Ha. unfold one, mark_approved, mbind, M_bind. rewrite (swap_pending_spec s a) by done.
  destruct (spec_pending a (sc, id) expected) as [e|x] eqn:Hp.
  2: { simpl. left. unfold spec_decide. by rewrite Hp. }
  pose proof (spec_pending_Ok _ _ _ _ Hp) as [Hk [Hd He]]. pose proof (Ha (sc, id)) as Hh. rewrite Hk in Hh.
  assert (Hf : head_of_entry (decided e (Approved r)) =
    mkHeadRow (h_family (head_of_entry e)) (h_version (head_of_entry e)) APPROVED (h_kind (head_of_entry e))
      (h_result_payload (head_of_entry e)) (Some r) (h_reason (head_of_entry e))).
  { unfold head_of_entry, decided. simpl. by rewrite Hd. }
  rewrite <- Hf. case_decide as Hfit.
  2: { right. split; [done|]. intros [Hr Hfk]. apply Hfit. destruct (lock_fits _ _ _ Hh Hd) as (_ & Hv & _). by split_and!. }
  destruct (decide_simulates s a sc id expected (Approved r) e Ha Hp I) as [Hs Ha'].
  destruct (view_Some id (decided e (Approved r)) (hold_some _ _ _ Hh)) as [c Hc].
  pose proof (Ha' (sc, id)) as Hh'. rewrite lookup_insert_eq in Hh'.
  rewrite (get_holds _ _ _ _ _ Hsc Hh' Hc).
  exists (<[(sc, id) := decided e (Approved r)]> a). split_and!; [done..|]. constructor; [|constructor].
  pose proof (view_id _ _ _ Hc) as Hid.
  exists (decided e (Approved r)). rewrite Hid. by rewrite lookup_insert_eq.
Qed.

Definition appended (e : entry) (v : version_row) : entry := mkEntry (e_family e) (e_versions e ++ [v]) (e_decision e).

Lemma appended_holds s s' k e v :
  holds s k e → (∀ c, view k.2 (appended e v) = Some c → valid_candidate c ∧ require_proposal (family c) (proposal c) = Ok tt) →
  r_heads s' !! k = Some (head_of_entry (appended e v)) →
  (∀ n, r_versions s' !! (k, n) =
        if decide (n = Z.of_nat (length (e_versions e)) + 1) then Some v else r_versions s !! (k, n)) →
  holds s' k (appended e v).
Proof.
  intros H Hval Hh Hv. split; [done| |done|simpl; by destruct (e_versions e)].
  intros n. rewrite Hv. simpl. case_decide as Hn.
  - subst n. rewrite decide_True by lia. rewrite lookup_app_r by lia.
    replace (Z.to_nat _ - _)%nat with 0%nat by lia. done.
  - rewrite (hold_versions _ _ _ H). case_decide; [|done].
    destruct (decide (Z.to_nat (n - 1) < length (e_versions e))%nat); [by rewrite lookup_app_l|].
    rewrite !lookup_ge_None_2; [done|rewrite length_app; simpl; lia|lia].
Qed.

Lemma revised_view id e c p :
  view id e = Some c → e_decision e = Undecided →
  view id (appended e (next_version id e p)) =
    Some (pending_candidate id (version c + 1) (family c) p
            (revised_audit id (version c + 1) (st_proposal p) <$> candidate_audit c)) ∧
  next_version id e p = version_row_of (pending_candidate id (version c + 1) (family c) p
            (revised_audit id (version c + 1) (st_proposal p) <$> candidate_audit c)).
Proof.
  unfold view, next_version. simpl. intros Hc Hd. rewrite last_snoc, length_app, Hd. simpl.
  destruct (last (e_versions e)) as [v|]; [|done]. injection Hc as <-. simpl. split; [|done].
  unfold pending_candidate. simpl. repeat f_equal. lia.
Qed.

(** The proposal must be of the Family's type, form a valid Candidate, and target a
    stored revision. *)
Definition revise_rejects (sc id : text) (expected : Z) (p : statement) (s : rdb) (a : entries) (x : exn) : Prop :=
  ∃ e c, spec_pending a (sc, id) expected = Ok e ∧ view id (appended e (next_version id e p)) = Some c ∧
    (require_proposal (e_family e) (st_proposal p) = Err x ∨
     x = ValueError "Candidate" ∧ ¬ valid_candidate c ∨
     x = IntegrityError "candidate_versions" ∧ ¬ revision_exists sc (st_target p) s).

Lemma revise_simulates s a sc id expected p :
  require_scope sc = Ok tt → abstracts s a →
  simulates sc (spec_revise (sc, id) expected p a) (revise_rejects sc id expected p s a) (one (revise sc id expected p) s).
Proof.
  intros Hsc Ha. unfold one, revise. unfold mbind at 1 2, M_bind at 1 2. rewrite (lock_pending_spec s a) by done.
  destruct (spec_pending a (sc, id) expected) as [e|x] eqn:Hp.
  2: { simpl. left. unfold spec_revise. by rewrite Hp. }
  pose proof (spec_pending_Ok _ _ _ _ Hp) as [Hk [Hd He]]. pose proof (Ha (sc, id)) as Hh. rewrite Hk in Hh.
  destruct (view_Some id e (hold_some _ _ _ Hh)) as [c Hc]. rewrite Hc.
  destruct (revised_view id e c p Hc Hd) as [Hview Hrow].
  set (c' := pending_candidate _ _ _ _ _) in *. unfold mbind, M_bind, lift.
  assert (Hfam : family c = e_family e) by (unfold view in Hc; destruct (last _); [|done]; by injection Hc as <-).
  destruct (require_proposal (family c) (st_proposal p)) as [[]|x] eqn:Hprop.
  2: { right. exists e, c'. split_and!; [done..|]. left. by rewrite <- Hfam. }
  destruct (new_candidate c') as [c2|x] eqn:Hnew.
  2: { right. exists e, c'. split_and!; [done..|]. right. left. unfold new_candidate in Hnew.
       by apply result_bind_err in Hnew as [[Hn ->]%raise_if_err|(? & _ & Hn)]. }
  unfold new_candidate in Hnew. apply result_bind_ok in Hnew as (? & Hval%raise_if_ok & [= <-]).
  assert (Hver : version c = expected /\ version c + 1 = Z.of_nat (length (e_versions e)) + 1).
  { unfold view in Hc. destruct (last _); [|done]. injection Hc as <-. simpl. lia. }
  unfold insert_version. case_decide as Hins.
  2: { right. exists e, c'. split_and!; [done..|]. right. right. split; [done|]. intros Hfk. apply Hins. split_and!; [|lia|done].
       rewrite (hold_versions _ _ _ Hh). rewrite decide_True by lia. apply lookup_ge_None_2. lia. }
  destruct Hins as (Hfresh & Hn & Hfk).
  set (s1 := set_versions _ s). unfold swap_pending, mbind, M_bind.
  rewrite (update_holds s1 _ e) by apply Hh. rewrite decide_True by done.
  assert (Hf : head_of_entry (appended e (version_row_of c')) =
    mkHeadRow (h_family (head_of_entry e)) (version c + 1) (h_status (head_of_entry e)) (h_kind (head_of_entry e))
      (h_result_payload (head_of_entry e)) (h_result (head_of_entry e)) (h_reason (head_of_entry e))).
  { unfold head_of_entry, appended. simpl. rewrite length_app. simpl. f_equal. lia. }
  rewrite <- Hf, decide_True.
  2: { unfold head_fits, head_row_check, revision_exists, head_of_entry, appended. simpl. rewrite Hd. simpl. split_and!; try done.
       rewrite length_app. simpl. replace (Z.of_nat (length (e_versions e) + 1)) with (version c + 1) by lia.
       rewrite lookup_insert_eq. done. }
  simpl. exists (<[(sc, id) := appended e (version_row_of c')]> a). split_and!.
  - unfold spec_revise. rewrite Hp. simpl. unfold appended. by rewrite Hrow.
  - eapply abstracts_insert; [done| |].
    + intros k' Hk'. simpl. rewrite lookup_insert_ne by done. split; [done|]. intros n.
      rewrite lookup_insert_ne by congruence. done.
    + eapply appended_holds; [exact Hh| |simpl; by rewrite lookup_insert_eq|].
      * intros c3 Hc3. rewrite <- Hrow in Hc3. simpl in Hc3. rewrite Hview in Hc3. injection Hc3 as <-.
        split; [destruct (decide (valid_candidate c')); tauto|done].
      * intros n. simpl. case_decide as Hcase.
        -- subst n. replace (Z.of_nat (length (e_versions e)) + 1) with (version c + 1) by lia. by rewrite lookup_insert_eq.
        -- rewrite lookup_insert_ne; [done|]. intros [= ?]. lia.
  - constructor; [|constructor]. exists (appended e (version_row_of c')). simpl. rewrite lookup_insert_eq. split; [done|].
    by rewrite <- Hrow.
Qed.

(** ** Creation refines the specification *)

(** A Candidate that is not a first version of a registered Family. *)
Definition not_first (c : candidate) (x : exn) : Prop :=
  require_proposal (family c) (proposal c) = Err x ∨
  x = InvalidCandidateError "candidate" ∧ (version c ≠ 1 ∨ status c ≠ PENDING).

(** Rows the database refuses: a target that is not stored, or an identity that a
    tag Candidate has. *)
Definition unstorable (sc : text) (s : rdb) (c : candidate) : Prop :=
  ¬ revision_exists sc (target c) s ∨ ∃ h, r_heads s !! (sc, candidate_id c) = Some h ∧ h_kind h = TAG.

Definition create_many_rejects (sc : text) (l : list candidate) (s : rdb) (x : exn) : Prop :=
  (∃ c, c ∈ l ∧ not_first c x) ∨ (∃ t, x = IntegrityError t) ∧ ∃ c, c ∈ l ∧ unstorable sc s c.

Lemma check_new_all_ok seen l :
  check_new_all seen l = Ok tt →
  Forall (λ c, require_proposal (family c) (proposal c) = Ok tt ∧ version c = 1 ∧ status c = PENDING) l ∧
  NoDup (candidate_id <$> l).
Proof.
  assert (H : check_new_all seen l = Ok tt →
    Forall (λ c, require_proposal (family c) (proposal c) = Ok tt ∧ version c = 1 ∧ status c = PENDING) l ∧
    NoDup (candidate_id <$> l) ∧ Forall (λ c, candidate_id c ∉ seen) l); [|intros Hl; by destruct (H Hl) as (? & ? & _)].
  revert seen. induction l as [|c l IH]; intros seen; simpl; [intros _; split_and!; constructor|].
  unfold check_new. intros (seen' & Hc & Hl)%result_bind_ok.
  apply result_bind_ok in Hc as ([] & Hp & Hc). apply result_bind_ok in Hc as (? & Hv%raise_if_ok & Hc).
  apply result_bind_ok in Hc as (? & Hs%raise_if_ok & [= <-]). destruct (IH _ Hl) as (H1 & H2 & H3).
  split_and!.
  - constructor; [|done]. split_and!; [done| |]; [destruct (decide (version c = 1)); tauto|destruct (decide (status c = PENDING)); tauto].
  - constructor; [|done]. intros (c' & Heq & Hin)%list_elem_of_fmap. rewrite Forall_forall in H3. apply (H3 c' Hin). rewrite <- Heq. left.
  - constructor; [done|]. eapply Forall_impl; [exact H3|]. simpl. intros c' Hn Hin. apply Hn. by right.
Qed.

Lemma check_new_all_err seen l e :
  check_new_all seen l = Err e →
  (e = CandidateConflictError 1 1 ∧ ¬ (NoDup (candidate_id <$> l) ∧ Forall (λ c, candidate_id c ∉ seen) l)) ∨ ∃ c, c ∈ l ∧ not_first c e.
Proof.
  revert seen. induction l as [|c l IH]; intros seen; simpl; [done|].
  unfold check_new. intros [Hc|(seen' & Hc & Hl)]%result_bind_err.
  - apply result_bind_err in Hc as [Hc|(? & _ & Hc)]; [right; exists c; split; [left|by left]|].
    apply result_bind_err in Hc as [[Hv ->]%raise_if_err|(? & _ & Hc)]; [right; exists c; split; [left|by right]|].
    apply result_bind_err in Hc as [[Hin ->]%raise_if_err|(? & _ & Hc)]; [|done]. left. split; [done|].
    intros [_ H]. by apply Forall_cons in H as [? _].
  - apply result_bind_ok in Hc as (? & _ & Hc). apply result_bind_ok in Hc as (? & _ & Hc).
    apply result_bind_ok in Hc as (? & _ & [= <-]). apply IH in Hl as [[-> Hn]|(c' & ? & ?)]; [|right; exists c'; split; [by right|done]].
    left. split; [done|].
    intros [[Hc Hnd]%NoDup_cons [Hs Hf]%Forall_cons]. apply Hn. split; [done|]. rewrite Forall_forall in Hf |- *.
    intros c' Hin [Heq|?]%elem_of_cons; [|by apply (Hf c')]. apply Hc. rewrite <- Heq. by apply list_elem_of_fmap_2.
Qed.

Definition in_batch (sc : text) (l : list candidate) (k : candidate_key) : Prop := ∃ c, c ∈ l ∧ k = (sc, candidate_id c).

Lemma insert_versions_inv sc l s s' :
  NoDup (candidate_id <$> l) → Forall (λ c, version c = 1) l →
  for_each (λ c, insert_version (sc, candidate_id c) (version c) (version_row_of c)) l s = Ok (tt, s') →
  r_heads s' = r_heads s ∧ r_adb s' = r_adb s ∧
  (∀ c, c ∈ l → r_versions s' !! (sc, candidate_id c, 1) = Some (version_row_of c)) ∧
  (∀ k n, ¬ in_batch sc l k ∨ n ≠ 1 → r_versions s' !! (k, n) = r_versions s !! (k, n)).
Proof.
  revert s. induction l as [|c l IH]; intros s Hnd Hv; simpl.
  { intros [_ ->]%M_ret_ok. split_and!; try done. by intros c ?%not_elem_of_nil. }
  apply NoDup_cons in Hnd as [Hc Hnd]. apply Forall_cons in Hv as [Hv1 Hv]. rewrite Hv1.
  intros (u & s1 & H1 & H2)%M_bind_ok. unfold insert_version in H1. case_decide; [|done]. injection H1 as _ <-.
  destruct (IH _ Hnd Hv H2) as (E1 & E2 & E3 & E4). simpl in *. split_and!; try done.
  - intros c' [->|Hin]%elem_of_cons; [|by apply E3]. rewrite E4; [by rewrite lookup_insert_eq|].
    left. intros (c' & Hin & [= Heq]). apply Hc. rewrite Heq. by apply list_elem_of_fmap_2.
  - intros k n Hk. rewrite E4.
    + rewrite lookup_insert_ne; [done|]. intros [= <- <-]. destruct Hk as [Hk|Hk]; [|done]. apply Hk. exists c. split; [left|done].
    + destruct Hk as [Hk|?]; [left|by right]. intros (c' & ? & ?). apply Hk. exists c'. split; [by right|done].
Qed.

Definition fresh_head (c : candidate) : head_row := mkHeadRow (family c) 1 PENDING ARTIFACT None None None.

Lemma insert_heads_inv sc l s s' :
  NoDup (candidate_id <$> l) →
  for_each (λ c, insert_candidate_head (sc, candidate_id c) (fresh_head c)) l s = Ok (tt, s') →
  r_versions s' = r_versions s ∧
  (∀ c, c ∈ l → r_heads s !! (sc, candidate_id c) = None ∧ r_heads s' !! (sc, candidate_id c) = Some (fresh_head c)) ∧
  (∀ k, ¬ in_batch sc l k → r_heads s' !! k = r_heads s !! k).
Proof.
  revert s. induction l as [|c l IH]; intros s Hnd; simpl.
  { intros [_ ->]%M_ret_ok. split_and!; try done. by intros c ?%not_elem_of_nil. }
  apply NoDup_cons in Hnd as [Hc Hnd].
  intros (u & s1 & H1 & H2)%M_bind_ok. unfold insert_candidate_head in H1. case_decide as Hd; [|done].
  destruct Hd as [Hnone _]. injection H1 as _ <-.
  destruct (IH _ Hnd H2) as (E1 & E2 & E3). simpl in *. split_and!; try done.
  - intros c' [->|Hin]%elem_of_cons.
    + split; [done|]. rewrite E3; [by rewrite lookup_insert_eq|]. intros (c' & Hin & [= Heq]). apply Hc.
      rewrite Heq. by apply list_elem_of_fmap_2.
    + destruct (E2 c' Hin) as [E2a E2b]. split; [|done]. rewrite lookup_insert_ne in E2a; [done|].
      intros [= Heq]. apply Hc. rewrite Heq. by apply list_elem_of_fmap_2.
  - intros k Hk. rewrite E3.
    + rewrite lookup_insert_ne; [done|]. intros <-. apply Hk. exists c. split; [left|done].
    + intros (c' & ? & ?). apply Hk. exists c'. split; [by right|done].
Qed.

Lemma insert_versions_total sc l s :
  NoDup (candidate_id <$> l) → Forall (λ c, version c = 1) l →
  (∀ c, c ∈ l → r_versions s !! (sc, candidate_id c, 1) = None ∧ revision_exists sc (target c) s) →
  ∃ s', for_each (λ c, insert_version (sc, candidate_id c) (version c) (version_row_of c)) l s = Ok (tt, s').
Proof.
  revert s. induction l as [|c l IH]; intros s Hnd Hv Hfree; simpl; [by eexists|].
  apply NoDup_cons in Hnd as [Hc Hnd]. apply Forall_cons in Hv as [Hv1 Hv]. rewrite Hv1.
  destruct (Hfree c) as [Hn Hfk]; [left|]. unfold mbind, M_bind, insert_version. rewrite decide_True by done.
  apply IH; [done..|]. intros c' Hin. destruct (Hfree c') as [Hn' Hfk']; [by right|]. split; [|exact Hfk'].
  simpl. rewrite lookup_insert_ne; [done|]. intros [= Heq]. apply Hc. rewrite Heq. by apply list_elem_of_fmap_2.
Qed.

Lemma insert_heads_total sc l s :
  NoDup (candidate_id <$> l) →
  (∀ c, c ∈ l → r_heads s !! (sc, candidate_id c) = None ∧ is_Some (r_versions s !! (sc, candidate_id c, 1))) →
  ∃ s', for_each (λ c, insert_candidate_head (sc, candidate_id c) (fresh_head c)) l s = Ok (tt, s').
Proof.
  revert s. induction l as [|c l IH]; intros s Hnd Hfree; simpl; [by eexists|].
  apply NoDup_cons in Hnd as [Hc Hnd].
  destruct (Hfree c) as [Hn Hfk]; [left|]. unfold mbind, M_bind, insert_candidate_head. rewrite decide_True by (by split_and!).
  apply IH; [done..|]. intros c' Hin. destruct (Hfree c') as [Hn' Hfk']; [by right|]. split; [|exact Hfk'].
  simpl. rewrite lookup_insert_ne; [done|]. intros [= Heq]. apply Hc. rewrite Heq. by apply list_elem_of_fmap_2.
Qed.

(** Storable Candidates with new identities are inserted. *)
Lemma insert_candidates_total s a sc l :
  abstracts s a → NoDup (candidate_id <$> l) → Forall (λ c, version c = 1) l →
  (∀ c, c ∈ l → a !! (sc, candidate_id c) = None ∧ ¬ unstorable sc s c) →
  ∃ s', insert_candidates sc l s = Ok (tt, s').
Proof.
  intros Ha Hnd Hv Hfree.
  assert (Hrows : ∀ c, c ∈ l → r_heads s !! (sc, candidate_id c) = None ∧ (∀ n, r_versions s !! (sc, candidate_id c, n) = None) ∧
    revision_exists sc (target c) s).
  { intros c Hc. destruct (Hfree c Hc) as [Hnew Hst]. specialize (Ha (sc, candidate_id c)). rewrite Hnew in Ha. unfold vacant in Ha.
    destruct (r_heads s !! (sc, candidate_id c)) as [h|] eqn:E; [destruct Hst; right; by exists h|]. split_and!; [done..|].
    destruct (decide (revision_exists sc (target c) s)); [done|]. destruct Hst. by left. }
  destruct (insert_versions_total sc l s) as [s1 H1]; [done..|intros c Hc; by destruct (Hrows c Hc) as (? & ? & ?)|].
  pose proof (insert_versions_inv sc l s s1 Hnd Hv H1) as (E1 & _ & E3 & _).
  destruct (insert_heads_total sc l s1) as [s2 H2]; [done| |].
  { intros c Hc. rewrite E1, (E3 c Hc). by destruct (Hrows c Hc). }
  exists s2. unfold insert_candidates, mbind, M_bind. rewrite H1. exact H2.
Qed.

Definition first_entry (c : candidate) : entry := mkEntry (family c) [version_row_of c] Undecided.

Lemma spec_create_lookup sc l a :
  NoDup (candidate_id <$> l) →
  (∀ c, c ∈ l → spec_create sc l a !! (sc, candidate_id c) = Some (first_entry c)) ∧
  (∀ k, ¬ in_batch sc l k → spec_create sc l a !! k = a !! k).
Proof.
  unfold spec_create. revert a. induction l as [|c l IH]; intros a Hnd; simpl.
  { split; [by intros c ?%not_elem_of_nil|done]. }
  apply NoDup_cons in Hnd as [Hc Hnd]. destruct (IH (<[(sc, candidate_id c) := first_entry c]> a) Hnd) as [E1 E2]. split.
  - intros c' [->|Hin]%elem_of_cons; [|by apply E1]. rewrite E2; [by rewrite lookup_insert_eq|].
    intros (c' & Hin & [= Heq]). apply Hc. rewrite Heq. by apply list_elem_of_fmap_2.
  - intros k Hk. rewrite E2.
    + rewrite lookup_insert_ne; [done|]. intros <-. apply Hk. exists c. split; [left|done].
    + intros (c' & ? & ?). apply Hk. exists c'. split; [by right|done].
Qed.

Lemma first_entry_view c : valid_candidate c → version c = 1 → status c = PENDING → view (candidate_id c) (first_entry c) = Some c.
Proof.
  intros (_ & _ & _ & _ & _ & _ & [L1 L2]) Hv Hs. unfold view. simpl. destruct c; simpl in *. subst. repeat f_equal.
  - destruct result_artifact0; [|done]. destruct L1 as [_ L1]. by discriminate L1.
  - destruct decision_reason0; [|done]. destruct L2 as [_ L2]. by discriminate L2.
Qed.

Lemma insert_candidates_inv s a sc l s' :
  abstracts s a → NoDup (candidate_id <$> l) →
  Forall (λ c, valid_candidate c ∧ require_proposal (family c) (proposal c) = Ok tt ∧ version c = 1 ∧ status c = PENDING) l →
  insert_candidates sc l s = Ok (tt, s') →
  (∀ c, c ∈ l → a !! (sc, candidate_id c) = None) ∧ abstracts s' (spec_create sc l a).
Proof.
  intros Ha Hnd Hl. unfold insert_candidates. intros (u & s1 & H1 & H2)%M_bind_ok. destruct u.
  apply insert_versions_inv in H1 as (V1 & _ & V3 & V4); [|done|eapply Forall_impl; [exact Hl|simpl; tauto]].
  apply (insert_heads_inv sc l s1 s') in H2 as (W1 & W2 & W3); [|done].
  rewrite Forall_forall in Hl.
  assert (Hnew : ∀ c, c ∈ l → a !! (sc, candidate_id c) = None ∧ r_heads s !! (sc, candidate_id c) = None).
  { intros c Hc. destruct (W2 c Hc) as [Hnone _]. rewrite V1 in Hnone. split; [|done].
    specialize (Ha (sc, candidate_id c)). destruct (a !! (sc, candidate_id c)); [|done].
    pose proof (hold_head _ _ _ Ha). congruence. }
  split; [intros c Hc; by apply Hnew|]. intros k. destruct (spec_create_lookup sc l a Hnd) as [S1 S2].
  destruct (decide (Exists (λ c, k = (sc, candidate_id c)) l)) as [Hin|Hout].
  - apply Exists_exists in Hin as (c & Hc & ->). rewrite (S1 c Hc). destruct (Hl c Hc) as (L1 & L2 & L3 & L4). split.
    + by apply W2.
    + intros n. rewrite W1. simpl. destruct (decide (n = 1)) as [->|Hn]; [by apply V3|].
      rewrite V4 by tauto. destruct (Hnew c Hc) as [Hc1 Hc2]. specialize (Ha (sc, candidate_id c)).
      rewrite Hc1 in Ha. unfold vacant in Ha. rewrite Hc2 in Ha. rewrite Ha. case_decide; [|done].
      rewrite lookup_ge_None_2; [done|]. simpl. lia.
    + simpl. intros c' Hv. rewrite (first_entry_view c) in Hv by done. by injection Hv as <-.
    + done.
  - assert (Hk : ¬ in_batch sc l k) by (intros (c & Hc & ->); apply Hout, Exists_exists; by exists c).
    rewrite (S2 k Hk). specialize (Ha k).
    assert (Hh : r_heads s' !! k = r_heads s !! k) by (by rewrite W3, V1).
    assert (Hv : ∀ n, r_versions s' !! (k, n) = r_versions s !! (k, n)) by (intros n; rewrite W1; apply V4; by left).
    destruct (a !! k); [by eapply holds_frame|by eapply vacant_frame].
Qed.

Lemma insert_candidates_err sc l s e : insert_candidates sc l s = Err e → ∃ t, e = IntegrityError t.
Proof.
  assert (H : wp (insert_candidates sc l) s (λ _ _, True) (λ e, ∃ t, e = IntegrityError t)).
  { apply wp_bind. apply (wp_mono _ _ (λ _ _, True) _ (λ e, ∃ t, e = IntegrityError t)); [|done|].
    - intros _ s1 _. apply (wp_for_each _ _ _ (λ _, True)); [|done]. intros c s2 _ _. unfold wp, insert_candidate_head.
      case_decide; eauto.
    - apply (wp_for_each _ _ _ (λ _, True)); [|done]. intros c s2 _ _. unfold wp, insert_version. case_decide; eauto. }
  intros He. by apply (wp_Err _ _ _ _ _ H) in He.
Qed.

Lemma find_head_spec s a sc c :
  abstracts s a →
  existing_conflict sc s c = spec_new sc a c.
Proof.
  intros Ha. unfold existing_conflict, spec_new, find_head. specialize (Ha (sc, candidate_id c)).
  destruct (a !! (sc, candidate_id c)) as [e|].
  - by rewrite (hold_head _ _ _ Ha).
  - unfold vacant in Ha. destruct (r_heads s !! (sc, candidate_id c)) as [h|]; simpl; [|done].
    by rewrite decide_False by congruence.
Qed.

Lemma check_each_same {A} (f g : A → result unit) l : (∀ x, f x = g x) → check_each f l = check_each g l.
Proof. intros H. induction l as [|x l IH]; simpl; [done|]. by rewrite H, IH. Qed.

Lemma create_many_simulates s a sc l :
  require_scope sc = Ok tt → abstracts s a → Forall valid_candidate l →
  simulates sc (spec_create_many sc l a) (create_many_rejects sc l s) (create_many sc l s).
Proof.
  intros Hsc Ha Hval. unfold create_many, mbind, M_bind, lift. rewrite Hsc.
  destruct (decide (l = [])) as [->|Hne].
  { exists a. split_and!; [|done|constructor]. unfold spec_create_many. by rewrite raise_if_skip by (intros H; by apply H, NoDup_nil_2). }
  destruct (check_new_all [] l) as [[]|e] eqn:Hnew.
  2: { destruct (check_new_all_err _ _ _ Hnew) as [[-> Hn]|]; [left|right; by left]. unfold spec_create_many, raise_if.
       rewrite decide_True; [done|]. intros Hnd. apply Hn. split; [done|]. apply Forall_forall. intros c _. apply not_elem_of_nil. }
  apply check_new_all_ok in Hnew as [Hl Hnd]. unfold spec_create_many. rewrite raise_if_skip by (intros H; by apply H).
  rewrite Forall_forall in Hl, Hval. unfold catch_integrity. destruct (insert_candidates sc l s) as [[[] s']|e] eqn:Hins.
  - apply (insert_candidates_inv s a) in Hins as [Hfree Ha']; [|done..|].
    2: { apply Forall_forall. intros c Hc. split; [by apply Hval|by apply Hl]. }
    exists (spec_create sc l a). split_and!; [|done|].
    + assert (check_each (spec_new sc a) l = Ok tt) as ->; [|done]. apply check_each_ok, Forall_forall.
      intros c Hc. unfold spec_new. by rewrite Hfree.
    + apply Forall_forall. intros c Hc. exists (first_entry c).
      destruct (Hl c Hc) as (_ & ? & ?). split; [by apply spec_create_lookup|]. apply first_entry_view; [by apply Hval|done..].
  - destruct (insert_candidates_err _ _ _ _ Hins) as [t ->]. unfold classify_conflict, reads.
    rewrite (check_each_same (existing_conflict sc s) (spec_new sc a)) by (intros c; by apply find_head_spec). simpl.
    destruct (check_each (spec_new sc a) l) as [[]|x] eqn:Hspec; [right; right|by left]. split; [by eexists|].
    apply check_each_ok in Hspec. rewrite Forall_forall in Hspec.
    destruct (decide (Forall (λ c, revision_exists sc (target c) s ∧ r_heads s !! (sc, candidate_id c) = None) l)) as [Hf|Hf].
    + rewrite Forall_forall in Hf. destruct (insert_candidates_total s a sc l) as [s' Hs']; [done|done| | |congruence].
      * apply Forall_forall. intros c Hc. by apply Hl.
      * intros c Hc. destruct (Hf c Hc) as [Hfk Hh]. split.
        -- specialize (Hspec c Hc). unfold spec_new in Hspec. by destruct (a !! (sc, candidate_id c)).
        -- intros [?|(h & Hh' & _)]; [done|congruence].
    + apply not_Forall_Exists, Exists_exists in Hf as (c & Hc & Hf); [|apply _]. exists c. split; [done|].
      destruct (decide (revision_exists sc (target c) s)) as [Hfk|]; [right|by left].
      specialize (Hspec c Hc). unfold spec_new in Hspec. specialize (Ha (sc, candidate_id c)).
      destruct (a !! (sc, candidate_id c)); [done|]. unfold vacant in Ha.
      destruct (r_heads s !! (sc, candidate_id c)) as [h|] eqn:E; [by exists h|]. exfalso. apply Hf. by split.
Qed.

Definition first_candidate (candidate_id fam : text) (p : statement) : candidate :=
  pending_candidate candidate_id 1 fam p None.

Definition create_rejects (sc id fam : text) (p : statement) (s : rdb) (x : exn) : Prop :=
  require_proposal fam (st_proposal p) = Err x ∨
  x = ValueError "Candidate" ∧ ¬ valid_candidate (first_candidate id fam p) ∨
  create_many_rejects sc [first_candidate id fam p] s x.

Lemma create_returns sc id fam p c s s' : create sc id fam p s = Ok (c, s') → c = first_candidate id fam p.
Proof.
  unfold create, new_candidate, create_many. intros H. do 2 apply M_bind_ok in H as (? & ? & _ & H).
  apply M_bind_ok in H as (c1 & ? & [Hc ->]%lift_ok & H). apply result_bind_ok in Hc as (? & _ & [= <-]).
  apply M_bind_ok in H as (l & ? & Hl & H). apply M_bind_ok in Hl as (? & ? & _ & Hl).
  rewrite decide_False in Hl by done. do 2 apply M_bind_ok in Hl as (? & ? & _ & Hl).
  apply M_ret_ok in Hl as [-> ->]. by apply M_ret_ok in H as [-> _].
Qed.

Lemma create_simulates s a sc id fam p :
  require_scope sc = Ok tt → abstracts s a →
  simulates sc (spec_create_many sc [first_candidate id fam p] a) (create_rejects sc id fam p s) (one (create sc id fam p) s).
Proof.
  intros Hsc Ha. destruct (one (create sc id fam p) s) as [[cs s']|x] eqn:Hrun.
  - unfold one in Hrun. apply M_bind_ok in Hrun as (c & s1 & Hc & [-> ->]%M_ret_ok).
    pose proof (create_returns _ _ _ _ _ _ _ Hc) as ->. unfold create in Hc.
    apply M_bind_ok in Hc as (? & ? & [_ ->]%lift_ok & Hc). apply M_bind_ok in Hc as (? & ? & [_ ->]%lift_ok & Hc).
    apply M_bind_ok in Hc as (c1 & ? & [Hnew ->]%lift_ok & Hc). apply result_bind_ok in Hnew as (? & Hval%raise_if_ok & [= <-]).
    apply M_bind_ok in Hc as (l & s2 & Hmany & Hret). fold (first_candidate id fam p) in *.
    pose proof (create_many_simulates s a sc [first_candidate id fam p] Hsc Ha) as H.
    assert (Hv : valid_candidate (first_candidate id fam p)) by (destruct (decide (valid_candidate (first_candidate id fam p))); tauto).
    specialize (H ltac:(by constructor)). rewrite Hmany in H. destruct l as [|c2 l]; [done|]. apply M_ret_ok in Hret as [Heq ->]. subst c2.
    destruct H as (a' & ? & ? & [? _]%Forall_cons). exists a'. split_and!; [done..|]. by constructor.
  - unfold one, create, mbind, M_bind, lift in Hrun. rewrite Hsc in Hrun.
    destruct (require_proposal fam (st_proposal p)) as [[]|y] eqn:Hp; [|injection Hrun as ->; right; by left].
    destruct (new_candidate _) as [c|y] eqn:Hnew; fold (first_candidate id fam p) in *.
    2: { injection Hrun as ->. right. right. left. unfold new_candidate in Hnew.
         by apply result_bind_err in Hnew as [[Hn ->]%raise_if_err|(? & _ & Hn)]. }
    unfold new_candidate in Hnew. apply result_bind_ok in Hnew as (? & Hval%raise_if_ok & [= <-]).
    pose proof (create_many_simulates s a sc [first_candidate id fam p] Hsc Ha) as H.
    assert (Hv : valid_candidate (first_candidate id fam p)) by (destruct (decide (valid_candidate (first_candidate id fam p))); tauto).
    specialize (H ltac:(by constructor)). destruct (create_many sc [first_candidate id fam p] s) as [[cs s']|y] eqn:Hmany.
    + exfalso. unfold create_many in Hmany. apply M_bind_ok in Hmany as (? & ? & _ & Hmany).
      rewrite decide_False in Hmany by done. do 2 apply M_bind_ok in Hmany as (? & ? & _ & Hmany).
      apply M_ret_ok in Hmany as [-> ->]. done.
    + injection Hrun as ->. destruct H as [H|H]; [by left|]. right. by right; right.
Qed.

(** ** Commands *)

Inductive command :=
  | CreateMany (l : list candidate)
  | Create (candidate_id fam : text) (p : statement)
  | Revise (candidate_id : text) (expected : Z) (p : statement)
  | Reject (candidate_id : text) (expected : Z) (why : text)
  | Approve (candidate_id : text) (expected : Z) (r : art_ref).

Definition run_command (sc : text) (c : command) : M rdb (list candidate) :=
  match c with
  | CreateMany l => create_many sc l
  | Create id fam p => one (create sc id fam p)
  | Revise id expected p => one (revise sc id expected p)
  | Reject id expected why => one (reject sc id expected why)
  | Approve id expected r => one (mark_approved sc id expected r)
  end.

Definition spec_command (sc : text) (c : command) (a : entries) : result entries :=
  match c with
  | CreateMany l => spec_create_many sc l a
  | Create id fam p => spec_create_many sc [first_candidate id fam p] a
  | Revise id expected p => spec_revise (sc, id) expected p a
  | Reject id expected why => spec_decide (sc, id) expected (Rejected why) a
  | Approve id expected r => spec_decide (sc, id) expected (Approved r) a
  end.

(** Candidates are validated objects; the service validates a reason before the
    repository stores it. *)
Definition command_ok (c : command) : Prop :=
  match c with
  | CreateMany l => Forall valid_candidate l
  | Reject _ _ why => valid_reason (Some why)
  | _ => True
  end.

(** The inputs a command rejects, with the error it raises. *)
Definition rejects (sc : text) (c : command) (s : rdb) (a : entries) : exn → Prop :=
  match c with
  | CreateMany l => create_many_rejects sc l s
  | Create id fam p => create_rejects sc id fam p s
  | Revise id expected p => revise_rejects sc id expected p s a
  | Reject _ _ _ => λ _, False
  | Approve _ _ r => approve_rejects sc r s
  end.

Lemma command_simulates sc c s a :
  require_scope sc = Ok tt → command_ok c → abstracts s a →
  simulates sc (spec_command sc c a) (rejects sc c s a) (run_command sc c s).
Proof.
  intros Hsc Hok Ha. destruct c; simpl in *.
  - by apply create_many_simulates.
  - by apply create_simulates.
  - by apply revise_simulates.
  - by apply reject_simulates.
  - by apply approve_simulates.
Qed.

(** ** Histories

    Any sequence of commands, of creations completed with an audit in the same
    transaction, and of operations that leave the rows of every Candidate alone. *)
Inductive step : rdb → rdb → Prop :=
  | step_command sc c cs s s' :
      require_scope sc = Ok tt → command_ok c → run_command sc c s = Ok (cs, s') → step s s'
  | step_audited sc id fam p au c s s1 s' :
      require_scope sc = Ok tt → create sc id fam p s = Ok (c, s1) →
      attach_candidate_audit sc c au s1 = Ok (tt, s') → step s s'
  | step_elsewhere s s' :
      (∀ k e, holds s k e → r_heads s' !! k = r_heads s !! k ∧ ∀ n, r_versions s' !! (k, n) = r_versions s !! (k, n)) →
      (∀ k, vacant s k → vacant s' k) → step s s'.

(** Entries only gain versions, and only while they are undecided. *)
Definition entry_grows (e e' : entry) : Prop :=
  e_family e' = e_family e ∧ e_versions e `prefix_of` e_versions e' ∧ (e_decision e ≠ Undecided → e' = e).
Definition grows (a a' : entries) : Prop := ∀ k e, a !! k = Some e → ∃ e', a' !! k = Some e' ∧ entry_grows e e'.

Lemma entry_grows_refl e : entry_grows e e.
Proof. by split_and!. Qed.

Lemma grows_refl a : grows a a.
Proof. intros k e He. exists e. split; [done|apply entry_grows_refl]. Qed.

Lemma grows_trans a1 a2 a3 : grows a1 a2 → grows a2 a3 → grows a1 a3.
Proof.
  intros H12 H23 k e He. destruct (H12 k e He) as (e2 & E2 & F2 & V2 & D2). destruct (H23 k e2 E2) as (e3 & E3 & F3 & V3 & D3).
  exists e3. split; [done|]. split_and!; [congruence|by etrans|]. intros Hd. rewrite (D2 Hd) in D3. by rewrite (D3 Hd).
Qed.

Lemma grows_insert a k e' : (∀ e, a !! k = Some e → entry_grows e e') → grows a (<[k := e']> a).
Proof.
  intros H k' e He. destruct (decide (k' = k)) as [->|Hk].
  - rewrite lookup_insert_eq. exists e'. split; [done|by apply H].
  - rewrite lookup_insert_ne by done. exists e. split; [done|apply entry_grows_refl].
Qed.

Lemma spec_create_many_grows sc l a a' : spec_create_many sc l a = Ok a' → grows a a'.
Proof.
  unfold spec_create_many. intros (? & Hnd%raise_if_ok & H)%result_bind_ok. apply result_bind_ok in H as (? & Hnew & [= <-]).
  assert (Hd : NoDup (candidate_id <$> l)) by (destruct (decide (NoDup (candidate_id <$> l))); tauto).
  destruct (spec_create_lookup sc l a Hd) as [_ S2]. apply check_each_ok in Hnew. rewrite Forall_forall in Hnew.
  intros k e He. exists e. split; [|apply entry_grows_refl]. rewrite S2; [done|]. intros (c & Hc & ->).
  specialize (Hnew c Hc). unfold spec_new in Hnew. by rewrite He in Hnew.
Qed.

Lemma spec_command_grows sc c a a' : spec_command sc c a = Ok a' → grows a a'.
Proof.
  destruct c as [l|id fam p|id expected p|id expected why|id expected r]; simpl;
    [apply spec_create_many_grows..|unfold spec_revise|unfold spec_decide|unfold spec_decide].
  all: intros (e & [Hk [Hd _]]%spec_pending_Ok & [= <-])%result_bind_ok; apply grows_insert; intros e0 He0; simplify_eq.
  - split_and!; [done|by eexists|]. by intros [].
  - split_and!; [done|done|]. by intros [].
  - split_and!; [done|done|]. by intros [].
Qed.

Lemma elsewhere_abstracts s s' a :
  (∀ k e, holds s k e → r_heads s' !! k = r_heads s !! k ∧ ∀ n, r_versions s' !! (k, n) = r_versions s !! (k, n)) →
  (∀ k, vacant s k → vacant s' k) → abstracts s a → abstracts s' a.
Proof.
  intros Hh Hv Ha k. specialize (Ha k). destruct (a !! k) as [e|]; [|by apply Hv].
  destruct (Hh k e Ha) as [? ?]. by eapply holds_frame.
Qed.

Lemma audited_abstracts s a sc id fam p au c s1 s' :
  require_scope sc = Ok tt → abstracts s a → create sc id fam p s = Ok (c, s1) →
  attach_candidate_audit sc c au s1 = Ok (tt, s') → ∃ a', abstracts s' a' ∧ grows a a'.
Proof.
  intros Hsc Ha Hc Hatt. pose proof (create_simulates s a sc id fam p Hsc Ha) as H.
  unfold one, mbind, M_bind in H. rewrite Hc in H. destruct H as (a1 & Hspec & Ha1 & _).
  apply create_returns in Hc. apply spec_create_many_grows in Hspec as Hg.
  unfold spec_create_many in Hspec. apply result_bind_ok in Hspec as (? & _ & Hspec).
  apply result_bind_ok in Hspec as (? & [Hn _]%check_each_ok%Forall_cons & [= <-]).
  assert (Hk : a !! (sc, id) = None) by (unfold spec_new in Hn; simpl in Hn; by destruct (a !! (sc, id))).
  change (abstracts s1 (<[(sc, id) := first_entry (first_candidate id fam p)]> a)) in Ha1.
  rewrite <- Hc in Ha1. assert (Hid : candidate_id c = id) by (by rewrite Hc).
  pose proof (Ha1 (sc, id)) as Hh. rewrite lookup_insert_eq in Hh.
  unfold attach_candidate_audit in Hatt. apply M_bind_ok in Hatt as (? & ? & [_ ->]%lift_ok & ->%modifies_ok).
  rewrite Hid. set (v := version_row_of c) in *.
  set (e' := mkEntry (family c) [mkVersion (v_family v) (proposal c) (Some au) (v_sources v) (v_artifacts v) (v_target v) (v_reason v)] Undecided).
  exists (<[(sc, id) := e']> a). split.
  - intros k. destruct (decide (k = (sc, id))) as [->|Hne].
    + rewrite lookup_insert_eq. split; simpl; [by rewrite (hold_head _ _ _ Hh)| | |done].
      * intros n. destruct (decide (n = 1)) as [->|Hn1].
        -- rewrite lookup_alter_eq, (hold_versions _ _ _ Hh). done.
        -- rewrite lookup_alter_ne by congruence. rewrite (hold_versions _ _ _ Hh). case_decide; [|done].
           rewrite !lookup_ge_None_2; [done|simpl; lia..].
      * intros c' Hc'. unfold view in Hc'. simpl in Hc'. injection Hc' as <-.
        destruct (hold_valid _ _ _ Hh _ eq_refl) as [Hv Hp]. split; [exact Hv|exact Hp].
    + specialize (Ha1 k). rewrite lookup_insert_ne in Ha1 |- * by done.
      assert (Hv : ∀ s2, s2 = set_versions (alter (λ v, mkVersion (v_family v) (proposal c) (Some au) (v_sources v) (v_artifacts v)
         (v_target v) (v_reason v)) (sc, id, 1) (r_versions s1)) s1 → r_heads s2 !! k = r_heads s1 !! k ∧
         ∀ n, r_versions s2 !! (k, n) = r_versions s1 !! (k, n)).
      { intros s2 ->. simpl. split; [done|]. intros n. by rewrite lookup_alter_ne by congruence. }
      destruct (Hv _ eq_refl) as [H1 H2]. destruct (a !! k); [by eapply holds_frame|by eapply vacant_frame].
  - apply grows_insert. intros e0 He0. congruence.
Qed.

Lemma step_abstracts s s' a : step s s' → abstracts s a → ∃ a', abstracts s' a' ∧ grows a a'.
Proof.
  intros Hstep Ha. destruct Hstep as [sc c cs s s' Hsc Hok Hrun|sc id fam p au c s s1 s' Hsc Hc Hatt|s s' Hh Hv].
  - pose proof (command_simulates sc c s a Hsc Hok Ha) as H. rewrite Hrun in H. destruct H as (a' & Hs & Ha' & _).
    exists a'. split; [done|]. by eapply spec_command_grows.
  - by eapply audited_abstracts.
  - exists a. split; [by eapply elsewhere_abstracts|apply grows_refl].
Qed.

Lemma steps_abstract s s' a : rtc step s s' → abstracts s a → ∃ a', abstracts s' a' ∧ grows a a'.
Proof.
  intros Hsteps. revert a. induction Hsteps as [s|s1 s2 s3 H12 _ IH]; intros a Ha.
  - exists a. split; [done|apply grows_refl].
  - destruct (step_abstracts _ _ _ H12 Ha) as (a2 & Ha2 & G2). destruct (IH a2 Ha2) as (a3 & Ha3 & G3).
    exists a3. split; [done|by eapply grows_trans].
Qed.

Definition empty_rdb (d : adb) : rdb := mkRdb d ∅ ∅.

Lemma empty_abstracts d : abstracts (empty_rdb d) ∅.
Proof. intros k. rewrite lookup_empty. unfold vacant. simpl. rewrite lookup_empty. intros n. by rewrite lookup_empty. Qed.

(** A decided Candidate refuses every transition. *)
Lemma decided_refuses s a sc id e :
  require_scope sc = Ok tt → abstracts s a → a !! (sc, id) = Some e → e_decision e ≠ Undecided →
  let final := CandidateTerminalError (status_value (decision_status (e_decision e))) in
  ∀ expected, (∀ p, revise sc id expected p s = Err final) ∧ (∀ why, reject sc id expected why s = Err final) ∧
              (∀ r, mark_approved sc id expected r s = Err final).
Proof.
  intros Hsc Ha Hk Hd final expected.
  assert (Hp : spec_pending a (sc, id) expected = Err final) by (unfold spec_pending; by rewrite Hk, decide_True).
  split_and!.
  - intros p. unfold revise, mbind, M_bind. by rewrite (lock_pending_spec s a), Hp.
  - intros why. unfold reject, mbind, M_bind. by rewrite (lock_pending_spec s a), Hp.
  - intros r. unfold mark_approved, mbind, M_bind. by rewrite (swap_pending_spec s a), Hp.
Qed.
End repository.

(** C17: The repository refines the abstract Inbox.  Over tables that hold a map of
    Candidates, each with its list of proposal versions and at most one decision,
    every operation takes the step of the specification and returns Candidates the
    new map shows, or fails exactly as the specification does with the current
    version or status, or rejects an input that cannot be stored: a proposal of the
    wrong type, an invalid Candidate, a target or result that is not a stored
    revision, an identity taken by a tag Candidate. *)
Theorem candidates_refine_spec types digest sc c s a :
  require_scope sc = Ok tt → command_ok c → abstracts types s a →
  match run_command types digest sc c s with
  | Ok (cs, s') => ∃ a', spec_command digest sc c a = Ok a' ∧ abstracts types s' a' ∧
      Forall (λ x, ∃ e, a' !! (sc, candidate_id x) = Some e ∧ view (candidate_id x) e = Some x) cs
  | Err e => spec_command digest sc c a = Err e ∨ rejects types digest sc c s a e
  end.
Proof. apply command_simulates. Qed.

(** C18: A Candidate is decided at most once.  Over any history, stored proposal
    versions never change, and a Candidate read again has the same or a later
    version; once it was approved or rejected it reads the same forever, and every
    further revision, rejection or approval is refused as terminal, whatever
    version it expects. *)
Theorem candidate_decided_once types digest d s s' sc id c :
  rtc (step types digest) (empty_rdb d) s → rtc (step types digest) s s' → get types sc id s = Ok (c, s) →
  ∃ c', get types sc id s' = Ok (c', s') ∧ version c ≤ version c' ∧
    (∀ n, 1 ≤ n ≤ version c → is_Some (r_versions s !! (sc, id, n)) ∧ r_versions s' !! (sc, id, n) = r_versions s !! (sc, id, n)) ∧
    (status c ≠ PENDING → c' = c ∧
       ∀ expected, (∀ p, revise types digest sc id expected p s' = Err (CandidateTerminalError (status_value (status c)))) ∧
         (∀ why, reject types sc id expected why s' = Err (CandidateTerminalError (status_value (status c)))) ∧
         ∀ r, mark_approved types sc id expected r s' = Err (CandidateTerminalError (status_value (status c)))).
Proof.
  intros H1 H2 Hget. destruct (steps_abstract _ _ _ _ _ H1 (empty_abstracts types d)) as (a & Ha & _).
  destruct (steps_abstract _ _ _ _ _ H2 Ha) as (a' & Ha' & Hg).
  assert (Hsc : require_scope sc = Ok tt).
  { unfold get in Hget. apply reads_ok in Hget as [Hget _]. by apply result_bind_ok in Hget as ([] & ? & _). }
  pose proof (Ha (sc, id)) as He. destruct (a !! (sc, id)) as [e|] eqn:Hk.
  2: { by rewrite (get_vacant _ _ _ _ Hsc He) in Hget. }
  destruct (view_Some id e (hold_some _ _ _ _ He)) as [c0 Hc0]. rewrite (get_holds _ _ _ _ _ _ Hsc He Hc0) in Hget.
  injection Hget as ->. destruct (Hg _ _ Hk) as (e' & Hk' & Hf & [tail Hpre] & Hd).
  pose proof (Ha' (sc, id)) as He'. rewrite Hk' in He'. destruct (view_Some id e' (hold_some _ _ _ _ He')) as [c' Hc'].
  assert (Hview : ∀ e c, view id e = Some c → version c = Z.of_nat (length (e_versions e)) ∧ status c = decision_status (e_decision e)).
  { unfold view. intros e1 c1. destruct (last (e_versions e1)); [|done]. by intros [= <-]. }
  destruct (Hview _ _ Hc0) as [Hv Hs]. destruct (Hview _ _ Hc') as [Hv' _].
  exists c'. split_and!; [by apply (get_holds _ _ _ _ e')|rewrite Hv, Hv', Hpre, length_app; lia| |].
  - intros n Hn. rewrite (hold_versions _ _ _ _ He), (hold_versions _ _ _ _ He'), Hpre, !decide_True by lia.
    rewrite lookup_app_l by lia. split; [apply lookup_lt_is_Some; lia|done].
  - intros Hst. assert (Hdec : e_decision e ≠ Undecided) by (intros Hu; apply Hst; by rewrite Hs, Hu).
    specialize (Hd Hdec). subst e'. split; [congruence|]. intros expected. rewrite Hs.
    by apply (decided_refuses types digest s' a' sc id e).
Qed.

(** ** Concrete runs

    A Candidate proposed, revised once and rejected. *)
Definition demo_types : dict text text := [([7], [8])].
Definition demo_digest (p : content) : text := payload p.
Definition demo_statement (n : Z) : statement := mkStatement (mkContent [8] [n]) [([3], [4])] [] None None.
Definition demo_state (m : M rdb candidate) (s : rdb) : rdb := match m s with Ok (_, s') => s' | Err _ => s end.
Definition demo_created : rdb := Eval vm_compute in demo_state (create demo_types [1] [2] [7] (demo_statement 1)) (empty_rdb empty_adb).
Definition demo_revised : rdb := Eval vm_compute in demo_state (revise demo_types demo_digest [1] [2] 1 (demo_statement 2)) demo_created.
Definition demo_rejected : rdb := Eval vm_compute in demo_state (reject demo_types [1] [2] 2 [90]) demo_revised.

Lemma demo_history : rtc (step demo_types demo_digest) (empty_rdb empty_adb) demo_rejected.
Proof.
  eapply rtc_l; [eapply (step_command _ _ [1] (Create [2] [7] (demo_statement 1)) _ _ demo_created); [reflexivity|exact I|vm_compute; reflexivity]|].
  eapply rtc_l; [eapply (step_command _ _ [1] (Revise [2] 1 (demo_statement 2)) _ _ demo_revised); [reflexivity|exact I|vm_compute; reflexivity]|].
  apply rtc_once. eapply (step_command _ _ [1] (Reject [2] 2 [90]) _ _ demo_rejected); [reflexivity| |vm_compute; reflexivity].
  vm_compute. by repeat split.
Qed.

Lemma candidates_refine_spec_witness :
  ∃ a', spec_command demo_digest [1] (Create [2] [7] (demo_statement 1)) ∅ = Ok a' ∧ abstracts demo_types demo_created a'.
Proof.
  pose proof (candidates_refine_spec demo_types demo_digest [1] (Create [2] [7] (demo_statement 1)) (empty_rdb empty_adb) ∅
    eq_refl I (empty_abstracts demo_types empty_adb)) as H.
  assert (Hrun : run_command demo_types demo_digest [1] (Create [2] [7] (demo_statement 1)) (empty_rdb empty_adb) =
    Ok ([first_candidate [2] [7] (demo_statement 1)], demo_created)) by (vm_compute; reflexivity).
  rewrite Hrun in H. destruct H as (a' & H1 & H2 & _). by exists a'.
Defined.

Lemma candidate_decided_once_witness :
  mark_approved demo_types [1] [2] 2 (mkRef [7] [5] 1) demo_rejected = Err (CandidateTerminalError "rejected").
Proof.
  assert (Hget : get demo_types [1] [2] demo_rejected =
    Ok (rejected (pending_candidate [2] 2 [7] (demo_statement 2) None) [90], demo_rejected)) by (vm_compute; reflexivity).
  destruct (candidate_decided_once demo_types demo_digest empty_adb demo_rejected demo_rejected [1] [2] _ demo_history (rtc_refl _ _) Hget)
    as (c' & _ & _ & _ & Hfinal).
  apply (Hfinal ltac:(done)).
Defined.

End Candidates.
