(* ===== verification/Review.v ===== *)
(** * Review of Candidates

    [ReviewService] of [builtin/review/service.py] over the Candidate repository and
    the Artifact store: proposals validated against their evidence and target,
    revisions and rejections of pending Candidates, and the approval that publishes
    the reviewed content and records its result in one transaction. *)

From S2P Require Import Prelude Tables Catalog Governance Provenance Artifacts Candidates.
Local Open Scope Z_scope.

Module Review.
Import Candidates.

(** ** Families and their content classes *)

Definition experience_family : text := str "experience".
Definition skill_family : text := str "skill".
Definition profile_family : text := str "profile".
Definition atomic_memory_family : text := str "atomic-memory".
Definition topic_memory_family : text := str "topic-memory".
Definition handoff_family : text := str "handoff".
Definition prompt_family : text := str "prompt".

Definition expected_classes : dict text text :=
  [(experience_family, str "ExperienceContent"); (skill_family, str "SkillContent");
   (profile_family, str "ProfileCandidateProposal"); (atomic_memory_family, str "AtomicMemoryContent");
   (topic_memory_family, str "TopicMemoryContent"); (handoff_family, str "HandoffContent");
   (prompt_family, str "PromptContent")].

Definition is_content (cls : string) (p : content) : Prop := content_class p = str cls.
#[export] Instance is_content_dec cls p : Decision (is_content cls p) := decide (content_class p = str cls).

(** [_validate_proposal_family]. *)
Definition validate_proposal_family (fam : text) (p : content) : result unit :=
  raise_if (dget fam expected_classes ≠ Some (content_class p)) (InvalidCandidateError "family").

(** The Families whose approval publishes through the Artifact store alone. *)
Definition generic_family (fam : text) : Prop := fam = experience_family ∨ fam = skill_family.
#[export] Instance generic_family_dec fam : Decision (generic_family fam).
Proof. unfold generic_family. apply _. Defined.

Definition dream_prefix : text := str "cand_dream_".
Definition is_dream (id : text) : Prop := dream_prefix `prefix_of` id.
#[export] Instance is_dream_dec id : Decision (is_dream id).
Proof. unfold is_dream. apply _. Defined.

(** ** Collaborators

    The tables of a review transaction: those of Candidates and Artifacts, and
    those of the other components. *)
Record rvs (R : Type) := mkRv { v_db : rdb; v_rest : R }.
Arguments mkRv {R} _ _.
Arguments v_db {R} _.
Arguments v_rest {R} _.

(** The run a Dream Candidate comes from. *)
Record dream_run := mkRun {
  run_operation : text;
  run_target : option art_ref;
  run_candidate : option text;
  run_policy_digest : text
}.

(** A claim of a Task Outcome that records a failure: its text and what it cites. *)
Record failure_item := mkFailure {
  item_text : text;
  item_sources : list source_ref;
  item_artifacts : list art_ref
}.

(** [PROMPT_KEYS] of [prompt/models.py]. *)
Definition PROMPT_KEYS : list text := str <$>
  ["atomic_memory.extract"; "atomic_memory.reconcile"; "memory.extract"; "memory.rerank"; "experience.incubate";
   "experience.generate"; "skill.generate"; "handoff.generate"; "topic_memory.probe"; "topic_memory.global";
   "topic_memory.planner"; "topic_memory.evolve"; "topic_memory.temporary"; "topic_memory.reduce";
   "topic_memory.reconcile"; "profile.generate"]%string.

(** What the service calls outside the two repositories.  Payload readers decode the
    fields of a content model; the others read or write the tables [R], and the
    writers of the other Families may use every table.  A service that is composed
    without a component has [None]. *)
Class Collaborators (R : Type) := {
  package_ref : Type;
  snapshot : Type;
  failure_cue : content → option text;
  package_of : content → option package_ref;
  protected_fields : content → list text;
  has_creation : content → bool;
  objective : content → text;
  claims_generation : content → bool;
  citations : content → list (source_ref + art_ref);
  outcome_failures : source → list failure_item;
  normalize_match_text : text → option text;
  proposal_digest : content → text;
  build_package : content → result snapshot;
  as_skill_content : snapshot → content;
  single_instruction : snapshot → bool;
  add_package : text → snapshot → M R unit;
  get_package : text → package_ref → R → result snapshot;
  index_experience : text → artifact → M R unit;
  index_skill : text → artifact → snapshot → M R unit;
  get_run : text → text → R → result dream_run;
  evidence : option (text → list source_ref → list art_ref → rvs R → result (list source_ref));
  authorize_action : option (text → text → candidate → rvs R → result unit);
  read_policy : text → R → result unit;
  revise_profile : candidate → content → list source_ref → list art_ref → option art_ref → result content;
  decide_profile : text → text → Z → option text → M (rvs R) candidate;
  profile_from_dream : content → bool;
  inherit_metadata : artifact → content → content;
  require_customization : option (text → result unit);
  prompt_mode : content → text;
  validate_prompt : text → content → result unit;
  commit_prompt : text → artifact → content → list source_ref → list art_ref → M (rvs R) art_ref;
  memory_plan : Type;
  memory_state : option (text → text → rvs R → result (bool * Z));
  inspect_change : text → candidate → Z → rvs R → result memory_plan;
  prepare_change : memory_plan → result memory_plan;
  commit_memory : memory_plan → M (rvs R) (option art_ref);
  topic_projection : Type;
  prepare_topic : option (text → content → result topic_projection);
  publish_topic : text → artifact → draft → topic_projection → M (rvs R) art_ref;
  commit_handoff : option (text → artifact → content → list source_ref → M (rvs R) art_ref)
}.

(** [DREAM_SPECS]: the Family and the contract version of each operation. *)
Definition operation_v1 : text := str "powercontext.dream.operation.v1".
Definition DREAM_SPECS : dict text (option text * text) :=
  [(str "refine_experience", (Some experience_family, operation_v1));
   (str "derive_skill", (Some skill_family, operation_v1));
   (str "revise_skill", (Some skill_family, operation_v1));
   (str "revise_profile", (Some profile_family, operation_v1));
   (str "revise_memory", (Some atomic_memory_family, operation_v1));
   (str "revise_topic_memory", (Some topic_memory_family, operation_v1));
   (str "refresh_handoff", (Some handoff_family, operation_v1));
   (str "revise_prompt", (Some prompt_family, operation_v1));
   (str "revise_tags", (None, str "powercontext.dream.operation.v3"))].

(** A call on some of the tables. *)
Definition on_tables {R A} (m : M rdb A) : M (rvs R) A := λ s,
  match m (v_db s) with Ok (a, d) => Ok (a, mkRv d (v_rest s)) | Err e => Err e end.
Definition set_adb (x : adb) (d : rdb) : rdb := mkRdb x (r_versions d) (r_heads d).
Definition on_artifacts {R A} (m : M adb A) : M (rvs R) A := λ s,
  match m (r_adb (v_db s)) with Ok (a, x) => Ok (a, mkRv (set_adb x (v_db s)) (v_rest s)) | Err e => Err e end.
Definition on_rest {R A} (m : M R A) : M (rvs R) A := λ s,
  match m (v_rest s) with Ok (a, r) => Ok (a, mkRv (v_db s) r) | Err e => Err e end.

(** [except RepositoryNotFoundError: raise InvalidCandidateError(field)]. *)
Definition unavailable {S A} (field : string) (m : M S A) : M S A := λ s,
  match m s with Err (RepositoryNotFoundError _) => Err (InvalidCandidateError field) | r => r end.

(** The subclasses of [RepositoryError]. *)
Definition is_repository_error (e : exn) : bool :=
  match e with
  | RepositoryNotFoundError _ | InvalidRepositoryArgumentError _ | StoredPayloadConflictError _
  | InvalidStoredPayloadError _ | InvalidPublicationLineageError _ | GenerationConflictError _ _
  | ArtifactProcessingLeadershipLostError _ | IdentityMismatchError _ | InvalidStoredColumnError _ => true
  | _ => false
  end.

(** ** Values *)

Definition unique_sources (values : list source_ref) : list source_ref := nub values.
Definition unique_artifacts (values : list art_ref) : list art_ref := nub values.

Definition validate_reason (r : option text) : result unit :=
  raise_if (¬ valid_reason r) (InvalidCandidateError "reason").

(** [_reviewed_candidate]: the proposal is of the Family, and the model is validated again. *)
Definition reviewed_candidate (c : candidate) : result candidate :=
  validate_proposal_family (family c) (proposal c) ;; new_candidate c.

Definition is_generation_prompt (r : art_ref) : Prop := ref_family r = prompt_family ∧ ref_id r = str "skill.generate".
#[export] Instance is_generation_prompt_dec r : Decision (is_generation_prompt r).
Proof. unfold is_generation_prompt. apply _. Defined.

(** [_validate_approval_lineage]: a new Skill derives from Experiences, a replacement
    cites its exact target and some Source. *)
Definition validate_approval_lineage (c : candidate) : result unit :=
  if decide (family c ≠ skill_family) then Ok tt else
    match target c with
    | None => raise_if (Exists (λ r, ref_family r ≠ experience_family ∧ ¬ is_generation_prompt r) (artifacts c))
                (InvalidCandidateError "artifacts")
    | Some t =>
        raise_if (t ∉ artifacts c) (InvalidCandidateError "artifacts") ;;
        raise_if (sources c = []) (InvalidCandidateError "sources")
    end.

(** [_candidate_draft]. *)
Definition candidate_draft (c : candidate) : result draft :=
  raise_if (¬ ((family c = experience_family ∧ is_content "ExperienceContent" (proposal c)) ∨
               (family c = skill_family ∧ is_content "SkillContent" (proposal c)))) (InvalidCandidateError "family") ;;
  Ok (mkDraft (family c) (proposal c) (sources c) (artifacts c)).

(** The target of a revision is not evidence for it. *)
Definition target_is_evidence (dream_skill_target : bool) (fam : text) : Prop :=
  fam ∉ [profile_family; atomic_memory_family; topic_memory_family; handoff_family; prompt_family] ∧
  ¬ (dream_skill_target = true ∧ fam = skill_family).
#[export] Instance target_is_evidence_dec d fam : Decision (target_is_evidence d fam).
Proof. unfold target_is_evidence. apply _. Defined.
Definition supporting_artifacts (target : option art_ref) (dream_skill_target : bool) (arts : list art_ref) : list art_ref :=
  filter (λ r, Some r ≠ target ∨ target_is_evidence dream_skill_target (ref_family r)) arts.

(** ** [ReviewService] *)

Section service.

(** The registered proposal types, the Artifact repository, the Scope of the
    service and the components it calls. *)
Context (proposal_types : dict text text) (repo : Artifacts.repository) (scope_id : text).
Context {R : Type} `{Collaborators R}.

(** [_authorize_decision]. *)
Definition authorize_decision (action : string) (c : candidate) : M (rvs R) unit := reads (λ s,
  match authorize_action with None => Ok tt | Some authorize => authorize scope_id (str action) c s end).

(** *** Evidence of a failure record *)

(** The batch read may report another error than the first missing reference. *)
Definition require_artifacts (refs : list art_ref) : M adb unit := λ s,
  match Artifacts.get_many repo scope_id refs s with
  | Ok (_, s') => Ok (tt, s')
  | Err e => if is_repository_error e
             then for_each (λ r, Artifacts.get repo scope_id r false ;; mret tt) refs s
             else Err e
  end.

Definition require_citations (i : failure_item) : M adb unit :=
  require_for_generation scope_id (item_sources i) ;; require_artifacts (item_artifacts i).
Definition citations_available (i : failure_item) : M adb bool := λ s,
  match require_citations i s with
  | Ok (_, s') => Ok (true, s')
  | Err (RepositoryNotFoundError _) => Ok (false, s)
  | Err e => Err e
  end.

(** The first recorded failure of that text whose citations are all available. *)
Fixpoint resolved_failure (cue_key : text) (items : list failure_item) : M adb bool :=
  match items with
  | [] => mret false
  | i :: items' =>
      key ← lift (match normalize_match_text (item_text i) with Some k => Ok k | None => Err (ValueError "recurrence match text") end);
      if decide (key ≠ cue_key) then resolved_failure cue_key items' else
        available ← citations_available i;
        if (available : bool) then mret true else resolved_failure cue_key items'
  end.

Definition has_resolved_failure_evidence (rows : list (source_ref * source_row)) (cue : text) : M adb bool :=
  match normalize_match_text cue with
  | None => mret false
  | Some key => resolved_failure key (concat ((λ row, outcome_failures (source_value row.2)) <$> rows))
  end.

(** *** Validation *)

Definition evidence_bound (srcs : list source_ref) (arts : list art_ref) : result unit :=
  raise_if (MAX_CANDIDATE_EVIDENCE < Z.of_nat (length srcs) + Z.of_nat (length arts)) (InvalidCandidateError "evidence").

(** The Sources must be eligible; the revisions are only checked to exist. *)
Definition read_evidence (srcs : list source_ref) (arts : list art_ref) : M adb (list (source_ref * source_row)) :=
  rows ← require_for_generation scope_id srcs;
  Artifacts.get_many repo scope_id arts ;;
  mret rows.

(** The references and, with a resolver, the Source roots of cited Memory. *)
Definition resolve_roots (srcs : list source_ref) (supporting : list art_ref) : M (rvs R) (list source_ref) :=
  match evidence with
  | None => mret srcs
  | Some validate =>
      roots ← reads (validate scope_id srcs supporting);
      mret (unique_sources (srcs ++ roots))
  end.

Definition require_failure_evidence (p : option content) (rows : list (source_ref * source_row)) : M (rvs R) unit :=
  match p with
  | Some p' =>
      if decide (is_content "ExperienceContent" p') then
        match failure_cue p' with
        | None => mret tt
        | Some cue =>
            found ← on_artifacts (has_resolved_failure_evidence rows cue);
            lift (raise_if (found = false) (InvalidCandidateError "evidence"))
        end
      else mret tt
  | None => mret tt
  end.

(** [_validate_evidence]: the canonical sources. *)
Definition validate_evidence (srcs : list source_ref) (arts : list art_ref) (p : option content)
    (target : option art_ref) (dream_skill_target : bool) : M (rvs R) (list source_ref) :=
  let supporting := supporting_artifacts target dream_skill_target arts in
  lift (raise_if (srcs = [] ∧ Forall (λ r, ref_family r = prompt_family) supporting) (InvalidCandidateError "evidence")) ;;
  lift (evidence_bound srcs arts) ;;
  rows ← on_artifacts (unavailable "evidence" (read_evidence srcs arts));
  srcs' ← resolve_roots srcs supporting;
  lift (evidence_bound srcs' arts) ;;
  require_failure_evidence p rows ;;
  mret srcs'.

(** [_validate_handoff_objective]. *)
Definition validate_handoff_objective (p : content) (target : option art_ref) : M (rvs R) unit :=
  match target with
  | Some t =>
      if decide (is_content "HandoffContent" p) then
        current ← on_artifacts (Artifacts.get repo scope_id t false);
        lift (raise_if (ref_family (art_self current) ≠ handoff_family ∨ objective p ≠ objective (art_content current))
                (InvalidCandidateError "proposal"))
      else mret tt
  | None => mret tt
  end.

(** [_validate_target]: the exact current revision, cited as evidence. *)
Definition validate_target (fam : text) (target : option art_ref) (arts : list art_ref) : M (rvs R) unit :=
  match target with
  | None => mret tt
  | Some t =>
      lift (raise_if (ref_family t ≠ fam) (InvalidCandidateError "target")) ;;
      lift (raise_if (t ∉ arts) (InvalidCandidateError "artifacts")) ;;
      current ← on_artifacts (unavailable "target" (Artifacts.latest repo scope_id (ref_family t) (ref_id t) false None));
      lift (raise_if (art_self current ≠ t) ArtifactTargetConflictError)
  end.

(** [_validate_handoff_citations]. *)
Definition validate_handoff_citations (p : content) (srcs : list source_ref) (arts : list art_ref)
    (target : option art_ref) : result unit :=
  raise_if (claims_generation p = true ∨ target = None) (InvalidCandidateError "proposal") ;;
  check_each (λ cited : source_ref + art_ref,
    match cited with
    | inl r => raise_if (r ∉ srcs) (InvalidCandidateError "proposal")
    | inr r => raise_if (¬ (r ∈ arts ∧ Some r ≠ target)) (InvalidCandidateError "proposal")
    end) (citations p).

(** *** Skill packages *)

(** [_canonical_skill_proposal]. *)
Definition canonical_skill_proposal (p : content) : M (rvs R) content :=
  match package_of p with
  | None =>
      snap ← lift (build_package p);
      on_rest (add_package scope_id snap) ;;
      mret (as_skill_content snap)
  | Some pkg =>
      snap ← on_rest (unavailable "package" (reads (get_package scope_id pkg)));
      lift (raise_if (as_skill_content snap ≠ p) (InvalidCandidateError "package")) ;;
      mret (as_skill_content snap)
  end.

(** [_instruction_skill_target]. *)
Definition instruction_skill_target (t : art_ref) : M (rvs R) artifact :=
  current ← on_artifacts (Artifacts.get repo scope_id t false);
  lift (raise_if (ref_family (art_self current) ≠ skill_family) (InvalidCandidateError "target")) ;;
  match package_of (art_content current) with
  | None => mret tt
  | Some pkg =>
      snap ← on_rest (reads (get_package scope_id pkg));
      lift (raise_if (single_instruction snap = false) (InvalidCandidateError "target"))
  end ;;
  mret current.

(** [_validate_skill_revision]. *)
Definition validate_skill_revision (t : art_ref) (p : content) : M (rvs R) unit :=
  current ← instruction_skill_target t;
  match package_of p with
  | None => lift (Err (InvalidCandidateError "package"))
  | Some pkg =>
      snap ← on_rest (reads (get_package scope_id pkg));
      lift (raise_if (single_instruction snap = false) (InvalidCandidateError "package")) ;;
      lift (raise_if (protected_fields p ≠ protected_fields (art_content current)) (InvalidCandidateError "proposal"))
  end.

(** [prepare_skill]: an instruction package is built outside the commit transaction. *)
Definition prepare_skill (p : content) : M (rvs R) content :=
  match package_of p with
  | Some _ => canonical_skill_proposal p
  | None =>
      snap ← lift (build_package p);
      on_rest (add_package scope_id snap) ;;
      mret (as_skill_content snap)
  end.

(** [prepare_skill_revision]: the protected metadata is the target's. *)
Definition prepare_skill_revision (t : art_ref) (p : content) : M (rvs R) content :=
  current ← instruction_skill_target t;
  snap ← lift (build_package (inherit_metadata current p));
  on_rest (add_package scope_id snap) ;;
  mret (as_skill_content snap).

(** *** Prompts *)

(** [_prompt_target]: an exact revision of an operational Prompt that may be customized. *)
Definition prompt_target (target : option art_ref) : M (rvs R) artifact :=
  match target, require_customization with
  | Some t, Some customization =>
      lift (raise_if (ref_family t ≠ prompt_family ∨ ref_id t ∉ PROMPT_KEYS) (InvalidCandidateError "target")) ;;
      lift (customization (ref_id t)) ;;
      current ← on_artifacts (Artifacts.get repo scope_id t false);
      lift (raise_if (ref_family (art_self current) ≠ prompt_family) (InvalidCandidateError "target")) ;;
      mret current
  | _, _ => lift (Err (InvalidCandidateError "target"))
  end.

(** [_validate_prompt_proposal]. *)
Definition validate_prompt_proposal (target : option art_ref) (p : content) : M (rvs R) artifact :=
  current ← prompt_target target;
  lift (raise_if (prompt_mode p ≠ str "custom") (InvalidCandidateError "proposal")) ;;
  lift (validate_prompt (ref_id (art_self current)) p) ;;
  mret current.

(** *** Proposals *)

(** [_prepare_proposal]; an identity that is not given, or is empty, is generated. *)
Definition prepare_proposal (fam : text) (p : statement) (given : option text) (fresh : text) : M (rvs R) candidate :=
  lift (validate_reason (st_reason p)) ;;
  let arts := unique_artifacts (st_artifacts p) in
  srcs ← validate_evidence (unique_sources (st_sources p)) arts (Some (st_proposal p)) (st_target p)
           (match given with Some id => bool_decide (is_dream id) | None => false end);
  validate_handoff_objective (st_proposal p) (st_target p) ;;
  validate_target fam (st_target p) arts ;;
  let id := match given with Some ((_ :: _) as id) => id | _ => fresh end in
  lift (new_candidate (pending_candidate id 1 fam
          (mkStatement (st_proposal p) srcs arts (st_target p) (st_reason p)) None)).

(** [_propose_with_connection]; [on_commit] runs in the same transaction. *)
Definition propose_with_connection (fam : text) (p : statement) (given : option text) (fresh : text)
    (on_commit : candidate → M (rvs R) unit) : M (rvs R) candidate :=
  prepared ← prepare_proposal fam p given fresh;
  stored ← on_tables (Candidates.create_many proposal_types scope_id [prepared]);
  c ← lift (match stored with c :: _ => Ok c | [] => Err (RuntimeError "IndexError") end);
  on_commit c ;;
  lift (reviewed_candidate c).

Definition canonical_statement (p : statement) : statement :=
  mkStatement (st_proposal p) (unique_sources (st_sources p)) (unique_artifacts (st_artifacts p)) (st_target p) (st_reason p).

(** [_propose]. *)
Definition propose (fam : text) (p : statement) (given : option text) (fresh : text)
    (on_commit : candidate → M (rvs R) unit) : M (rvs R) candidate :=
  lift (validate_reason (st_reason p)) ;;
  c ← propose_with_connection fam (canonical_statement p) given fresh on_commit;
  lift (reviewed_candidate c).

(** [_experience_candidate] and [_skill_candidate]. *)
Definition candidate_of (fam : text) (cls : string) (c : candidate) : result candidate :=
  reviewed ← reviewed_candidate c;
  raise_if (family reviewed ≠ fam ∨ ¬ is_content cls (proposal reviewed)) (InvalidCandidateError "family") ;;
  new_candidate reviewed.

Definition propose_experience (p : statement) (given : option text) (fresh : text)
    (on_commit : candidate → M (rvs R) unit) : M (rvs R) candidate :=
  c ← propose experience_family p given fresh on_commit;
  lift (candidate_of experience_family "ExperienceContent" c).

Definition with_proposal (p : statement) (c : content) : statement :=
  mkStatement c (st_sources p) (st_artifacts p) (st_target p) (st_reason p).

Definition propose_skill (p : statement) (given : option text) (fresh : text)
    (on_commit : candidate → M (rvs R) unit) : M (rvs R) candidate :=
  canonical ← canonical_skill_proposal (st_proposal p);
  match st_target p, given with
  | Some t, Some id => if decide (is_dream id) then validate_skill_revision t canonical else mret tt
  | _, _ => mret tt
  end ;;
  c ← propose_with_connection skill_family (with_proposal p canonical) given fresh on_commit;
  lift (candidate_of skill_family "SkillContent" c).

(** [propose_experience_batch]: the plans of one window, each under a fresh identity. *)
Fixpoint prepare_all (arts : list art_ref) (plans : list (statement * text)) : M (rvs R) (list candidate) :=
  match plans with
  | [] => mret []
  | (p, fresh) :: plans' =>
      c ← prepare_proposal experience_family
            (mkStatement (st_proposal p) (st_sources p) arts None (st_reason p)) None fresh;
      cs ← prepare_all arts plans'; mret (c :: cs)
  end.
Definition propose_experience_batch (plans : list (statement * text)) (arts : list art_ref) : M (rvs R) (list candidate) :=
  if decide (plans = []) then mret [] else
    candidates ← prepare_all arts plans;
    stored ← on_tables (Candidates.create_many proposal_types scope_id candidates);
    lift (map_result (λ c, reviewed ← reviewed_candidate c; candidate_of experience_family "ExperienceContent" reviewed) stored).

(** The proposals of Dream runs: [propose_profile_dream], [propose_memory_dream],
    [propose_topic_memory_dream], [propose_handoff_dream] and [propose_prompt_dream]. *)
Definition propose_profile_dream (p : statement) (id : text) : M (rvs R) candidate :=
  lift (raise_if (profile_from_dream (st_proposal p) = false) (InvalidCandidateError "proposal")) ;;
  c ← propose profile_family p (Some id) id (λ _, mret tt);
  lift (new_candidate c).
Definition propose_memory_dream (p : statement) (id : text) : M (rvs R) candidate :=
  lift (raise_if (ref_family <$> st_target p ≠ Some atomic_memory_family ∨ has_creation (st_proposal p) = true) (InvalidCandidateError "target")) ;;
  c ← propose atomic_memory_family p (Some id) id (λ _, mret tt);
  lift (new_candidate c).
Definition propose_topic_memory_dream (p : statement) (id : text) : M (rvs R) candidate :=
  c ← propose topic_memory_family p (Some id) id (λ _, mret tt);
  lift (new_candidate c).
Definition propose_handoff_dream (p : statement) (id : text) : M (rvs R) candidate :=
  lift (validate_handoff_citations (st_proposal p) (st_sources p) (st_artifacts p) (st_target p)) ;;
  c ← propose handoff_family p (Some id) id (λ _, mret tt);
  lift (new_candidate c).
Definition propose_prompt_dream (p : statement) (id : text) : M (rvs R) candidate :=
  lift (validate_reason (st_reason p)) ;;
  validate_prompt_proposal (st_target p) (st_proposal p) ;;
  c ← propose_with_connection prompt_family (canonical_statement p) (Some id) id (λ _, mret tt);
  lift (new_candidate c).

(** [get_candidate]; the lock of [current] has no effect. *)
Definition get_candidate (id : text) : M (rvs R) candidate :=
  c ← on_tables (Candidates.get proposal_types scope_id id);
  lift (reviewed_candidate c).

(** *** Decisions *)

(** [_lock_generic_review_inputs]: the target must still be the head, then the
    evidence is checked under its locks. *)
Definition require_current (fam : text) (t : art_ref) : M (rvs R) artifact :=
  current ← on_artifacts (Artifacts.latest repo scope_id fam (ref_id t) true None);
  lift (raise_if (art_self current ≠ t) ArtifactTargetConflictError) ;;
  mret current.
Definition lock_generic_review_inputs (preview : candidate) (srcs : list source_ref) (arts : list art_ref) : M (rvs R) unit :=
  match target preview with
  | Some t => require_current (family preview) t ;; mret tt
  | None => mret tt
  end ;;
  validate_evidence srcs arts None (target preview) (bool_decide (is_dream (candidate_id preview))) ;;
  mret tt.

(** The head a revision of another Family locks. *)
Definition lock_family_inputs (preview : candidate) (srcs : list source_ref) (arts : list art_ref) : M (rvs R) unit :=
  (if decide (family preview = profile_family) then on_rest (reads (read_policy scope_id)) else mret tt) ;;
  match target preview with
  | Some t =>
      if decide (family preview ∈ [atomic_memory_family; topic_memory_family; handoff_family; prompt_family])
      then on_artifacts (Artifacts.latest repo scope_id (family preview) (ref_id t) true None) ;; mret tt
      else mret tt
  | None => mret tt
  end ;;
  (if decide (generic_family (family preview)) then lock_generic_review_inputs preview srcs arts else mret tt).

(** The proposal a revision stores, checked by its content class. *)
Definition revised_proposal (current : candidate) (p : content) (srcs : list source_ref) (arts : list art_ref)
    (tgt : option art_ref) : M (rvs R) content :=
  p1 ← lift (if decide (family current = profile_family) then revise_profile current p srcs arts tgt else Ok p);
  lift (validate_proposal_family (family current) p1) ;;
  p2 ← (if decide (is_content "SkillContent" p1) then
          canonical ← canonical_skill_proposal p1;
          match target current with
          | Some t => if decide (is_dream (candidate_id current)) then validate_skill_revision t canonical else mret tt
          | None => mret tt
          end ;;
          mret canonical
        else mret p1);
  (if decide (is_content "PromptContent" p2) then validate_prompt_proposal (target current) p2 ;; mret tt else mret tt) ;;
  lift (raise_if (tgt ≠ target current) (InvalidCandidateError "target")) ;;
  lift (raise_if (is_content "AtomicMemoryContent" p2 ∧ has_creation p2 = true) (InvalidCandidateError "proposal")) ;;
  lift (if decide (is_content "HandoffContent" p2) then validate_handoff_citations p2 srcs arts tgt else Ok tt) ;;
  mret p2.

(** [current.model_copy(update={"proposal": proposal})]. *)
Definition with_content (c : candidate) (p : content) : candidate :=
  mkCandidate (candidate_id c) (version c) (family c) (status c) p (sources c) (artifacts c) (target c) (reason c)
    (result_artifact c) (decision_reason c) (candidate_audit c).

(** [revise]; sources or artifacts that are not given stay as they are. *)
Definition revise (id : text) (expected : Z) (p : content) (srcs : option (list source_ref)) (arts : option (list art_ref))
    (tgt : option art_ref) (why : option text) : M (rvs R) candidate :=
  lift (validate_reason why) ;;
  preview ← on_tables (Candidates.get proposal_types scope_id id);
  let srcs1 := match srcs with None => sources preview | Some l => unique_sources l end in
  let arts1 := match arts with None => artifacts preview | Some l => unique_artifacts l end in
  lift (raise_if (version preview ≠ expected) (CandidateConflictError expected (version preview))) ;;
  lift (raise_if (target preview ≠ tgt) (InvalidCandidateError "target")) ;;
  lock_family_inputs preview srcs1 arts1 ;;
  current ← on_tables (Candidates.lock_pending proposal_types scope_id id expected);
  lift (raise_if (current ≠ preview) (CandidateConflictError expected (version current))) ;;
  reviewed ← lift (reviewed_candidate current);
  p' ← revised_proposal current p srcs1 arts1 tgt;
  srcs2 ← validate_evidence srcs1 arts1
            (if decide (is_content "ExperienceContent" p' ∨ is_content "SkillContent" p') then Some p' else None)
            (target current) (bool_decide (is_dream (candidate_id current)));
  validate_handoff_objective p' (target current) ;;
  (if decide (family reviewed ≠ profile_family) then validate_target (family reviewed) tgt arts1 else mret tt) ;;
  authorize_decision "revise" (with_content current p') ;;
  revised ← on_tables (Candidates.revise proposal_types proposal_digest scope_id id expected
                         (mkStatement p' srcs2 arts1 tgt why));
  lift (reviewed_candidate revised).

(** [reject]. *)
Definition reject (id : text) (expected : Z) (why : text) : M (rvs R) candidate :=
  lift (validate_reason (Some why)) ;;
  current ← on_tables (Candidates.get proposal_types scope_id id);
  if decide (family current = profile_family) then
    c ← decide_profile scope_id id expected (Some why); lift (reviewed_candidate c)
  else
    locked ← on_tables (Candidates.lock_pending proposal_types scope_id id expected);
    authorize_decision "reject" locked ;;
    rejected ← on_tables (Candidates.reject proposal_types scope_id id expected why);
    lift (reviewed_candidate rejected).

(** *** Approval *)

(** [_validate_candidate_audit]: the contract, the content and the origin of a Dream
    Candidate are those it was proposed with. *)
Definition validate_candidate_audit (c : candidate) : M (rvs R) unit :=
  match candidate_audit c with
  | None => mret tt
  | Some a =>
      lift (raise_if (dget (audit_operation a) DREAM_SPECS ≠ Some (Some (family c), spec_version a) ∨
                      audit_digest a ≠ proposal_digest (proposal c)) (InvalidCandidateError "audit")) ;;
      run ← on_rest (reads (get_run scope_id (dream_run_id a)));
      lift (raise_if (run_operation run ≠ audit_operation a ∨ run_target run ≠ target c ∨
                      run_candidate run ≠ Some (candidate_id c) ∨ run_policy_digest run ≠ validation_policy_digest a)
              (InvalidCandidateError "audit"))
  end.

(** A Skill from a Dream run is the Candidate of that run. *)
Definition validate_skill_origin (c : candidate) : M (rvs R) unit :=
  if decide (family c = skill_family ∧ is_dream (candidate_id c)) then
    run ← on_rest (reads (get_run scope_id (drop (length dream_prefix) (candidate_id c))));
    lift (raise_if (run_operation run ∉ [str "derive_skill"; str "revise_skill"] ∨ run_candidate run ≠ Some (candidate_id c))
            (InvalidCandidateError "origin")) ;;
    if decide (run_operation run = str "revise_skill") then
      match target c with
      | Some t => if decide (is_content "SkillContent" (proposal c)) then validate_skill_revision t (proposal c)
                  else lift (Err (InvalidCandidateError "target"))
      | None => lift (Err (InvalidCandidateError "target"))
      end
    else mret tt
  else mret tt.

(** A revision that loses its head to another writer is a conflict on the target. *)
Definition as_target_conflict {A} (same_family : bool) (m : M adb A) : M adb A := λ s,
  match m s with
  | Err (RevisionConflictError n) => Err (if same_family then ArtifactTargetConflictError else RevisionConflictError n)
  | r => r
  end.

(** The new identity or the next revision of the target. *)
Definition revise_target (t : art_ref) (d : draft) : M adb artifact :=
  base ← Artifacts.get repo scope_id t false;
  Artifacts.revise repo scope_id base d false None.
Definition publish_draft (c : candidate) (d : draft) (fresh : text) : M (rvs R) artifact :=
  match target c with
  | None => on_artifacts (Artifacts.create repo scope_id fresh d false None)
  | Some t =>
      on_artifacts (as_target_conflict (bool_decide (ref_family t = family c)) (revise_target t d))
  end.

(** The search projection of the published head. *)
Definition project (a : artifact) : M (rvs R) unit :=
  if decide (ref_family (art_self a) = experience_family) then on_rest (index_experience scope_id a)
  else if decide (ref_family (art_self a) = skill_family) then
    match package_of (art_content a) with
    | None => mret tt
    | Some pkg => snap ← on_rest (reads (get_package scope_id pkg)); on_rest (index_skill scope_id a snap)
    end
  else mret tt.

(** The checks of the approval transaction, on the locked Candidate. *)
Definition validate_approval (c : candidate) : M (rvs R) unit :=
  authorize_decision "approve" c ;;
  validate_candidate_audit c ;;
  validate_skill_origin c ;;
  lift (validate_approval_lineage c) ;;
  validate_evidence (sources c) (artifacts c)
    (if decide (is_content "ExperienceContent" (proposal c)) then Some (proposal c) else None)
    (target c) (bool_decide (is_dream (candidate_id c))) ;;
  (if decide (is_content "SkillContent" (proposal c) ∧ is_Some (package_of (proposal c)))
   then canonical_skill_proposal (proposal c) ;; mret tt else mret tt).

(** The second transaction of [_approve]. *)
Definition approve_publish (id : text) (expected : Z) (fresh : text) : M (rvs R) candidate :=
  current ← on_tables (Candidates.get proposal_types scope_id id);
  lift (raise_if (status current = REJECTED) (CandidateTerminalError (status_value REJECTED))) ;;
  if decide (family current = profile_family) then
    c ← decide_profile scope_id id expected None; lift (reviewed_candidate c)
  else
    lift (raise_if (version current ≠ expected) (CandidateConflictError expected (version current))) ;;
    reviewed ← lift (reviewed_candidate current);
    lift (validate_approval_lineage reviewed) ;;
    lock_generic_review_inputs current (sources current) (artifacts current) ;;
    locked ← on_tables (Candidates.lock_pending proposal_types scope_id id expected);
    c ← lift (reviewed_candidate locked);
    lift (raise_if (c ≠ current) (CandidateConflictError expected (version c))) ;;
    validate_approval c ;;
    d ← lift (candidate_draft c);
    a ← publish_draft c d fresh;
    project a ;;
    approved ← on_tables (Candidates.mark_approved proposal_types scope_id id expected (art_self a));
    lift (reviewed_candidate approved).

(** The first read of [_approve]: the stored result of an approved Candidate, or the
    Family that publishes it. *)
Definition approve_read (id : text) (expected : Z) : M (rvs R) (candidate + text) :=
  current ← on_tables (Candidates.get proposal_types scope_id id);
  authorize_decision "approve" current ;;
  lift (raise_if (status current = REJECTED) (CandidateTerminalError (status_value REJECTED))) ;;
  if decide (status current = APPROVED) then
    lift (raise_if (version current ≠ expected) (CandidateConflictError expected (version current))) ;;
    c ← lift (reviewed_candidate current);
    mret (inl c)
  else mret (inr (family current)).

(** *** The Families with a writer of their own *)

(** The pending Candidate under its lock, authorized and audited. *)
Definition lock_for_approval (id : text) (expected : Z) : M (rvs R) candidate :=
  locked ← on_tables (Candidates.lock_pending proposal_types scope_id id expected);
  c ← lift (reviewed_candidate locked);
  authorize_decision "approve" c ;;
  validate_candidate_audit c ;;
  mret c.

Definition finish_approval (id : text) (expected : Z) (r : art_ref) : M (rvs R) candidate :=
  approved ← on_tables (Candidates.mark_approved proposal_types scope_id id expected r);
  lift (reviewed_candidate approved).

(** The preview of a proposal to revise an existing target. *)
Definition dream_preview (cls : string) (id : text) (expected : Z) : M (rvs R) (candidate * art_ref) :=
  current ← on_tables (Candidates.get proposal_types scope_id id);
  preview ← lift (reviewed_candidate current);
  lift (raise_if (status preview = REJECTED) (CandidateTerminalError (status_value REJECTED))) ;;
  lift (raise_if (version preview ≠ expected) (CandidateConflictError expected (version preview))) ;;
  match target preview with
  | Some t => lift (raise_if (¬ is_content cls (proposal preview)) (InvalidCandidateError "family")) ;; mret (preview, t)
  | None => lift (Err (InvalidCandidateError "family"))
  end.

(** [_approve_memory_dream]: the change is planned in one transaction, prepared outside
    any and committed in another. *)
Definition approve_memory_plan (id : text) (expected : Z) : M (rvs R) (candidate + candidate * art_ref * memory_plan) :=
  match memory_state with
  | None => lift (Err (InvalidCandidateError "family"))
  | Some state =>
      '(preview, t) ← dream_preview "AtomicMemoryContent" id expected;
      authorize_decision "approve" preview ;;
      if decide (status preview = APPROVED) then mret (inl preview) else
        '(active, state_version) ← reads (state scope_id (ref_id t));
        lift (raise_if (active = false) (EvidenceResolutionError "memory_entry_inactive")) ;;
        plan ← reads (inspect_change scope_id preview state_version);
        mret (inr (preview, t, plan))
  end.
Definition approve_memory_commit (preview : candidate) (t : art_ref) (plan : memory_plan) (id : text) (expected : Z)
    : M (rvs R) candidate :=
  require_current atomic_memory_family t ;;
  c ← lock_for_approval id expected;
  lift (raise_if (c ≠ preview) (CandidateConflictError expected (version c))) ;;
  validate_evidence (sources c) (artifacts c) None (target c) false ;;
  committed ← commit_memory plan;
  r ← lift (match committed with Some r => Ok r | None => Err (InvalidCandidateError "proposal") end);
  finish_approval id expected r.
Definition approve_memory_dream (during : rvs R → rvs R) (id : text) (expected : Z) : M (rvs R) candidate := λ s,
  match approve_memory_plan id expected s with
  | Err e => Err e
  | Ok (inl c, _) => Ok (c, s)
  | Ok (inr (preview, t, plan), _) =>
      match prepare_change plan with
      | Err e => Err e
      | Ok prepared => approve_memory_commit preview t prepared id expected (during s)
      end
  end.

(** [_approve_topic_memory_dream]: the projection is prepared between two transactions. *)
Definition approve_topic_commit (preview : candidate) (t : art_ref) (projection : topic_projection) (id : text) (expected : Z)
    : M (rvs R) candidate :=
  current ← require_current topic_memory_family t;
  c ← lock_for_approval id expected;
  lift (raise_if (c ≠ preview ∨ ref_family (art_self current) ≠ topic_memory_family ∨
                  ¬ is_content "TopicMemoryContent" (proposal c)) (CandidateConflictError expected (version c))) ;;
  validate_evidence (sources c) (artifacts c) None (target c) false ;;
  r ← publish_topic scope_id current (mkDraft topic_memory_family (proposal c) (sources c) (artifacts c)) projection;
  finish_approval id expected r.
Definition approve_topic_memory_dream (during : rvs R → rvs R) (id : text) (expected : Z) : M (rvs R) candidate := λ s,
  match prepare_topic with
  | None => Err (InvalidCandidateError "family")
  | Some prepare =>
      match dream_preview "TopicMemoryContent" id expected s with
      | Err e => Err e
      | Ok ((preview, t), _) =>
          match prepare scope_id (proposal preview) with
          | Err e => Err e
          | Ok projection => approve_topic_commit preview t projection id expected (during s)
          end
      end
  end.

(** The target of a Handoff or a Prompt, which must be its head. *)
Definition required_target (fam id : text) : M (rvs R) (candidate * artifact) :=
  preview ← on_tables (Candidates.get proposal_types scope_id id);
  lift (raise_if (status preview = REJECTED) (CandidateTerminalError (status_value REJECTED))) ;;
  match target preview with
  | Some t => current ← require_current fam t; mret (preview, current)
  | None => lift (Err (InvalidCandidateError "target"))
  end.

(** [_approve_handoff_dream]. *)
Definition approve_handoff_dream (id : text) (expected : Z) : M (rvs R) candidate :=
  match commit_handoff with
  | None => lift (Err (InvalidCandidateError "family"))
  | Some commit =>
      '(preview, current) ← required_target handoff_family id;
      c ← lock_for_approval id expected;
      lift (raise_if (ref_family (art_self current) ≠ handoff_family ∨ ¬ is_content "HandoffContent" (proposal c))
              (InvalidCandidateError "family")) ;;
      lift (validate_handoff_citations (proposal c) (sources c) (artifacts c) (target c)) ;;
      validate_evidence (sources c) (artifacts c) None (target c) false ;;
      r ← commit scope_id current (proposal c) (sources c);
      finish_approval id expected r
  end.

(** [_approve_prompt_dream]. *)
Definition approve_prompt_dream (id : text) (expected : Z) : M (rvs R) candidate :=
  '(preview, _) ← required_target prompt_family id;
  c ← lock_for_approval id expected;
  lift (raise_if (target c ≠ target preview ∨ ¬ is_content "PromptContent" (proposal c)) (InvalidCandidateError "proposal")) ;;
  current ← validate_prompt_proposal (target c) (proposal c);
  validate_evidence (sources c) (artifacts c) None (target c) false ;;
  r ← commit_prompt scope_id current (proposal c) (sources c) (artifacts c);
  finish_approval id expected r.

(** The Family of the Candidate that was read chooses the writer. *)
Definition approve_family (during : rvs R → rvs R) (fam id : text) (expected : Z) (fresh : text) : M (rvs R) candidate :=
  if decide (fam = atomic_memory_family) then approve_memory_dream during id expected
  else if decide (fam = topic_memory_family) then approve_topic_memory_dream during id expected
  else if decide (fam = handoff_family) then approve_handoff_dream id expected
  else if decide (fam = prompt_family) then approve_prompt_dream id expected
  else approve_publish id expected fresh.

(** The read after a conflict: the decision another instance committed, or the conflict. *)
Definition is_conflict (e : exn) : bool :=
  match e with ArtifactTargetConflictError | CandidateTerminalError _ | RevisionConflictError _ => true | _ => false end.
Definition approve_retry (id : text) (expected : Z) (e : exn) : M (rvs R) candidate :=
  current ← on_tables (Candidates.get proposal_types scope_id id);
  authorize_decision "approve" current ;;
  lift (raise_if (status current = REJECTED) (CandidateTerminalError (status_value REJECTED))) ;;
  if decide (status current = APPROVED ∧ version current = expected) then lift (reviewed_candidate current)
  else lift (Err e).

(** [approve]: each step is a transaction of its own, so other transactions run in
    between: [between] before the publication, [during] within that of a Memory, and
    [after] before the retry. *)
Definition approve (between during after : rvs R → rvs R) (id : text) (expected : Z) (fresh : text) : M (rvs R) candidate := λ s,
  let conflict e s := if is_conflict e then approve_retry id expected e (after s) else Err e in
  match approve_read id expected s with
  | Err e => conflict e s
  | Ok (inl c, _) => Ok (c, s)
  | Ok (inr fam, _) =>
      match approve_family during fam id expected fresh (between s) with
      | Ok r => Ok r
      | Err e => conflict e (between s)
      end
  end.

End service.

End Review.
