(* ===== verification/ReviewHistory.v ===== *)
(** * Histories of the review service

    What the operations of [Review] do to the Candidate and Artifact tables, and the
    guarantees that follow over any interleaving of their transactions: an approval
    publishes exactly the reviewed content, once, with the authority of its reviewer. *)

From S2P Require Import Prelude Tables Catalog Governance Provenance Artifacts Candidates Review.
Local Open Scope Z_scope.

Module ReviewHistory.
Import Candidates Review.
#[local] Existing Instance Artifacts.kept_preorder.

(** ** Candidate rows under the repository's writes *)

(** What later tables keep of earlier ones: stored revisions, the Family of every
    Candidate, and every decided Candidate with all its versions. *)
Record evolves (d d' : rdb) : Prop := {
  ev_kept : Artifacts.kept (r_adb d) (r_adb d');
  ev_heads k h : r_heads d !! k = Some h →
    ∃ h', r_heads d' !! k = Some h' ∧ h_family h' = h_family h ∧ h_kind h' = h_kind h;
  ev_decided k h : r_heads d !! k = Some h → h_status h ≠ PENDING →
    r_heads d' !! k = Some h ∧ ∀ n, r_versions d' !! (k, n) = r_versions d !! (k, n)
}.

(** No Experience or Skill was approved in between. *)
Definition publishes_nothing (d d' : rdb) : Prop :=
  ∀ k h, r_heads d' !! k = Some h → generic_family (h_family h) → h_result h ≠ None →
    r_heads d !! k = Some h ∧ ∀ n, r_versions d' !! (k, n) = r_versions d !! (k, n).

#[export] Instance evolves_preorder : PreOrder evolves.
Proof.
  split.
  - intros d. split; [reflexivity|by eauto|by eauto].
  - intros d1 d2 d3 [K1 H1 D1] [K2 H2 D2]. split.
    + by etrans.
    + intros k h Hk. destruct (H1 k h Hk) as (h1 & Hk1 & F1 & G1). destruct (H2 k h1 Hk1) as (h2 & Hk2 & F2 & G2).
      exists h2. split_and!; [done|congruence|congruence].
    + intros k h Hk Hs. destruct (D1 k h Hk Hs) as [Hk1 V1]. destruct (D2 k h Hk1 Hs) as [Hk2 V2].
      split; [done|]. intros n. by rewrite V2.
Qed.

#[export] Instance publishes_nothing_preorder : PreOrder publishes_nothing.
Proof.
  split; [by intros d k h|]. intros d1 d2 d3 P1 P2 k h Hk Hf Hr. destruct (P2 k h Hk Hf Hr) as [Hk2 V2].
  destruct (P1 k h Hk2 Hf Hr) as [Hk1 V1]. split; [done|]. intros n. by rewrite V2.
Qed.

(** A write that decides nothing. *)
Definition quiet (d d' : rdb) : Prop := evolves d d' ∧ publishes_nothing d d'.
#[export] Instance quiet_preorder : PreOrder quiet.
Proof. split; [split; reflexivity|]. intros d1 d2 d3 [? ?] [? ?]. split; by etrans. Qed.

Section rows.
Context (types : dict text text).

Lemma update_pending_ok k expected f d n d' :
  update_pending k expected f d = Ok (n, d') →
  (n = 1 ∧ ∃ h, r_heads d !! k = Some h ∧ matches expected h ∧ head_fits k (f h) d ∧
     d' = set_candidate_heads (<[k := f h]> (r_heads d)) d) ∨ (n = 0 ∧ d' = d).
Proof.
  unfold update_pending. destruct (r_heads d !! k) as [h|]; [|intros [= <- <-]; by right].
  case_decide; [|intros [= <- <-]; by right]. case_decide; [|done]. intros [= <- <-]. left. eauto 6.
Qed.

Lemma get_same sc id d c d' : Candidates.get types sc id d = Ok (c, d') → d' = d.
Proof. unfold Candidates.get. by intros [_ ->]%reads_ok. Qed.

(** A Candidate as its rows show it. *)
Lemma get_rows sc id d c d' :
  Candidates.get types sc id d = Ok (c, d') →
  require_scope sc = Ok tt ∧ valid_candidate c ∧ require_proposal types (family c) (proposal c) = Ok tt ∧ ∃ h v,
    r_heads d !! (sc, id) = Some h ∧ h_kind h = ARTIFACT ∧ r_versions d !! (sc, id, h_version h) = Some v ∧
    c = mkCandidate id (h_version h) (h_family h) (h_status h) (v_proposal v) (v_sources v) (v_artifacts v) (v_target v)
          (v_reason v) (h_result h) (h_reason h) (v_audit v).
Proof.
  unfold Candidates.get. intros [Hg _]%reads_ok. apply result_bind_ok in Hg as ([] & Hsc & Hg).
  unfold find_current, find_head in Hg. destruct (r_heads d !! (sc, id)) as [h|] eqn:Hh; simpl in Hg; [|done].
  case_decide as Hk; simpl in Hg; [|done]. destruct (r_versions d !! (sc, id, h_version h)) as [v|] eqn:Hv; simpl in Hg; [|done].
  destruct (dget (h_family h) types) as [cls|] eqn:Hc; [|done].
  apply result_bind_ok in Hg as (? & Hp%raise_if_ok & Hg). unfold new_candidate in Hg.
  apply result_bind_ok in Hg as (? & Hval%raise_if_ok%dec_stable & [= <-]).
  split_and!; [done|done| |exists h, v; by split_and!]. unfold require_proposal. simpl. rewrite Hc. by rewrite raise_if_skip.
Qed.

Lemma get_of_rows sc id d h v c :
  require_scope sc = Ok tt → r_heads d !! (sc, id) = Some h → h_kind h = ARTIFACT →
  r_versions d !! (sc, id, h_version h) = Some v → valid_candidate c →
  require_proposal types (family c) (proposal c) = Ok tt →
  c = mkCandidate id (h_version h) (h_family h) (h_status h) (v_proposal v) (v_sources v) (v_artifacts v) (v_target v)
        (v_reason v) (h_result h) (h_reason h) (v_audit v) →
  Candidates.get types sc id d = Ok (c, d).
Proof.
  intros Hsc Hh Hk Hv Hval Hp ->. unfold Candidates.get, reads. rewrite Hsc. simpl. unfold find_current, find_head.
  rewrite Hh. simpl. rewrite decide_True by done. simpl. rewrite Hv. simpl in *. unfold require_proposal in Hp.
  destruct (dget (h_family h) types) as [cls|]; [|done]. apply raise_if_ok in Hp. rewrite raise_if_skip by done. simpl.
  unfold new_candidate. rewrite raise_if_skip; [done|]. intros Hno. by apply Hno.
Qed.

Lemma get_vacant_row sc id d :
  require_scope sc = Ok tt → r_heads d !! (sc, id) = None → Candidates.get types sc id d = Err CandidateNotFoundError.
Proof. intros Hsc Hh. unfold Candidates.get, reads, find_current, find_head. rewrite Hsc. simpl. by rewrite Hh. Qed.

(** The same rows show the same Candidate. *)
Lemma get_frame sc id d d' c :
  Candidates.get types sc id d = Ok (c, d) → r_heads d' !! (sc, id) = r_heads d !! (sc, id) →
  (∀ n, r_versions d' !! (sc, id, n) = r_versions d !! (sc, id, n)) → Candidates.get types sc id d' = Ok (c, d').
Proof.
  unfold Candidates.get. intros [Hg _]%reads_ok Hh Hv. unfold reads.
  assert (E : find_current sc id d' = find_current sc id d).
  { unfold find_current, find_head. rewrite Hh. destruct (r_heads d !! (sc, id)) as [h|]; [|done]. simpl.
    case_decide; [|done]. simpl. by rewrite Hv. }
  by rewrite E, Hg.
Qed.

Lemma lock_pending_ok sc id expected d c d' :
  lock_pending types sc id expected d = Ok (c, d') →
  d' = d ∧ Candidates.get types sc id d = Ok (c, d) ∧ status c = PENDING ∧ version c = expected.
Proof.
  unfold lock_pending. intros H. apply M_bind_ok in H as ([] & d0 & [_ ->]%lift_ok & H).
  apply M_bind_ok in H as (n & d1 & Hu & H). apply M_bind_ok in H as (cur & d2 & Hg & H).
  apply M_bind_ok in H as ([] & d3 & [Hn ->]%lift_ok & [-> ->]%M_ret_ok). apply raise_if_ok, dec_stable in Hn as ->.
  pose proof (get_same _ _ _ _ _ Hg) as ->.
  apply update_pending_ok in Hu as [(_ & h & Hh & (Hk & Hv & Hs) & _ & ->)|[? _]]; [|done].
  assert (E : set_candidate_heads (<[(sc, id) := h]> (r_heads d)) d = d).
  { unfold set_candidate_heads. rewrite insert_id by done. by destruct d. }
  unfold Datatypes.id in *. rewrite E in *. split_and!; [done|done|..].
  all: apply get_rows in Hg as (_ & _ & _ & h' & v & Hh' & _ & _ & ->); rewrite Hh in Hh'; by injection Hh' as <-.
Qed.

Lemma swap_pending_ok sc id expected f d u d' :
  swap_pending types sc id expected f d = Ok (u, d') →
  ∃ h, r_heads d !! (sc, id) = Some h ∧ matches expected h ∧ head_fits (sc, id) (f h) d ∧
    d' = set_candidate_heads (<[(sc, id) := f h]> (r_heads d)) d.
Proof.
  unfold swap_pending. intros (n & d1 & Hu & H)%M_bind_ok. case_decide as Hn.
  - apply M_ret_ok in H as [_ ->]. apply update_pending_ok in Hu as [(_ & Hu)|[-> _]]; [done|lia].
  - apply M_bind_ok in H as (c & d2 & _ & [? _]%lift_ok). done.
Qed.

(** A write to the head of a pending Candidate. *)
Lemma pending_head_evolves k h h' d :
  r_heads d !! k = Some h → h_status h = PENDING → h_family h' = h_family h → h_kind h' = h_kind h →
  evolves d (set_candidate_heads (<[k := h']> (r_heads d)) d).
Proof.
  intros Hk Hs Hf Hkind. split; simpl; [reflexivity| |].
  - intros k0 h0 Hk0. destruct (decide (k0 = k)) as [->|Hne].
    + rewrite Hk in Hk0. injection Hk0 as <-. exists h'. by rewrite lookup_insert_eq.
    + exists h0. by rewrite lookup_insert_ne.
  - intros k0 h0 Hk0 Hs0. rewrite lookup_insert_ne; [done|]. intros ->. congruence.
Qed.

Lemma quiet_head k h h' d :
  r_heads d !! k = Some h → h_status h = PENDING → h_family h' = h_family h → h_kind h' = h_kind h → h_result h' = None →
  quiet d (set_candidate_heads (<[k := h']> (r_heads d)) d).
Proof.
  intros Hk Hs Hf Hkind Hr. split; [by eapply pending_head_evolves|]. intros k0 h0 Hk0 _ Hr0. simpl in *.
  destruct (decide (k0 = k)) as [->|Hne]; [rewrite lookup_insert_eq in Hk0; congruence|].
  by rewrite lookup_insert_ne in Hk0.
Qed.

(** A new version of a Candidate without a decision. *)
Lemma quiet_versions k d vs :
  (∀ k', k' ≠ k → ∀ n, vs !! (k', n) = r_versions d !! (k', n)) →
  (∀ h, r_heads d !! k = Some h → h_status h = PENDING ∧ h_result h = None) →
  quiet d (set_versions vs d).
Proof.
  intros Hv Hh. split; [split; simpl; [reflexivity|by eauto|]|].
  - intros k0 h0 Hk0 Hs0. split; [done|]. intros n. apply Hv. intros ->. by destruct (Hh _ Hk0).
  - intros k0 h0 Hk0 _ Hr0. simpl in *. split; [done|]. intros n. apply Hv. intros ->. by destruct (Hh _ Hk0).
Qed.

Lemma pending_fits k h d : head_fits k h d → h_status h = PENDING → h_result h = None.
Proof. intros (Hc & _) Hs. unfold head_row_check in Hc. rewrite Hs in Hc. destruct (h_kind h); tauto. Qed.

Lemma insert_heads_adb sc l d d' :
  for_each (λ c, insert_candidate_head (sc, candidate_id c) (fresh_head c)) l d = Ok (tt, d') → r_adb d' = r_adb d.
Proof.
  intros Hf. revert Hf. apply (for_each_preserves (λ x, r_adb x = r_adb d)); [|done].
  intros c s [] s' _ Hs Hi. unfold insert_candidate_head in Hi. case_decide; [|done]. by injection Hi as <-.
Qed.

(** A bulk creation stores pending first versions. *)
Lemma created_rows sc l d cs d' :
  Candidates.create_many types sc l d = Ok (cs, d') →
  cs = l ∧ quiet d d' ∧ r_adb d' = r_adb d ∧ Forall (λ c, require_proposal types (family c) (proposal c) = Ok tt) l ∧
  ∀ c, c ∈ l → r_heads d !! (sc, candidate_id c) = None ∧ r_heads d' !! (sc, candidate_id c) = Some (fresh_head c) ∧
     version c = 1 ∧ status c = PENDING ∧ r_versions d' !! (sc, candidate_id c, 1) = Some (version_row_of c).
Proof.
  unfold Candidates.create_many. intros H. apply M_bind_ok in H as ([] & d0 & [_ ->]%lift_ok & H).
  case_decide as Hl.
  { apply M_ret_ok in H as [-> ->]. subst. split_and!; [done|reflexivity|done|constructor|by intros c ?%not_elem_of_nil]. }
  apply M_bind_ok in H as ([] & d1 & [[Hall Hnd]%check_new_all_ok ->]%lift_ok & H).
  apply M_bind_ok in H as ([] & d2 & H & [-> ->]%M_ret_ok).
  assert (Hi : insert_candidates sc l d = Ok (tt, d2)).
  { unfold catch_integrity in H. destruct (insert_candidates sc l d) as [[[] ?]|e]; [by simplify_eq|].
    destruct e; try done. by destruct (classify_conflict sc l d). }
  clear H. unfold insert_candidates in Hi. apply M_bind_ok in Hi as ([] & d1 & H1 & H2).
  assert (Hv1 : Forall (λ c, version c = 1) l) by (eapply Forall_impl; [exact Hall|simpl; tauto]).
  apply insert_versions_inv in H1 as (E1 & E2 & E3 & E4); [|done|done].
  pose proof (insert_heads_adb _ _ _ _ H2) as E5.
  apply (insert_heads_inv sc l d1 d2) in H2 as (W1 & W2 & W3); [|done].
  assert (Hheads : ∀ k h, r_heads d !! k = Some h → ¬ in_batch sc l k).
  { intros k h Hk (c & Hc & ->). destruct (W2 c Hc) as [Hn _]. congruence. }
  split_and!; [done| |congruence|eapply Forall_impl; [exact Hall|simpl; tauto]|].
  - assert (Hsame : ∀ k h, r_heads d !! k = Some h → r_heads d2 !! k = Some h ∧ ∀ n, r_versions d2 !! (k, n) = r_versions d !! (k, n)).
    { intros k h Hk. rewrite W3, E1 by eauto. split; [done|]. intros n. rewrite W1, E4 by eauto. done. }
    split; [split|].
    + rewrite E5, E2. reflexivity.
    + intros k h Hk. exists h. by destruct (Hsame k h Hk).
    + intros k h Hk _. by apply Hsame.
    + intros k h Hk _ Hr. destruct (decide (Exists (λ c, k = (sc, candidate_id c)) l)) as [(c & Hc & ->)%Exists_exists|Hout].
      { destruct (W2 c Hc) as [_ Hn]. rewrite Hn in Hk. by injection Hk as <-. }
      assert (Hb : ¬ in_batch sc l k) by (intros (c & ? & ->); apply Hout, Exists_exists; eauto).
      rewrite W3, E1 in Hk by done. split; [done|]. intros n. rewrite W1, E4 by eauto. done.
  - intros c Hc. destruct (W2 c Hc) as [Hn Hs]. rewrite Forall_forall in Hall. destruct (Hall c Hc) as (_ & Hv & Hp).
    split_and!; [congruence|done|done|done|]. rewrite W1. by apply E3.
Qed.

Lemma create_many_in_scope sc l d r : Candidates.create_many types sc l d = Ok r → require_scope sc = Ok tt.
Proof. unfold Candidates.create_many. destruct r. by intros ([] & ? & [? _]%lift_ok & _)%M_bind_ok. Qed.

(** The audit of a Candidate created in the same transaction. *)
Lemma attach_quiet sc c a d u d' :
  attach_candidate_audit sc c a d = Ok (u, d') → r_heads d !! (sc, candidate_id c) = Some (fresh_head c) → quiet d d'.
Proof.
  unfold attach_candidate_audit. intros (u0 & d0 & [_ ->]%lift_ok & ->%modifies_ok)%M_bind_ok Hh.
  apply (quiet_versions (sc, candidate_id c)); [|intros h; rewrite Hh; by intros [= <-]].
  intros k Hk n. by rewrite lookup_alter_ne by congruence.
Qed.

Lemma revise_rows sc id expected digest p d c d' :
  Candidates.revise types digest sc id expected p d = Ok (c, d') →
  quiet d d' ∧ r_adb d' = r_adb d ∧ ∃ c0, Candidates.get types sc id d = Ok (c0, d) ∧ status c0 = PENDING ∧ version c0 = expected ∧
    valid_candidate c ∧ require_proposal types (family c) (proposal c) = Ok tt ∧
    c = pending_candidate id (expected + 1) (family c0) p
          (revised_audit digest id (expected + 1) (st_proposal p) <$> candidate_audit c0) ∧
    Candidates.get types sc id d' = Ok (c, d').
Proof.
  unfold Candidates.revise. intros H. apply M_bind_ok in H as (c0 & d0 & (-> & Hg & Hs & Hv)%lock_pending_ok & H).
  apply M_bind_ok in H as ([] & d0 & [Hp ->]%lift_ok & H). rewrite Hv in H.
  apply M_bind_ok in H as (c1 & d0 & [Hn ->]%lift_ok & H).
  apply M_bind_ok in H as ([] & d1 & Hi & H). apply M_bind_ok in H as ([] & d2 & Hw & [-> ->]%M_ret_ok).
  unfold new_candidate in Hn. apply result_bind_ok in Hn as (? & Hval%raise_if_ok%dec_stable & [= <-]).
  apply swap_pending_ok in Hw as (h & Hh & (Hk & Hver & Hpen) & Hfit & ->).
  unfold insert_version in Hi. case_decide as Hfresh; [|done]. injection Hi as <-. simpl in *.
  pose proof (pending_fits _ _ _ Hfit Hpen) as Hr. simpl in Hr.
  pose proof (get_rows _ _ _ _ _ Hg) as (Hsc & _ & _ & h0 & v0 & Hh0 & _ & _ & Ec). rewrite Hh in Hh0. injection Hh0 as <-.
  split_and!; [|done|].
  - transitivity (set_versions (<[(sc, id, expected + 1) := version_row_of (pending_candidate id (expected + 1) (family c0) p
      (revised_audit digest id (expected + 1) (st_proposal p) <$> candidate_audit c0))]> (r_versions d)) d).
    + apply (quiet_versions (sc, id)); [|intros h1; rewrite Hh; by intros [= <-]].
      intros k Hne n. by rewrite lookup_insert_ne by congruence.
    + match goal with |- quiet ?x _ => by apply (quiet_head (sc, id) h _ x) end.
  - assert (Hhr : h_reason h = None).
    { destruct Hfit as (Hc & _). unfold head_row_check in Hc. simpl in Hc. rewrite Hpen in Hc. destruct (h_kind h); tauto. }
    exists c0. split_and!; try done. match goal with |- _ = Ok (?c, _) => assert (Ev : valid_candidate c) by done end.
    rewrite Ec in Hp, Ev |- *. simpl in *. eapply get_of_rows; simpl; [done|by rewrite lookup_insert_eq|done| |done|done|].
    + by rewrite lookup_insert_eq.
    + by rewrite Hr, Hhr, Hpen.
Qed.

Lemma reject_rows sc id expected why d c d' :
  Candidates.reject types sc id expected why d = Ok (c, d') →
  quiet d d' ∧ r_adb d' = r_adb d ∧ ∃ c0, Candidates.get types sc id d = Ok (c0, d) ∧ status c0 = PENDING ∧ version c0 = expected ∧
    c = rejected c0 why ∧ ∃ h, r_heads d' !! (sc, id) = Some h ∧ h_status h = REJECTED.
Proof.
  unfold Candidates.reject. intros H. apply M_bind_ok in H as (c0 & d0 & (-> & Hg & Hs & Hv)%lock_pending_ok & H).
  apply M_bind_ok in H as ([] & d1 & Hw & [-> ->]%M_ret_ok).
  apply swap_pending_ok in Hw as (h & Hh & (Hk & Hver & Hpen) & (Hc & _) & ->). unfold head_row_check in Hc. simpl in Hc.
  split_and!; [|done|].
  - apply (quiet_head _ h); [done..|]. simpl. destruct (h_kind h); tauto.
  - exists c0. split_and!; [done..|]. simpl. rewrite lookup_insert_eq. by eexists.
Qed.

(** The decided form of an approved Candidate. *)
Definition approved (c : candidate) (r : art_ref) : candidate :=
  mkCandidate (candidate_id c) (version c) (family c) APPROVED (proposal c) (sources c) (artifacts c) (target c)
    (reason c) (Some r) (decision_reason c) (candidate_audit c).

Lemma mark_approved_rows sc id expected r d c d' :
  mark_approved types sc id expected r d = Ok (c, d') →
  evolves d d' ∧ r_adb d' = r_adb d ∧ r_versions d' = r_versions d ∧
  Candidates.get types sc id d' = Ok (c, d') ∧ revision_exists sc (Some r) d ∧ ∃ h h',
    r_heads d !! (sc, id) = Some h ∧ h_status h = PENDING ∧ h_version h = expected ∧
    h' = mkHeadRow (h_family h) (h_version h) APPROVED (h_kind h) (h_result_payload h) (Some r) (h_reason h) ∧
    r_heads d' = <[(sc, id) := h']> (r_heads d) ∧
    ∀ c0, Candidates.get types sc id d = Ok (c0, d) → c = approved c0 r.
Proof.
  unfold mark_approved. intros ([] & d1 & Hw & Hg)%M_bind_ok.
  apply swap_pending_ok in Hw as (h & Hh & (Hk & Hver & Hpen) & Hfit & ->).
  pose proof (get_same _ _ _ _ _ Hg) as ->. split_and!; [by eapply pending_head_evolves|done|done|done|by apply Hfit|].
  eexists h, _. split_and!; [done..|]. intros c0 Hc0. apply get_rows in Hc0 as (_ & _ & _ & h0 & v & Hh0 & _ & Hv & ->).
  rewrite Hh in Hh0. injection Hh0 as <-. apply get_rows in Hg as (_ & _ & _ & h1 & v1 & Hh1 & _ & Hv1 & ->). simpl in *.
  rewrite lookup_insert_eq in Hh1. injection Hh1 as <-. simpl in *. rewrite Hv in Hv1. by injection Hv1 as <-.
Qed.

End rows.
(** ** Calls that leave the tables alone *)

Definition readonly {S A} (m : M S A) : Prop := ∀ s a s', m s = Ok (a, s') → s' = s.
Definition keeps_db {R A} (m : M (rvs R) A) : Prop := ∀ s a s', m s = Ok (a, s') → v_db s' = v_db s.

Create HintDb review.

Section calls.
Context {S : Type}.

Lemma readonly_bind {A B} (m : M S A) (k : A → M S B) : readonly m → (∀ a, readonly (k a)) → readonly (m ≫= k).
Proof. intros Hm Hk s b s' (a & s1 & H1%Hm & H2%Hk)%M_bind_ok. congruence. Qed.
Lemma readonly_ret {A} (a : A) : readonly (mret a : M S A).
Proof. by intros s b s' [_ ->]%M_ret_ok. Qed.
Lemma readonly_lift {A} (r : result A) : readonly (lift r : M S A).
Proof. by intros s b s' [_ ->]%lift_ok. Qed.
Lemma readonly_reads {A} (f : S → result A) : readonly (reads f).
Proof. by intros s b s' [_ ->]%reads_ok. Qed.
Lemma readonly_gets {A} (f : S → A) : readonly (gets f).
Proof. by intros s b s' [_ ->]%gets_ok. Qed.
Lemma readonly_each {A} (f : A → M S unit) l : (∀ x, readonly (f x)) → readonly (for_each f l).
Proof. intros Hf. induction l; simpl; [apply readonly_ret|]. apply readonly_bind; auto. Qed.
Lemma readonly_unavailable {A} field (m : M S A) : readonly m → readonly (unavailable field m).
Proof. intros Hm s a s'. unfold unavailable. destruct (m s) as [[b s1]|e] eqn:E; [intros [= <- <-]; by eapply Hm|by destruct e]. Qed.
End calls.

Section lifts.
Context {R : Type}.

Lemma readonly_artifacts {A} (m : M adb A) : readonly m → readonly (on_artifacts m : M (rvs R) A).
Proof.
  intros Hm [d r] a s'. unfold on_artifacts. simpl. destruct (m (r_adb d)) as [[b x]|e] eqn:E; [|done].
  intros [= <- <-]. apply Hm in E as ->. by destruct d.
Qed.
Lemma readonly_tables {A} (m : M rdb A) : readonly m → readonly (on_tables m : M (rvs R) A).
Proof.
  intros Hm [d r] a s'. unfold on_tables. simpl. destruct (m d) as [[b x]|e] eqn:E; [|done]. intros [= <- <-]. by apply Hm in E as ->.
Qed.
Lemma readonly_rest {A} (m : M R A) : readonly m → readonly (on_rest m : M (rvs R) A).
Proof.
  intros Hm [d r] a s'. unfold on_rest. simpl. destruct (m r) as [[b x]|e] eqn:E; [|done]. intros [= <- <-]. by apply Hm in E as ->.
Qed.

Lemma keeps_readonly {A} (m : M (rvs R) A) : readonly m → keeps_db m.
Proof. intros Hm s a s' ->%Hm. done. Qed.
Lemma keeps_bind {A B} (m : M (rvs R) A) (k : A → M (rvs R) B) : keeps_db m → (∀ a, keeps_db (k a)) → keeps_db (m ≫= k).
Proof. intros Hm Hk s b s' (a & s1 & H1%Hm & H2%Hk)%M_bind_ok. congruence. Qed.
Lemma keeps_rest {A} (m : M R A) : keeps_db (on_rest m : M (rvs R) A).
Proof. intros s a s'. unfold on_rest. destruct (m (v_rest s)) as [[b x]|e]; [|done]. by intros [= <- <-]. Qed.

(** Inversion of a call on some of the tables. *)
Lemma on_tables_run {A} (m : M rdb A) (s : rvs R) a s' :
  on_tables m s = Ok (a, s') ↔ m (v_db s) = Ok (a, v_db s') ∧ v_rest s' = v_rest s.
Proof.
  unfold on_tables. destruct (m (v_db s)) as [[b d]|e]; [|naive_solver]. destruct s'. simpl. naive_solver.
Qed.
Lemma on_artifacts_ok {A} (m : M adb A) (s : rvs R) a s' :
  on_artifacts m s = Ok (a, s') ↔
  ∃ x, m (r_adb (v_db s)) = Ok (a, x) ∧ s' = mkRv (set_adb x (v_db s)) (v_rest s).
Proof. unfold on_artifacts. destruct (m (r_adb (v_db s))) as [[b x]|e]; naive_solver. Qed.
End lifts.

Lemma readonly_get_candidate types sc id : readonly (Candidates.get types sc id).
Proof. intros s a s' H. by eapply get_same. Qed.
Lemma readonly_lock types sc id n : readonly (lock_pending types sc id n).
Proof. intros s a s' H. by apply lock_pending_ok in H as [-> _]. Qed.
Lemma readonly_get repo sc r u : readonly (Artifacts.get repo sc r u).
Proof. intros s a s' H. by apply Artifacts.get_for_update_ok in H as [-> _]. Qed.
Lemma readonly_get_many repo sc l : readonly (Artifacts.get_many repo sc l).
Proof. intros s a s' H. by apply Artifacts.get_many_ok in H as [-> _]. Qed.
Lemma readonly_latest repo sc fam id u : readonly (Artifacts.latest repo sc fam id u None).
Proof. intros s a s' H. by apply Artifacts.latest_ok in H as [-> _]. Qed.
Lemma readonly_sources sc l : readonly (get_sources sc l).
Proof. apply readonly_reads. Qed.

#[export] Hint Resolve readonly_ret readonly_lift readonly_reads readonly_gets readonly_get_candidate readonly_lock
  readonly_get readonly_get_many readonly_latest readonly_sources : review.

Ltac ro := repeat first
  [ solve [auto with review]
  | apply readonly_bind; [|intros ?]
  | apply readonly_artifacts | apply readonly_tables | apply readonly_rest | apply readonly_unavailable
  | apply readonly_each; intros ?
  | match goal with |- readonly (match ?x with _ => _ end) => destruct x end ].

Section service.
Context (types : dict text text) (repo : Artifacts.repository) (scope_id : text).
Context {R : Type} `{Collaborators R}.

Lemma readonly_generation refs : readonly (require_for_generation scope_id refs).
Proof. unfold require_for_generation. ro. Qed.
#[local] Hint Resolve readonly_generation : review.

Lemma readonly_require_artifacts refs : readonly (require_artifacts repo scope_id refs).
Proof.
  intros s u s'. unfold require_artifacts. destruct (Artifacts.get_many repo scope_id refs s) as [[l s1]|e] eqn:E.
  - intros [= _ <-]. by apply readonly_get_many in E.
  - destruct (is_repository_error e); [|done]. apply readonly_each. intros r. ro.
Qed.
#[local] Hint Resolve readonly_require_artifacts : review.

Lemma readonly_citations i : readonly (citations_available repo scope_id i).
Proof.
  intros s b s'. unfold citations_available. destruct (require_citations repo scope_id i s) as [[u s1]|e] eqn:E.
  - intros [= _ <-]. revert E. assert (Hro : readonly (require_citations repo scope_id i)) by (unfold require_citations; ro).
    apply Hro.
  - destruct e; try done. by intros [= _ <-].
Qed.
#[local] Hint Resolve readonly_citations : review.

Lemma readonly_failure key items : readonly (resolved_failure repo scope_id key items).
Proof. induction items as [|i items IH]; simpl; ro. Qed.
#[local] Hint Resolve readonly_failure : review.

Lemma readonly_failure_evidence p rows : readonly (require_failure_evidence repo scope_id p rows).
Proof. unfold require_failure_evidence, has_resolved_failure_evidence. ro. Qed.
#[local] Hint Resolve readonly_failure_evidence : review.

Lemma readonly_evidence srcs arts p t b : readonly (validate_evidence repo scope_id srcs arts p t b).
Proof. unfold validate_evidence, read_evidence, resolve_roots. ro. Qed.
Lemma readonly_objective p t : readonly (validate_handoff_objective repo scope_id p t).
Proof. unfold validate_handoff_objective. ro. Qed.
Lemma readonly_target fam t arts : readonly (S := rvs R) (validate_target repo scope_id fam t arts).
Proof. unfold validate_target. ro. Qed.
Lemma readonly_skill_revision t p : readonly (validate_skill_revision repo scope_id t p).
Proof. unfold validate_skill_revision, instruction_skill_target. ro. Qed.
Lemma readonly_authorize action c : readonly (authorize_decision scope_id action c).
Proof. unfold authorize_decision. ro. Qed.
#[local] Hint Resolve readonly_evidence readonly_objective readonly_target readonly_skill_revision readonly_authorize : review.

Lemma readonly_require_current fam t : readonly (S := rvs R) (require_current repo scope_id fam t).
Proof. unfold require_current. ro. Qed.
#[local] Hint Resolve readonly_require_current : review.
Lemma readonly_required_target fam id : readonly (S := rvs R) (required_target types repo scope_id fam id).
Proof. unfold required_target. ro. Qed.
Lemma readonly_prompt t p : readonly (validate_prompt_proposal repo scope_id t p).
Proof. unfold validate_prompt_proposal, prompt_target. ro. Qed.
#[local] Hint Resolve readonly_prompt : review.

Lemma readonly_lock_generic c srcs arts : readonly (lock_generic_review_inputs repo scope_id c srcs arts).
Proof. unfold lock_generic_review_inputs. ro. Qed.
#[local] Hint Resolve readonly_lock_generic : review.
Lemma readonly_lock_family c srcs arts : readonly (lock_family_inputs repo scope_id c srcs arts).
Proof. unfold lock_family_inputs. ro. Qed.
Lemma readonly_audit c : readonly (validate_candidate_audit scope_id c).
Proof. unfold validate_candidate_audit. ro. Qed.
Lemma readonly_origin c : readonly (validate_skill_origin repo scope_id c).
Proof. unfold validate_skill_origin. ro. Qed.
Lemma readonly_prepare fam p given fresh : readonly (prepare_proposal repo scope_id fam p given fresh).
Proof. unfold prepare_proposal. ro. Qed.
Lemma readonly_prepare_all arts plans : readonly (prepare_all repo scope_id arts plans).
Proof.
  pose proof readonly_prepare. induction plans as [|[p fresh] plans IH]; simpl; ro.
Qed.
#[local] Hint Resolve readonly_lock_family readonly_audit readonly_origin readonly_prepare : review.

Ltac keep := repeat first
  [ solve [auto with review]
  | apply keeps_rest
  | apply keeps_bind; [|intros ?]
  | apply keeps_readonly; solve [ro]
  | match goal with |- keeps_db (match ?x with _ => _ end) => destruct x end ].

Lemma keeps_canonical p : keeps_db (canonical_skill_proposal scope_id p).
Proof. unfold canonical_skill_proposal. keep. Qed.
#[local] Hint Resolve keeps_canonical : review.
Lemma keeps_revised c p srcs arts t : keeps_db (revised_proposal repo scope_id c p srcs arts t).
Proof. unfold revised_proposal. keep. Qed.
Lemma keeps_project a : keeps_db (project scope_id a).
Proof. unfold project. keep. Qed.

Lemma reviewed_same c c' : reviewed_candidate c = Ok c' → c' = c ∧ valid_candidate c ∧ validate_proposal_family (family c) (proposal c) = Ok tt.
Proof.
  unfold reviewed_candidate, new_candidate. intros ([] & Hf & Hn)%result_bind_ok.
  by apply result_bind_ok in Hn as (? & Hv%raise_if_ok%dec_stable & [= <-]).
Qed.

Lemma get_on_tables sc id (s : rvs R) c s' :
  on_tables (Candidates.get types sc id) s = Ok (c, s') → s' = s ∧ Candidates.get types sc id (v_db s) = Ok (c, v_db s).
Proof.
  intros [Hg Hr]%on_tables_run. pose proof (get_same _ _ _ _ _ _ Hg) as E. rewrite E in Hg. split; [|done].
  destruct s, s'; simpl in *. congruence.
Qed.

(** A cited failure whose text has no visible character makes the search raise, though
    a later item of the same Task Outcome may match. *)
Lemma unmatchable_item_raises key i items x :
  normalize_match_text (item_text i) = None →
  resolved_failure repo scope_id key (i :: items) x = Err (ValueError "recurrence match text").
Proof. intros Hi. simpl. unfold mbind, M_bind, lift. by rewrite Hi. Qed.

(** *** What an approval publishes *)

(** The revision an approved proposal becomes. *)
Definition result_of (c : candidate) (fresh : text) : art_ref :=
  match target c with
  | None => mkRef (family c) fresh 1
  | Some t => mkRef (family c) (ref_id t) (ref_revision t + 1)
  end.

(** [r] holds exactly the proposal and its evidence. *)
Definition holds_proposal (x : adb) (r : art_ref) (p : content) (srcs : list source_ref) (arts : list art_ref) : Prop :=
  (∃ b, a_bodies x !! key_in scope_id r = Some b ∧ body_content b = p) ∧
  a_source_refs x !! key_in scope_id r = Some srcs ∧
  (λ l : list (art_ref * bool), l.*1) <$> a_artifact_refs x !! key_in scope_id r = Some arts.

Lemma inserted_holds i x x' :
  Artifacts.inserted scope_id [i] x x' →
  holds_proposal x' (Artifacts.i_ref i) (Artifacts.i_content i) (lineage_sources (Artifacts.i_lineage i)) (lineage_artifacts (Artifacts.i_lineage i)) ∧
  a_bodies x !! key_in scope_id (Artifacts.i_ref i) = None.
Proof.
  intros Hins. destruct (Artifacts.inserted_lookup _ _ _ _ i Hins) as (Hb & Hs & Ha); [left|]. unfold Artifacts.item_key in *.
  split; [split_and!|].
  - eexists. split; [exact Hb|done].
  - done.
  - rewrite Ha. simpl. by rewrite Artifacts.new_lineage_refs.
  - destruct Hins as (_ & Hnew & _). apply (Hnew i). left.
Qed.

(** The head a publication starts from and the one it leaves. *)
Definition head_moves (c : candidate) (r : art_ref) (x x' : adb) : Prop :=
  match target c with
  | None => a_heads x !! head_of scope_id r = None ∧ a_heads x' !! head_of scope_id r = Some Artifacts.new_head
  | Some t => ∃ h, a_heads x !! head_of scope_id r = Some h ∧ head_revision h = ref_revision t ∧
      head_state h ≠ RETIRED ∧ head_merged_into h = None ∧
      a_heads x' !! head_of scope_id r = Some (mkHead (ref_revision r) (head_state h) (head_replacement h)
                                                 (head_merged_into h) (head_generation h))
  end.

(** Every Artifact row but those of revision [r] and of its head is as it was. *)
Definition nothing_else (r : art_ref) (x x' : adb) : Prop :=
  (a_now x', a_rollback x', a_sources x', a_publications x') = (a_now x, a_rollback x, a_sources x, a_publications x) ∧
  (∀ k, k ≠ key_in scope_id r → a_bodies x' !! k = a_bodies x !! k ∧ a_source_refs x' !! k = a_source_refs x !! k ∧
     a_artifact_refs x' !! k = a_artifact_refs x !! k) ∧
  (∀ k, k ≠ head_of scope_id r → a_heads x' !! k = a_heads x !! k).

Lemma inserted_nothing_else i h x x1 :
  Artifacts.inserted scope_id [i] x x1 →
  nothing_else (Artifacts.i_ref i) x (set_heads (<[head_of scope_id (Artifacts.i_ref i) := h]> (a_heads x)) x1).
Proof.
  intros Hins. split_and!.
  - by destruct Hins as (_ & _ & -> & _).
  - intros k Hk. apply (Artifacts.inserted_other _ _ _ _ _ Hins). by intros ->%list_elem_of_singleton.
  - intros k Hk. simpl. by rewrite lookup_insert_ne.
Qed.

(** The Artifact an approved Candidate becomes. *)
Definition published (c : candidate) (r : art_ref) : artifact :=
  mkArtifact r (proposal c) (mkLineage (sources c) (artifacts c) None).

Lemma publish_draft_ok c d fresh (s : rvs R) a s' :
  candidate_draft c = Ok d → publish_draft repo scope_id c d fresh s = Ok (a, s') →
  let r := result_of c fresh in
  let x := r_adb (v_db s) in let x' := r_adb (v_db s') in
  generic_family (family c) ∧ v_db s' = set_adb x' (v_db s) ∧ v_rest s' = v_rest s ∧ a = published c r ∧ Artifacts.kept x x' ∧
  holds_proposal x' r (proposal c) (sources c) (artifacts c) ∧ a_bodies x !! key_in scope_id r = None ∧
  head_moves c r x x' ∧ nothing_else r x x'.
Proof.
  unfold candidate_draft. intros ([] & Hg%raise_if_ok%dec_stable & [= <-])%result_bind_ok Hp. cbn zeta.
  assert (Hgen : generic_family (family c)) by (unfold generic_family; tauto). split; [done|]. clear Hg.
  unfold publish_draft in Hp. unfold result_of, head_moves, published. destruct (target c) as [t|] eqn:Ht.
  - apply on_artifacts_ok in Hp as (x' & Hp & ->). simpl.
    assert (Hrun : revise_target repo scope_id t (mkDraft (family c) (proposal c) (sources c) (artifacts c)) (r_adb (v_db s)) = Ok (a, x')).
    { unfold as_target_conflict in Hp. destruct (revise_target _ _ _ _ _) as [[b y]|e]; [by simplify_eq|by destruct e]. }
    clear Hp. unfold revise_target in Hrun. apply M_bind_ok in Hrun as (base & y & (-> & _ & Hself)%Artifacts.get_ok & Hrun).
    unfold Artifacts.revise in Hrun. apply Artifacts.revise_with_ok in Hrun as (h & Ha & -> & Hhr & Hfam & _ & _ & Hm). simpl in *.
    rewrite Hself in *. pose proof (Artifacts.appended_kept _ _ _ _ _ Ha) as Hk.
    destruct Ha as (Hh & _ & Hret & x1 & Hins & -> & _). pose proof (inserted_nothing_else _
      (mkHead (head_revision h + 1) (head_state h) (head_replacement h) (head_merged_into h) (head_generation h)) _ _ Hins) as Hrest.
    unfold Artifacts.next_revision in *. simpl in *. rewrite Hself, <- Hfam in *.
    destruct (inserted_holds _ _ _ Hins) as [Hhold Hnew]. simpl in *. split_and!; try done.
    exists h. rewrite lookup_insert_eq, <- Hhr. by split_and!.
  - apply on_artifacts_ok in Hp as (x' & (-> & Hc & _ & _)%Artifacts.create_ok & ->). simpl in *.
    pose proof (Artifacts.created_kept _ _ _ _ Hc) as Hk. destruct Hc as (Hnew & _ & x1 & Hins & ->).
    pose proof (inserted_nothing_else _ Artifacts.new_head _ _ Hins) as Hrest.
    destruct (inserted_holds _ _ _ Hins) as [Hhold Hfree]. simpl in *. split_and!; try done.
    + by destruct (Hnew (Artifacts.first_revision (fresh, mkDraft (family c) (proposal c) (sources c) (artifacts c), None))) as [_ ?]; [left|].
    + unfold Artifacts.puts. simpl. by rewrite lookup_insert_eq.
Qed.

(** What an approval writes: the published revision and its head, and in the other
    tables the search projection of that revision. *)
Definition publication_only (c : candidate) (r : art_ref) (s s' : rvs R) : Prop :=
  head_moves c r (r_adb (v_db s)) (r_adb (v_db s')) ∧ nothing_else r (r_adb (v_db s)) (r_adb (v_db s')) ∧
  project scope_id (published c r) s = Ok (tt, mkRv (v_db s) (v_rest s')).

(** The projection only sees the other tables. *)
Lemma project_rest a d (s s' : rvs R) u :
  project scope_id a s = Ok (u, s') → project scope_id a (mkRv d (v_rest s)) = Ok (tt, mkRv d (v_rest s')).
Proof.
  unfold project. assert (Hrest : ∀ (m : M R unit), on_rest m s = Ok (u, s') → on_rest m (mkRv d (v_rest s)) = Ok (tt, mkRv d (v_rest s'))).
  { intros m. unfold on_rest. simpl. destruct (m (v_rest s)) as [[[] r]|e]; [|done]. by intros [= _ <-]. }
  case_decide; [apply Hrest|]. case_decide; [|by intros [_ ->]%M_ret_ok]. destruct (package_of _) as [pkg|]; [|by intros [_ ->]%M_ret_ok].
  intros (snap & s1 & Hget & Hix)%M_bind_ok. unfold mbind, M_bind. unfold on_rest, reads in Hget |- *. simpl.
  destruct (get_package scope_id pkg (v_rest s)) as [q|e]; [|done]. injection Hget as -> <-. simpl. by apply Hrest.
Qed.

(** The caller may take the decision on that Candidate, in that state. *)
Definition authorized (action : string) (c : candidate) (s : rvs R) : Prop :=
  match authorize_action with None => True | Some authorize => authorize scope_id (str action) c s = Ok tt end.

Lemma authorize_ok action c s u s' : authorize_decision scope_id action c s = Ok (u, s') ↔ s' = s ∧ authorized action c s.
Proof.
  unfold authorize_decision, authorized. rewrite reads_ok. destruct u. destruct authorize_action; naive_solver.
Qed.

(** Evidence that was accepted: some of it is no Prompt, it is within the bound, every
    Source is stored and may be cited, and every Artifact is a stored revision. *)
Definition accepted_evidence (srcs : list source_ref) (arts : list art_ref) (x : adb) : Prop :=
  (srcs ≠ [] ∨ ∃ r, r ∈ arts ∧ ref_family r ≠ prompt_family) ∧
  Z.of_nat (length srcs) + Z.of_nat (length arts) ≤ MAX_CANDIDATE_EVIDENCE ∧
  (∀ r, r ∈ srcs → ∃ row, a_sources x !! (scope_id, r.1, r.2) = Some row ∧
     require_source_eligible (a_now x) (source_value row) None false = Ok tt) ∧
  (∀ r, r ∈ arts → is_Some (a_bodies x !! key_in scope_id r)).

Lemma get_sources_ok refs x rows x' :
  get_sources scope_id refs x = Ok (rows, x') →
  x' = x ∧ ∀ r, r ∈ refs → ∃ row, (r, row) ∈ rows ∧ a_sources x !! (scope_id, r.1, r.2) = Some row.
Proof.
  unfold get_sources. intros [Hr ->]%reads_ok. split; [done|]. apply result_bind_ok in Hr as ([] & _ & Hr).
  apply map_result_ok in Hr. intros r Hin. apply (proj2 (nub_elem _ _)) in Hin.
  destruct (Forall2_elem_l _ _ _ _ Hr Hin) as ([r' row] & Hrow & E). exists row.
  destruct (a_sources x !! (scope_id, r.1, r.2)) as [row'|]; [|done]. by injection E as <- <-.
Qed.

Lemma read_evidence_ok srcs arts x rows x' :
  read_evidence repo scope_id srcs arts x = Ok (rows, x') →
  (∀ r, r ∈ srcs → ∃ row, a_sources x !! (scope_id, r.1, r.2) = Some row ∧
     require_source_eligible (a_now x) (source_value row) None false = Ok tt) ∧
  (∀ r, r ∈ arts → is_Some (a_bodies x !! key_in scope_id r)).
Proof.
  unfold read_evidence, require_for_generation. intros (rows1 & x1 & Hr & H1)%M_bind_ok.
  apply M_bind_ok in Hr as (rows0 & x0 & (-> & Hrows)%get_sources_ok & Hr).
  apply M_bind_ok in Hr as (now & x0 & [-> ->]%gets_ok & Hr).
  apply M_bind_ok in Hr as ([] & x0 & [Hel%check_each_ok ->]%lift_ok & [-> ->]%M_ret_ok).
  apply M_bind_ok in H1 as (l & x2 & [-> Hl]%Artifacts.get_many_ok & _). split.
  - intros r Hin. destruct (Hrows r Hin) as (row & Hin' & Hrow). exists row. split; [done|].
    rewrite Forall_forall in Hel. exact (Hel _ Hin').
  - intros r Hin. destruct (Forall2_elem_l _ _ _ _ Hl Hin) as (a & _ & (_ & (b & Hb & _) & _) & _). by exists b.
Qed.

Lemma evidence_bound_ok srcs arts u :
  evidence_bound srcs arts = Ok u → Z.of_nat (length srcs) + Z.of_nat (length arts) ≤ MAX_CANDIDATE_EVIDENCE.
Proof. unfold evidence_bound. intros Hb%raise_if_ok. lia. Qed.

Lemma validate_evidence_ok srcs arts p t b s srcs' s' :
  validate_evidence repo scope_id srcs arts p t b s = Ok (srcs', s') →
  s' = s ∧ accepted_evidence srcs arts (r_adb (v_db s)) ∧
  Z.of_nat (length srcs') + Z.of_nat (length arts) ≤ MAX_CANDIDATE_EVIDENCE ∧
  match evidence with
  | None => srcs' = srcs
  | Some validate => ∃ roots, validate scope_id srcs (supporting_artifacts t b arts) s = Ok roots ∧ srcs' = unique_sources (srcs ++ roots)
  end.
Proof.
  intros Hv. pose proof (readonly_evidence _ _ _ _ _ _ _ _ Hv) as ->. split; [done|]. unfold validate_evidence in Hv.
  apply M_bind_ok in Hv as ([] & ? & [Hsome ->]%lift_ok & Hv). apply raise_if_ok in Hsome.
  apply M_bind_ok in Hv as ([] & ? & [Hb%evidence_bound_ok ->]%lift_ok & Hv).
  apply M_bind_ok in Hv as (rows & s1 & Hr & Hv).
  assert (Hev : s1 = s) by (revert Hr; apply readonly_artifacts; unfold read_evidence; ro). rewrite Hev in Hv. clear Hev.
  apply on_artifacts_ok in Hr as (x & Hr & _). unfold unavailable in Hr.
  destruct (read_evidence _ _ _ _ _) as [[rows' x']|e] eqn:Hread; [|by destruct e].
  apply read_evidence_ok in Hread as [Hsrc Hart].
  apply M_bind_ok in Hv as (srcs1 & s2 & Hroots & Hv).
  apply M_bind_ok in Hv as ([] & s3 & [Hb2%evidence_bound_ok ->]%lift_ok & Hv).
  apply M_bind_ok in Hv as ([] & s4 & _ & [-> _]%M_ret_ok). split_and!; [split_and!; [|done..]|done|].
  - destruct srcs as [|r l]; [right|by left].
    destruct (decide (Forall (λ r, ref_family r = prompt_family) (supporting_artifacts t b arts))) as [|Hn]; [tauto|].
    apply not_Forall_Exists in Hn; [|apply _]. apply Exists_exists in Hn as (r & Hin & Hr').
    exists r. split; [|done]. unfold supporting_artifacts in Hin. by apply list_elem_of_filter in Hin as [_ ?].
  - unfold resolve_roots in Hroots. destruct evidence as [validate|].
    + apply M_bind_ok in Hroots as (roots & s5 & [Hroots _]%reads_ok & [-> _]%M_ret_ok). by exists roots.
    + by apply M_ret_ok in Hroots as [-> _].
Qed.
Lemma validate_approval_ok c s u s' :
  validate_approval repo scope_id c s = Ok (u, s') →
  s' = s ∧ authorized "approve" c s ∧ accepted_evidence (sources c) (artifacts c) (r_adb (v_db s)).
Proof.
  unfold validate_approval. intros H0.
  apply M_bind_ok in H0 as ([] & s1 & [-> Hauth]%authorize_ok & H0).
  apply M_bind_ok in H0 as ([] & s1 & ->%readonly_audit & H0).
  apply M_bind_ok in H0 as ([] & s1 & ->%readonly_origin & H0).
  apply M_bind_ok in H0 as ([] & s1 & [_ ->]%lift_ok & H0).
  apply M_bind_ok in H0 as (srcs & s1 & (-> & Hev & _)%validate_evidence_ok & H0). split_and!; [|done|done].
  case_decide as Hpkg; [|by apply M_ret_ok in H0 as [_ ->]]. destruct Hpkg as [_ [pkg Hpkg]].
  unfold canonical_skill_proposal in H0. rewrite Hpkg in H0. revert H0.
  match goal with |- ?m s = _ → _ => enough (Hk : readonly m) by apply Hk end. ro.
Qed.

(** The approval transaction of a Family that publishes through the Artifact store. *)
Lemma approve_publish_ok id expected fresh s c' s' :
  approve_publish types repo scope_id id expected fresh s = Ok (c', s') →
  ∃ c, Candidates.get types scope_id id (v_db s) = Ok (c, v_db s) ∧
    if decide (family c = profile_family) then
      ∃ c1, decide_profile scope_id id expected None s = Ok (c1, s') ∧ reviewed_candidate c1 = Ok c'
    else
      let r := result_of c fresh in
      let d := v_db s in let d' := v_db s' in
      status c = PENDING ∧ version c = expected ∧ generic_family (family c) ∧ c' = approved c r ∧
      validate_proposal_family (family c') (proposal c') = Ok tt ∧ authorized "approve" c s ∧ accepted_evidence (sources c) (artifacts c) (r_adb d) ∧
      evolves d d' ∧ r_versions d' = r_versions d ∧ Candidates.get types scope_id id d' = Ok (c', d') ∧
      holds_proposal (r_adb d') r (proposal c) (sources c) (artifacts c) ∧
      a_bodies (r_adb d) !! key_in scope_id r = None ∧ publication_only c r s s' ∧
      ∃ h h', r_heads d !! (scope_id, id) = Some h ∧ h_status h' = APPROVED ∧ h_result h' = Some r ∧ h_family h' = h_family h ∧
        h_version h' = h_version h ∧ r_heads d' = <[(scope_id, id) := h']> (r_heads d).
Proof.
  unfold approve_publish. intros H0.
  apply M_bind_ok in H0 as (c & s1 & (-> & Hg)%get_on_tables & H0). exists c. split; [done|].
  apply M_bind_ok in H0 as ([] & s1 & [_ ->]%lift_ok & H0). case_decide as Hprof.
  { apply M_bind_ok in H0 as (c1 & s1 & Hd & [Hr ->]%lift_ok). by exists c1. }
  apply M_bind_ok in H0 as ([] & s1 & [_ ->]%lift_ok & H0).
  apply M_bind_ok in H0 as (c1 & s1 & [(-> & _)%reviewed_same ->]%lift_ok & H0).
  apply M_bind_ok in H0 as ([] & s1 & [_ ->]%lift_ok & H0).
  apply M_bind_ok in H0 as ([] & s1 & ->%readonly_lock_generic & H0).
  apply M_bind_ok in H0 as (c2 & s1 & Hlock & H0).
  assert (Hl : s1 = s ∧ status c = PENDING ∧ version c = expected).
  { pose proof (readonly_tables _ (readonly_lock types scope_id id expected) _ _ _ Hlock) as ->. split; [done|].
    apply on_tables_run in Hlock as [(_ & Hg2 & Hs & Hv)%lock_pending_ok _]. rewrite Hg in Hg2. by injection Hg2 as <-. }
  destruct Hl as (-> & Hs & Hv).
  apply M_bind_ok in H0 as (c3 & s1 & [_ ->]%lift_ok & H0).
  apply M_bind_ok in H0 as ([] & s1 & [->%raise_if_ok%dec_stable ->]%lift_ok & H0).
  apply M_bind_ok in H0 as ([] & s1 & (-> & Hauth & Hev)%validate_approval_ok & H0).
  apply M_bind_ok in H0 as (d & s2 & [Hd ->]%lift_ok & H0).
  apply M_bind_ok in H0 as (a & s2 & Hpub & H0).
  apply (publish_draft_ok _ _ _ _ _ _ Hd) in Hpub as (Hgen & E2 & Erest & -> & Hkept & Hhold & Hnew & Hhead & Helse).
  apply M_bind_ok in H0 as ([] & s3 & Hproj & H0). pose proof (keeps_project _ _ _ _ Hproj) as E3.
  apply (project_rest _ (v_db s)) in Hproj. rewrite Erest in Hproj.
  apply M_bind_ok in H0 as (c4 & s4 & [Hm Hrest]%on_tables_run & [(-> & _ & Hcls)%reviewed_same ->]%lift_ok).
  rewrite E3, E2 in Hm. rewrite <- Hrest in Hproj. simpl in Hproj.
  apply mark_approved_rows in Hm as (Hev2 & Ea & Ever & Hg' & _ & h & h' & Hh & Hst & Hver & Eh' & Eheads & Happ).
  assert (Hframe : evolves (v_db s) (set_adb (r_adb (v_db s2)) (v_db s))).
  { split; simpl; [done|by eauto|done]. }
  assert (Hga : Candidates.get types scope_id id (set_adb (r_adb (v_db s2)) (v_db s)) = Ok (c, set_adb (r_adb (v_db s2)) (v_db s))).
  { by apply (get_frame _ _ _ (v_db s)). }
  assert (Honly : publication_only c (result_of c fresh) s s4).
  { unfold publication_only. rewrite Ea. split_and!; [done..|]. by destruct s. }
  rewrite Ea. simpl. split_and!; try done.
  - by apply Happ.
  - by etrans.
  - exists h, h'. rewrite Eh'. simpl in *. by rewrite Eheads, Eh'.
Qed.

(** *** Proposals, revisions and rejections *)

(** A target that a proposal may revise: the head of its identity, cited as evidence. *)
Definition current_target (fam : text) (t : option art_ref) (arts : list art_ref) (x : adb) : Prop :=
  match t with
  | None => True
  | Some t => ref_family t = fam ∧ t ∈ arts ∧ ∃ h, a_heads x !! head_of scope_id t = Some h ∧ head_revision h = ref_revision t
  end.

Lemma validate_target_ok fam t arts (s : rvs R) u s' :
  validate_target repo scope_id fam t arts s = Ok (u, s') → s' = s ∧ current_target fam t arts (r_adb (v_db s)).
Proof.
  intros Hv. pose proof (readonly_target _ _ _ _ _ _ Hv) as ->. split; [done|]. unfold current_target, validate_target in *.
  destruct t as [t|]; [|done]. apply M_bind_ok in Hv as ([] & s1 & [Hf%raise_if_ok%dec_stable ->]%lift_ok & Hv).
  apply M_bind_ok in Hv as ([] & s1 & [Ha%raise_if_ok%dec_stable ->]%lift_ok & Hv).
  apply M_bind_ok in Hv as (a & s1 & (x & Hl & _)%on_artifacts_ok & Hv). apply lift_ok in Hv as [Hself%raise_if_ok%dec_stable _].
  unfold unavailable in Hl. destruct (Artifacts.latest _ _ _ _ _ _ _) as [[b y]|e] eqn:E; [|by destruct e]. injection Hl as -> ->.
  apply Artifacts.latest_ok in E as (_ & h & Hh & _ & Hb). split_and!; [done|done|]. exists h. split; [done|].
  rewrite Hself in Hb. by rewrite Hb.
Qed.

Lemma prepare_proposal_ok fam p given fresh s c s' :
  prepare_proposal repo scope_id fam p given fresh s = Ok (c, s') →
  s' = s ∧ valid_candidate c ∧ version c = 1 ∧ status c = PENDING ∧ family c = fam ∧ proposal c = st_proposal p ∧
  target c = st_target p ∧ reason c = st_reason p ∧ candidate_audit c = None ∧
  candidate_id c = (match given with Some ((_ :: _) as id) => id | _ => fresh end) ∧
  artifacts c = unique_artifacts (st_artifacts p) ∧ unique_sources (st_sources p) ⊆ sources c ∧
  accepted_evidence (unique_sources (st_sources p)) (artifacts c) (r_adb (v_db s)) ∧
  current_target fam (target c) (artifacts c) (r_adb (v_db s)).
Proof.
  intros Hp. pose proof (readonly_prepare _ _ _ _ _ _ _ Hp) as ->. split; [done|]. unfold prepare_proposal in Hp.
  apply M_bind_ok in Hp as ([] & s1 & [_ ->]%lift_ok & Hp).
  apply M_bind_ok in Hp as (srcs & s1 & (-> & Hev & _ & Hroots)%validate_evidence_ok & Hp).
  apply M_bind_ok in Hp as ([] & s1 & ->%readonly_objective & Hp).
  apply M_bind_ok in Hp as ([] & s1 & [-> Ht]%validate_target_ok & [Hn _]%lift_ok).
  unfold new_candidate in Hn. apply result_bind_ok in Hn as (? & Hval%raise_if_ok%dec_stable & [= <-]). simpl. split_and!; try done.
  destruct evidence as [validate|]; [|by rewrite Hroots]. destruct Hroots as (roots & _ & ->).
  intros r Hr. apply nub_elem, elem_of_app. by left.
Qed.

(** What a hook may do to the tables in the transaction that creates a Candidate. *)
Definition commit_hook (on_commit : candidate → M (rvs R) unit) : Prop := ∀ c s u s',
  on_commit c s = Ok (u, s') → r_heads (v_db s) !! (scope_id, candidate_id c) = Some (fresh_head c) →
  quiet (v_db s) (v_db s').

Lemma no_hook : commit_hook (λ _, mret tt).
Proof. intros c s u s' [_ ->]%M_ret_ok _. reflexivity. Qed.
Lemma audit_hook a : commit_hook (λ c, on_tables (attach_candidate_audit scope_id c a)).
Proof. intros c s u s' [Ha _]%on_tables_run Hh. by eapply attach_quiet. Qed.

Lemma propose_with_connection_ok fam p given fresh on_commit s c s' :
  propose_with_connection types repo scope_id fam p given fresh on_commit s = Ok (c, s') →
  ∃ s1, prepare_proposal repo scope_id fam p given fresh s = Ok (c, s) ∧
    Candidates.create_many types scope_id [c] (v_db s) = Ok ([c], v_db s1) ∧ v_rest s1 = v_rest s ∧
    on_commit c s1 = Ok (tt, s') ∧ validate_proposal_family (family c) (proposal c) = Ok tt.
Proof.
  unfold propose_with_connection. intros H0.
  apply M_bind_ok in H0 as (c0 & s0 & Hp & H0). pose proof (readonly_prepare _ _ _ _ _ _ _ Hp) as ->.
  apply M_bind_ok in H0 as (cs & s1 & [Hc Hr]%on_tables_run & H0).
  pose proof (created_rows _ _ _ _ _ _ Hc) as (-> & _).
  apply M_bind_ok in H0 as (c1 & s2 & [[= <-] ->]%lift_ok & H0).
  apply M_bind_ok in H0 as ([] & s2 & Hh & [(-> & _ & Hf)%reviewed_same ->]%lift_ok). by exists s1.
Qed.

Lemma propose_quiet fam p given fresh on_commit s c s' :
  commit_hook on_commit → propose_with_connection types repo scope_id fam p given fresh on_commit s = Ok (c, s') → quiet (v_db s) (v_db s').
Proof.
  intros Hhook (s1 & _ & Hc & _ & Hh & _)%propose_with_connection_ok.
  apply created_rows in Hc as (_ & Hq & _ & _ & Hrows). etrans; [exact Hq|]. eapply Hhook; [exact Hh|].
  destruct (Hrows c) as (_ & ? & _); [left|done].
Qed.

Lemma propose_ok fam p given fresh on_commit s c s' :
  propose types repo scope_id fam p given fresh on_commit s = Ok (c, s') →
  propose_with_connection types repo scope_id fam (canonical_statement p) given fresh on_commit s = Ok (c, s').
Proof.
  unfold propose. intros H0. apply M_bind_ok in H0 as ([] & s1 & [_ ->]%lift_ok & H0).
  by apply M_bind_ok in H0 as (c1 & s1 & Hp & [(-> & _)%reviewed_same ->]%lift_ok).
Qed.

Lemma candidate_of_same fam cls c c' : candidate_of fam cls c = Ok c' → c' = c ∧ family c = fam ∧ is_content cls (proposal c).
Proof.
  unfold candidate_of, new_candidate. intros (c1 & (-> & _)%reviewed_same & H0)%result_bind_ok.
  apply result_bind_ok in H0 as (? & Hf%raise_if_ok & H0). apply result_bind_ok in H0 as (? & _ & [= <-]).
  split_and!; [done|apply dec_stable; tauto|apply dec_stable; tauto].
Qed.

Lemma propose_experience_ok p given fresh on_commit s c s' :
  propose_experience types repo scope_id p given fresh on_commit s = Ok (c, s') →
  propose_with_connection types repo scope_id experience_family (canonical_statement p) given fresh on_commit s = Ok (c, s').
Proof.
  unfold propose_experience. intros H0. by apply M_bind_ok in H0 as (c1 & s1 & Hp%propose_ok & [(-> & _)%candidate_of_same ->]%lift_ok).
Qed.

Lemma propose_skill_ok p given fresh on_commit s c s' :
  propose_skill types repo scope_id p given fresh on_commit s = Ok (c, s') →
  ∃ q s1, v_db s1 = v_db s ∧
    propose_with_connection types repo scope_id skill_family (with_proposal p q) given fresh on_commit s1 = Ok (c, s').
Proof.
  unfold propose_skill. intros H0. apply M_bind_ok in H0 as (q & s1 & E1%keeps_canonical & H0).
  apply M_bind_ok in H0 as ([] & s2 & Hchk & H0). apply M_bind_ok in H0 as (c1 & s3 & Hp & [(-> & _)%candidate_of_same ->]%lift_ok).
  exists q, s2. split; [|done]. rewrite <- E1. revert Hchk.
  match goal with |- ?m s1 = _ → _ => enough (Hk : readonly m) by (intros Hchk%Hk; by rewrite Hchk) end. ro.
Qed.

Lemma propose_batch_ok plans arts s cs s' :
  propose_experience_batch types repo scope_id plans arts s = Ok (cs, s') → quiet (v_db s) (v_db s').
Proof.
  unfold propose_experience_batch. case_decide as Hn; [by intros [_ ->]%M_ret_ok|]. intros H0.
  apply M_bind_ok in H0 as (l & s1 & ->%readonly_prepare_all & H0).
  apply M_bind_ok in H0 as (stored & s2 & [Hc _]%on_tables_run & [_ ->]%lift_ok). by apply created_rows in Hc as (_ & ? & _).
Qed.

(** A revision replaces the proposal of the pending Candidate it read, under the
    authority to do so, and keeps its target. *)
Lemma revise_ok id expected p srcs arts tgt why s c s' :
  Review.revise types repo scope_id id expected p srcs arts tgt why s = Ok (c, s') →
  quiet (v_db s) (v_db s') ∧ ∃ c0 s1 p' srcs',
    Candidates.get types scope_id id (v_db s) = Ok (c0, v_db s) ∧ status c0 = PENDING ∧ version c0 = expected ∧
    target c0 = tgt ∧ v_db s1 = v_db s ∧ authorized "revise" (with_content c0 p') s1 ∧
    let arts' := match arts with None => artifacts c0 | Some l => unique_artifacts l end in
    accepted_evidence (match srcs with None => sources c0 | Some l => unique_sources l end) arts' (r_adb (v_db s)) ∧
    (family c0 ≠ profile_family → current_target (family c0) tgt arts' (r_adb (v_db s))) ∧
    validate_proposal_family (family c0) p' = Ok tt ∧
    c = pending_candidate id (expected + 1) (family c0) (mkStatement p' srcs' arts' tgt why)
          (revised_audit proposal_digest id (expected + 1) p' <$> candidate_audit c0) ∧
    valid_candidate c ∧ Candidates.get types scope_id id (v_db s') = Ok (c, v_db s').
Proof.
  unfold Review.revise. intros H0. apply M_bind_ok in H0 as ([] & s1 & [_ ->]%lift_ok & H0).
  apply M_bind_ok in H0 as (c0 & s1 & (-> & Hg)%get_on_tables & H0).
  apply M_bind_ok in H0 as ([] & s1 & [_ ->]%lift_ok & H0).
  apply M_bind_ok in H0 as ([] & s1 & [Ht%raise_if_ok%dec_stable ->]%lift_ok & H0).
  apply M_bind_ok in H0 as ([] & s1 & ->%readonly_lock_family & H0).
  apply M_bind_ok in H0 as (c1 & s1 & Hlock & H0).
  pose proof (readonly_tables _ (readonly_lock types scope_id id expected) _ _ _ Hlock) as ->.
  apply on_tables_run in Hlock as [(_ & Hg1 & Hs & Hv)%lock_pending_ok _]. rewrite Hg in Hg1. injection Hg1 as <-.
  apply M_bind_ok in H0 as ([] & s1 & [_ ->]%lift_ok & H0).
  apply M_bind_ok in H0 as (c1 & s1 & [(-> & _)%reviewed_same ->]%lift_ok & H0).
  apply M_bind_ok in H0 as (p' & s1 & Hrev & H0). pose proof (keeps_revised _ _ _ _ _ _ _ _ Hrev) as E1.
  apply M_bind_ok in H0 as (srcs2 & s2 & (-> & Hev & _)%validate_evidence_ok & H0).
  apply M_bind_ok in H0 as ([] & s2 & ->%readonly_objective & H0).
  apply M_bind_ok in H0 as ([] & s2 & Htgt & H0).
  assert (Hcur : s2 = s1 ∧ (family c0 ≠ profile_family → current_target (family c0) tgt
    (match arts with None => artifacts c0 | Some l => unique_artifacts l end) (r_adb (v_db s1)))).
  { case_decide as Hd; [apply validate_target_ok in Htgt as [-> ?]; by split|]. apply M_ret_ok in Htgt as [_ ->]. by split. }
  destruct Hcur as [-> Hcur]. rewrite E1 in Hev, Hcur.
  apply M_bind_ok in H0 as ([] & s2 & [-> Hauth]%authorize_ok & H0).
  apply M_bind_ok in H0 as (c2 & s2 & [Hr _]%on_tables_run & [(-> & _ & Hcls)%reviewed_same ->]%lift_ok).
  rewrite E1 in Hr. apply revise_rows in Hr as (Hq & Ha & c1 & Hg1 & _ & _ & Hval & Hprop & -> & Hg').
  rewrite Hg in Hg1. injection Hg1 as <-. split; [done|]. exists c0, s1, p', srcs2. by split_and!.
Qed.

Lemma reject_ok id expected why s c s' :
  Review.reject types scope_id id expected why s = Ok (c, s') →
  (∃ c0 c1, Candidates.get types scope_id id (v_db s) = Ok (c0, v_db s) ∧ family c0 = profile_family ∧
     decide_profile scope_id id expected (Some why) s = Ok (c1, s')) ∨
  quiet (v_db s) (v_db s') ∧ ∃ c0, Candidates.get types scope_id id (v_db s) = Ok (c0, v_db s) ∧ status c0 = PENDING ∧
    version c0 = expected ∧ authorized "reject" c0 s ∧ c = rejected c0 why ∧
    ∃ h, r_heads (v_db s') !! (scope_id, id) = Some h ∧ h_status h = REJECTED.
Proof.
  unfold Review.reject. intros H0. apply M_bind_ok in H0 as ([] & s1 & [_ ->]%lift_ok & H0).
  apply M_bind_ok in H0 as (c0 & s1 & (-> & Hg)%get_on_tables & H0). case_decide as Hp.
  { left. apply M_bind_ok in H0 as (c1 & s1 & Hd & [_ ->]%lift_ok). by exists c0, c1. }
  right. apply M_bind_ok in H0 as (c1 & s1 & Hlock & H0).
  pose proof (readonly_tables _ (readonly_lock types scope_id id expected) _ _ _ Hlock) as ->.
  apply on_tables_run in Hlock as [(_ & Hg1 & _)%lock_pending_ok _]. rewrite Hg in Hg1. injection Hg1 as <-.
  apply M_bind_ok in H0 as ([] & s1 & [-> Hauth]%authorize_ok & H0).
  apply M_bind_ok in H0 as (c2 & s2 & [Hr _]%on_tables_run & [(-> & _)%reviewed_same ->]%lift_ok).
  apply reject_rows in Hr as (Hq & _ & c1 & Hg1 & Hs & Hv & -> & Hh). rewrite Hg in Hg1. injection Hg1 as <-.
  split; [done|]. by exists c0.
Qed.

End service.
(** ** Histories *)

(** The writers of the other Families decide no Experience and no Skill, and keep
    what is stored. *)
Class Writers {R : Type} `(Collaborators R) : Prop := {
  memory_quiet plan s r s' : commit_memory plan s = Ok (r, s') → quiet (v_db s) (v_db s');
  topic_quiet sc a d projection s r s' : publish_topic sc a d projection s = Ok (r, s') → quiet (v_db s) (v_db s');
  handoff_quiet commit sc a p srcs s r s' :
    commit_handoff = Some commit → commit sc a p srcs s = Ok (r, s') → quiet (v_db s) (v_db s');
  prompt_quiet sc a p srcs arts s r s' : commit_prompt sc a p srcs arts s = Ok (r, s') → quiet (v_db s) (v_db s');
  profile_quiet sc id expected why s c s' : decide_profile sc id expected why s = Ok (c, s') → quiet (v_db s) (v_db s')
}.

Section histories.
Context (types : dict text text) (repo : Artifacts.repository) {R : Type} `{W : Writers R}.

(** One committed transaction of the service of some Scope, or of a component that
    approves nothing: the Artifact store, governance, capture, other Candidates. *)
Inductive transaction (s s' : rvs R) : Prop :=
  | tx_experience sc p given fresh hook c :
      commit_hook sc hook → propose_experience types repo sc p given fresh hook s = Ok (c, s') → transaction s s'
  | tx_skill sc p given fresh hook c :
      commit_hook sc hook → propose_skill types repo sc p given fresh hook s = Ok (c, s') → transaction s s'
  | tx_batch sc plans arts cs :
      propose_experience_batch types repo sc plans arts s = Ok (cs, s') → transaction s s'
  | tx_propose sc fam p given fresh hook c :
      commit_hook sc hook → propose_with_connection types repo sc fam p given fresh hook s = Ok (c, s') → transaction s s'
  | tx_revise sc id expected p srcs arts tgt why c :
      Review.revise types repo sc id expected p srcs arts tgt why s = Ok (c, s') → transaction s s'
  | tx_reject sc id expected why c :
      Review.reject types sc id expected why s = Ok (c, s') → transaction s s'
  | tx_approve sc id expected fresh c :
      approve_publish types repo sc id expected fresh s = Ok (c, s') → transaction s s'
  | tx_memory sc preview t plan id expected c :
      approve_memory_commit types repo sc preview t plan id expected s = Ok (c, s') → is_content "AtomicMemoryContent" (proposal preview) →
      transaction s s'
  | tx_topic sc preview t projection id expected c :
      approve_topic_commit types repo sc preview t projection id expected s = Ok (c, s') → transaction s s'
  | tx_handoff sc id expected c : approve_handoff_dream types repo sc id expected s = Ok (c, s') → transaction s s'
  | tx_prompt sc id expected c : approve_prompt_dream types repo sc id expected s = Ok (c, s') → transaction s s'
  | tx_elsewhere : quiet (v_db s) (v_db s') → transaction s s'.

Notation history := (rtc transaction).

(** The Artifact store's own histories are such transactions. *)
Lemma artifact_steps_elsewhere `{Governance.CustomIndex} (s s' : rvs R) x :
  rtc (Artifacts.step repo) (r_adb (v_db s)) x → v_db s' = set_adb x (v_db s) → transaction s s'.
Proof.
  intros [Hk _]%Artifacts.steps_ok E. apply tx_elsewhere. rewrite E. split; [split; simpl; [done|by eauto|done]|by intros k h].
Qed.

(** The proposals of Dream runs are proposals. *)
Lemma dream_proposal_transaction sc p id s c s' :
  propose_profile_dream types repo sc p id s = Ok (c, s') ∨ propose_memory_dream types repo sc p id s = Ok (c, s') ∨
  propose_topic_memory_dream types repo sc p id s = Ok (c, s') ∨ propose_handoff_dream types repo sc p id s = Ok (c, s') ∨
  propose_prompt_dream types repo sc p id s = Ok (c, s') → transaction s s'.
Proof.
  assert (Hcase : ∀ fam (m : M (rvs R) unit), readonly m →
    (m ;; c ← propose types repo sc fam p (Some id) id (λ _, mret tt); lift (new_candidate c)) s = Ok (c, s') → transaction s s').
  { intros fam m Hm H0. apply M_bind_ok in H0 as ([] & s1 & ->%Hm & H0).
    apply M_bind_ok in H0 as (c1 & s1 & Hp%propose_ok & [_ ->]%lift_ok). eapply tx_propose; [apply no_hook|exact Hp]. }
  intros [H0|[H0|[H0|[H0|H0]]]].
  - by eapply (Hcase profile_family (lift _)); [apply readonly_lift|].
  - by eapply (Hcase atomic_memory_family (lift _)); [apply readonly_lift|].
  - by apply (Hcase topic_memory_family (mret tt)); [apply readonly_ret|].
  - by eapply (Hcase handoff_family (lift _)); [apply readonly_lift|].
  - unfold propose_prompt_dream in H0. apply M_bind_ok in H0 as ([] & s1 & [_ ->]%lift_ok & H0).
    apply M_bind_ok in H0 as (a & s1 & ->%readonly_prompt & H0).
    apply M_bind_ok in H0 as (c1 & s1 & Hp & [_ ->]%lift_ok). eapply tx_propose; [apply no_hook|exact Hp].
Qed.

(** *** Approvals of the other Families *)

Lemma lock_for_approval_ok sc id n s c s' :
  lock_for_approval types sc id n s = Ok (c, s') →
  s' = s ∧ Candidates.get types sc id (v_db s) = Ok (c, v_db s) ∧ validate_proposal_family (family c) (proposal c) = Ok tt.
Proof.
  unfold lock_for_approval. intros H0. apply M_bind_ok in H0 as (c0 & s1 & Hl & H0).
  pose proof (readonly_tables _ (readonly_lock types sc id n) _ _ _ Hl) as ->.
  apply on_tables_run in Hl as [(_ & Hg & _)%lock_pending_ok _].
  apply M_bind_ok in H0 as (c1 & s1 & [(-> & _ & Hf)%reviewed_same ->]%lift_ok & H0).
  apply M_bind_ok in H0 as ([] & s1 & [-> _]%authorize_ok & H0).
  by apply M_bind_ok in H0 as ([] & s1 & ->%readonly_audit & [-> ->]%M_ret_ok).
Qed.

Lemma class_not_generic cls fam p :
  validate_proposal_family fam p = Ok tt → is_content cls p → str cls ≠ str "ExperienceContent" → str cls ≠ str "SkillContent" →
  ¬ generic_family fam.
Proof.
  unfold validate_proposal_family, is_content. intros Hf%raise_if_ok%dec_stable Hc He Hs [-> | ->]; injection Hf as Hf; congruence.
Qed.

(** Marking a Candidate of another Family after a quiet write is quiet. *)
Lemma finish_quiet sc id n r (s s1 : rvs R) c0 c s' :
  Candidates.get types sc id (v_db s) = Ok (c0, v_db s) → ¬ generic_family (family c0) → quiet (v_db s) (v_db s1) →
  finish_approval types sc id n r s1 = Ok (c, s') → quiet (v_db s) (v_db s').
Proof.
  intros Hg Hn Hq H0. etrans; [exact Hq|]. destruct Hq as [[_ Hh _] _].
  apply get_rows in Hg as (_ & _ & _ & h & v & E & _ & _ & ->). simpl in Hn. destruct (Hh _ _ E) as (h1 & E1 & Ef & _).
  unfold finish_approval in H0. apply M_bind_ok in H0 as (c1 & s2 & [Hm _]%on_tables_run & [_ ->]%lift_ok).
  apply mark_approved_rows in Hm as (Hev & _ & Ever & _ & _ & h2 & h' & E2 & _ & _ & -> & Eh & _). split; [done|].
  intros k h3 Hk Hf Hr. rewrite Ever. rewrite Eh in Hk. destruct (decide (k = (sc, id))) as [->|Hne].
  - rewrite lookup_insert_eq in Hk. injection Hk as <-. simpl in Hf. congruence.
  - by rewrite lookup_insert_ne in Hk.
Qed.

Ltac other_family H :=
  let Hn := fresh in
  match type of H with validate_proposal_family ?f ?p = _ => assert (Hn : ¬ generic_family f) by
    (eapply class_not_generic; [exact H|eassumption|by vm_compute|by vm_compute]) end.

Lemma memory_commit_quiet sc preview t plan id n s c s' :
  is_content "AtomicMemoryContent" (proposal preview) →
  approve_memory_commit types repo sc preview t plan id n s = Ok (c, s') → quiet (v_db s) (v_db s').
Proof.
  intros Hcls H0. unfold approve_memory_commit in H0.
  apply M_bind_ok in H0 as (a & s1 & ->%readonly_require_current & H0).
  apply M_bind_ok in H0 as (c0 & s1 & (-> & Hg & Hf)%lock_for_approval_ok & H0).
  apply M_bind_ok in H0 as ([] & s1 & [->%raise_if_ok%dec_stable ->]%lift_ok & H0).
  apply M_bind_ok in H0 as (srcs & s1 & ->%readonly_evidence & H0).
  apply M_bind_ok in H0 as (r & s1 & Hq%memory_quiet & H0).
  apply M_bind_ok in H0 as (r1 & s2 & [_ ->]%lift_ok & H0).
  other_family Hf. by eapply finish_quiet.
Qed.

Lemma topic_commit_quiet sc preview t projection id n s c s' :
  approve_topic_commit types repo sc preview t projection id n s = Ok (c, s') → quiet (v_db s) (v_db s').
Proof.
  intros H0. unfold approve_topic_commit in H0.
  apply M_bind_ok in H0 as (a & s1 & ->%readonly_require_current & H0).
  apply M_bind_ok in H0 as (c0 & s1 & (-> & Hg & Hf)%lock_for_approval_ok & H0).
  apply M_bind_ok in H0 as ([] & s1 & [Hcls%raise_if_ok ->]%lift_ok & H0).
  apply M_bind_ok in H0 as (srcs & s1 & ->%readonly_evidence & H0).
  apply M_bind_ok in H0 as (r & s1 & Hq%topic_quiet & H0).
  assert (Hc : is_content "TopicMemoryContent" (proposal c0)) by (apply dec_stable; tauto).
  other_family Hf. by eapply finish_quiet.
Qed.

Lemma handoff_quiet_ok sc id n s c s' : approve_handoff_dream types repo sc id n s = Ok (c, s') → quiet (v_db s) (v_db s').
Proof.
  unfold approve_handoff_dream. destruct commit_handoff as [commit|] eqn:Ec; [|by intros [? _]%lift_ok].
  intros H0. apply M_bind_ok in H0 as ([preview current] & s1 & ->%readonly_required_target & H0).
  apply M_bind_ok in H0 as (c0 & s1 & (-> & Hg & Hf)%lock_for_approval_ok & H0).
  apply M_bind_ok in H0 as ([] & s1 & [Hcls%raise_if_ok ->]%lift_ok & H0).
  apply M_bind_ok in H0 as ([] & s1 & [_ ->]%lift_ok & H0).
  apply M_bind_ok in H0 as (srcs & s1 & ->%readonly_evidence & H0).
  apply M_bind_ok in H0 as (r & s1 & Hq & H0). apply (handoff_quiet _ _ _ _ _ _ _ _ Ec) in Hq.
  assert (Hc : is_content "HandoffContent" (proposal c0)) by (apply dec_stable; tauto).
  other_family Hf. by eapply finish_quiet.
Qed.

Lemma prompt_quiet_ok sc id n s c s' : approve_prompt_dream types repo sc id n s = Ok (c, s') → quiet (v_db s) (v_db s').
Proof.
  unfold approve_prompt_dream. intros H0. apply M_bind_ok in H0 as ([preview current] & s1 & ->%readonly_required_target & H0).
  apply M_bind_ok in H0 as (c0 & s1 & (-> & Hg & Hf)%lock_for_approval_ok & H0).
  apply M_bind_ok in H0 as ([] & s1 & [Hcls%raise_if_ok ->]%lift_ok & H0).
  apply M_bind_ok in H0 as (a & s1 & ->%readonly_prompt & H0).
  apply M_bind_ok in H0 as (srcs & s1 & ->%readonly_evidence & H0).
  apply M_bind_ok in H0 as (r & s1 & Hq%prompt_quiet & H0).
  assert (Hc : is_content "PromptContent" (proposal c0)) by (apply dec_stable; tauto).
  other_family Hf. by eapply finish_quiet.
Qed.

(** A transaction is quiet, or it is the approval of an Experience or a Skill. *)
Lemma transaction_cases s s' :
  transaction s s' → quiet (v_db s) (v_db s') ∨
    ∃ sc id expected fresh c, approve_publish types repo sc id expected fresh s = Ok (c, s') ∧ family c ≠ profile_family.
Proof.
  intros T. destruct T as [sc p given fresh hook c Hh Hp|sc p given fresh hook c Hh Hp|sc plans arts cs Hp
    |sc fam p given fresh hook c Hh Hp|sc id expected p srcs arts tgt why c Hp|sc id expected why c Hp
    |sc id expected fresh c Hp|sc preview t plan id expected c Hp Hcls|sc preview t projection id expected c Hp|sc id expected c Hp
    |sc id expected c Hp|Hq].
  - left. apply propose_experience_ok in Hp. by eapply propose_quiet.
  - left. apply propose_skill_ok in Hp as (q & s1 & <- & Hp). by eapply propose_quiet.
  - left. by eapply propose_batch_ok.
  - left. by eapply propose_quiet.
  - left. by apply revise_ok in Hp as [? _].
  - left. apply reject_ok in Hp as [(c0 & c1 & _ & _ & Hd)|[? _]]; [by eapply profile_quiet|done].
  - pose proof (approve_publish_ok _ _ _ _ _ _ _ _ _ Hp) as (c0 & _ & Hc). case_decide as Hf.
    + left. destruct Hc as (c1 & Hd & _). by eapply profile_quiet.
    + right. exists sc, id, expected, fresh, c. split; [done|]. destruct Hc as (_ & _ & _ & -> & _). exact Hf.
  - left. by eapply memory_commit_quiet.
  - left. by eapply topic_commit_quiet.
  - left. by eapply handoff_quiet_ok.
  - left. by eapply prompt_quiet_ok.
  - by left.
Qed.

Lemma published_evolves sc id expected fresh s c s' :
  approve_publish types repo sc id expected fresh s = Ok (c, s') → evolves (v_db s) (v_db s').
Proof.
  intros (c0 & _ & Hc)%approve_publish_ok. case_decide; [|by apply Hc].
  destruct Hc as (c1 & Hd & _). by apply profile_quiet in Hd as [? _].
Qed.

Lemma history_evolves s s' : history s s' → evolves (v_db s) (v_db s').
Proof.
  induction 1 as [s|s1 s2 s3 T _ IH]; [reflexivity|]. etrans; [|exact IH].
  apply transaction_cases in T as [[? _]|(sc & id & n & fresh & c & Hp & _)]; [done|by eapply published_evolves].
Qed.

(** *** Every approved result is what was reviewed *)

Lemma holds_kept sc x x' r p srcs arts :
  Artifacts.kept x x' → holds_proposal sc x r p srcs arts → holds_proposal sc x' r p srcs arts.
Proof.
  intros [K _] ((b & Hb & Hp) & Hs & Ha). destruct (K _ _ Hb) as (Hb' & Es & Ea).
  split_and!; [by exists b|by rewrite Es|by rewrite Ea].
Qed.

Record sound (d : rdb) : Prop := {
  sound_result sc id h r : r_heads d !! (sc, id) = Some h → generic_family (h_family h) → h_result h = Some r →
    ∃ v, r_versions d !! (sc, id, h_version h) = Some v ∧
      holds_proposal sc (r_adb d) r (v_proposal v) (v_sources v) (v_artifacts v);
  sound_unique sc id1 id2 h1 h2 r : r_heads d !! (sc, id1) = Some h1 → r_heads d !! (sc, id2) = Some h2 →
    generic_family (h_family h1) → generic_family (h_family h2) → h_result h1 = Some r → h_result h2 = Some r → id1 = id2
}.

Lemma sound_quiet d d' : sound d → quiet d d' → sound d'.
Proof.
  intros [S1 S2] [[K _ _] P]. split.
  - intros sc id h r Hh Hf Hr. destruct (P _ _ Hh Hf) as [Hh0 Hv]; [by rewrite Hr|].
    destruct (S1 _ _ _ _ Hh0 Hf Hr) as (v & Hv0 & Hp). exists v. rewrite Hv. split; [done|]. by eapply holds_kept.
  - intros sc id1 id2 h1 h2 r Hh1 Hh2 Hf1 Hf2 Hr1 Hr2.
    destruct (P _ _ Hh1 Hf1) as [Hh01 _]; [by rewrite Hr1|]. destruct (P _ _ Hh2 Hf2) as [Hh02 _]; [by rewrite Hr2|].
    by eapply S2.
Qed.

Lemma sound_publish sc id expected fresh s c s' :
  approve_publish types repo sc id expected fresh s = Ok (c, s') → family c ≠ profile_family → sound (v_db s) → sound (v_db s').
Proof.
  intros (c0 & Hg & Hc)%approve_publish_ok Hf [S1 S2]. case_decide as Hprof.
  { destruct Hc as (c1 & Hd & _). apply profile_quiet in Hd. by apply (sound_quiet (v_db s)). }
  destruct Hc as (Hst & Hver & Hgen & -> & _ & _ & _ & [K _ _] & Ev & Hg' & Hhold & Hnew & _ & h & h' & Hh & Hst' & Hr' & Hfam & Hv' & Eh).
  apply get_rows in Hg as (_ & _ & _ & h0 & v & Hh0 & _ & Hv & ->). rewrite Hh in Hh0. injection Hh0 as <-. simpl in *.
  assert (Hold : ∀ id2 h2 r, r_heads (v_db s) !! (sc, id2) = Some h2 → generic_family (h_family h2) → h_result h2 = Some r →
    r ≠ result_of (mkCandidate id (h_version h) (h_family h) (h_status h) (v_proposal v) (v_sources v) (v_artifacts v)
      (v_target v) (v_reason v) (h_result h) (h_reason h) (v_audit v)) fresh).
  { intros id2 h2 r Hh2 Hf2 Hr2 ->. destruct (S1 _ _ _ _ Hh2 Hf2 Hr2) as (v2 & _ & (b & Hb & _) & _). congruence. }
  split.
  - intros sc2 id2 h2 r Hh2 Hf2 Hr2. rewrite Eh in Hh2. destruct (decide ((sc2, id2) = (sc, id))) as [[= -> ->]|Hne].
    + rewrite lookup_insert_eq in Hh2. injection Hh2 as <-. rewrite Hr' in Hr2. injection Hr2 as <-.
      exists v. rewrite Ev, Hv'. by split.
    + rewrite lookup_insert_ne in Hh2 by done. destruct (S1 _ _ _ _ Hh2 Hf2 Hr2) as (v2 & Hv2 & Hp).
      exists v2. rewrite Ev. split; [done|]. by eapply holds_kept.
  - intros sc2 id1 id2 h1 h2 r Hh1 Hh2 Hf1 Hf2 Hr1 Hr2. rewrite Eh in Hh1, Hh2.
    destruct (decide (sc2 = sc)) as [->|Hsc].
    2: { rewrite lookup_insert_ne in Hh1, Hh2 by congruence. by eapply S2. }
    destruct (decide (id1 = id)) as [->|Hne1], (decide (id2 = id)) as [->|Hne2]; [done|..].
    + rewrite lookup_insert_eq in Hh1. injection Hh1 as <-. rewrite Hr' in Hr1. injection Hr1 as <-.
      rewrite lookup_insert_ne in Hh2 by congruence. by destruct (Hold _ _ _ Hh2 Hf2 Hr2).
    + rewrite lookup_insert_eq in Hh2. injection Hh2 as <-. rewrite Hr' in Hr2. injection Hr2 as <-.
      rewrite lookup_insert_ne in Hh1 by congruence. by destruct (Hold _ _ _ Hh1 Hf1 Hr1).
    + rewrite lookup_insert_ne in Hh1, Hh2 by congruence. by eapply S2.
Qed.

Lemma history_sound s s' : history s s' → sound (v_db s) → sound (v_db s').
Proof.
  induction 1 as [s|s1 s2 s3 T _ IH]; [done|]. intros Hs. apply IH.
  apply transaction_cases in T as [Hq|(sc & id & n & fresh & c & Hp & Hf)]; [by eapply sound_quiet|by eapply sound_publish].
Qed.

Lemma empty_sound x : sound (empty_rdb x).
Proof. split; intros *; simpl; by rewrite lookup_empty. Qed.

(** *** Decided Candidates *)

Lemma family_stays sc id (s s' : rvs R) c0 c :
  evolves (v_db s) (v_db s') → Candidates.get types sc id (v_db s) = Ok (c0, v_db s) →
  Candidates.get types sc id (v_db s') = Ok (c, v_db s') → family c = family c0.
Proof.
  intros [_ Hh _] (_ & _ & _ & h & v & E & _ & _ & ->)%get_rows (_ & _ & _ & h' & v' & E' & _ & _ & ->)%get_rows. simpl.
  destruct (Hh _ _ E) as (h2 & E2 & ? & _). congruence.
Qed.

Lemma decided_stays sc id (s s' : rvs R) c :
  evolves (v_db s) (v_db s') → Candidates.get types sc id (v_db s) = Ok (c, v_db s) → status c ≠ PENDING →
  Candidates.get types sc id (v_db s') = Ok (c, v_db s').
Proof.
  intros [_ _ Hd] Hg Hs. pose proof Hg as (_ & _ & _ & h & v & E & _ & _ & Ec)%get_rows.
  destruct (Hd _ _ E) as [E' Hv]; [by rewrite Ec in Hs|]. apply (get_frame _ _ _ (v_db s)); [done|congruence|exact Hv].
Qed.

Lemma decided_not_published sc id n fresh s c :
  Candidates.get types sc id (v_db s) = Ok (c, v_db s) → status c ≠ PENDING → family c ≠ profile_family →
  ∃ e, approve_publish types repo sc id n fresh s = Err e.
Proof.
  intros Hg Hs Hf. destruct (approve_publish types repo sc id n fresh s) as [[c' s']|e] eqn:E; [|by exists e].
  apply approve_publish_ok in E as (c0 & Hg0 & Hc). rewrite Hg in Hg0. injection Hg0 as <-.
  case_decide; [done|]. by destruct Hc as (? & _).
Qed.

Lemma retry_approved sc id n e s c x s' :
  Candidates.get types sc id (v_db s) = Ok (c, v_db s) → status c = APPROVED →
  approve_retry types sc id n e s = Ok (x, s') → x = c ∧ s' = s.
Proof.
  intros Hg Hs H0. unfold approve_retry in H0.
  apply M_bind_ok in H0 as (c1 & s1 & (-> & Hg1)%get_on_tables & H0). rewrite Hg in Hg1. injection Hg1 as <-.
  apply M_bind_ok in H0 as ([] & s1 & [-> _]%authorize_ok & H0).
  apply M_bind_ok in H0 as ([] & s1 & [_ ->]%lift_ok & H0). case_decide; [|by apply lift_ok in H0 as [? _]].
  by apply lift_ok in H0 as [(-> & _)%reviewed_same ->].
Qed.

(** The first read of an approved Candidate answers it, or raises. *)
Lemma read_approved sc id n s c x s' :
  Candidates.get types sc id (v_db s) = Ok (c, v_db s) → status c = APPROVED →
  approve_read types sc id n s = Ok (x, s') → x = inl c ∧ s' = s.
Proof.
  intros Hg Hs H0. unfold approve_read in H0.
  apply M_bind_ok in H0 as (c1 & s1 & (-> & Hg1)%get_on_tables & H0). rewrite Hg in Hg1. injection Hg1 as <-.
  apply M_bind_ok in H0 as ([] & s1 & [-> _]%authorize_ok & H0).
  apply M_bind_ok in H0 as ([] & s1 & [_ ->]%lift_ok & H0). rewrite decide_True in H0 by done.
  apply M_bind_ok in H0 as ([] & s1 & [_ ->]%lift_ok & H0).
  apply M_bind_ok in H0 as (c1 & s1 & [(-> & _)%reviewed_same ->]%lift_ok & H0). by apply M_ret_ok in H0 as [-> ->].
Qed.

(** Reading a Candidate that stays as it is. *)
Lemma get_tables_run sc id (s : rvs R) c :
  Candidates.get types sc id (v_db s) = Ok (c, v_db s) → on_tables (Candidates.get types sc id) s = Ok (c, s).
Proof. intros Hg. apply on_tables_run. by split. Qed.

Lemma reviewed_run c : valid_candidate c → validate_proposal_family (family c) (proposal c) = Ok tt → reviewed_candidate c = Ok c.
Proof.
  intros Hv Hf. unfold reviewed_candidate, new_candidate. rewrite Hf. simpl. rewrite raise_if_skip; [done|]. intros Hn. by apply Hn.
Qed.

Lemma approve_read_approved sc id n s c :
  Candidates.get types sc id (v_db s) = Ok (c, v_db s) → status c = APPROVED → version c = n →
  validate_proposal_family (family c) (proposal c) = Ok tt → authorized sc "approve" c s →
  approve_read types sc id n s = Ok (inl c, s).
Proof.
  intros Hg Hs Hv Hf Ha. unfold approve_read, mbind, M_bind. rewrite (get_tables_run _ _ _ _ Hg).
  rewrite (proj2 (authorize_ok sc "approve" c s tt s)) by done. unfold lift. rewrite raise_if_skip by congruence.
  rewrite decide_True by done. rewrite raise_if_skip by congruence.
  rewrite reviewed_run; [done| |done]. by apply get_rows in Hg as (_ & ? & _).
Qed.

Lemma approve_retry_approved sc id n e s c :
  Candidates.get types sc id (v_db s) = Ok (c, v_db s) → status c = APPROVED → version c = n →
  validate_proposal_family (family c) (proposal c) = Ok tt → authorized sc "approve" c s →
  approve_retry types sc id n e s = Ok (c, s).
Proof.
  intros Hg Hs Hv Hf Ha. unfold approve_retry, mbind, M_bind. rewrite (get_tables_run _ _ _ _ Hg).
  rewrite (proj2 (authorize_ok sc "approve" c s tt s)) by done. unfold lift. rewrite raise_if_skip by congruence.
  rewrite decide_True by done. rewrite reviewed_run; [done| |done]. by apply get_rows in Hg as (_ & ? & _).
Qed.

(** A published Candidate. *)
Lemma published_view sc id n fresh s c0 c s' :
  Candidates.get types sc id (v_db s) = Ok (c0, v_db s) → family c0 ≠ profile_family →
  approve_publish types repo sc id n fresh s = Ok (c, s') →
  status c0 = PENDING ∧ Candidates.get types sc id (v_db s') = Ok (c, v_db s') ∧ status c = APPROVED ∧ version c = n ∧
  generic_family (family c) ∧ family c = family c0 ∧ validate_proposal_family (family c) (proposal c) = Ok tt.
Proof.
  intros Hg Hf (c1 & Hg1 & Hc)%approve_publish_ok. rewrite Hg in Hg1. injection Hg1 as <-.
  rewrite decide_False in Hc by done. destruct Hc as (Hs & Hv & Hgen & -> & Hcls & _ & _ & _ & _ & Hg' & _).
  by split_and!.
Qed.

Lemma generic_family_published during sc fam id n fresh :
  generic_family fam → approve_family types repo sc during fam id n fresh = approve_publish types repo sc id n fresh.
Proof. unfold approve_family. by intros [-> | ->]. Qed.

Lemma approved_once_ok sc id n fresh s0 s1 s2 s3 s4 c0 c :
  Candidates.get types sc id (v_db s1) = Ok (c0, v_db s1) → family c0 ≠ profile_family →
  approve_publish types repo sc id n fresh s1 = Ok (c, s2) → history s0 s1 → history s2 s3 → history s3 s4 →
  (∀ n2 fresh2, ∃ e, approve_publish types repo sc id n2 fresh2 s3 = Err e) ∧
  (∀ during n2 fresh2, match approve types repo sc (λ _, s3) during (λ _, s4) id n2 fresh2 s0 with
             | Ok (x, s) => x = c ∧ s = s4
             | Err _ => True
             end) ∧
  (∀ f d n2 fresh2, match approve types repo sc f d (λ _, s4) id n2 fresh2 s3 with
             | Ok (x, s) => x = c ∧ (s = s3 ∨ s = s4)
             | Err _ => True
             end) ∧
  (∀ f d g fresh2, authorized sc "approve" c s3 → approve types repo sc f d g id n fresh2 s3 = Ok (c, s3)).
Proof.
  intros Hg0 Hf Hp H01 H23 H34. destruct (published_view _ _ _ _ _ _ _ _ Hg0 Hf Hp) as (Hpen & Hg2 & Hs & Hv & Hgen & Hfam & Hcls).
  apply history_evolves in H01, H23, H34.
  assert (Hg3 : Candidates.get types sc id (v_db s3) = Ok (c, v_db s3)) by (apply (decided_stays _ _ s2); [done..|congruence]).
  assert (Hg4 : Candidates.get types sc id (v_db s4) = Ok (c, v_db s4)) by (apply (decided_stays _ _ s3); [done..|congruence]).
  assert (Hno : ∀ n2 fresh2, ∃ e, approve_publish types repo sc id n2 fresh2 s3 = Err e).
  { intros n2 fresh2. apply (decided_not_published _ _ _ _ _ c); [done|congruence|congruence]. }
  assert (Hretry : ∀ n2 e, match approve_retry types sc id n2 e s4 with Ok (x, s) => x = c ∧ s = s4 | Err _ => True end).
  { intros n2 e. destruct (approve_retry _ _ _ _ _ _) as [[x s]|] eqn:E; [|done]. by eapply retry_approved. }
  split_and!; [done|..].
  - intros during n2 fresh2. unfold approve. cbn zeta. destruct (approve_read types sc id n2 s0) as [[[x|fam] s]|e] eqn:E.
    + exfalso. unfold approve_read in E. apply M_bind_ok in E as (c1 & s5 & (-> & Hg)%get_on_tables & E).
      apply M_bind_ok in E as ([] & s5 & [-> _]%authorize_ok & E). apply M_bind_ok in E as ([] & s5 & [_ ->]%lift_ok & E).
      case_decide as Hst; [|by apply M_ret_ok in E as [? _]].
      assert (Hne : status c1 ≠ PENDING) by congruence. pose proof (decided_stays _ _ s0 s1 c1 H01 Hg Hne) as Hg1.
      assert (c1 = c0) by congruence. congruence.
    + unfold approve_read in E. apply M_bind_ok in E as (c1 & s5 & (-> & Hg)%get_on_tables & E).
      apply M_bind_ok in E as ([] & s5 & [-> _]%authorize_ok & E). apply M_bind_ok in E as ([] & s5 & [_ ->]%lift_ok & E).
      case_decide as Hst; [by apply M_bind_ok in E as ([] & s5 & _ & (? & ? & _ & [? _]%M_ret_ok)%M_bind_ok)|].
      apply M_ret_ok in E as [[= ->] ->].
      assert (Hfam1 : family c0 = family c1) by (by eapply (family_stays sc id s0 s1)).
      rewrite generic_family_published by (by rewrite <- Hfam1, <- Hfam).
      destruct (Hno n2 fresh2) as [e ->]. destruct (is_conflict e); [apply Hretry|done].
    + destruct (is_conflict e); [apply Hretry|done].
  - intros f d n2 fresh2. unfold approve. cbn zeta. destruct (approve_read types sc id n2 s3) as [[x s]|e] eqn:E.
    + apply (read_approved _ _ _ _ _ _ _ Hg3 Hs) in E as [-> ->]. by split; [|left].
    + destruct (is_conflict e); [|done]. specialize (Hretry n2 e). destruct (approve_retry _ _ _ _ _ _) as [[x s]|]; [|done].
      destruct Hretry as [-> ->]. by split; [|right].
  - intros f d g fresh2 Ha. unfold approve. cbn zeta. by rewrite (approve_read_approved _ _ _ _ c).
Qed.

Lemma rejected_final_ok sc id n why s0 s1 s2 c0 c :
  Candidates.get types sc id (v_db s0) = Ok (c0, v_db s0) → family c0 ≠ profile_family →
  Review.reject types sc id n why s0 = Ok (c, s1) → history s1 s2 →
  (∀ n2 fresh, ∃ e, approve_publish types repo sc id n2 fresh s2 = Err e) ∧
  ∀ f d g n2 fresh, history s2 (g s2) → ∃ e, approve types repo sc f d g id n2 fresh s2 = Err e.
Proof.
  intros Hg0 Hf Hr H12. apply reject_ok in Hr as [(c1 & c2 & Hg1 & Hp & _)|(_ & _ & _ & _ & _ & _ & _ & h & Hh & Hs)].
  { rewrite Hg0 in Hg1. injection Hg1 as <-. done. }
  assert (Hrej : ∀ s3, history s1 s3 → ∀ c1, Candidates.get types sc id (v_db s3) = Ok (c1, v_db s3) → status c1 = REJECTED).
  { intros s3 [_ _ Hd]%history_evolves c1 (_ & _ & _ & h1 & v & E & _ & _ & ->)%get_rows. simpl.
    destruct (Hd _ _ Hh) as [E1 _]; [congruence|]. rewrite E in E1. by injection E1 as ->. }
  split.
  - intros n2 fresh. destruct (approve_publish types repo sc id n2 fresh s2) as [[c1 s3]|e] eqn:E; [|by exists e].
    unfold approve_publish in E. apply M_bind_ok in E as (c2 & s4 & (-> & Hg)%get_on_tables & E).
    apply M_bind_ok in E as ([] & s4 & [Hn%raise_if_ok _]%lift_ok & _). by destruct Hn; eapply Hrej.
  - intros f d g n2 fresh H23.
    assert (Hread : ∃ e, approve_read types sc id n2 s2 = Err e).
    { destruct (approve_read types sc id n2 s2) as [[x s3]|e] eqn:E; [|by exists e]. unfold approve_read in E.
      apply M_bind_ok in E as (c2 & s4 & (-> & Hg)%get_on_tables & E).
      apply M_bind_ok in E as ([] & s4 & [-> _]%authorize_ok & E).
      apply M_bind_ok in E as ([] & s4 & [Hn%raise_if_ok _]%lift_ok & _). by destruct Hn; eapply Hrej. }
    destruct Hread as [e He]. unfold approve. rewrite He. cbn zeta. destruct (is_conflict e); [|by exists e].
    destruct (approve_retry types sc id n2 e (g s2)) as [[x s3]|e2] eqn:E; [|by exists e2]. unfold approve_retry in E.
    apply M_bind_ok in E as (c2 & s4 & (-> & Hg)%get_on_tables & E).
    apply M_bind_ok in E as ([] & s4 & [-> _]%authorize_ok & E).
    apply M_bind_ok in E as ([] & s4 & [Hn%raise_if_ok _]%lift_ok & _). destruct Hn. eapply (Hrej (g s2)); [by etrans|done].
Qed.

End histories.
(** ** What the service guarantees *)

(** C19: An approval publishes exactly what was reviewed.  When the approval of an
    Experience or a Skill returns, the Candidate was pending at the expected version,
    the reviewer was authorized to approve that very Candidate in that state, and its
    evidence was acceptable then.  A revision that did not exist holds its proposal
    with its Sources and Artifacts as lineage: revision 1 of a fresh identity, or the
    successor of the target, which was still the head of an identity neither retired
    nor merged away.  The Candidate is marked approved with that revision.  Nothing else
    changes: no version and no head of another Candidate, no other revision, no other
    Artifact head, no Source and no publication record; and the tables of the
    collaborators change only by the search projection of the published revision. *)
Theorem approval_publishes_review types repo {R} `{Collaborators R} sc id n fresh (s s' : rvs R) c c' :
  approve_publish types repo sc id n fresh s = Ok (c', s') →
  Candidates.get types sc id (v_db s) = Ok (c, v_db s) → family c ≠ profile_family →
  let r := result_of c fresh in
  let x := r_adb (v_db s) in let x' := r_adb (v_db s') in
  (generic_family (family c) ∧ status c = PENDING ∧ version c = n) ∧
  authorized sc "approve" c s ∧ accepted_evidence sc (sources c) (artifacts c) x ∧
  a_bodies x !! key_in sc r = None ∧ holds_proposal sc x' r (proposal c) (sources c) (artifacts c) ∧
  head_moves sc c r x x' ∧ nothing_else sc r x x' ∧ Artifacts.kept x x' ∧
  project sc (published c r) s = Ok (tt, mkRv (v_db s) (v_rest s')) ∧
  c' = approved c r ∧ Candidates.get types sc id (v_db s') = Ok (c', v_db s') ∧
  r_versions (v_db s') = r_versions (v_db s) ∧
  ∀ k, k ≠ (sc, id) → r_heads (v_db s') !! k = r_heads (v_db s) !! k.
Proof.
  intros (c1 & Hg1 & Hc)%approve_publish_ok Hg Hf. rewrite Hg in Hg1. injection Hg1 as <-.
  rewrite decide_False in Hc by done. cbn zeta.
  destruct Hc as (Hs & Hv & Hgen & Ec & _ & Ha & He & [K _ _] & Ever & Hg' & Hh & Hn & (Hm & Helse & Hproj) & h & h' & _ & _ & _ & _ & _ & Eh).
  split_and!; try done. intros k Hk. by rewrite Eh, lookup_insert_ne.
Qed.

(** C20: Whatever was approved is what is published.  After any interleaving of the
    service's transactions with writers that approve nothing themselves, the result of
    every approved Experience or Skill is a stored revision with exactly the approved
    proposal and evidence, and it is the result of no other Candidate. *)
Theorem approved_is_published types repo {R} `{W : Writers R} x r0 (s : rvs R) sc id c :
  rtc (transaction types repo) (mkRv (empty_rdb x) r0) s →
  Candidates.get types sc id (v_db s) = Ok (c, v_db s) → status c = APPROVED → generic_family (family c) →
  ∃ r, result_artifact c = Some r ∧ holds_proposal sc (r_adb (v_db s)) r (proposal c) (sources c) (artifacts c) ∧
    ∀ id2 c2, Candidates.get types sc id2 (v_db s) = Ok (c2, v_db s) → generic_family (family c2) →
      result_artifact c2 = Some r → id2 = id.
Proof.
  intros Hist Hg Hs Hf. destruct (history_sound _ _ _ _ Hist (empty_sound x)) as [S1 S2].
  pose proof Hg as (_ & (_ & _ & _ & _ & _ & _ & [Hres _]) & _ & h & v & Hh & _ & Hv & Ec)%get_rows.
  destruct (result_artifact c) as [r|] eqn:Hr; [|by destruct Hres as [Hres _]; destruct Hres].
  exists r. rewrite Ec in Hr, Hf |- *. simpl in *. split; [done|]. split.
  - destruct (S1 _ _ _ _ Hh Hf Hr) as (v' & Hv' & Hp). rewrite Hv in Hv'. by injection Hv' as <-.
  - intros id2 c2 (_ & _ & _ & h2 & v2 & Hh2 & _ & _ & ->)%get_rows Hf2 Hr2. simpl in *. by eapply S2.
Qed.

(** C21: Overlapping approvals publish once.  For a Candidate outside the Family
    Profile, whose decisions a collaborator takes ([decide_profile]): once a publishing
    approval ([approve_publish]; it commits for Experiences and Skills only) has
    committed, whatever runs in between, no approval transaction of that Candidate
    commits again.  An approval that had read the Candidate before it was published,
    lost the race and read again returns the stored result and writes nothing, or
    fails; so does one that starts afterwards, with whatever version it expects and
    whoever asks; and if the caller may approve the Candidate and expects its version,
    it does return the stored result, at once.  The writers of the other Families are
    assumed to approve no Experience or Skill ([Writers]). *)
Theorem approved_once types repo {R} `{W : Writers R} sc id n fresh (s0 s1 s2 s3 s4 : rvs R) c0 c :
  Candidates.get types sc id (v_db s1) = Ok (c0, v_db s1) → family c0 ≠ profile_family →
  approve_publish types repo sc id n fresh s1 = Ok (c, s2) →
  rtc (transaction types repo) s0 s1 → rtc (transaction types repo) s2 s3 → rtc (transaction types repo) s3 s4 →
  (∀ n2 fresh2, ∃ e, approve_publish types repo sc id n2 fresh2 s3 = Err e) ∧
  (∀ during n2 fresh2, match approve types repo sc (λ _, s3) during (λ _, s4) id n2 fresh2 s0 with
             | Ok (x, s) => x = c ∧ s = s4
             | Err _ => True
             end) ∧
  (∀ f d n2 fresh2, match approve types repo sc f d (λ _, s4) id n2 fresh2 s3 with
             | Ok (x, s) => x = c ∧ (s = s3 ∨ s = s4)
             | Err _ => True
             end) ∧
  (∀ f d g fresh2, authorized sc "approve" c s3 → approve types repo sc f d g id n fresh2 s3 = Ok (c, s3)).
Proof. exact (approved_once_ok types repo sc id n fresh s0 s1 s2 s3 s4 c0 c). Qed.

(** C22: A rejected Candidate is never published, unless it is a Profile, whose
    decisions a collaborator takes ([decide_profile]) and of which nothing is claimed.
    After the rejection of a Candidate of any other Family, whatever runs in between, the
    publishing transaction ([approve_publish]) never commits for it, and every call of
    [approve] that starts then fails, through whichever writer its Family has, also when
    it reads again after a conflict. *)
Theorem rejected_never_published types repo {R} `{W : Writers R} sc id n why (s0 s1 s2 : rvs R) c0 c :
  Candidates.get types sc id (v_db s0) = Ok (c0, v_db s0) → family c0 ≠ profile_family →
  Review.reject types sc id n why s0 = Ok (c, s1) → rtc (transaction types repo) s1 s2 →
  (∀ n2 fresh, ∃ e, approve_publish types repo sc id n2 fresh s2 = Err e) ∧
  ∀ f d g n2 fresh, rtc (transaction types repo) s2 (g s2) → ∃ e, approve types repo sc f d g id n2 fresh s2 = Err e.
Proof. exact (rejected_final_ok types repo sc id n why s0 s1 s2 c0 c). Qed.

(** C23: A proposal is checked before it is stored.  When an Experience is proposed, the
    Candidate did not exist; it is stored pending at version 1 and reads back as it was
    returned, with each cited Artifact once and at least the cited Sources; every cited
    Source exists and may be used as evidence, every cited Artifact is stored, the
    references are within the bound, and a target is cited and is the current head. *)
Theorem proposal_is_checked types repo {R} `{Collaborators R} sc p given fresh (s s' : rvs R) c :
  propose_experience types repo sc p given fresh (λ _, mret tt) s = Ok (c, s') →
  Candidates.get types sc (candidate_id c) (v_db s) = Err CandidateNotFoundError ∧
  Candidates.get types sc (candidate_id c) (v_db s') = Ok (c, v_db s') ∧ r_adb (v_db s') = r_adb (v_db s) ∧
  family c = experience_family ∧ status c = PENDING ∧ version c = 1 ∧ proposal c = st_proposal p ∧ target c = st_target p ∧
  artifacts c = unique_artifacts (st_artifacts p) ∧ st_sources p ⊆ sources c ∧
  Z.of_nat (length (sources c)) + Z.of_nat (length (artifacts c)) ≤ MAX_CANDIDATE_EVIDENCE ∧
  accepted_evidence sc (unique_sources (st_sources p)) (artifacts c) (r_adb (v_db s)) ∧
  current_target sc experience_family (target c) (artifacts c) (r_adb (v_db s)).
Proof.
  intros (s1 & Hp & Hc & Hr & [_ ->]%M_ret_ok & _)%propose_experience_ok%propose_with_connection_ok.
  apply prepare_proposal_ok in Hp as (_ & Hval & Hv & Hs & Hf & Hp & Ht & Hre & Hau & _ & Ha & Hsrc & Hev & Hcur).
  simpl in *. assert (Hu : ∀ (l : list source_ref), nub (nub l) = nub l) by (intros l; apply nub_id, nub_NoDup).
  assert (Hu2 : ∀ (l : list art_ref), nub (nub l) = nub l) by (intros l; apply nub_id, nub_NoDup).
  unfold unique_sources, unique_artifacts in *. rewrite Hu in Hev, Hsrc. rewrite Hu2 in Ha.
  pose proof (create_many_in_scope _ _ _ _ _ Hc) as Hscope.
  apply created_rows in Hc as (_ & _ & Eadb & Hprop & Hrows). destruct (Hrows c) as (Hnone & Hhead & _ & _ & Hver); [left|].
  apply Forall_cons in Hprop as [Hprop _]. split_and!; try done.
  - apply get_vacant_row; done.
  - eapply get_of_rows; [done|exact Hhead|done|exact Hver|done|done|].
    destruct Hval as (_ & _ & _ & _ & _ & _ & [L1 L2]).
    assert (result_artifact c = None) by (destruct (result_artifact c); [destruct L1 as [_ L1]; by specialize (L1 ltac:(done)); congruence|done]).
    assert (decision_reason c = None) by (destruct (decision_reason c); [destruct L2 as [_ L2]; by specialize (L2 ltac:(done)); congruence|done]).
    destruct c. simpl in *. congruence.
  - intros r Hin. by apply Hsrc, nub_elem.
  - apply Hval.
Qed.

(** A revision is a new version of the pending Candidate it read.  It returns only
    under the authority to revise that Candidate with the new proposal, on evidence as
    acceptable as a first proposal's and, outside Profiles, a target that is cited and
    still current; the Candidate keeps its Family and target, gets the next version and
    reads back as returned.  No Experience or Skill is approved and no decided
    Candidate changes. *)
Theorem revision_is_checked types repo {R} `{Collaborators R} sc id n p srcs arts tgt why (s s' : rvs R) c :
  Review.revise types repo sc id n p srcs arts tgt why s = Ok (c, s') →
  quiet (v_db s) (v_db s') ∧ Candidates.get types sc id (v_db s') = Ok (c, v_db s') ∧
  ∃ c0 s1, Candidates.get types sc id (v_db s) = Ok (c0, v_db s) ∧ status c0 = PENDING ∧ version c0 = n ∧
    v_db s1 = v_db s ∧ authorized sc "revise" (with_content c0 (proposal c)) s1 ∧
    (family c, target c, status c, version c) = (family c0, target c0, PENDING, n + 1) ∧
    validate_proposal_family (family c) (proposal c) = Ok tt ∧
    accepted_evidence sc (default (sources c0) (unique_sources <$> srcs)) (artifacts c) (r_adb (v_db s)) ∧
    (family c ≠ profile_family → current_target sc (family c) (target c) (artifacts c) (r_adb (v_db s))).
Proof.
  intros (Hq & c0 & s1 & p' & srcs' & Hg & Hs & Hv & Ht & E1 & Ha & Hev & Hcur & Hcls & -> & _ & Hg')%revise_ok.
  split_and!; [done..|]. exists c0, s1. simpl. split_and!; try done; [by rewrite Ht|by destruct srcs].
Qed.

(** ** Concrete runs

    An Experience proposed, revised and approved in a Scope with one Source, and one
    that is rejected; approvals must be authorized. *)
Definition demo_collaborators_with
    (resolver : option (text → list source_ref → list art_ref → rvs unit → result (list source_ref))) : Collaborators unit := {|
  package_ref := unit;
  snapshot := content;
  failure_cue _ := None;
  package_of _ := None;
  protected_fields _ := [];
  has_creation _ := false;
  objective _ := [];
  claims_generation _ := false;
  citations _ := [];
  outcome_failures _ := [];
  normalize_match_text t := Some t;
  proposal_digest := payload;
  build_package := Ok;
  as_skill_content c := c;
  single_instruction _ := true;
  add_package _ _ := mret tt;
  get_package _ _ _ := Err (RepositoryNotFoundError "skill-package");
  index_experience _ _ := mret tt;
  index_skill _ _ _ := mret tt;
  get_run _ _ _ := Err (ValueError "dream_not_found");
  evidence := resolver;
  authorize_action := Some (λ _ action c _, raise_if (action = str "approve" ∧ payload (proposal c) = [0]) AccessDeniedError);
  read_policy _ _ := Ok tt;
  revise_profile _ p _ _ _ := Ok p;
  decide_profile _ _ _ _ := λ _, Err CandidateNotFoundError;
  profile_from_dream _ := true;
  inherit_metadata _ c := c;
  require_customization := None;
  prompt_mode _ := [];
  validate_prompt _ _ := Ok tt;
  commit_prompt _ _ _ _ _ := λ _, Err CandidateNotFoundError;
  memory_plan := unit;
  memory_state := None;
  inspect_change _ _ _ _ := Ok tt;
  prepare_change := Ok;
  commit_memory _ := mret None;
  topic_projection := unit;
  prepare_topic := None;
  publish_topic _ _ _ _ := λ _, Err CandidateNotFoundError;
  commit_handoff := None
|}.
#[local] Instance demo_collaborators : Collaborators unit := demo_collaborators_with (Some (λ _ _ _ _, Ok [([3], [5])])).

#[local] Instance demo_writers : Writers demo_collaborators.
Proof. split; try done. by intros plan s r s' [_ ->]%M_ret_ok. Qed.

Definition demo_types : dict text text :=
  [(experience_family, str "ExperienceContent"); (skill_family, str "SkillContent")].
Definition demo_repo : Artifacts.repository := Artifacts.mkRepository demo_types true.
Definition demo_adb : adb :=
  set_sources (<[([1], [3], [4]) := mkSourceRow (AdapterSource [7]) 1]>
    (<[([1], [3], [5]) := mkSourceRow (AdapterSource [8]) 2]> ∅)) empty_adb.
Definition demo_empty : rvs unit := mkRv (empty_rdb demo_adb) tt.
Definition demo_content (n : Z) : content := mkContent (str "ExperienceContent") [n].
Definition demo_statement (n : Z) : statement := mkStatement (demo_content n) [([3], [4]); ([3], [4])] [] None None.

Definition demo_after (r : result (candidate * rvs unit)) : rvs unit := match r with Ok (_, s) => s | Err _ => demo_empty end.
Definition outcome {A S} (r : result (A * S)) : result A := p ← r; Ok p.1.
Lemma outcome_run r c : outcome r = Ok c → r = Ok (c, demo_after r).
Proof. destruct r as [[c' s]|e]; [|done]. by intros [= ->]. Qed.

Definition demo_proposed : rvs unit := Eval vm_compute in demo_after
  (propose_experience demo_types demo_repo [1] (demo_statement 1) (Some [65]) [] (λ _, mret tt) demo_empty).
Definition demo_revised : rvs unit := Eval vm_compute in demo_after
  (Review.revise demo_types demo_repo [1] [65] 1 (demo_content 2) None None None None demo_proposed).
Definition demo_approved : rvs unit := demo_after
  (approve_publish demo_types demo_repo [1] [65] 2 [66] demo_revised).
Definition demo_rejected : rvs unit := Eval vm_compute in demo_after
  (Review.reject demo_types [1] [65] 2 [90] demo_revised).

Definition demo_candidate (n p : Z) (srcs : list source_ref) : candidate :=
  mkCandidate [65] n experience_family PENDING (demo_content p) srcs [] None None None None None.
Definition demo_sources : list source_ref := [([3], [4]); ([3], [5])].
Definition demo_result : candidate := approved (demo_candidate 2 2 demo_sources) (mkRef experience_family [66] 1).

Lemma demo_propose_run :
  propose_experience demo_types demo_repo [1] (demo_statement 1) (Some [65]) [] (λ _, mret tt) demo_empty =
    Ok (demo_candidate 1 1 demo_sources, demo_proposed).
Proof. vm_compute. reflexivity. Qed.
Lemma demo_revise_run :
  Review.revise demo_types demo_repo [1] [65] 1 (demo_content 2) None None None None demo_proposed =
    Ok (demo_candidate 2 2 demo_sources, demo_revised).
Proof. vm_compute. reflexivity. Qed.
Lemma demo_approve_run :
  approve_publish demo_types demo_repo [1] [65] 2 [66] demo_revised = Ok (demo_result, demo_approved).
Proof. apply outcome_run. vm_compute. reflexivity. Qed.
Lemma demo_reject_run :
  Review.reject demo_types [1] [65] 2 [90] demo_revised = Ok (rejected (demo_candidate 2 2 demo_sources) [90], demo_rejected).
Proof. vm_compute. reflexivity. Qed.
Lemma demo_get_revised :
  Candidates.get demo_types [1] [65] (v_db demo_revised) = Ok (demo_candidate 2 2 demo_sources, v_db demo_revised).
Proof. vm_compute. reflexivity. Qed.
Lemma demo_get_approved :
  Candidates.get demo_types [1] [65] (v_db demo_approved) = Ok (demo_result, v_db demo_approved).
Proof. apply (published_view demo_types demo_repo [1] [65] 2 [66] _ _ _ _ demo_get_revised ltac:(done) demo_approve_run). Qed.

Lemma demo_reviewed : rtc (transaction demo_types demo_repo) demo_empty demo_revised.
Proof.
  eapply rtc_l; [eapply (tx_experience _ _ _ _ [1] _ (Some [65]) [] (λ _, mret tt)); [apply no_hook|exact demo_propose_run]|].
  apply rtc_once. eapply (tx_revise _ _ _ _ [1]). exact demo_revise_run.
Qed.
Lemma demo_reviewed_approved : rtc (transaction demo_types demo_repo) demo_empty demo_approved.
Proof.
  eapply rtc_r; [exact demo_reviewed|]. exact (tx_approve _ _ _ _ [1] [65] 2 [66] demo_result demo_approve_run).
Qed.

Lemma approval_publishes_review_witness :
  holds_proposal [1] (r_adb (v_db demo_approved)) (mkRef experience_family [66] 1) (demo_content 2) demo_sources [] ∧
  authorized [1] "approve" (demo_candidate 2 2 demo_sources) demo_revised.
Proof.
  destruct (approval_publishes_review demo_types demo_repo [1] [65] 2 [66] _ _ _ _ demo_approve_run demo_get_revised ltac:(done))
    as (_ & Ha & _ & _ & Hh & _).
  split; [exact Hh|exact Ha].
Defined.

Lemma approved_is_published_witness :
  ∃ r, result_artifact demo_result = Some r ∧
    holds_proposal [1] (r_adb (v_db demo_approved)) r (demo_content 2) demo_sources [].
Proof.
  destruct (approved_is_published demo_types demo_repo demo_adb tt demo_approved [1] [65] demo_result demo_reviewed_approved
    demo_get_approved eq_refl (or_introl eq_refl)) as (r & Hr & Hh & _).
  exists r. split; [exact Hr|exact Hh].
Defined.

(** An approval that read the Candidate before it was published, and one after. *)
Lemma approved_once_witness :
  (∃ e, approve_publish demo_types demo_repo [1] [65] 2 [67] demo_approved = Err e) ∧
  approve demo_types demo_repo [1] (λ s, s) (λ s, s) (λ s, s) [65] 2 [67] demo_approved = Ok (demo_result, demo_approved).
Proof.
  destruct (approved_once demo_types demo_repo [1] [65] 2 [66] demo_revised demo_revised demo_approved demo_approved demo_approved
    _ _ demo_get_revised ltac:(done) demo_approve_run (rtc_refl _ _) (rtc_refl _ _) (rtc_refl _ _)) as (H1 & _ & _ & H3).
  split; [apply H1|]. apply H3. vm_compute. reflexivity.
Defined.

Lemma rejected_never_published_witness :
  ∃ e, approve demo_types demo_repo [1] (λ s, s) (λ s, s) (λ s, s) [65] 2 [67] demo_rejected = Err e.
Proof.
  apply (rejected_never_published demo_types demo_repo [1] [65] 2 [90] _ _ demo_rejected _ _ demo_get_revised ltac:(done)
    demo_reject_run (rtc_refl _ _)). apply rtc_refl.
Defined.

Lemma proposal_is_checked_witness :
  Candidates.get demo_types [1] [65] (v_db demo_proposed) = Ok (demo_candidate 1 1 demo_sources, v_db demo_proposed).
Proof.
  destruct (proposal_is_checked demo_types demo_repo [1] _ _ _ _ _ _ demo_propose_run) as (_ & H & _). exact H.
Defined.

Lemma revision_is_checked_witness : quiet (v_db demo_proposed) (v_db demo_revised).
Proof. apply (revision_is_checked demo_types demo_repo [1] [65] 1 (demo_content 2) None None None None _ _ _ demo_revise_run). Defined.

End ReviewHistory.
