(* ===== verification/ReviewEvidence.v ===== *)
(** * Reviews over the evidence resolver

    The review service composed with the resolver it is given by
    [builtin/runtime/relational.py]: an approval that publishes rests on the admissible
    lineage of what its Candidate cites. *)

From S2P Require Import Prelude Tables Catalog Governance Provenance Artifacts AtomicState Worklist Evidence Lineage.
From S2P Require Import Candidates Review ReviewHistory.
Local Open Scope Z_scope.

Module ReviewEvidence.
Import Candidates Review ReviewHistory.

Section composition.
Context `{Evidence.Encoding, Governance.CustomIndex} (rv : Evidence.resolver) (waits : adb → adb).

(** [self._evidence.validate]: the resolver of the service's Scope. *)
Definition resolver_evidence {R} (_ : text) (sources : list source_ref) (artifacts : list art_ref) (s : rvs R)
    : result (list source_ref) :=
  Evidence.ask (Evidence.validate rv waits sources artifacts) (r_adb (v_db s)).

(** The references whose lineage a review of [c] validates. *)
Definition supports (target : option art_ref) (dream : bool) (sources : list source_ref) (arts : list art_ref)
    : list Evidence.reference :=
  (Evidence.ToSource <$> sources) ++ (Evidence.ToArtifact <$> supporting_artifacts target dream arts).

(** Every reference [refs] derive from may be used by a review of [db]. *)
Definition lineage_admitted (db x : adb) (refs : list Evidence.reference) : Prop :=
  (x = db ∨ x = waits db) ∧ ∀ y, Lineage.cited rv x refs y → Lineage.authorized rv x y.1 ∧ Lineage.admitted rv x y.

Context (types : dict text text) (repo : Artifacts.repository) (scope_id : text).
Context {R : Type} {C : Collaborators R}.
Hypothesis composed : evidence (R := R) = Some resolver_evidence.

Lemma validate_evidence_lineage srcs arts p t b s srcs' s' :
  validate_evidence repo scope_id srcs arts p t b s = Ok (srcs', s') →
  ∃ x, lineage_admitted (r_adb (v_db s)) x (supports t b srcs arts) ∧
    (∀ r, r ∈ srcs → Lineage.eligible rv x r) ∧
    (Lineage.no_collision rv x (supports t b srcs arts) →
       ∀ r, r ∈ srcs' ↔ r ∈ srcs ∨ Lineage.eligible rv x r ∧ ∃ m, m ∈ supporting_artifacts t b arts ∧
         ref_family m = AtomicState.atomic_memory ∧ rtc (Lineage.upstream rv x) (Evidence.ToArtifact m) (Evidence.ToSource r)).
Proof.
  intros (_ & _ & _ & Hroots)%validate_evidence_ok. rewrite composed in Hroots. destruct Hroots as (roots & Hr & ->).
  unfold resolver_evidence in Hr. apply Lineage.ask_ok in Hr as (x & Hr). exists x.
  destruct (Lineage.validated_lineage_ok rv _ _ _ _ _ _ Hr) as (Hall & Hsrc & Hroots & Hx). split_and!; [|done|].
  - split; [|done]. destruct Hx as [[-> _]|Hx]; [by left|by right].
  - intros Hd r. unfold unique_sources. by rewrite nub_elem, elem_of_app, (Hroots Hd).
Qed.

Lemma approval_validates id expected fresh s c' s' c :
  approve_publish types repo scope_id id expected fresh s = Ok (c', s') →
  Candidates.get types scope_id id (v_db s) = Ok (c, v_db s) → family c ≠ profile_family →
  ∃ srcs s1, validate_evidence repo scope_id (sources c) (artifacts c) None (target c)
    (bool_decide (is_dream (candidate_id c))) s = Ok (srcs, s1).
Proof.
  unfold approve_publish. intros H1 Hg Hfam. apply M_bind_ok in H1 as (c1 & s1 & (-> & Hg1)%get_on_tables & H1).
  assert (c1 = c) as -> by congruence. apply M_bind_ok in H1 as ([] & s1 & [_ ->]%lift_ok & H1).
  rewrite decide_False in H1 by done. apply M_bind_ok in H1 as ([] & s1 & [_ ->]%lift_ok & H1).
  apply M_bind_ok in H1 as (c2 & s1 & [_ ->]%lift_ok & H1). apply M_bind_ok in H1 as ([] & s1 & [_ ->]%lift_ok & H1).
  apply M_bind_ok in H1 as ([] & s1 & Hlock & _). unfold lock_generic_review_inputs in Hlock.
  apply M_bind_ok in Hlock as ([] & s2 & Ht & Hlock). apply M_bind_ok in Hlock as (srcs & s3 & Hv & _).
  assert (s2 = s) as ->; [|by exists srcs, s3].
  revert Ht. destruct (target c) as [t|]; [|by intros [_ ->]%M_ret_ok].
  match goal with |- ?m s = _ → _ => assert (Hro : readonly m) by (unfold require_current; ro); apply Hro end.
Qed.

End composition.

(** ** A concrete run

    The Candidate of [ReviewHistory] approved over the resolver itself. *)

#[local] Existing Instance Lineage.no_custom_index.
#[local] Existing Instance Lineage.demo_encoding.

Definition demo_resolver : Evidence.resolver :=
  Evidence.mkResolver [1] demo_repo (Some (λ _ _, Ok tt)) None None Evidence.default_limits.
#[local] Instance demo_composed : Collaborators unit :=
  demo_collaborators_with (Some (resolver_evidence demo_resolver id)).

Definition demo_publish : result (candidate * rvs unit) :=
  approve_publish demo_types demo_repo [1] [65] 2 [66] demo_revised.
Lemma demo_publish_run : ∃ c' s', demo_publish = Ok (c', s').
Proof.
  destruct (outcome demo_publish) as [c'|e] eqn:E; [|vm_compute in E; discriminate].
  exists c', (demo_after demo_publish). by apply outcome_run.
Qed.

End ReviewEvidence.
