(* ===== verification/ScopeCache.v ===== *)
(** * Bounded cache of Scope resources

    [builtin/runtime/_scope_cache.py]: an LRU of inactive Scopes that never evicts
    a Scope while an operation holds a lease on it. *)

From S2P Require Import Prelude.
Local Open Scope Z_scope.

Module ScopeCache.

(** [_ScopeEntry]: the identity of the object, which its lock shares, and its leases. *)
Record entry := mkEntry { lock_of : nat; leases : Z }.
#[export] Instance entry_eq_dec : EqDecision entry.
Proof. solve_decision. Defined.

(** [ScopeCache]: [_entries] in its order, the identity of the next object, the
    calls of the evictor and the counts shown to the observer. *)
Record cache := mkCache {
  capacity : Z;
  entries : dict text entry;
  next_object : nat;
  evictions : list text;
  observations : list (Z * Z)
}.

Definition set_entries (v : dict text entry) (c : cache) : cache :=
  mkCache (capacity c) v (next_object c) (evictions c) (observations c).

Definition size_of {A} (l : list A) : Z := Z.of_nat (length l).

(** [counts]: the inactive cached Scopes and the active ones. *)
Definition counts (c : cache) : Z * Z :=
  (size_of (filter (λ p : text * entry, leases p.2 = 0) (entries c)),
   size_of (filter (λ p : text * entry, 0 < leases p.2) (entries c))).

(** [_observe]: the observer cannot fail the operation. *)
Definition observe : M cache unit := modifies (λ c,
  mkCache (capacity c) (entries c) (next_object c) (evictions c) (observations c ++ [counts c])).

Definition new_cache (n : Z) : result cache :=
  raise_if (n < 1) (ValueError "scope cache capacity must be positive") ;;
  Ok (mkCache n [] 0 [] [(0, 0)]).

Definition oldest_inactive_scope (c : cache) : option text :=
  fst <$> head (filter (λ p : text * entry, leases p.2 = 0) (entries c)).

Definition evict (scope_id : text) : M cache unit := λ c,
  match dget scope_id (entries c) with
  | None => Err (RuntimeError "KeyError")
  | Some e =>
      if decide (0 < leases e) then Err (RuntimeError "cannot evict an active scope cache entry")
      else Ok (tt, mkCache (capacity c) (ddel scope_id (entries c)) (next_object c)
                     (evictions c ++ [scope_id]) (observations c))
  end.

(** [while over: evict the oldest inactive Scope, if any]. *)
Fixpoint evict_while (over : cache → Prop) `{!∀ c, Decision (over c)} (fuel : nat) : M cache unit := λ c,
  if decide (over c) then
    match oldest_inactive_scope c, fuel with
    | None, _ => Ok (tt, c)
    | Some _, O => Err OutOfFuel
    | Some scope_id, S fuel' => (evict scope_id ;; evict_while over fuel') c
    end
  else Ok (tt, c).

(** Every eviction removes an entry: as many rounds as entries are enough. *)
Definition make_room : M cache unit := λ c,
  evict_while (λ c, capacity c ≤ size_of (entries c)) (length (entries c)) c.
Definition trim : M cache unit := λ c,
  evict_while (λ c, capacity c < size_of (entries c)) (length (entries c)) c.

Definition move_to_end (scope_id : text) (e : entry) (d : dict text entry) : dict text entry :=
  ddel scope_id d ++ [(scope_id, e)].

(** [self._entries[scope_id] = _ScopeEntry()]. *)
Definition add_entry (scope_id : text) : M cache entry := λ c,
  let e := mkEntry (next_object c) 0 in
  Ok (e, mkCache (capacity c) (dset scope_id e (entries c)) (S (next_object c)) (evictions c) (observations c)).

(** Entering [lease]: the caller keeps the entry object until it leaves. *)
Definition enter (scope_id : text) : M cache nat :=
  known ← gets (λ c, dget scope_id (entries c));
  e ← match known with
      | Some e => mret e
      | None => make_room ;; add_entry scope_id
      end;
  modifies (λ c, set_entries (move_to_end scope_id (mkEntry (lock_of e) (leases e + 1)) (entries c)) c) ;;
  observe ;;
  mret (lock_of e).

(** Leaving [lease] with the entry object it entered. *)
Definition leave (scope_id : text) (object : nat) : M cache unit :=
  current ← gets (λ c, dget scope_id (entries c));
  match current with
  | Some e =>
      if decide (lock_of e = object ∧ 1 ≤ leases e) then
        modifies (λ c, set_entries (move_to_end scope_id (mkEntry (lock_of e) (leases e - 1)) (entries c)) c) ;;
        trim ;;
        observe
      else lift (Err (RuntimeError "scope cache lease invariant violated"))
  | None => lift (Err (RuntimeError "scope cache lease invariant violated"))
  end.

Definition lock (scope_id : text) : M cache nat := reads (λ c,
  match dget scope_id (entries c) with
  | Some e => raise_if (leases e < 1) (RuntimeError "scope cache entry is not leased") ;; Ok (lock_of e)
  | None => Err (RuntimeError "scope cache entry is not leased")
  end).

Definition clear : M cache unit :=
  reads (λ c, raise_if (Exists (λ p : text * entry, 0 < leases p.2) (entries c))
                (RuntimeError "cannot clear active scope cache entries")) ;;
  scopes ← gets (λ c, (entries c).*1);
  for_each evict scopes ;;
  observe.

(** ** Invariant

    [out]: the leases in progress, with the entry object each operation holds. *)

Definition held (scope_id : text) (out : list (text * nat)) : Z :=
  size_of (filter (λ x : text * nat, x.1 = scope_id) out).

Record tracks (c : cache) (out : list (text * nat)) : Prop := {
  tracks_keys : NoDup (entries c).*1;
  tracks_leases sc e : (sc, e) ∈ entries c → leases e = held sc out;
  tracks_objects sc t : (sc, t) ∈ out → ∃ e, (sc, e) ∈ entries c ∧ lock_of e = t
}.

(** Over capacity only while every cached Scope is active. *)
Definition bounded (c : cache) : Prop :=
  size_of (entries c) ≤ capacity c ∨ ∀ sc e, (sc, e) ∈ entries c → leases e ≠ 0.

Definition inv (c : cache) (out : list (text * nat)) : Prop := tracks c out ∧ bounded c.

(** What evictions do: they remove inactive Scopes until the cache fits or none is left. *)
Record swept (over : cache → Prop) (c c' : cache) : Prop := {
  swept_capacity : capacity c' = capacity c;
  swept_next : next_object c' = next_object c;
  swept_seen : observations c' = observations c;
  swept_gone : ∃ gone, evictions c' = evictions c ++ gone ∧
    (∀ sc, sc ∈ gone → ∃ e, (sc, e) ∈ entries c ∧ leases e = 0) ∧
    entries c' = filter (λ p : text * entry, p.1 ∉ gone) (entries c);
  swept_fits : ¬ over c' ∨ ∀ sc e, (sc, e) ∈ entries c' → leases e ≠ 0
}.

Lemma oldest_inactive_none c : oldest_inactive_scope c = None → ∀ sc e, (sc, e) ∈ entries c → leases e ≠ 0.
Proof.
  unfold oldest_inactive_scope. intros H sc e He H0.
  destruct (filter _ (entries c)) as [|p l] eqn:E; [|done].
  apply (not_elem_of_nil (A := text * entry) (sc, e)). rewrite <- E. by apply list_elem_of_filter.
Qed.

Lemma oldest_inactive_some c sc : oldest_inactive_scope c = Some sc →
  ∃ e, (sc, e) ∈ entries c ∧ leases e = 0.
Proof.
  unfold oldest_inactive_scope. intros H. destruct (filter _ (entries c)) as [|[k e] l] eqn:E; [done|].
  injection H as ->. exists e. assert (Hin : (sc, e) ∈ (sc, e) :: l) by left. rewrite <- E in Hin.
  by apply list_elem_of_filter in Hin as [? ?].
Qed.

Lemma evict_ok c sc e : NoDup (entries c).*1 → (sc, e) ∈ entries c → leases e = 0 →
  evict sc c = Ok (tt, mkCache (capacity c) (ddel sc (entries c)) (next_object c)
                         (evictions c ++ [sc]) (observations c)).
Proof.
  intros Hnd He H0. unfold evict. rewrite (dget_Some_elem _ e) by done. by rewrite decide_False by lia.
Qed.

Lemma ddel_length_lt {A} (k : text) (v : A) (d : dict text A) :
  (k, v) ∈ d → (length (ddel k d) < length d)%nat.
Proof.
  unfold ddel. induction d as [|p d IH]; [by intros ?%not_elem_of_nil|].
  intros Hin. rewrite filter_cons. assert (Hle : (length (filter (λ p : text * A, p.1 ≠ k) d) ≤ length d)%nat).
  { apply length_filter. }
  case_decide as Hp; simpl; [|lia]. apply elem_of_cons in Hin as [<-|Hin]; [done|]. specialize (IH Hin). lia.
Qed.

Lemma evict_while_ok over `{!∀ c, Decision (over c)} fuel c :
  NoDup (entries c).*1 → (length (entries c) ≤ fuel)%nat →
  ∃ c', evict_while over fuel c = Ok (tt, c') ∧ swept over c c'.
Proof.
  assert (Hdone : ∀ c, ¬ over c ∨ (∀ sc e, (sc, e) ∈ entries c → leases e ≠ 0) → swept over c c).
  { intros c0 Hc. split; try done. exists []. split_and!; [by rewrite app_nil_r|by intros ? ?%not_elem_of_nil|].
    symmetry. apply filter_all. intros x _. apply not_elem_of_nil. }
  revert c. induction fuel as [|fuel IH]; intros c Hnd Hlen; simpl.
  - destruct (entries c) as [|p d] eqn:E; [|simpl in Hlen; lia].
    assert (Hno : oldest_inactive_scope c = None) by (unfold oldest_inactive_scope; by rewrite E).
    exists c. rewrite Hno. split; [by case_decide|]. apply Hdone. right. by apply oldest_inactive_none.
  - case_decide as Hover; [|exists c; split; [done|]; apply Hdone; by left].
    destruct (oldest_inactive_scope c) as [sc|] eqn:Hold.
    2: { exists c. split; [done|]. apply Hdone. right. by apply oldest_inactive_none. }
    apply oldest_inactive_some in Hold as (e & He & H0).
    unfold mbind, M_bind. rewrite (evict_ok c sc e) by done.
    match goal with |- context [evict_while over fuel ?c1] => destruct (IH c1) as (c' & Hr & S) end.
    { simpl. by apply ddel_NoDup. }
    { simpl. pose proof (ddel_length_lt sc e (entries c) He). lia. }
    exists c'. split; [done|]. destruct S as [S1 S2 S3 (gone & G1 & G2 & G3) S5]. simpl in *.
    split; try done. exists (sc :: gone). split_and!.
    + by rewrite G1, <- app_assoc.
    + intros sc' [->|Hin]%elem_of_cons; [by exists e|]. destruct (G2 _ Hin) as (e' & [? _]%ddel_elem & ?).
      by exists e'.
    + rewrite G3. unfold ddel. rewrite list_filter_filter. apply list_filter_iff.
      intros p. rewrite not_elem_of_cons. tauto.
Qed.

Lemma held_nonneg sc out : 0 ≤ held sc out.
Proof. unfold held, size_of. lia. Qed.

Lemma held_cons sc sc' t out : held sc ((sc', t) :: out) = held sc out + (if decide (sc' = sc) then 1 else 0).
Proof.
  unfold held, size_of. rewrite filter_cons. simpl. repeat case_decide; simpl; try done; lia.
Qed.

Lemma held_pos sc t out : (sc, t) ∈ out → 1 ≤ held sc out.
Proof.
  intros H. unfold held, size_of. assert (Hin : (sc, t) ∈ filter (λ x : text * nat, x.1 = sc) out).
  { by apply list_elem_of_filter. }
  destruct (filter _ out); [by apply not_elem_of_nil in Hin|simpl; lia].
Qed.

Lemma held_perm sc out out' : out ≡ₚ out' → held sc out = held sc out'.
Proof. intros H. unfold held, size_of. by rewrite H. Qed.

Lemma held_none sc out : (∀ t, (sc, t) ∉ out) → held sc out = 0.
Proof.
  intros H. unfold held. rewrite filter_none; [done|]. intros [sc' t] Hin Heq. simpl in Heq. subst. by apply (H t).
Qed.

Lemma move_to_end_elem sc e d p : p ∈ move_to_end sc e d ↔ (p ∈ d ∧ p.1 ≠ sc) ∨ p = (sc, e).
Proof.
  unfold move_to_end. rewrite elem_of_app, ddel_elem. by rewrite list_elem_of_singleton.
Qed.

Lemma move_to_end_keys sc e d : NoDup d.*1 → NoDup (move_to_end sc e d).*1.
Proof.
  intros H. unfold move_to_end. rewrite fmap_app. apply NoDup_app. split_and!.
  - by apply ddel_NoDup.
  - intros k (p & -> & [_ Hp]%ddel_elem)%list_elem_of_fmap Hk%list_elem_of_singleton. done.
  - apply NoDup_singleton.
Qed.

Lemma move_to_end_size sc e e' d : NoDup d.*1 → (sc, e) ∈ d → size_of (move_to_end sc e' d) = size_of d.
Proof.
  intros Hnd Hin. assert (Hp : d.*1 ≡ₚ (move_to_end sc e' d).*1).
  { apply NoDup_Permutation; [done|by apply move_to_end_keys|]. intros k. rewrite !list_elem_of_fmap. split.
    - intros (p & -> & Hp). destruct (decide (p.1 = sc)) as [Hk|].
      + exists (sc, e'). split; [done|]. apply move_to_end_elem. by right.
      + exists p. split; [done|]. apply move_to_end_elem. by left.
    - intros (p & -> & Hp). apply move_to_end_elem in Hp as [[Hp _]|Hp]; [by exists p|].
      subst p. by exists (sc, e). }
  unfold size_of. apply Permutation_length in Hp. rewrite !length_fmap in Hp. by rewrite Hp.
Qed.

Lemma NoDup_fst_inj {A} (d : dict text A) k v v' : NoDup d.*1 → (k, v) ∈ d → (k, v') ∈ d → v = v'.
Proof.
  intros Hnd H1%dget_Some_elem H2%dget_Some_elem; try done. congruence.
Qed.

(** Evictions keep what the operations in progress hold. *)
Lemma swept_tracks over c c' out : tracks c out → swept over c c' →
  tracks c' out ∧ ∃ gone, evictions c' = evictions c ++ gone ∧
    (∀ sc t, sc ∈ gone → (sc, t) ∉ out) ∧ (∀ p, p ∈ entries c' → p ∈ entries c).
Proof.
  intros [T1 T2 T3] [_ _ _ (gone & G1 & G2 & G3) _].
  assert (Hgone : ∀ sc t, sc ∈ gone → (sc, t) ∉ out).
  { intros sc t (e & He & H0)%G2 Hin%held_pos. rewrite (T2 _ _ He) in H0. lia. }
  split; [|exists gone; split_and!; [done|done|]; intros p; rewrite G3; by intros [_ ?]%list_elem_of_filter].
  split; rewrite G3.
  - clear -T1. induction (entries c) as [|p d IH]; [done|]. rewrite fmap_cons in T1.
    apply NoDup_cons in T1 as [Hp Hd]. rewrite filter_cons. case_decide; [|auto]. rewrite fmap_cons.
    constructor; [|auto]. intros (q & Hq & [_ Hin]%list_elem_of_filter)%list_elem_of_fmap. apply Hp.
    rewrite Hq. apply list_elem_of_fmap. by exists q.
  - intros sc e [_ He]%list_elem_of_filter. auto.
  - intros sc t Hin. destruct (T3 _ _ Hin) as (e & He & Ht). exists e. split; [|done].
    apply list_elem_of_filter. split; [|done]. simpl. intros Hg. by apply (Hgone sc t).
Qed.

(** Changing the leases of one Scope by the operation that enters or leaves. *)
Lemma bump_tracks c out out' sc e n :
  tracks c out → (sc, e) ∈ entries c →
  n = held sc out' → (∀ sc', sc' ≠ sc → held sc' out' = held sc' out) →
  (∀ sc' t, (sc', t) ∈ out' → (sc', t) ∈ out ∨ (sc', t) = (sc, lock_of e)) →
  tracks (set_entries (move_to_end sc (mkEntry (lock_of e) n) (entries c)) c) out'.
Proof.
  intros [T1 T2 T3] He Hn Hother Hout. split; simpl.
  - by apply move_to_end_keys.
  - intros sc' e' [[Hin Hne]|[= -> ->]]%move_to_end_elem; [|done]. simpl in Hne.
    rewrite (T2 _ _ Hin). by rewrite Hother.
  - intros sc' t Hin. destruct (Hout _ _ Hin) as [Hold|[= -> ->]].
    + destruct (T3 _ _ Hold) as (e' & He' & Ht). destruct (decide (sc' = sc)) as [->|Hne].
      * exists (mkEntry (lock_of e) n). split; [apply move_to_end_elem; by right|]. simpl. rewrite <- Ht.
        f_equal. eapply (NoDup_fst_inj (entries c)); done.
      * exists e'. split; [|done]. apply move_to_end_elem. by left.
    + eexists. split; [apply move_to_end_elem; by right|]. done.
Qed.

Lemma dset_fresh {A} (k : text) (v : A) d : k ∉ d.*1 → dset k v d = d ++ [(k, v)].
Proof.
  induction d as [|[j w] d IH]; [done|]. rewrite fmap_cons, not_elem_of_cons. simpl. intros [Hk Hd].
  rewrite decide_False by done. by rewrite IH.
Qed.

(** What one operation may evict: Scopes on which nobody holds a lease. *)
Definition spares (c c' : cache) (out : list (text * nat)) : Prop :=
  ∃ gone, evictions c' = evictions c ++ gone ∧ ∀ sc t, sc ∈ gone → (sc, t) ∉ out.

Lemma spares_refl c c' out : evictions c' = evictions c → spares c c' out.
Proof. intros E. exists []. split; [by rewrite app_nil_r|]. by intros ? ? ?%not_elem_of_nil. Qed.

(** The entry [enter] works on: the known one, or a new one after making room. *)
Lemma room_ok c out sc : inv c out → 1 ≤ capacity c → dget sc (entries c) = None →
  ∃ c1, (make_room ;; add_entry sc) c = Ok (mkEntry (next_object c) 0, c1) ∧
    tracks c1 out ∧ (sc, mkEntry (next_object c) 0) ∈ entries c1 ∧ capacity c1 = capacity c ∧
    next_object c1 = S (next_object c) ∧ held sc out = 0 ∧ (∀ t, (sc, t) ∉ out) ∧
    (∃ gone, evictions c1 = evictions c ++ gone ∧ sc ∉ gone ∧ ∀ sc t, sc ∈ gone → (sc, t) ∉ out) ∧
    (size_of (entries c1) ≤ capacity c1 ∨
     ∀ sc' e, (sc', e) ∈ entries c1 → sc' ≠ sc → leases e ≠ 0).
Proof.
  intros [T B] Hcap Hnone. assert (Hkey : sc ∉ (entries c).*1).
  { intros Hk%dget_is_Some. rewrite Hnone in Hk. by apply is_Some_None in Hk. }
  assert (Hno : ∀ t, (sc, t) ∉ out).
  { intros t (e & He & _)%(tracks_objects _ _ T). apply Hkey. apply list_elem_of_fmap. by exists (sc, e). }
  unfold make_room, mbind, M_bind.
  match goal with |- context [evict_while ?o _] =>
    destruct (evict_while_ok o (length (entries c)) c (tracks_keys _ _ T) ltac:(done)) as (c1 & -> & S) end.
  destruct (swept_tracks _ _ _ _ T S) as (T1 & gone & G1 & G2 & G3).
  assert (Hkey1 : sc ∉ (entries c1).*1).
  { intros (p & -> & Hp)%list_elem_of_fmap. apply Hkey. apply list_elem_of_fmap. by exists p; auto. }
  destruct S as [S1 S2 S3 (gone' & G1' & G2' & G3') S5]. rewrite G1 in G1'. apply app_inv_head in G1'. subst gone'.
  unfold add_entry. eexists. rewrite S2. split; [done|]. simpl. rewrite dset_fresh by done.
  split_and!; try done; try lia.
  - destruct T1 as [K1 K2 K3]. split; simpl.
    + rewrite fmap_app. apply NoDup_app. split_and!; [done| |apply NoDup_singleton].
      by intros k Hk ->%list_elem_of_singleton.
    + intros sc' e [He|Heq%list_elem_of_singleton]%elem_of_app; [by apply K2|].
      injection Heq as -> ->. simpl. by rewrite held_none.
    + intros sc' t Hin. destruct (K3 _ _ Hin) as (e & He & Ht). exists e. split; [|done].
      apply elem_of_app. by left.
  - apply elem_of_app. right. by left.
  - by apply held_none.
  - exists gone. split_and!; [done| |done]. intros (e & He & _)%G2'. apply Hkey.
    apply list_elem_of_fmap. by exists (sc, e).
  - unfold size_of in *. rewrite length_app. simpl. destruct S5 as [S5|S5]; [left; lia|right].
    intros sc' e [He|Heq%list_elem_of_singleton]%elem_of_app Hne; [by eapply S5|]. by injection Heq as -> _.
Qed.

Lemma enter_ok c out sc : inv c out → 1 ≤ capacity c →
  ∃ t c', enter sc c = Ok (t, c') ∧ inv c' ((sc, t) :: out) ∧ capacity c' = capacity c ∧
    spares c c' ((sc, t) :: out).
Proof.
  intros I Hcap. unfold enter.
  assert (Hfresh : ∃ e c1, match dget sc (entries c) with Some e => mret e | None => make_room ;; add_entry sc end c
      = Ok (e, c1) ∧ tracks c1 out ∧ (sc, e) ∈ entries c1 ∧ capacity c1 = capacity c ∧
      (∃ gone, evictions c1 = evictions c ++ gone ∧ sc ∉ gone ∧ ∀ sc t, sc ∈ gone → (sc, t) ∉ out) ∧
      (size_of (entries c1) ≤ capacity c1 ∨
       ∀ sc' e', (sc', e') ∈ entries c1 → sc' ≠ sc → leases e' ≠ 0)).
  { destruct (dget sc (entries c)) as [e|] eqn:He.
    - exists e, c. destruct I as [T B]. split_and!; try done; [by apply dget_elem| |].
      + exists []. split_and!; [by rewrite app_nil_r|by apply not_elem_of_nil|]. by intros ? ? ?%not_elem_of_nil.
      + destruct B as [B|B]; [by left|right; eauto].
    - destruct (room_ok c out sc I Hcap He) as (c1 & H1 & H2 & H3 & H4 & _ & _ & _ & H5 & H6). eauto 10. }
  destruct Hfresh as (e & c1 & Hrun & T & He & Hc1 & (gone & G1 & G2 & G3) & B).
  unfold gets, mbind, M_bind. cbn [fst snd]. unfold mbind, M_bind in Hrun. rewrite Hrun.
  unfold modifies, observe, mret, M_ret. simpl. eexists _, _. split; [done|].
  assert (Hle : leases e = held sc out) by by apply (tracks_leases _ _ T).
  split; [split|split; [done|]].
  - eapply (bump_tracks c1 out ((sc, lock_of e) :: out) sc e) in T; [|done| | |].
    + destruct T as [T1 T2 T3]. split; simpl in *; done.
    + rewrite held_cons, decide_True by done. by rewrite Hle.
    + intros sc' Hne. rewrite held_cons, decide_False by done. lia.
    + intros sc' t [Heq|Hin]%elem_of_cons; [right|left]; done.
  - unfold bounded. simpl. rewrite (move_to_end_size sc e) by (done || apply (tracks_keys _ _ T)).
    destruct B as [B|B]; [by left|right]. intros sc' e' [[Hin Hne]|[= -> ->]]%move_to_end_elem; [by eapply B|].
    simpl. pose proof (held_nonneg sc out). lia.
  - exists gone. simpl. split; [done|]. intros sc' t Hg [[= -> ->]|Hin]%elem_of_cons; [done|by eapply G3].
Qed.

Lemma leave_ok c out sc t : inv c ((sc, t) :: out) → 1 ≤ capacity c →
  ∃ c', leave sc t c = Ok (tt, c') ∧ inv c' out ∧ capacity c' = capacity c ∧ spares c c' out.
Proof.
  intros [T B] Hcap. destruct (tracks_objects _ _ T sc t) as (e & He & Ht); [left|].
  pose proof (tracks_leases _ _ T _ _ He) as Hle. rewrite held_cons, decide_True in Hle by done.
  pose proof (held_nonneg sc out). unfold leave, gets, mbind at 1, M_bind at 1.
  rewrite (dget_Some_elem _ e) by (done || apply (tracks_keys _ _ T)). rewrite decide_True by (split; [done|lia]).
  assert (T1 : tracks (set_entries (move_to_end sc (mkEntry (lock_of e) (leases e - 1)) (entries c)) c) out).
  { eapply (bump_tracks c ((sc, t) :: out) out sc e); [done|done|lia| |].
    - intros sc' Hne. rewrite held_cons, decide_False by done. lia.
    - intros sc' t' Hin. left. by right. }
  unfold modifies, mbind, M_bind. unfold trim.
  match goal with |- context [evict_while ?o _ ?c1] =>
    destruct (evict_while_ok o (length (entries c1)) c1 (tracks_keys _ _ T1) ltac:(done)) as (c2 & -> & S) end.
  destruct (swept_tracks _ _ _ _ T1 S) as (T2 & gone & G1 & G2 & _). destruct S as [S1 S2 S3 _ S5].
  unfold observe, modifies. eexists. split; [done|]. simpl in *. split; [split|split; [done|]].
  - destruct T2 as [K1 K2 K3]. by split.
  - unfold bounded. simpl. destruct S5 as [S5|S5]; [left; lia|by right].
  - by exists gone.
Qed.

Lemma inv_perm c out out' : out ≡ₚ out' → inv c out → inv c out'.
Proof.
  intros Hp [[T1 T2 T3] B]. split; [|done]. split; [done| |].
  - intros sc e He. rewrite <- (held_perm sc out out') by done. auto.
  - intros sc t. rewrite <- Hp. auto.
Qed.

Lemma evict_all c : NoDup (entries c).*1 → (∀ p, p ∈ entries c → ¬ 0 < leases p.2) →
  ∃ c', for_each evict (entries c).*1 c = Ok (tt, c') ∧ entries c' = [] ∧ capacity c' = capacity c.
Proof.
  remember (entries c) as d eqn:Hd. revert c Hd. induction d as [|[k e] d IH]; intros c Hd Hnd H0.
  - exists c. by rewrite <- Hd.
  - rewrite fmap_cons in Hnd |- *. apply NoDup_cons in Hnd as [Hk Hnd]. cbn [for_each fst] in *.
    unfold mbind, M_bind, evict at 1. rewrite <- Hd. simpl. rewrite decide_True by done.
    rewrite decide_False by (apply (H0 (k, e)); left).
    assert (Hdel : ddel k ((k, e) :: d) = d).
    { unfold ddel. rewrite filter_cons, decide_False by (intros Hne; by apply Hne). apply filter_all.
      intros [k' e'] Hin Heq. simpl in Heq. subst. apply Hk. apply list_elem_of_fmap. by exists (k, e'). }
    rewrite Hdel.
    match goal with |- context [for_each evict _ ?c1] => destruct (IH c1) as (c' & H1 & H2 & H3) end; try done.
    + intros p Hp. apply H0. by right.
    + exists c'. by split_and!.
Qed.

Lemma clear_ok c out c' : inv c out → clear c = Ok (tt, c') → out = [] ∧ inv c' [] ∧ capacity c' = capacity c.
Proof.
  intros [T B] H. unfold clear in H. apply M_bind_ok in H as ([] & ? & [Hno ->]%reads_ok & H).
  apply raise_if_ok in Hno.
  assert (H0 : ∀ p, p ∈ entries c → ¬ 0 < leases p.2).
  { intros p Hp H1. apply Hno. apply Exists_exists. by exists p. }
  apply M_bind_ok in H as (l & ? & [-> ->]%gets_ok & H).
  destruct (evict_all c (tracks_keys _ _ T) H0) as (c1 & Hev & He & Hc). apply M_bind_ok in H as ([] & c2 & H1 & H).
  rewrite Hev in H1. injection H1 as <-. unfold observe in H. apply modifies_ok in H as ->. split_and!; [| |done].
  - destruct out as [|[sc t] out]; [done|]. destruct (tracks_objects _ _ T sc t) as (e & Hin & _); [left|].
    specialize (H0 _ Hin). simpl in H0. rewrite (tracks_leases _ _ T _ _ Hin) in H0.
    pose proof (held_pos sc t ((sc, t) :: out) ltac:(left)). lia.
  - split; [split; simpl; rewrite He|].
    + constructor.
    + by intros ? ? ?%not_elem_of_nil.
    + by intros ? ? ?%not_elem_of_nil.
    + right. simpl. rewrite He. by intros ? ? ?%not_elem_of_nil.
Qed.

(** ** Operations in progress

    Any interleaving: an operation enters a Scope, some operation leaves, or the
    cache is cleared. *)
Inductive step : cache * list (text * nat) → cache * list (text * nat) → Prop :=
  | step_enter sc t c c' out : enter sc c = Ok (t, c') → step (c, out) (c', (sc, t) :: out)
  | step_leave sc t c c' before after :
      leave sc t c = Ok (tt, c') → step (c, before ++ (sc, t) :: after) (c', before ++ after)
  | step_clear c c' out : clear c = Ok (tt, c') → step (c, out) (c', out).

Lemma steps_inv x y : rtc step x y → 1 ≤ capacity x.1 → inv x.1 x.2 →
  inv y.1 y.2 ∧ capacity y.1 = capacity x.1.
Proof.
  induction 1 as [x|x y z Hxy _ IH]; intros Hcap I; [done|].
  assert (Hy : inv y.1 y.2 ∧ capacity y.1 = capacity x.1).
  { destruct Hxy as [sc t c c' out H|sc t c c' o1 o2 H|c c' out H]; simpl in *.
    - destruct (enter_ok c out sc I Hcap) as (t' & c2 & H2 & I2 & Hc & _). rewrite H in H2. by injection H2 as -> ->.
    - apply (inv_perm _ _ ((sc, t) :: o1 ++ o2)) in I; [|by rewrite Permutation_middle].
      destruct (leave_ok c _ sc t I Hcap) as (c2 & H2 & I2 & Hc & _). rewrite H in H2. by injection H2 as ->.
    - destruct (clear_ok c out c' I H) as (-> & ? & ?). done. }
  destruct Hy as [Iy Hc]. rewrite <- Hc. apply IH; [lia|done].
Qed.

(** The cache is bounded and never drops a Scope in use.  After any
    interleaving of operations, at most [n] Scopes are cached unless all of them are
    active; every operation in progress finds its lock, the same for all operations
    of a Scope, and leaves without error; no operation fails to enter; and what
    entering or leaving evicts is never a Scope that somebody holds. *)
Theorem cache_spares_active n c0 c out :
  new_cache n = Ok c0 → rtc step (c0, []) (c, out) →
  (size_of (entries c) ≤ n ∨ (counts c).1 = 0) ∧
  (∀ sc t, (sc, t) ∈ out → lock sc c = Ok (t, c)) ∧
  (∀ sc, ∃ t c', enter sc c = Ok (t, c') ∧ spares c c' ((sc, t) :: out)) ∧
  (∀ sc t before after, out = before ++ (sc, t) :: after →
     ∃ c', leave sc t c = Ok (tt, c') ∧ spares c c' (before ++ after)).
Proof.
  unfold new_cache. intros ([] & Hn%raise_if_ok & [= <-])%result_bind_ok Hsteps.
  apply steps_inv in Hsteps as [I Hcap]; simpl in *; [|lia|].
  2: { split; [split; simpl; [constructor|by intros ? ? ?%not_elem_of_nil..]|]. right.
       by intros ? ? ?%not_elem_of_nil. }
  pose proof I as [T B]. split_and!.
  - destruct B as [B|B]; [left; lia|right]. unfold counts. simpl. rewrite filter_none; [done|].
    intros [sc e] He. by apply (B sc).
  - intros sc t Hin. destruct (tracks_objects _ _ T _ _ Hin) as (e & He & <-). unfold lock, reads.
    rewrite (dget_Some_elem _ e) by (done || apply (tracks_keys _ _ T)). unfold raise_if.
    rewrite decide_False; [done|]. rewrite (tracks_leases _ _ T _ _ He). pose proof (held_pos _ _ _ Hin). lia.
  - intros sc. destruct (enter_ok c out sc I) as (t & c' & H1 & _ & _ & H2); [lia|]. by exists t, c'.
  - intros sc t o1 o2 ->. apply (inv_perm _ _ ((sc, t) :: o1 ++ o2)) in I; [|by rewrite Permutation_middle].
    destruct (leave_ok c _ sc t I) as (c' & H1 & _ & _ & H2); [lia|]. by exists c'.
Qed.

(** ** Concrete runs

    Capacity one: a second Scope enters while the first is held, and the first is
    evicted once it is left. *)
Definition cache_after {A} (r : result (A * cache)) : cache :=
  match r with Ok (_, c) => c | Err _ => mkCache 1 [] 0 [] [] end.
Definition demo_cache : cache := mkCache 1 [] 0 [] [(0, 0)].
Definition demo_one : cache := cache_after (enter (str "a") demo_cache).
Definition demo_two : cache := cache_after (enter (str "b") demo_one).
Definition demo_left : cache := cache_after (leave (str "a") 0 demo_two).

Example demo_evicts_after_leaving :
  (evictions demo_two, evictions demo_left, counts demo_two) = ([], [str "a"], (0, 2)).
Proof. vm_compute. reflexivity. Qed.

Lemma cache_spares_active_witness : lock (str "b") demo_left = Ok (1%nat, demo_left).
Proof.
  assert (H : rtc step (demo_cache, []) (demo_left, [(str "b", 1%nat)])).
  { eapply rtc_l; [apply (step_enter (str "a") 0%nat demo_cache demo_one); vm_compute; reflexivity|].
    eapply rtc_l; [apply (step_enter (str "b") 1%nat demo_one demo_two); vm_compute; reflexivity|].
    apply rtc_once. apply (step_leave (str "a") 0%nat demo_two demo_left [(str "b", 1%nat)] []).
    vm_compute. reflexivity. }
  apply (cache_spares_active 1 demo_cache demo_left [(str "b", 1%nat)] eq_refl H). left.
Defined.

End ScopeCache.
