(* ===== verification/Relatedness.v ===== *)
(** * Related Topic Memory proposals

    [builtin/artifacts/topic_memory/relatedness.py]: the bounded lexical signature
    of a proposal and the connected components of the relatedness graph, found
    with a union-find over proposal indices. *)

From S2P Require Import Prelude.
From Stdlib Require Import ZArith.

Module Relatedness.

Definition MAX_TOPIC_MEMORY_STAGE_ITEMS : nat := 20.
Definition MAX_TOPIC_MEMORY_QUERY_TERMS : nat := 64.
Definition MAX_TOPIC_MEMORY_QUERY_LENGTH : Z := 8192.

(** [TopicMemoryContent] and the fields of [TopicMemoryProposal] used here. *)
Record topic_content := mkTopic { title : text; summary : text; detail : text }.
Record proposal := mkProposal { candidate_id : option text; content : topic_content }.

Definition content_text (c : topic_content) : text := title c ++ [10%Z] ++ summary c ++ [10%Z] ++ detail c.

(** The third-party tokenizer and the floating-point distance of unit vectors:
    the words of a text, lexical admission of a query over a text, and semantic
    admission of two vectors. *)
Class Similarity := {
  vector : Type;
  lexical_query_words : text → list text;
  admits_fts_text : text → text → bool;
  admits_vectors : vector → vector → bool
}.

Section relatedness.
Context `{Similarity}.

(** ** Lexical signatures *)

(** A term's weight and the field and position where it first occurs. *)
Record weighed := mkWeighed { weight : Z; first : nat * nat }.

Definition weigh_word (field : nat) (w : Z) (acc : dict text weighed) (pw : nat * text) : dict text weighed :=
  let old := dget pw.2 acc in
  dset pw.2 (mkWeighed (match old with Some o => weight o | None => 0 end + w)
               (match old with Some o => first o | None => (field, pw.1) end)) acc.
Definition weigh_field (acc : dict text weighed) (f : nat * Z * text) : dict text weighed :=
  foldl (weigh_word f.1.1 f.1.2) acc (imap pair (lexical_query_words f.2)).
Definition weigh (c : topic_content) : dict text weighed :=
  foldl weigh_field [] [(0%nat, 8%Z, title c); (1%nat, 4%Z, summary c); (2%nat, 1%Z, detail c)].

(** Heavier first, then earlier, then by encoded term. *)
Definition term_le (a b : text * weighed) : Prop :=
  (weight b.2 < weight a.2)%Z ∨ weight a.2 = weight b.2 ∧
  ((first a.2).1 < (first b.2).1 ∨ (first a.2).1 = (first b.2).1 ∧
   ((first a.2).2 < (first b.2).2 ∨ (first a.2).2 = (first b.2).2 ∧ text_le a.1 b.1)).
#[local] Instance term_le_dec : RelDecision term_le.
Proof. intros a b. unfold term_le. apply _. Defined.

(** A selected term is quoted; a blank separates it from the previous one. *)
Definition select_term (acc : list text * Z) (word : text) : list text * Z :=
  let term := [34%Z] ++ word ++ [34%Z] in
  let additional := (len term + (if decide (acc.1 = []) then 0 else 1))%Z in
  if decide (MAX_TOPIC_MEMORY_QUERY_LENGTH < acc.2 + additional)%Z then acc
  else (acc.1 ++ [term], (acc.2 + additional)%Z).

Fixpoint join_blank (l : list text) : text :=
  match l with
  | [] => []
  | [t] => t
  | t :: l' => t ++ [32%Z] ++ join_blank l'
  end.

Definition lexical_signature (c : topic_content) : text :=
  join_blank (foldl select_term ([], 0%Z)
    (take MAX_TOPIC_MEMORY_QUERY_TERMS (merge_sort term_le (weigh c)).*1)).1.

(** ** Union-find over indices: [parents] maps an index to one not above it. *)

(** Path halving; every round moves to a smaller index. *)
Fixpoint find (fuel : nat) (parents : list nat) (index : nat) : list nat * nat :=
  match fuel with
  | O => (parents, index)
  | S fuel' =>
      let parent := parents !!! index in
      if decide (parent = index) then (parents, index)
      else
        let grandparent := parents !!! parent in
        find fuel' (<[index := grandparent]> parents) grandparent
  end.
Definition find_root (parents : list nat) (index : nat) : list nat * nat := find (S index) parents index.

Definition union (parents : list nat) (left right : nat) : list nat :=
  let l := find_root parents left in
  let r := find_root l.1 right in
  if decide (l.2 = r.2) then r.1 else <[Nat.max l.2 r.2 := Nat.min l.2 r.2]> r.1.

(** ** Relatedness of two proposals *)

Definition shares (a b : list text) : Prop := Exists (λ x, x ∈ b) a.
#[local] Instance shares_dec a b : Decision (shares a b).
Proof. unfold shares. apply _. Defined.

Definition related (proposals : list proposal) (secondary : list (list text)) (vectors : list (option vector))
    (signatures : list text) (i j : nat) : bool :=
  match proposals !! i, proposals !! j, secondary !! i, secondary !! j, signatures !! i, signatures !! j with
  | Some p, Some q, Some sp, Some sq, Some gp, Some gq =>
      bool_decide (candidate_id p ≠ None ∧ candidate_id p = candidate_id q) ||
      (bool_decide (shares sp sq) ||
       ((bool_decide (gp ≠ [] ∧ gq ≠ []) &&
         (admits_fts_text gp (content_text (content q)) && admits_fts_text gq (content_text (content p)))) ||
        match mjoin (vectors !! i), mjoin (vectors !! j) with
        | Some v, Some w => admits_vectors v w
        | _, _ => false
        end))
  | _, _, _, _, _, _ => false
  end.

(** [for left in range(n): for right in range(left + 1, n)]. *)
Definition pairs (n : nat) : list (nat * nat) :=
  i ← seq 0 n; (λ j, (i, j)) <$> seq (S i) (n - S i).

Definition join (edge : nat → nat → bool) (parents : list nat) (ij : nat * nat) : list nat :=
  if edge ij.1 ij.2 then union parents ij.1 ij.2 else parents.

(** [groups.setdefault(find(index), []).append(index)]. *)
Definition group (acc : list nat * dict nat (list nat)) (index : nat) : list nat * dict nat (list nat) :=
  let r := find_root acc.1 index in
  (r.1, dset r.2 (default [] (dget r.2 acc.2) ++ [index]) acc.2).

Definition group_le (a b : nat * list nat) : Prop := a.1 ≤ b.1.
#[export] Instance group_le_dec : RelDecision group_le := λ a b, decide (a.1 ≤ b.1).

Definition components (n : nat) (edge : nat → nat → bool) : list (list nat) :=
  let parents := foldl (join edge) (seq 0 n) (pairs n) in
  (merge_sort group_le (foldl group (parents, []) (seq 0 n)).2).*2.

Definition related_components (proposals : list proposal) (secondary : list (list text))
    (vectors : list (option vector)) (signatures : option (list text)) : result (list (list nat)) :=
  let n := length proposals in
  raise_if (MAX_TOPIC_MEMORY_STAGE_ITEMS < n ∨ length secondary ≠ n)
    (ValueError "Topic Memory relatedness input exceeds its bounded contract") ;;
  raise_if (vectors ≠ [] ∧ length vectors ≠ n)
    (ValueError "Topic Memory relatedness vectors must cover every proposal") ;;
  let signed := default (lexical_signature ∘ content <$> proposals) signatures in
  raise_if (length signed ≠ n)
    (ValueError "Topic Memory relatedness signatures must cover every proposal") ;;
  let found := components n (related proposals secondary vectors signed) in
  raise_if (Exists (λ c : list nat, MAX_TOPIC_MEMORY_STAGE_ITEMS < length c) found)
    (ValueError "Topic Memory related component exceeds its bounded contract") ;;
  Ok found.
End relatedness.

(** ** Correctness of the union-find *)

Definition forest (n : nat) (p : list nat) : Prop := length p = n ∧ ∀ i, i < n → p !!! i ≤ i.

(** The root of an index: follow the parents. *)
Fixpoint root_in (fuel : nat) (p : list nat) (i : nat) : nat :=
  match fuel with
  | O => i
  | S fuel' => if decide (p !!! i = i) then i else root_in fuel' p (p !!! i)
  end.
Definition root (p : list nat) (i : nat) : nat := root_in (S i) p i.

Lemma root_in_fuel n p i f g : forest n p → i < n → i < f → i < g → root_in f p i = root_in g p i.
Proof.
  intros [Hl Hp]. revert i g. induction f as [|f IH]; intros i g Hi Hf Hg; [lia|].
  destruct g as [|g]; [lia|]. simpl. case_decide as Hr; [done|].
  specialize (Hp i Hi). apply IH; lia.
Qed.

Lemma root_step n p i : forest n p → i < n →
  root p i = if decide (p !!! i = i) then i else root p (p !!! i).
Proof.
  intros Hf Hi. unfold root at 1. cbn [root_in]. destruct (decide (p !!! i = i)) as [|Hne]; [done|].
  pose proof (proj2 Hf i Hi). unfold root. apply (root_in_fuel n); [done|lia..].
Qed.

Lemma root_fixed n p i : forest n p → i < n → root p i ≤ i ∧ p !!! root p i = root p i.
Proof.
  intros Hf. induction i as [i IH] using lt_wf_ind. intros Hi. rewrite (root_step n) by done.
  case_decide as Hr; [lia|]. pose proof (proj2 Hf i Hi). destruct (IH (p !!! i)); [lia..|]. split; [lia|done].
Qed.

Lemma forest_update n p i j : forest n p → i < n → j ≤ i → forest n (<[i := j]> p).
Proof.
  intros [Hl Hp] Hi Hj. split; [by rewrite length_insert|]. intros k Hk.
  destruct (decide (k = i)) as [->|Hne]; [by rewrite list_lookup_total_insert_eq by lia|].
  rewrite list_lookup_total_insert_ne by done. auto.
Qed.

(** Replacing the parent of [i] by another index with the same root keeps every root. *)
Lemma root_shortcut n p i j : forest n p → i < n → j ≤ i → j < i ∨ p !!! i = i → root p j = root p i →
  ∀ k, k < n → root (<[i := j]> p) k = root p k.
Proof.
  intros Hf Hi Hj Hlt Hr k. induction k as [k IH] using lt_wf_ind. intros Hk.
  pose proof (forest_update n p i j Hf Hi Hj) as Hf'.
  rewrite (root_step n) by done. destruct (decide (k = i)) as [->|Hne].
  - rewrite list_lookup_total_insert_eq by (destruct Hf; lia). case_decide as Hji.
    + subst j. destruct Hlt as [Hlt|Hlt]; [lia|]. rewrite (root_step n), decide_True; done.
    + rewrite IH by lia. done.
  - rewrite list_lookup_total_insert_ne by done. rewrite (root_step n p k) by done. case_decide; [done|].
    pose proof (proj2 Hf k Hk). apply IH; lia.
Qed.

Lemma find_ok n p i fuel : forest n p → i < n → i < fuel →
  ∃ p', find fuel p i = (p', root p i) ∧ forest n p' ∧ ∀ k, k < n → root p' k = root p k.
Proof.
  revert p i. induction fuel as [|fuel IH]; intros p i Hf Hi Hlt; [lia|]. simpl.
  pose proof (root_step n p i Hf Hi) as Hri. case_decide as Hr; [by exists p; rewrite Hri|].
  pose proof (proj2 Hf i Hi) as H1. pose proof (proj2 Hf (p !!! i)) as H2.
  assert (Hg : root p (p !!! (p !!! i)) = root p i).
  { rewrite Hri, (root_step n p (p !!! i)) by (done || lia). case_decide as E; [|done].
    rewrite E. rewrite (root_step n) by (done || lia). by rewrite decide_True. }
  assert (Hs : ∀ k, k < n → root (<[i := p !!! (p !!! i)]> p) k = root p k).
  { apply (root_shortcut n); [done|lia|lia|lia|done]. }
  destruct (IH (<[i := p !!! (p !!! i)]> p) (p !!! (p !!! i))) as (p' & E & F & K); [|lia..|].
  { apply forest_update; [done|lia..]. }
  exists p'. rewrite E, Hs, Hg by lia. split_and!; [done|done|]. intros k Hk. rewrite K by done. by apply Hs.
Qed.

Lemma union_ok n p l r : forest n p → l < n → r < n →
  forest n (union p l r) ∧ ∀ k, k < n → root (union p l r) k =
    if decide (root p k = root p l ∨ root p k = root p r) then Nat.min (root p l) (root p r) else root p k.
Proof.
  intros Hf Hl Hr. unfold union, find_root.
  destruct (find_ok n p l (S l) Hf Hl) as (p1 & -> & F1 & K1); [lia|]. cbn [fst snd].
  destruct (find_ok n p1 r (S r) F1 Hr) as (p2 & -> & F2 & K2); [lia|]. cbn [fst snd]. rewrite K1 by done.
  assert (K : ∀ k, k < n → root p2 k = root p k) by (intros k Hk; rewrite K2, K1; done).
  destruct (root_fixed n p l Hf Hl) as [L1 L2]. destruct (root_fixed n p r Hf Hr) as [R1 R2].
  assert (Rl : root p (root p l) = root p l).
  { rewrite (root_step n) by (done || lia). by rewrite decide_True. }
  assert (Rr : root p (root p r) = root p r).
  { rewrite (root_step n) by (done || lia). by rewrite decide_True. }
  case_decide as Heq.
  - split; [done|]. intros k Hk. rewrite K by done. case_decide; [|done]. rewrite Heq in *. lia.
  - set (a := root p l) in *. set (b := root p r) in *.
    assert (Hmax : Nat.max a b < n) by lia.
    pose proof (forest_update n p2 (Nat.max a b) (Nat.min a b) F2 Hmax ltac:(lia)) as F3. split; [done|].
    intros k. induction k as [k IH] using lt_wf_ind. intros Hk. rewrite (root_step n) by done.
    destruct (decide (k = Nat.max a b)) as [->|Hne].
    + rewrite list_lookup_total_insert_eq by (destruct F2; lia). rewrite decide_False by lia.
      rewrite IH by lia. assert (root p (Nat.max a b) = Nat.max a b) as ->.
      { destruct (Nat.max_spec a b) as [[_ ->]|[_ ->]]; done. }
      assert (root p (Nat.min a b) = Nat.min a b) as ->.
      { destruct (Nat.min_spec a b) as [[_ ->]|[_ ->]]; done. }
      rewrite !decide_True by lia. done.
    + rewrite list_lookup_total_insert_ne by done. pose proof (root_step n p2 k F2 Hk) as Hstep.
      rewrite K in Hstep by done. case_decide as Hfix.
      * rewrite <- Hstep. rewrite Hstep. case_decide; [|done]. lia.
      * pose proof (proj2 F2 k Hk). rewrite IH by lia. rewrite K in Hstep by lia. by rewrite Hstep.
Qed.

(** ** Connectivity *)

Definition same_root (p : list nat) (i j : nat) : Prop := root p i = root p j.

(** The relation [E] extended by one edge, closed as an equivalence. *)
Definition add_edge (E : nat → nat → Prop) (a b i j : nat) : Prop := E i j ∨ i = a ∧ j = b.

Lemma rtsc_mono (E F : nat → nat → Prop) i j : (∀ x y, E x y → F x y) → rtsc E i j → rtsc F i j.
Proof. intros HEF. apply (rtsc_congruence (λ x, x)). auto. Qed.

Lemma union_connects n p E a b : forest n p → a < n → b < n → (∀ x y, E x y → x < n ∧ y < n) →
  (∀ i j, i < n → j < n → same_root p i j ↔ rtsc E i j) →
  ∀ i j, i < n → j < n → same_root (union p a b) i j ↔ rtsc (add_edge E a b) i j.
Proof.
  intros Hf Ha Hb HE Hp i j Hi Hj. destruct (union_ok n p a b Hf Ha Hb) as [_ Hu].
  assert (Hchar : ∀ i j, i < n → j < n → same_root (union p a b) i j ↔
    same_root p i j ∨ (same_root p i a ∨ same_root p i b) ∧ (same_root p j a ∨ same_root p j b)).
  { clear i j Hi Hj. intros i j Hi Hj. unfold same_root. rewrite !Hu by done.
    destruct (Nat.min_spec (root p a) (root p b)) as [[_ Hm]|[_ Hm]]; rewrite Hm;
      repeat case_decide; intuition congruence. }
  rewrite Hchar by done. split.
  - assert (Hup : ∀ x y, x < n → y < n → same_root p x y → rtsc (add_edge E a b) x y).
    { intros x y Hx Hy Hs. apply (rtsc_mono E); [by left|]. by apply Hp. }
    assert (Hab : rtsc (add_edge E a b) a b) by (apply rtc_once; left; by right).
    assert (Hba : rtsc (add_edge E a b) b a) by (by symmetry).
    intros [Hs|[[H1|H1] [H2|H2]]]; [by apply Hup| | | |].
    + etrans; [apply (Hup _ a); done|]. apply Hup; done.
    + etrans; [apply (Hup _ a); done|]. etrans; [exact Hab|]. apply Hup; done.
    + etrans; [apply (Hup _ b); done|]. etrans; [exact Hba|]. apply Hup; done.
    + etrans; [apply (Hup _ b); done|]. apply Hup; done.
  - intros Hr. revert Hi. induction Hr as [|x y z Hxy Hyz IH]; intros Hx; [by left|].
    assert (Hedge : ∀ x y, x < n → add_edge E a b x y → y < n ∧
      (same_root p x y ∨ (same_root p x a ∨ same_root p x b) ∧ (same_root p y a ∨ same_root p y b))).
    { intros u v Hu' [Huv|[-> ->]]; [|split; [done|right; split; [left|right]; done]].
      destruct (HE _ _ Huv). split; [done|]. left. apply Hp; [done..|]. apply rtc_once. by left. }
    assert (Hy : y < n ∧ (same_root p x y ∨
      (same_root p x a ∨ same_root p x b) ∧ (same_root p y a ∨ same_root p y b))).
    { destruct Hxy as [Hxy|Hxy]; [by apply Hedge|].
      assert (Hy : y < n) by (destruct Hxy as [Hxy|[-> _]]; [by destruct (HE _ _ Hxy)|done]).
      split; [done|]. destruct (Hedge y x Hy Hxy) as [_ [Hs|Hs]]; [by left|right; tauto]. }
    destruct Hy as [Hy Hs]. specialize (IH Hj Hy). unfold same_root in *. intuition congruence.
Qed.

Lemma joins_connect n edge l p E : forest n p → (∀ x y, E x y → x < n ∧ y < n) →
  (∀ ij, ij ∈ l → ij.1 < n ∧ ij.2 < n) →
  (∀ i j, i < n → j < n → same_root p i j ↔ rtsc E i j) →
  forest n (foldl (join edge) p l) ∧
  ∀ i j, i < n → j < n →
    same_root (foldl (join edge) p l) i j ↔ rtsc (λ x y, E x y ∨ (x, y) ∈ l ∧ edge x y = true) i j.
Proof.
  revert p E. induction l as [|[a b] l IH]; intros p E Hf HE Hl Hp; simpl.
  - split; [done|]. intros i j Hi Hj. rewrite Hp by done. split; apply rtsc_mono; [by left|].
    intros x y [Hxy|[Hxy _]]; [done|by apply not_elem_of_nil in Hxy].
  - destruct (Hl (a, b)) as [Ha Hb]; [left|]. simpl in Ha, Hb.
    change (join edge p (a, b)) with (if edge a b then union p a b else p). destruct (edge a b) eqn:Hab.
    + destruct (IH (union p a b) (add_edge E a b)) as [F C].
      * by apply union_ok.
      * intros x y [Hxy|[-> ->]]; auto.
      * intros ij Hij. apply Hl. by right.
      * by apply (union_connects n).
      * split; [done|]. intros i j Hi Hj. rewrite C by done. split; apply rtsc_mono; intros x y.
        -- intros [[Hxy|[-> ->]]|[Hxy He]]; [by left|right; split; [left|done]|right; split; [by right|done]].
        -- intros [Hxy|[[Hxy|Hxy]%elem_of_cons He]]; [by left; left| |by right].
           left. right. by injection Hxy.
    + destruct (IH p E) as [F C]; try done; [intros ij Hij; apply Hl; by right|].
      split; [done|]. intros i j Hi Hj. rewrite C by done. split; apply rtsc_mono; intros x y.
      * intros [Hxy|[Hxy He]]; [by left|right; split; [by right|done]].
      * intros [Hxy|[[Hxy|Hxy]%elem_of_cons He]]; [by left| |by right].
        injection Hxy as -> ->. by rewrite Hab in He.
Qed.

Lemma pairs_elem n i j : (i, j) ∈ pairs n ↔ i < j ∧ j < n.
Proof.
  unfold pairs. rewrite list_elem_of_bind. split.
  - intros (x & Hx & Hin). apply list_elem_of_fmap in Hx as (y & [= -> ->] & Hy).
    apply elem_of_seq in Hin, Hy. lia.
  - intros [Hij Hj]. exists i. split; [|apply elem_of_seq; lia].
    apply list_elem_of_fmap. exists j. split; [done|]. apply elem_of_seq. lia.
Qed.

Lemma seq_forest n : forest n (seq 0 n) ∧ ∀ i, i < n → root (seq 0 n) i = i.
Proof.
  assert (Hs : ∀ i, i < n → seq 0 n !!! i = i).
  { intros i Hi. apply list_lookup_total_correct. rewrite lookup_seq. lia. }
  assert (Hf : forest n (seq 0 n)) by (split; [by rewrite length_seq|intros i Hi; rewrite Hs; lia]).
  split; [done|]. intros i Hi. rewrite (root_step n) by done. by rewrite Hs, decide_True by done.
Qed.

(** The edges of the relatedness graph. *)
Definition linked (n : nat) (edge : nat → nat → bool) (i j : nat) : Prop := i < j ∧ j < n ∧ edge i j = true.

Lemma parents_connect n edge :
  let p := foldl (join edge) (seq 0 n) (pairs n) in
  forest n p ∧ ∀ i j, i < n → j < n → same_root p i j ↔ rtsc (linked n edge) i j.
Proof.
  destruct (seq_forest n) as [Hf Hr].
  destruct (joins_connect n edge (pairs n) (seq 0 n) (λ _ _, False)) as [F C]; try done.
  - intros [i j] [? ?]%pairs_elem. simpl. lia.
  - intros i j Hi Hj. unfold same_root. rewrite !Hr by done. split; [by intros ->|].
    intros H. by induction H as [|x y z [[]|[]]].
  - split; [done|]. intros i j Hi Hj. rewrite C by done. split; apply rtsc_mono; intros x y; unfold linked.
    + intros [[]|[[? ?]%pairs_elem ?]]. done.
    + intros (? & ? & ?). right. by rewrite pairs_elem.
Qed.

(** ** Grouping *)

Definition members (p : list nat) (r : nat) (l : list nat) : list nat := filter (λ i, root p i = r) l.

Record grouped (n : nat) (p : list nat) (l : list nat) (acc : list nat * dict nat (list nat)) : Prop := {
  grouped_forest : forest n acc.1;
  grouped_roots k : k < n → root acc.1 k = root p k;
  grouped_keys : NoDup acc.2.*1;
  grouped_get r : dget r acc.2 = if decide (members p r l = []) then None else Some (members p r l)
}.

Lemma group_ok n p l acc i : i < n → grouped n p l acc → grouped n p (l ++ [i]) (group acc i).
Proof.
  intros Hi [G1 G2 G3 G4]. destruct acc as [q d]. simpl in *. unfold group, find_root. cbn [fst snd].
  destruct (find_ok n q i (S i) G1 Hi) as (q' & -> & F & K); [lia|]. cbn [fst snd].
  rewrite G2 by done. split; simpl; [done| |by apply dset_NoDup|].
  - intros k Hk. rewrite K by done. by apply G2.
  - intros r. rewrite dget_dset. unfold members in *. rewrite filter_app, filter_cons, filter_nil.
    destruct (decide (r = root p i)) as [->|Hne].
    + rewrite !(decide_True (P := root p i = root p i)) by done. rewrite G4.
      destruct (decide (filter (λ i0, root p i0 = root p i) l = [])) as [->|]; simpl; [done|].
      rewrite decide_False; [done|]. intros Heq. by apply app_eq_nil in Heq as [_ ?].
    + rewrite (decide_False (P := root p i = r)) by congruence. rewrite app_nil_r. apply G4.
Qed.

Lemma groups_ok n p l l0 acc : (∀ i, i ∈ l → i < n) → grouped n p l0 acc →
  grouped n p (l0 ++ l) (foldl group acc l).
Proof.
  revert l0 acc. induction l as [|i l IH]; intros l0 acc Hl Hg; simpl; [by rewrite app_nil_r|].
  replace (l0 ++ i :: l) with ((l0 ++ [i]) ++ l) by by rewrite <- app_assoc.
  apply IH; [intros j Hj; apply Hl; by right|]. apply group_ok; [apply Hl; left|done].
Qed.

#[local] Instance group_le_trans : Transitive group_le.
Proof. intros x y z. unfold group_le. lia. Qed.
#[local] Instance group_le_total : Total group_le.
Proof. intros x y. unfold group_le. lia. Qed.

Lemma seq_sorted a n : StronglySorted lt (seq a n).
Proof.
  revert a. induction n as [|n IH]; intros a; simpl; constructor; [apply IH|].
  apply Forall_forall. intros x. rewrite elem_of_seq. lia.
Qed.

Lemma filter_sorted (P : nat → Prop) `{!∀ x, Decision (P x)} l :
  StronglySorted lt l → StronglySorted lt (filter P l).
Proof.
  induction 1 as [|x l Hl IH Hx]; [constructor|]. rewrite filter_cons. case_decide; [|done].
  constructor; [done|]. rewrite Forall_forall in Hx |- *. intros y [_ Hy]%list_elem_of_filter. by apply Hx.
Qed.

Lemma members_elem n p r i : i ∈ members p r (seq 0 n) ↔ i < n ∧ root p i = r.
Proof. unfold members. rewrite list_elem_of_filter, elem_of_seq. split; intros []; split; (done || lia). Qed.

(** A component starts with its root, its smallest index. *)
Lemma members_head n p r : forest n p → members p r (seq 0 n) ≠ [] → hd 0 (members p r (seq 0 n)) = r.
Proof.
  intros Hf Hne. pose proof (filter_sorted (λ i, root p i = r) (seq 0 n) (seq_sorted 0 n)) as Hs.
  fold (members p r (seq 0 n)) in Hs. pose proof (members_elem n p r) as Hin.
  destruct (members p r (seq 0 n)) as [|x l]; [done|]. simpl.
  destruct (proj1 (Hin x) ltac:(left)) as [Hx Hrx]. destruct (root_fixed n p x Hf Hx) as [Hle Hfix].
  assert (Hr : r ∈ x :: l).
  { apply Hin. subst r. split; [lia|]. rewrite (root_step n) by (done || lia). by rewrite decide_True. }
  inversion Hs as [|? ? _ Hx']; subst. apply elem_of_cons in Hr as [?|Hr]; [done|].
  rewrite Forall_forall in Hx'. specialize (Hx' _ Hr). lia.
Qed.

(** The groups as sorted: the nonempty classes of a root, by root. *)
Lemma sorted_groups (d : dict nat (list nat)) : NoDup d.*1 →
  StronglySorted (λ a b : nat * list nat, a.1 < b.1) (merge_sort group_le d).
Proof.
  intros Hnd. assert (Hs : StronglySorted group_le (merge_sort group_le d)).
  { apply StronglySorted_merge_sort; apply _. }
  assert (Hnd' : NoDup (merge_sort group_le d).*1) by by rewrite merge_sort_Permutation.
  induction Hs as [|[k v] l Hl IH Hx]; [constructor|]. rewrite fmap_cons in Hnd'.
  apply NoDup_cons in Hnd' as [Hk Hnd']. constructor; [by apply IH|].
  rewrite Forall_forall in Hx |- *. intros [k' v'] Hin. specialize (Hx _ Hin). unfold group_le in Hx. simpl in *.
  assert (k ≠ k'); [|lia]. intros ->. apply Hk. apply list_elem_of_fmap. by exists (k', v').
Qed.

Lemma components_ok n edge :
  let p := foldl (join edge) (seq 0 n) (pairs n) in
  forest n p ∧ (∀ c, c ∈ components n edge ↔ ∃ r, members p r (seq 0 n) ≠ [] ∧ c = members p r (seq 0 n)) ∧
  StronglySorted (λ c d, hd 0 c < hd 0 d) (components n edge).
Proof.
  simpl. set (p := foldl (join edge) (seq 0 n) (pairs n)).
  destruct (parents_connect n edge) as [Hf _]. fold p in Hf. split; [done|].
  destruct (groups_ok n p (seq 0 n) [] (p, [])) as [_ _ G3 G4].
  { intros i. rewrite elem_of_seq. lia. }
  { split; [done|done|constructor|]. intros r. cbn [snd dget].
    destruct (decide (members p r [] = [])) as [|Hne]; [done|by destruct Hne]. }
  simpl in G3, G4. unfold components. fold p.
  set (d := (foldl group (p, []) (seq 0 n)).2) in *.
  assert (Hd : ∀ r g, (r, g) ∈ d ↔ members p r (seq 0 n) ≠ [] ∧ g = members p r (seq 0 n)).
  { intros r g. specialize (G4 r). split.
    - intros Hin. rewrite (dget_Some_elem r g) in G4 by done. case_decide; [done|]. by injection G4 as ->.
    - intros [Hne ->]. rewrite decide_False in G4 by done. by apply dget_elem. }
  split.
  - intros c. rewrite list_elem_of_fmap. split.
    + intros ([r g] & -> & Hin). rewrite merge_sort_Permutation in Hin. apply Hd in Hin as [? ->]. by exists r.
    + intros (r & Hne & ->). exists (r, members p r (seq 0 n)). split; [done|].
      rewrite merge_sort_Permutation. by apply Hd.
  - assert (Hin : ∀ x, x ∈ merge_sort group_le d → hd 0 x.2 = x.1).
    { intros [r g]. rewrite merge_sort_Permutation, Hd. intros [Hne ->]. simpl. by apply members_head. }
    pose proof (sorted_groups d G3) as Hs. clear -Hs Hin.
    induction Hs as [|x l Hl IH Hx]; [constructor|]. rewrite fmap_cons. constructor.
    + apply IH. intros y Hy. apply Hin. by right.
    + apply Forall_forall. intros c (y & -> & Hy)%list_elem_of_fmap. rewrite Forall_forall in Hx.
      rewrite (Hin x), (Hin y); [by apply Hx|by right|left].
Qed.

(** C15: The components are the classes of relatedness.  Within the stage bounds the
    union-find returns, and two proposals are in one component exactly when a chain
    of related pairs connects them; every index is in exactly one component, a
    component lists its indices in increasing order, and the components are ordered
    by their smallest index. *)
Theorem related_components_exact `{Similarity} proposals secondary vectors signatures :
  let n := length proposals in
  let edge := related proposals secondary vectors (default (lexical_signature ∘ content <$> proposals) signatures) in
  n ≤ MAX_TOPIC_MEMORY_STAGE_ITEMS → length secondary = n → (vectors = [] ∨ length vectors = n) →
  (∀ l, signatures = Some l → length l = n) →
  ∃ comps, related_components proposals secondary vectors signatures = Ok comps ∧
    (∀ i j, i < n → j < n → (∃ c, c ∈ comps ∧ i ∈ c ∧ j ∈ c) ↔ rtsc (linked n edge) i j) ∧
    (∀ c c' i, c ∈ comps → c' ∈ comps → i ∈ c → i ∈ c' → c = c') ∧
    Forall (λ c, StronglySorted lt c ∧ Forall (λ i, i < n) c) comps ∧
    StronglySorted (λ c d, hd 0 c < hd 0 d) comps.
Proof.
  intros n edge Hn Hsec Hvec Hsig. destruct (components_ok n edge) as (Hf & Hc & Hs).
  destruct (parents_connect n edge) as [_ Hconn]. simpl in Hf, Hc, Hs, Hconn.
  set (p := foldl (join edge) (seq 0 n) (pairs n)) in *.
  exists (components n edge). split_and!.
  - unfold related_components. fold n edge. rewrite !raise_if_skip.
    + done.
    + intros [?|?]; [by apply (Nat.lt_nge MAX_TOPIC_MEMORY_STAGE_ITEMS n)|done].
    + tauto.
    + intros Hne. apply Hne. destruct signatures as [l|]; simpl; [by apply Hsig|by rewrite length_fmap].
    + intros (c & (r & _ & ->)%Hc & Hlen)%Exists_exists. unfold members in Hlen.
      pose proof (length_filter (λ i, root p i = r) (seq 0 n)) as Hle.
      rewrite length_seq in Hle. by apply (Nat.lt_nge MAX_TOPIC_MEMORY_STAGE_ITEMS n); [eapply Nat.lt_le_trans|].
  - intros i j Hi Hj. rewrite <- Hconn by done. unfold same_root. split.
    + intros (c & (r & _ & ->)%Hc & [_ H1]%members_elem & [_ H2]%members_elem). by rewrite H1, H2.
    + intros Heq. exists (members p (root p i) (seq 0 n)). rewrite Hc, !members_elem. split_and!; try done.
      exists (root p i). split; [|done]. intros Hnil. apply (not_elem_of_nil i). rewrite <- Hnil.
      by apply members_elem.
  - intros c c' i (r & _ & ->)%Hc (r' & _ & ->)%Hc [_ <-]%members_elem [_ <-]%members_elem. done.
  - apply Forall_forall. intros c (r & _ & ->)%Hc. split; [apply filter_sorted, seq_sorted|].
    apply Forall_forall. by intros i [? _]%members_elem.
  - done.
Qed.

(** ** Concrete runs: the first and third proposals share a target, the third and
    fourth a secondary candidate. *)
#[local] Instance no_similarity : Similarity :=
  {| vector := Z; lexical_query_words t := [t]; admits_fts_text _ _ := false; admits_vectors _ _ := false |}.

Definition demo_proposal (target : option text) : proposal := mkProposal target (mkTopic [1%Z] [2%Z] [3%Z]).
Definition demo_proposals : list proposal :=
  [demo_proposal (Some [1%Z]); demo_proposal None; demo_proposal (Some [1%Z]); demo_proposal None].
Definition demo_secondary : list (list text) := [[]; []; [[5%Z]]; [[6%Z]; [5%Z]]].

Lemma related_components_exact_witness :
  ∃ comps, related_components demo_proposals demo_secondary [] None = Ok comps ∧ comps = [[0; 2; 3]; [1]].
Proof.
  destruct (related_components_exact demo_proposals demo_secondary [] None) as (comps & Hc & _).
  - vm_compute. lia.
  - reflexivity.
  - by left.
  - done.
  - exists comps. split; [exact Hc|]. cut (Ok comps = Ok [[0; 2; 3]; [1]]); [by intros [= ->]|].
    rewrite <- Hc. vm_compute. reflexivity.
Defined.

End Relatedness.
