(* ===== verification/Access.v ===== *)
(** * Access control values

    [server/authz/models.py] and [server/authz/profiles.py]: actions, roles,
    subjects, resources with their canonical keys, and the Artifact Family profiles
    that say which action and which role fits which resource.  Descriptions of
    principals and groups are display metadata, excluded from every comparison,
    and are left out. *)

From S2P Require Import Prelude.
Local Open Scope Z_scope.

Module Access.

(** ** Actions, resources and roles *)

(** [AccessAction]. *)
Inductive action :=
  | ACCESS_SELF | SERVER_OBSERVE | SERVER_ADMIN
  | SCOPE_READ | SCOPE_CONTRIBUTE | SCOPE_REVIEW | SCOPE_DELEGATE | SCOPE_ADMIN
  | ARTIFACT_READ | ARTIFACT_WRITE | ARTIFACT_SHARE
  | HANDOFF_EVIDENCE_INSPECT | HANDOFF_ACKNOWLEDGE | PROMPT_USE.
#[export] Instance action_eq_dec : EqDecision action.
Proof. solve_decision. Defined.

(** [AccessResourceType]. *)
Inductive resource_type := SERVER | SCOPE | ARTIFACT.
#[export] Instance resource_type_eq_dec : EqDecision resource_type.
Proof. solve_decision. Defined.

(** [AccessRole]; the prefix tells a role from the action of the same name. *)
Inductive role :=
  | R_HANDOFF_VIEWER | R_HANDOFF_RECEIVER | R_ARTIFACT_VIEWER | R_PROMPT_USER | R_ARTIFACT_OWNER
  | R_SCOPE_VIEWER | R_SCOPE_CONTRIBUTOR | R_SCOPE_REVIEWER | R_SCOPE_DELEGATOR | R_SCOPE_ADMIN
  | R_SERVER_OBSERVER | R_SERVER_ADMIN.
#[export] Instance role_eq_dec : EqDecision role.
Proof. solve_decision. Defined.

(** [AccessRole.value]. *)
Definition role_value (r : role) : text :=
  match r with
  | R_HANDOFF_VIEWER => str "handoff.viewer"
  | R_HANDOFF_RECEIVER => str "handoff.receiver"
  | R_ARTIFACT_VIEWER => str "artifact.viewer"
  | R_PROMPT_USER => str "prompt.user"
  | R_ARTIFACT_OWNER => str "artifact.owner"
  | R_SCOPE_VIEWER => str "scope.viewer"
  | R_SCOPE_CONTRIBUTOR => str "scope.contributor"
  | R_SCOPE_REVIEWER => str "scope.reviewer"
  | R_SCOPE_DELEGATOR => str "scope.delegator"
  | R_SCOPE_ADMIN => str "scope.admin"
  | R_SERVER_OBSERVER => str "server.observer"
  | R_SERVER_ADMIN => str "server.admin"
  end.

Lemma role_value_inj : Inj (=) (=) role_value.
Proof. intros [] []; vm_compute; congruence. Qed.

(** [ROLE_ACTIONS]. *)
Definition ROLE_ACTIONS (r : role) : list action :=
  match r with
  | R_HANDOFF_VIEWER => [ARTIFACT_READ; HANDOFF_EVIDENCE_INSPECT]
  | R_HANDOFF_RECEIVER => [ARTIFACT_READ; HANDOFF_EVIDENCE_INSPECT; HANDOFF_ACKNOWLEDGE]
  | R_ARTIFACT_VIEWER => [ARTIFACT_READ]
  | R_PROMPT_USER => [ARTIFACT_READ; PROMPT_USE]
  | R_ARTIFACT_OWNER => [ARTIFACT_READ; ARTIFACT_WRITE; ARTIFACT_SHARE; HANDOFF_EVIDENCE_INSPECT]
  | R_SCOPE_VIEWER => [SCOPE_READ]
  | R_SCOPE_CONTRIBUTOR => [SCOPE_READ; SCOPE_CONTRIBUTE]
  | R_SCOPE_REVIEWER => [SCOPE_READ; SCOPE_REVIEW]
  | R_SCOPE_DELEGATOR => [SCOPE_READ; SCOPE_DELEGATE]
  | R_SCOPE_ADMIN => [SCOPE_ADMIN]
  | R_SERVER_OBSERVER => [SERVER_OBSERVE]
  | R_SERVER_ADMIN => [SERVER_ADMIN]
  end.

(** [ROLE_CHILD_ACTIONS]: what a role on a parent implies below it. *)
Definition ROLE_CHILD_ACTIONS (r : role) : list action :=
  match r with
  | R_SCOPE_VIEWER | R_SCOPE_REVIEWER | R_SCOPE_DELEGATOR => [ARTIFACT_READ; HANDOFF_EVIDENCE_INSPECT; PROMPT_USE]
  | R_SCOPE_CONTRIBUTOR => [ARTIFACT_READ; HANDOFF_EVIDENCE_INSPECT; HANDOFF_ACKNOWLEDGE; PROMPT_USE]
  | R_SCOPE_ADMIN => [ARTIFACT_SHARE]
  | R_SERVER_ADMIN => [SCOPE_ADMIN; ARTIFACT_SHARE]
  | _ => []
  end.

(** [ROLE_CARDINALITIES]: the roles with one active assignment per resource. *)
Definition ONE_PER_RESOURCE (r : role) : Prop := r = R_HANDOFF_RECEIVER ∨ r = R_ARTIFACT_OWNER.
#[export] Instance ONE_PER_RESOURCE_dec r : Decision (ONE_PER_RESOURCE r).
Proof. unfold ONE_PER_RESOURCE. apply _. Defined.

(** ** Subjects *)

(** [_valid_text]. *)
Definition valid_text (value : text) (maximum : Z) : Prop := trimmed value ∧ len value ≤ maximum.
#[export] Instance valid_text_dec value maximum : Decision (valid_text value maximum).
Proof. unfold valid_text. apply _. Defined.

(** [PrincipalRef] and [GroupRef]. *)
Inductive principal_type := user | service.
#[export] Instance principal_type_eq_dec : EqDecision principal_type.
Proof. solve_decision. Defined.

Record principal := mkPrincipal { principal_kind : principal_type; principal_id : text }.
#[export] Instance principal_eq_dec : EqDecision principal.
Proof. solve_decision. Defined.

Inductive subject := PrincipalRef (p : principal) | GroupRef (id : text).
#[export] Instance subject_eq_dec : EqDecision subject.
Proof. solve_decision. Defined.

Definition subject_id (s : subject) : text := match s with PrincipalRef p => principal_id p | GroupRef i => i end.
Definition subject_type (s : subject) : text :=
  match s with
  | PrincipalRef (mkPrincipal user _) => str "user"
  | PrincipalRef (mkPrincipal service _) => str "service"
  | GroupRef _ => str "group"
  end.

Definition new_principal (kind : principal_type) (id : text) : result principal :=
  raise_if (¬ valid_text id 255) (AccessInvalidRequestError "principal") ;; Ok (mkPrincipal kind id).
Definition new_group (id : text) : result subject :=
  raise_if (¬ valid_text id 255) (AccessInvalidRequestError "group") ;; Ok (GroupRef id).

(** [ROLE_SUBJECT_TYPES]: single-holder roles take no groups. *)
Definition ROLE_SUBJECT_TYPES (r : role) (s : subject) : Prop :=
  match s with GroupRef _ => ¬ ONE_PER_RESOURCE r | PrincipalRef _ => True end.
#[export] Instance ROLE_SUBJECT_TYPES_dec r s : Decision (ROLE_SUBJECT_TYPES r s).
Proof. destruct s; apply _. Defined.

(** ** Resources *)

(** [ArtifactIdentity] and [ResourceRef]; a selector is a [MemoryEntrySelector],
    by its entry. *)
Record identity := mkIdentity { family : text; artifact_id : text }.
#[export] Instance identity_eq_dec : EqDecision identity.
Proof. solve_decision. Defined.

Record resource := mkResource {
  rtype : resource_type;
  deployment_id : option text;
  scope_id : option text;
  ridentity : option identity;
  selector : option text
}.
#[export] Instance resource_eq_dec : EqDecision resource.
Proof. solve_decision. Defined.

Definition rfamily (r : resource) : option text := family <$> ridentity r.

Definition valid_identity (i : identity) : Prop := valid_text (family i) 128 ∧ valid_text (artifact_id i) 128.
Definition valid_option (o : option text) (maximum : Z) : Prop :=
  match o with Some t => valid_text t maximum | None => False end.
#[export] Instance valid_option_dec o maximum : Decision (valid_option o maximum).
Proof. destruct o; apply _. Defined.

(** [ResourceRef.__post_init__], with its parts already valid. *)
Definition well_shaped (r : resource) : Prop :=
  match rtype r with
  | SERVER => valid_option (deployment_id r) 128 ∧ scope_id r = None ∧ ridentity r = None ∧ selector r = None
  | SCOPE => deployment_id r = None ∧ valid_option (scope_id r) 256 ∧ ridentity r = None ∧ selector r = None
  | ARTIFACT => deployment_id r = None ∧ valid_option (scope_id r) 256 ∧ ridentity r ≠ None
  end.
#[export] Instance well_shaped_dec r : Decision (well_shaped r).
Proof. unfold well_shaped. destruct (rtype r); apply _. Defined.

Definition new_identity (f a : text) : result identity :=
  raise_if (¬ valid_text f 128 ∨ ¬ valid_text a 128) (AccessInvalidRequestError "artifact-identity") ;;
  Ok (mkIdentity f a).
Definition new_selector (entry_id : text) : result text :=
  raise_if (¬ valid_text entry_id 128) (AccessInvalidRequestError "memory-entry-selector") ;; Ok entry_id.
Definition new_resource (r : resource) : result resource :=
  raise_if (¬ well_shaped r) (AccessInvalidRequestError "resource") ;; Ok r.

(** The fields of [ResourceRef.server], [.scope] and [.artifact]. *)
Definition server_ref (d : text) : resource := mkResource SERVER (Some d) None None None.
Definition scope_ref (s : text) : resource := mkResource SCOPE None (Some s) None None.
Definition artifact_ref (s f a : text) (entry : option text) : resource :=
  mkResource ARTIFACT None (Some s) (Some (mkIdentity f a)) entry.

Definition server (d : text) : result resource := new_resource (server_ref d).
Definition scope (s : text) : result resource := new_resource (scope_ref s).
Definition artifact (s f a : text) (entry : option text) : result resource :=
  i ← new_identity f a; new_resource (artifact_ref s f a entry).

(** [parent_scope]; a Scope is its own. *)
Definition parent_scope (r : resource) : option resource := scope_ref <$> scope_id r.

Lemma well_shaped_cases r : well_shaped r →
  (∃ d, r = server_ref d) ∨ (∃ s, r = scope_ref s) ∨ (∃ s f a e, r = artifact_ref s f a e).
Proof.
  destruct r as [[] [d|] [s|] [[f a]|] [e|]]; unfold well_shaped; simpl; try tauto; try naive_solver.
Qed.

(** ** Canonical keys: [json.dumps] without ASCII escaping, sorted and compact *)

Definition hex_digit (n : Z) : Z := if n <? 10 then 48 + n else 87 + n.

(** [json]'s escape of one code point. *)
Definition escape_char (c : Z) : text :=
  if c =? 34 then [92; 34]
  else if c =? 92 then [92; 92]
  else if c =? 10 then [92; 110]
  else if c =? 13 then [92; 114]
  else if c =? 9 then [92; 116]
  else if c =? 8 then [92; 98]
  else if c =? 12 then [92; 102]
  else if c <? 32 then [92; 117; 48; 48; hex_digit (c / 16); hex_digit (c mod 16)]
  else [c].
Definition quote (t : text) : text := [34] ++ (t ≫= escape_char) ++ [34].

(** [json]'s escapes when only ASCII may be written, astral characters as a surrogate pair. *)
Definition escape_unit (n : Z) : text :=
  [92; 117; hex_digit (n / 4096); hex_digit (n / 256 mod 16); hex_digit (n / 16 mod 16); hex_digit (n mod 16)].
Definition escape_ascii (c : Z) : text :=
  if c <? 127 then escape_char c
  else if c <? 65536 then escape_unit c
  else escape_unit (55296 + (c - 65536) / 1024) ++ escape_unit (56320 + (c - 65536) mod 1024).
Definition quote_ascii (t : text) : text := [34] ++ (t ≫= escape_ascii) ++ [34].
Definition json_optional (o : option text) : text := match o with Some t => quote t | None => str "null" end.
Definition field (name : string) (value : text) : text := quote (str name) ++ [58] ++ value.

Fixpoint join (sep : text) (l : list text) : text :=
  match l with
  | [] => []
  | [x] => x
  | x :: l' => x ++ sep ++ join sep l'
  end.
Definition json_object (fields : list text) : text := [123] ++ join [44] fields ++ [125].
Definition json_array (items : list text) : text := [91] ++ join [44] items ++ [93].

(** [ResourceRef.key]. *)
Definition key (r : resource) : text :=
  match rtype r with
  | SERVER => json_object [field "deployment_id" (json_optional (deployment_id r)); field "type" (quote (str "server"))]
  | SCOPE => json_object [field "scope_id" (json_optional (scope_id r)); field "type" (quote (str "scope"))]
  | ARTIFACT =>
      json_object [
        field "identity" (match ridentity r with
                          | Some i => json_object [field "artifact_id" (quote (artifact_id i)); field "family" (quote (family i))]
                          | None => []
                          end);
        field "scope_id" (json_optional (scope_id r));
        field "selector" (match selector r with
                          | Some e => json_object [field "entry_id" (quote e); field "type" (quote (str "memory_entry"))]
                          | None => str "null"
                          end);
        field "type" (quote (str "artifact"))]
  end.

(** ** Artifact Family profiles *)

(** [ArtifactFamilyAccessProfile]; [memory_selector] says whether its resources
    name a Memory entry, which others must not. *)
Record profile := mkProfile {
  profile_family : text;
  enabled : bool;
  memory_selector : bool;
  shareable_states : list text;
  base_action : action;
  additional_actions : list action;
  grantable_roles : list role;
  manifest_transitivity : bool;
  mutation_semantics : list action
}.

Definition actions (p : profile) : list action := base_action p :: additional_actions p.

(** A Family whose resources are whole Artifacts read under [ARTIFACT_READ]. *)
Definition plain_profile (f : text) (states : list text) (additional : list action) (roles : list role) (manifest : bool)
    : profile :=
  mkProfile f true false states ARTIFACT_READ additional roles manifest [ARTIFACT_WRITE].

Definition ARTIFACT_FAMILY_PROFILES : list profile := [
  plain_profile (str "atomic-memory") [str "active"; str "forgotten"; str "merged"; str "retired"] []
    [R_ARTIFACT_VIEWER] false;
  plain_profile (str "handoff") [str "committed"] [HANDOFF_EVIDENCE_INSPECT; HANDOFF_ACKNOWLEDGE]
    [R_HANDOFF_VIEWER; R_HANDOFF_RECEIVER] true;
  mkProfile (str "memory") true true [str "active"; str "retired"] ARTIFACT_READ [] [R_ARTIFACT_VIEWER] false
    [ARTIFACT_WRITE];
  plain_profile (str "experience") [str "approved"] [] [R_ARTIFACT_VIEWER] false;
  plain_profile (str "skill") [str "approved"] [] [R_ARTIFACT_VIEWER] false;
  plain_profile (str "profile") [str "committed"] [] [R_ARTIFACT_VIEWER] false;
  plain_profile (str "prompt") [] [PROMPT_USE] [] false
].

(** The profiles of a process: the built-in ones and the custom ones it registered. *)
Definition profiles : Type := gmap text profile.
Definition built_in : profiles := list_to_map ((λ p, (profile_family p, p)) <$> ARTIFACT_FAMILY_PROFILES).

Definition register_custom_artifact_access_family (f : text) (ps : profiles) : profiles :=
  match ps !! f with
  | Some _ => ps
  | None => <[f := plain_profile f [] [] [] false]> ps
  end.

(** The profiles a process can have. *)
Inductive registered : profiles → Prop :=
  | registered_built_in : registered built_in
  | registered_custom f ps : registered ps → registered (register_custom_artifact_access_family f ps).

Section profiles.
Context (ps : profiles) (deployment : text).

Definition artifact_family_profile (r : resource) : result profile :=
  match rtype r, ridentity r with
  | ARTIFACT, Some i =>
      match ps !! family i with
      | None => Err (AccessInvalidRequestError "artifact-family")
      | Some p =>
          raise_if (enabled p = false) (AccessInvalidRequestError "artifact-family-disabled") ;;
          raise_if (memory_selector p = true ∧ selector r = None)
            (AccessInvalidRequestError "memory-entry-selector") ;;
          raise_if (memory_selector p = false ∧ selector r ≠ None)
            (AccessInvalidRequestError "artifact-selector") ;;
          Ok p
      end
  | _, _ => Err (AccessInvalidRequestError "artifact-identity")
  end.

Definition family_actions (p : profile) : list action := actions p ++ mutation_semantics p ++ [ARTIFACT_SHARE].

Definition validate_action_resource (a : action) (r : resource) : result unit :=
  match rtype r with
  | SERVER =>
      raise_if (deployment_id r ≠ Some deployment) (AccessInvalidRequestError "deployment") ;;
      raise_if (a ∉ [ACCESS_SELF; SERVER_OBSERVE; SERVER_ADMIN]) (AccessInvalidRequestError "action-resource")
  | SCOPE =>
      raise_if (a ∉ [SCOPE_READ; SCOPE_CONTRIBUTE; SCOPE_REVIEW; SCOPE_DELEGATE; SCOPE_ADMIN])
        (AccessInvalidRequestError "action-resource")
  | ARTIFACT =>
      p ← artifact_family_profile r;
      raise_if (a ∉ family_actions p) (AccessInvalidRequestError "action-resource")
  end.

Definition validate_binding_role (r : resource) (ro : role) : result unit :=
  match rtype r with
  | SERVER =>
      raise_if (deployment_id r ≠ Some deployment ∨ ro ∉ [R_SERVER_OBSERVER; R_SERVER_ADMIN])
        (AccessInvalidRequestError "binding-role")
  | SCOPE =>
      raise_if (ro ∉ [R_SCOPE_VIEWER; R_SCOPE_CONTRIBUTOR; R_SCOPE_REVIEWER; R_SCOPE_DELEGATOR; R_SCOPE_ADMIN])
        (AccessInvalidRequestError "binding-role")
  | ARTIFACT =>
      p ← artifact_family_profile r;
      raise_if (ro ∉ grantable_roles p) (AccessInvalidRequestError "binding-role")
  end.

(** The Family's [subject_compatibility] is [ROLE_SUBJECT_TYPES] on its grantable
    roles; another role is a missing key. *)
Definition validate_binding_subject (r : resource) (ro : role) (s : subject) : result unit :=
  raise_if (ro = R_ARTIFACT_OWNER) (AccessInvalidRequestError "binding-role") ;;
  raise_if (¬ ROLE_SUBJECT_TYPES ro s) (AccessInvalidRequestError "binding-subject") ;;
  match rtype r with
  | ARTIFACT =>
      p ← artifact_family_profile r;
      raise_if (ro ∉ grantable_roles p) (RuntimeError "KeyError") ;;
      raise_if (¬ ROLE_SUBJECT_TYPES ro s) (AccessInvalidRequestError "binding-subject")
  | _ => Ok tt
  end.
End profiles.

(** ** Facts *)

(** Escaped text can be read back. *)
Lemma escape_char_inj c c' r r' : escape_char c ++ r = escape_char c' ++ r' → c = c' ∧ r = r'.
Proof.
  unfold escape_char. repeat case_match; rewrite ?Z.eqb_eq, ?Z.eqb_neq, ?Z.ltb_lt, ?Z.ltb_ge in *; simpl;
    intros Heq; simplify_eq; try done; try lia.
  assert (c / 16 < 2) by (apply Z.div_lt_upper_bound; lia). assert (c' / 16 < 2) by (apply Z.div_lt_upper_bound; lia).
  pose proof (Z.div_mod c 16). pose proof (Z.div_mod c' 16).
  unfold hex_digit in *. repeat case_match; split; try done; rewrite ?Z.ltb_lt, ?Z.ltb_ge in *; lia.
Qed.

Lemma escape_char_head c t : ∃ x t', escape_char c ++ t = x :: t' ∧ x ≠ 34.
Proof.
  unfold escape_char. repeat case_match; rewrite ?Z.eqb_eq, ?Z.eqb_neq in *; simpl; eexists _, _; split; try done; lia.
Qed.

Lemma quote_inj s s' r r' : quote s ++ r = quote s' ++ r' → s = s' ∧ r = r'.
Proof.
  unfold quote. rewrite <- !app_assoc. simpl. intros [= Heq]. revert s' Heq.
  induction s as [|c s IH]; intros [|c' s'] Heq; csimpl in Heq; rewrite <- ?app_assoc in Heq.
  - by injection Heq as [= ->].
  - destruct (escape_char_head c' ((s' ≫= escape_char) ++ 34 :: r')) as (x & t & Ex & Hx). rewrite Ex in Heq. congruence.
  - destruct (escape_char_head c ((s ≫= escape_char) ++ 34 :: r)) as (x & t & Ex & Hx). rewrite Ex in Heq. congruence.
  - apply escape_char_inj in Heq as [-> Heq]. by apply IH in Heq as [-> ->].
Qed.

Ltac peel H := rewrite <- ?app_assoc in H;
  repeat first [apply app_inv_head in H | apply quote_inj in H as [? H]].

Lemma key_server d r' : key (server_ref d) = key r' → rtype r' = SERVER.
Proof.
  destruct r' as [[] d' s' i' e']; [done|..]; unfold key, json_object, field; cbn [rtype join]; intros Heq; peel Heq;
    discriminate.
Qed.

Lemma key_scope s r' : key (scope_ref s) = key r' → rtype r' = SCOPE.
Proof.
  destruct r' as [[] d' s' i' e']; [|done|]; unfold key, json_object, field; cbn [rtype join]; intros Heq; peel Heq;
    discriminate.
Qed.

Lemma key_server_inj d d' : key (server_ref d) = key (server_ref d') → d = d'.
Proof. unfold key, json_object, field. cbn -[quote str app]. intros Heq. by peel Heq. Qed.

Lemma key_scope_inj s s' : key (scope_ref s) = key (scope_ref s') → s = s'.
Proof. unfold key, json_object, field. cbn -[quote str app]. intros Heq. by peel Heq. Qed.

Lemma key_artifact_inj s f a e s' f' a' e' :
  key (artifact_ref s f a e) = key (artifact_ref s' f' a' e') → s = s' ∧ f = f' ∧ a = a' ∧ e = e'.
Proof.
  unfold key, json_object, field. cbn -[quote str app]. intros Heq. peel Heq.
  split_and!; [done..|]. destruct e as [e|], e' as [e'|]; [|discriminate|discriminate|done].
  peel Heq. by f_equal.
Qed.

(** Well-shaped resources are told apart by their keys. *)
Lemma key_inj r r' : well_shaped r → well_shaped r' → key r = key r' → r = r'.
Proof.
  intros [(d & ->)|[(s & ->)|(s & f & a & e & ->)]]%well_shaped_cases
    [(d' & ->)|[(s' & ->)|(s' & f' & a' & e' & ->)]]%well_shaped_cases Heq.
  - by apply key_server_inj in Heq as ->.
  - by apply key_server in Heq.
  - by apply key_server in Heq.
  - by apply key_scope in Heq.
  - by apply key_scope_inj in Heq as ->.
  - by apply key_scope in Heq.
  - by apply symmetry, key_server in Heq.
  - by apply symmetry, key_scope in Heq.
  - by apply key_artifact_inj in Heq as (-> & -> & -> & ->).
Qed.
End Access.
