(* ===== verification/AccessPolicy.v ===== *)
(** * Access decisions

    The decision code of [server/authz/service.py] and [server/authz/casbin.py]:
    relationships, the built-in provider, the Casbin provider over the same
    relationships, and the resource filter the two share. *)

From S2P Require Import Prelude Access.
Local Open Scope Z_scope.

Module AccessPolicy.
Import Access.

(** ** Relationships *)

(** [AccessBindingState]. *)
Inductive binding_state := ACTIVE | REVOKED.
#[export] Instance binding_state_eq_dec : EqDecision binding_state.
Proof. solve_decision. Defined.

(** [AccessBinding]; times count microseconds. *)
Record binding := mkBinding {
  binding_id : text;
  b_subject : subject;
  b_resource : resource;
  b_role : role;
  granted_by : principal;
  reason : option text;
  created_at : Z;
  expires_at : option Z;
  state : binding_state;
  version : Z;
  b_revision : text;
  idempotency_key : text;
  revoked_at : option Z;
  revoked_by : option principal
}.
#[export] Instance binding_eq_dec : EqDecision binding.
Proof. solve_decision. Defined.

Definition active_at (now : Z) (b : binding) : Prop :=
  state b = ACTIVE ∧ match expires_at b with None => True | Some t => now < t end.
#[export] Instance active_at_dec now b : Decision (active_at now b).
Proof. unfold active_at. destruct (expires_at b); apply _. Defined.

(** [ArtifactOwnerRelation]. *)
Record owner_relation := mkOwner {
  o_resource : resource;
  owner : principal;
  established_at : Z;
  o_revision : text;
  o_key : text
}.
#[export] Instance owner_relation_eq_dec : EqDecision owner_relation.
Proof. solve_decision. Defined.

(** [AccessDecision]. *)
Record decision := mkDecision {
  allowed : bool;
  reason_code : text;
  d_revision : option text;
  matched_subject : option subject;
  matched_binding_id : option text
}.
#[export] Instance decision_eq_dec : EqDecision decision.
Proof. solve_decision. Defined.

(** [AccessAuditContext] and [AccessRequest]. *)
Record audit_context := mkContext {
  transport : text;
  operation : text;
  request_id : option text;
  actor : option principal;
  subject_groups : list text
}.
Record access_request := mkRequest {
  q_subject : principal;
  q_action : action;
  q_resource : resource;
  q_context : audit_context
}.

(** [DecisionState]: one consistent read of what a decision derives from. *)
Record decision_state := mkState {
  policy_revision : text;
  bindings : list binding;
  artifact_owners : gmap text owner_relation;
  owned_resources : list resource
}.

(** [ResourceSearchRequest] and [AuthorizedResourceFilter]. *)
Record search_request := mkSearch {
  s_subject : principal;
  s_action : action;
  s_type : resource_type;
  s_family : option text;
  s_context : audit_context
}.
Record resource_filter := mkFilter {
  exact_resources : list resource;
  parent_constraints : list resource;
  complete : bool;
  f_revision : option text;
  max_direct_resource_keys : Z
}.

Definition MAX_POLICY_REVISION_LENGTH : nat := 64.
Definition MAX_AUTHORIZED_FILTER_IDENTITIES : Z := 10000.

(** The subjects a request speaks for. *)
Definition subjects_of (p : principal) (groups : list text) : list subject := PrincipalRef p :: (GroupRef <$> groups).

Section policy.
Context (digest : text → text) (deployment : text).

(** [contextual_policy_revision]. *)
Definition contextual_policy_revision (revision : text) (groups : list text) : text :=
  if decide (groups = []) then revision else
    let membership := take 24 (digest (join [0] (sorted_text groups))) in
    take (MAX_POLICY_REVISION_LENGTH - length membership - 3) revision ++ str ":g:" ++ membership.

(** ** The built-in provider *)

Definition parent_binding_grants (b : binding) (a : action) (requested : resource_type) : Prop :=
  a ∈ ROLE_CHILD_ACTIONS (b_role b) ∧
  match rtype (b_resource b) with
  | SCOPE => requested = ARTIFACT
  | SERVER => requested = SCOPE ∨ requested = ARTIFACT
  | ARTIFACT => False
  end.
#[export] Instance parent_binding_grants_dec b a t : Decision (parent_binding_grants b a t).
Proof. unfold parent_binding_grants. destruct (rtype (b_resource b)); apply _. Defined.

Definition binding_covers (b requested : resource) : Prop :=
  b = requested ∨ rtype b = SERVER ∨
  (rtype b = SCOPE ∧ rtype requested = ARTIFACT ∧ scope_id b = scope_id requested).
#[export] Instance binding_covers_dec b r : Decision (binding_covers b r).
Proof. unfold binding_covers. apply _. Defined.

Definition binding_grants (b : binding) (a : action) (requested : resource) : Prop :=
  if decide (b_resource b = requested) then a ∈ ROLE_ACTIONS (b_role b)
  else parent_binding_grants b a (rtype requested) ∧ binding_covers (b_resource b) requested.
#[export] Instance binding_grants_dec b a r : Decision (binding_grants b a r).
Proof. unfold binding_grants. case_decide; apply _. Defined.

Definition binding_decision (l : list binding) (a : action) (r : resource) (revision : text) : decision :=
  match filter (λ b, binding_grants b a r) l with
  | b :: _ => mkDecision true (str "role-binding") (Some revision) (Some (b_subject b)) (Some (binding_id b))
  | [] => mkDecision false (str "no-matching-binding") (Some revision) None None
  end.

(** The owner of the requested Artifact, if it is the principal, may what an owner may. *)
Definition owner_allows (st : decision_state) (p : principal) (q : access_request) : Prop :=
  rtype (q_resource q) = ARTIFACT ∧ owner <$> artifact_owners st !! key (q_resource q) = Some p ∧
  q_action q ∈ ROLE_ACTIONS R_ARTIFACT_OWNER.
#[export] Instance owner_allows_dec st p q : Decision (owner_allows st p q).
Proof. unfold owner_allows. apply _. Defined.

(** [decide] of [BuiltinAuthorizationProvider.prepare_point_decisions]. *)
Definition builtin_decide (st : decision_state) (p : principal) (groups : list text) (now : Z) (q : access_request)
    : decision :=
  let revision := contextual_policy_revision (policy_revision st) groups in
  if decide (q_action q = ACCESS_SELF) then mkDecision true (str "authenticated") (Some revision) None None else
    let d := binding_decision (filter (active_at now) (bindings st)) (q_action q) (q_resource q) revision in
    if allowed d then d
    else if decide (owner_allows st p q) then
      mkDecision true (str "artifact-owner") (Some revision) (Some (PrincipalRef p)) None
    else d.

(** ** The Casbin provider

    [_MODEL] declares requests and policies of an action, an object, a Scope and a
    deployment; its matcher is [matches] and its effect is that some policy matches. *)

Record rule := mkRule { act : action; obj : text; rule_scope : text; rule_deployment : text }.

Definition wildcard : text := str "*".
Definition matches (r p : rule) : Prop :=
  act r = act p ∧ (obj p = wildcard ∨ obj r = obj p) ∧
  (rule_scope p = wildcard ∨ rule_scope r = rule_scope p) ∧ rule_deployment r = rule_deployment p.
#[export] Instance matches_dec r p : Decision (matches r p).
Proof. unfold matches. apply _. Defined.

(** [o or alternative] on an optional string. *)
Definition or_text (o : option text) (alternative : text) : text :=
  match o with Some (c :: t) => c :: t | _ => alternative end.

Definition exact_rule (r : resource) (a : action) : rule :=
  mkRule a (key r) (or_text (scope_id r) []) (or_text (deployment_id r) deployment).
Definition child_rule (r : resource) (a : action) : rule :=
  mkRule a wildcard (or_text (scope_id r) wildcard) (or_text (deployment_id r) deployment).

Definition binding_rules (b : binding) : list rule :=
  (exact_rule (b_resource b) <$> ROLE_ACTIONS (b_role b)) ++
  (child_rule (b_resource b) <$> ROLE_CHILD_ACTIONS (b_role b)).

(** The policies of [_enforcer]. *)
Definition policies (l : list binding) (owner_allow : bool) (requested : resource) : list rule :=
  (l ≫= binding_rules) ++
  (if owner_allow then exact_rule requested <$> ROLE_ACTIONS R_ARTIFACT_OWNER else []).

Definition covers (parent child : resource) : Prop :=
  rtype parent = SERVER ∨ (rtype parent = SCOPE ∧ rtype child = ARTIFACT ∧ scope_id parent = scope_id child).
#[export] Instance covers_dec p c : Decision (covers p c).
Proof. unfold covers. apply _. Defined.

Definition casbin_grants (b : binding) (a : action) (r : resource) : Prop :=
  (b_resource b = r ∧ a ∈ ROLE_ACTIONS (b_role b)) ∨
  (covers (b_resource b) r ∧ a ∈ ROLE_CHILD_ACTIONS (b_role b)).
#[export] Instance casbin_grants_dec b a r : Decision (casbin_grants b a r).
Proof. unfold casbin_grants. apply _. Defined.

(** [_matching_binding]: the binding a decision is attributed to. *)
Definition matching_binding (l : list binding) (a : action) (r : resource) : option binding :=
  head (filter (λ b, casbin_grants b a r) l).

(** [decide] of [CasbinAuthorizationProvider.prepare_point_decisions]; [enforce] is
    the enforcer of the [casbin] package loaded with [_MODEL] and the policies. *)
Definition casbin_decide (enforce : list rule → rule → bool)
    (st : decision_state) (p : principal) (groups : list text) (now : Z) (q : access_request) : decision :=
  let revision := contextual_policy_revision (policy_revision st) groups in
  if decide (q_action q = ACCESS_SELF) then mkDecision true (str "authenticated") (Some revision) None None else
    let l := filter (active_at now) (bindings st) in
    let matched := matching_binding l (q_action q) (q_resource q) in
    let owner_allow := bool_decide (owner_allows st p q) in
    let ok := enforce (policies l owner_allow (q_resource q)) (exact_rule (q_resource q) (q_action q)) in
    mkDecision ok (str (if ok then "casbin-policy" else "no-matching-policy")) (Some revision)
      (match matched with
       | Some b => Some (b_subject b)
       | None => if owner_allow then Some (PrincipalRef p) else None
       end)
      (binding_id <$> matched).

(** ** The resource filter *)

Definition resource_is_parent (r : resource) (child : resource_type) : Prop :=
  match rtype r with SERVER => child ≠ SERVER | SCOPE => child = ARTIFACT | ARTIFACT => False end.
#[export] Instance resource_is_parent_dec r t : Decision (resource_is_parent r t).
Proof. unfold resource_is_parent. destruct (rtype r); apply _. Defined.

Definition in_family (q : search_request) (r : resource) : Prop := s_family q = None ∨ rfamily r = s_family q.
#[export] Instance in_family_dec q r : Decision (in_family q r).
Proof. unfold in_family. apply _. Defined.

Definition exact_grant (q : search_request) (b : binding) : Prop :=
  rtype (b_resource b) = s_type q ∧ s_action q ∈ ROLE_ACTIONS (b_role b) ∧ in_family q (b_resource b).
#[export] Instance exact_grant_dec q b : Decision (exact_grant q b).
Proof. unfold exact_grant. apply _. Defined.
Definition parent_grant (q : search_request) (b : binding) : Prop :=
  resource_is_parent (b_resource b) (s_type q) ∧ parent_binding_grants b (s_action q) (s_type q).
#[export] Instance parent_grant_dec q b : Decision (parent_grant q b).
Proof. unfold parent_grant. apply _. Defined.

(** Dicts keyed by canonical keys; later entries replace earlier ones. *)
Definition by_key (l : list resource) : gmap text resource := foldl (λ m r, <[key r := r]> m) ∅ l.
(** [tuple(d[key] for key in sorted(d))]. *)
Definition in_key_order (m : gmap text resource) : list resource :=
  omap (λ k, m !! k) (sorted_text (map_to_list m).*1).

Definition owner_search (q : search_request) : Prop := s_type q = ARTIFACT ∧ s_action q ∈ ROLE_ACTIONS R_ARTIFACT_OWNER.
#[export] Instance owner_search_dec q : Decision (owner_search q).
Proof. unfold owner_search. apply _. Defined.

(** [_derive_authorized_resource_filter]. *)
Definition derive_authorized_resource_filter (l : list binding) (owned : list resource) (q : search_request)
    (revision : text) : resource_filter :=
  let exact := (b_resource <$> filter (exact_grant q) l) ++
               (if decide (owner_search q) then filter (in_family q) owned else []) in
  let parents := b_resource <$> filter (λ b, ¬ exact_grant q b ∧ parent_grant q b) l in
  mkFilter (in_key_order (by_key exact)) (in_key_order (by_key parents)) true (Some revision)
    MAX_AUTHORIZED_FILTER_IDENTITIES.

(** [_resource_allowed_by_filter]. *)
Definition resource_allowed_by_filter (r : resource) (f : resource_filter) : Prop :=
  r ∈ exact_resources f ∨ Exists (λ parent, binding_covers parent r) (parent_constraints f).
#[export] Instance resource_allowed_by_filter_dec r f : Decision (resource_allowed_by_filter r f).
Proof. unfold resource_allowed_by_filter. apply _. Defined.

(** ** What the service accepts of a provider *)

Definition alphanumeric (c : Z) : Prop := 48 ≤ c ≤ 57 ∨ 65 ≤ c ≤ 90 ∨ 97 ≤ c ≤ 122.
#[export] Instance alphanumeric_dec c : Decision (alphanumeric c).
Proof. unfold alphanumeric. apply _. Defined.

(** A reason of at most 64 ASCII letters, digits, dots, dashes and underscores that
    starts with a letter or digit. *)
Definition valid_reason (t : text) : Prop :=
  match t with
  | [] => False
  | c :: _ => alphanumeric c ∧ (length t ≤ 64)%nat ∧ Forall (λ c, alphanumeric c ∨ c ∈ [46; 95; 45]) t
  end.
#[export] Instance valid_reason_dec t : Decision (valid_reason t).
Proof. destruct t; apply _. Defined.

Definition valid_revision (o : option text) : Prop :=
  match o with Some t => t ≠ [] ∧ (length t ≤ MAX_POLICY_REVISION_LENGTH)%nat | None => True end.
#[export] Instance valid_revision_dec o : Decision (valid_revision o).
Proof. destruct o; apply _. Defined.

(** [_validate_provider_decision]. *)
Definition validate_provider_decision (d : decision) : result unit :=
  raise_if (¬ valid_reason (reason_code d)) (AccessUnavailableError "access_unavailable") ;;
  raise_if (¬ valid_revision (d_revision d)) (AccessUnavailableError "access_unavailable") ;;
  raise_if (matched_subject d ≠ None ∧ allowed d = false) (AccessUnavailableError "access_unavailable").

(** ** The two providers agree *)

(** A binding that the rules of the service admit. *)
Definition binding_fits (ps : profiles) (b : binding) : Prop :=
  well_shaped (b_resource b) ∧ validate_binding_role ps deployment (b_resource b) (b_role b) = Ok tt.

Lemma artifact_family_profile_ok (ps : profiles) r p :
  artifact_family_profile ps r = Ok p → rtype r = ARTIFACT ∧ ∃ i, ridentity r = Some i ∧ ps !! family i = Some p ∧
    enabled p = true.
Proof.
  unfold artifact_family_profile. destruct (rtype r), (ridentity r) as [i|]; try done.
  destruct (ps !! family i) as [q|] eqn:Hq; [|done]. intros ([] & He%raise_if_ok & H)%result_bind_ok.
  apply result_bind_ok in H as ([] & _ & H). apply result_bind_ok in H as ([] & _ & [= ->]).
  split; [done|]. exists i. split_and!; try done. by destruct (enabled p).
Qed.

(** Profiles speak of Artifact roles and Artifact actions only. *)
Definition artifact_role (ro : role) : Prop := ROLE_CHILD_ACTIONS ro = [] ∧ ro ≠ R_ARTIFACT_OWNER.
Definition artifact_action (a : action) : Prop :=
  a ∈ [ARTIFACT_READ; ARTIFACT_WRITE; ARTIFACT_SHARE; HANDOFF_EVIDENCE_INSPECT; HANDOFF_ACKNOWLEDGE; PROMPT_USE].
#[local] Instance artifact_action_dec a : Decision (artifact_action a).
Proof. unfold artifact_action. apply _. Defined.
#[local] Instance artifact_role_dec ro : Decision (artifact_role ro).
Proof. unfold artifact_role. apply _. Defined.
Definition sound_profile (p : profile) : Prop :=
  Forall artifact_role (grantable_roles p) ∧ Forall artifact_action (family_actions p).
#[local] Instance sound_profile_dec p : Decision (sound_profile p).
Proof. unfold sound_profile. apply _. Defined.

Lemma registered_sound (ps : profiles) f p : registered ps → ps !! f = Some p → sound_profile p.
Proof.
  intros H. revert f p. induction H as [|g ps H IH]; intros f p.
  - unfold built_in. intros Hp%elem_of_list_to_map_2. apply list_elem_of_fmap in Hp as (q & [= -> ->] & Hq).
    assert (Hall : Forall sound_profile ARTIFACT_FAMILY_PROFILES) by (apply (bool_decide_unpack _); vm_compute; done).
    rewrite Forall_forall in Hall. by apply Hall.
  - unfold register_custom_artifact_access_family. destruct (ps !! g) eqn:Hg; [apply IH|].
    intros [[<- <-]|[_ ?]]%lookup_insert_Some; [|by eapply IH]. apply (bool_decide_unpack _). vm_compute. done.
Qed.

Lemma registered_actions (ps : profiles) a r :
  registered ps → validate_action_resource ps deployment a r = Ok tt →
  match rtype r with
  | SERVER => a ∈ [ACCESS_SELF; SERVER_OBSERVE; SERVER_ADMIN] ∧ deployment_id r = Some deployment
  | SCOPE => a ∈ [SCOPE_READ; SCOPE_CONTRIBUTE; SCOPE_REVIEW; SCOPE_DELEGATE; SCOPE_ADMIN]
  | ARTIFACT => artifact_action a
  end.
Proof.
  intros Hps. unfold validate_action_resource. destruct (rtype r).
  - intros ([] & Hd%raise_if_ok%dec_stable & Ha%raise_if_ok%dec_stable)%result_bind_ok. done.
  - by intros Ha%raise_if_ok%dec_stable.
  - intros (p & (_ & i & _ & Hp & _)%artifact_family_profile_ok & Ha%raise_if_ok%dec_stable)%result_bind_ok.
    apply (registered_sound _ _ _ Hps) in Hp as [_ Hall]. rewrite Forall_forall in Hall. by apply Hall.
Qed.

Lemma scope_not_artifact a :
  a ∈ [SCOPE_READ; SCOPE_CONTRIBUTE; SCOPE_REVIEW; SCOPE_DELEGATE; SCOPE_ADMIN] → ¬ artifact_action a.
Proof.
  intros H1 H2. unfold artifact_action in H2. rewrite !elem_of_cons, elem_of_nil in H1. rewrite !elem_of_cons, elem_of_nil in H2.
  destruct a; intuition congruence.
Qed.

Lemma child_of_server a : a ∈ [SCOPE_ADMIN; ARTIFACT_SHARE] → a ∉ [ACCESS_SELF; SERVER_OBSERVE; SERVER_ADMIN].
Proof. rewrite !elem_of_cons, !elem_of_nil. naive_solver. Qed.

(** What a fitting binding is on, and which actions below it its role implies. *)
Lemma binding_fits_cases (ps : profiles) b :
  registered ps → binding_fits ps b →
  match rtype (b_resource b) with
  | SERVER => b_resource b = server_ref deployment ∧ ROLE_CHILD_ACTIONS (b_role b) ⊆ [SCOPE_ADMIN; ARTIFACT_SHARE]
  | SCOPE => ∃ s, b_resource b = scope_ref s ∧ s ≠ [] ∧ Forall artifact_action (ROLE_CHILD_ACTIONS (b_role b))
  | ARTIFACT => ROLE_CHILD_ACTIONS (b_role b) = []
  end.
Proof.
  intros Hps [Hw Hv]. unfold validate_binding_role in Hv.
  destruct (well_shaped_cases _ Hw) as [(d & E)|[(s & E)|(s & f & a & e & E)]]; rewrite E in Hv, Hw |- *; simpl in *.
  - apply raise_if_ok in Hv. assert (d = deployment) as ->.
    { destruct (decide (Some d = Some deployment)) as [[= ->]|]; [done|tauto]. }
    split; [done|]. destruct (decide (b_role b ∈ [R_SERVER_OBSERVER; R_SERVER_ADMIN])) as [Hr|]; [|tauto].
    rewrite !elem_of_cons in Hr. destruct Hr as [-> | [-> | Hr%elem_of_nil]]; simpl; set_solver.
  - exists s. split; [done|]. split.
    { intros ->. destruct Hw as (_ & [[Ht _] _] & _). by apply Ht. }
    apply raise_if_ok, dec_stable in Hv. rewrite !elem_of_cons in Hv. unfold artifact_action.
    destruct Hv as [-> | [-> | [-> | [-> | [-> | Hv%elem_of_nil]]]]]; simpl;
      try (by apply (bool_decide_unpack _)); done.
  - apply result_bind_ok in Hv as (p & (_ & i & _ & Hp & _)%artifact_family_profile_ok & Hr%raise_if_ok%dec_stable).
    apply (registered_sound _ _ _ Hps) in Hp as [Hall _]. rewrite Forall_forall in Hall. by apply Hall.
Qed.

(** ** Both decisions, on one condition *)

Definition granted (st : decision_state) (p : principal) (now : Z) (q : access_request) : Prop :=
  Exists (λ b, binding_grants b (q_action q) (q_resource q)) (filter (active_at now) (bindings st)) ∨
  owner_allows st p q.

Lemma filter_head {A} (P : A → Prop) `{∀ x, Decision (P x)} (l : list A) :
  match filter P l with [] => ¬ Exists P l | x :: _ => P x ∧ x ∈ l end.
Proof.
  destruct (filter P l) as [|x l'] eqn:E.
  - intros (x & Hx & HP)%Exists_exists. assert (Hin : x ∈ filter P l) by by apply list_elem_of_filter.
    rewrite E in Hin. by apply not_elem_of_nil in Hin.
  - apply (list_elem_of_filter P l x). rewrite E. left.
Qed.

Lemma builtin_granted st p groups now q :
  allowed (builtin_decide st p groups now q) = true ↔ q_action q = ACCESS_SELF ∨ granted st p now q.
Proof.
  unfold builtin_decide, binding_decision, granted. destruct (decide (q_action q = ACCESS_SELF)); [by split; [left|]|].
  pose proof (filter_head (λ b, binding_grants b (q_action q) (q_resource q)) (filter (active_at now) (bindings st))) as Hf.
  destruct (filter (λ b, binding_grants b _ _) _) as [|b l]; simpl.
  - destruct (decide (owner_allows st p q)); simpl; naive_solver.
  - destruct Hf as [Hf Hin]. split; [|done]. intros _. right. left. apply Exists_exists. eauto.
Qed.

(** *** What may justify an allowed decision

    The resources a role held on [parent] reaches below it.  A provider that compares
    patterns ([by_pattern]) takes a Scope named by the wildcard for every Scope, and
    looks at the Scope of [parent] whatever the type of [parent]. *)
Definition reaches (by_pattern : bool) (parent r : resource) : Prop :=
  rtype parent = SERVER ∨ (rtype parent = SCOPE ∧ scope_id parent = scope_id r) ∨
  (by_pattern = true ∧ (scope_id parent = scope_id r ∨ scope_id parent = Some wildcard)).
Definition confers (by_pattern : bool) (b : binding) (a : action) (r : resource) : Prop :=
  (b_resource b = r ∧ a ∈ ROLE_ACTIONS (b_role b)) ∨
  (reaches by_pattern (b_resource b) r ∧ a ∈ ROLE_CHILD_ACTIONS (b_role b)).
Definition justified (by_pattern : bool) (st : decision_state) (p : principal) (now : Z) (q : access_request) : Prop :=
  Exists (λ b, confers by_pattern b (q_action q) (q_resource q)) (filter (active_at now) (bindings st)) ∨
  owner_allows st p q.

Lemma granted_justified st p now q : granted st p now q → justified false st p now q.
Proof.
  intros [Hb|Ho]; [left|by right]. eapply Exists_impl; [exact Hb|]. intros b. simpl. unfold binding_grants, confers.
  case_decide as E; [by left|]. intros [[Ha _] [?|[?|(? & _ & ?)]]]; [done|right..]; (split; [|done]); [by left|by right; left].
Qed.

Lemma builtin_justified st p groups now q :
  allowed (builtin_decide st p groups now q) = true → q_action q = ACCESS_SELF ∨ justified false st p now q.
Proof. intros [?|?%granted_justified]%builtin_granted; [by left|by right]. Qed.

Context (ps : profiles) (enforce : list rule → rule → bool).
Context (Hps : registered ps).
(** What the [casbin] package documents of a model with this matcher and effect. *)
Context (enforce_some : ∀ l r, enforce l r = true ↔ Exists (matches r) l).

Lemma matches_exact r p a a' :
  well_shaped r → well_shaped p → matches (exact_rule r a) (exact_rule p a') → r = p ∧ a = a'.
Proof.
  intros Hr Hp (Ha & Ho & _ & _). simpl in *. split; [|done]. destruct Ho as [Ho|Ho]; [|by apply key_inj].
  exfalso. unfold key, json_object in Ho. by destruct (rtype p).
Qed.

Lemma matches_child r p a a' :
  well_shaped p → matches (exact_rule r a) (child_rule p a') → a = a' ∧ reaches true p r.
Proof.
  intros Hp (Ha & _ & Hs & _). simpl in *. split; [done|]. unfold reaches.
  destruct (well_shaped_cases _ Hp) as [(d & E)|[(s & E)|(s & f & x & e & E)]]; rewrite E in *; simpl in *; [by left|right; right..].
  all: destruct s as [|c s]; [by destruct Hp as (_ & [[Ht _] _] & _); destruct Ht|]; simpl in Hs; split; [done|].
  all: destruct Hs as [->|Hs]; [by right|left]; destruct (scope_id r) as [[]|]; simpl in Hs; congruence.
Qed.

(** Whatever relationships are stored, Casbin allows nothing that no relationship of
    the state confers when Scopes are compared as patterns. *)
Lemma casbin_justified st p groups now q :
  Forall (λ b, well_shaped (b_resource b)) (bindings st) → well_shaped (q_resource q) →
  allowed (casbin_decide enforce st p groups now q) = true → q_action q = ACCESS_SELF ∨ justified true st p now q.
Proof.
  intros Hb Hw. unfold casbin_decide. destruct (decide (q_action q = ACCESS_SELF)); [by left|]. simpl. rewrite enforce_some.
  unfold policies. rewrite Exists_app. intros [H|H]; right; [left|right].
  - apply Exists_exists in H as (r & (b & Hr & Hin)%list_elem_of_bind & Hm). apply Exists_exists. exists b. split; [done|].
    rewrite Forall_forall in Hb. assert (Hwb : well_shaped (b_resource b)) by (apply Hb; by apply list_elem_of_filter in Hin as [_ ?]).
    unfold binding_rules in Hr. apply elem_of_app in Hr as [(a & -> & Ha)%list_elem_of_fmap|(a & -> & Ha)%list_elem_of_fmap].
    + apply matches_exact in Hm as [E1 E2]; [|done..]. rewrite E1, E2. by left.
    + apply matches_child in Hm as [E Hm]; [|done]. rewrite E. by right.
  - case_bool_decide; [done|by apply Exists_nil in H].
Qed.

Lemma matches_self r a : matches (exact_rule r a) (exact_rule r a).
Proof. split_and!; auto. Qed.

Definition fits (b : binding) : Prop := binding_fits ps b ∧ scope_id (b_resource b) ≠ Some wildcard.

Lemma casbin_grants_builtin b q :
  fits b → validate_action_resource ps deployment (q_action q) (q_resource q) = Ok tt →
  casbin_grants b (q_action q) (q_resource q) ↔ binding_grants b (q_action q) (q_resource q).
Proof.
  intros [Hb _] Hq. pose proof (registered_actions _ _ _ Hps Hq) as Ha. pose proof (binding_fits_cases _ _ Hps Hb) as Hc.
  unfold casbin_grants, binding_grants, parent_binding_grants, binding_covers, covers.
  destruct (decide (b_resource b = q_resource q)) as [E|E].
  - rewrite E in *. split; [|by auto]. intros [[_ ?]|[Hcov Hch]]; [done|]. exfalso.
    destruct (rtype (q_resource q)).
    + destruct Hc as [_ Hc]. apply Hc in Hch. destruct Ha as [Ha _]. by eapply child_of_server.
    + naive_solver.
    + rewrite Hc in Hch. by apply not_elem_of_nil in Hch.
  - split.
    + intros [[? _]|[Hcov Hch]]; [done|]. split_and!; [done| |by destruct Hcov as [?|?]; auto].
      destruct Hcov as [Hcov|(Hcov & ? & _)]; rewrite Hcov in *; [|done].
      destruct Hc as [_ Hc]. apply Hc in Hch. destruct (rtype (q_resource q)); [|by auto..].
      destruct Ha as [Ha _]. by apply child_of_server in Hch.
    + intros [[Hch _] [?|Hcov]]; [done|]. by right.
Qed.

(** A request for a resource is in the deployment of the service. *)
Lemma request_deployment a r :
  well_shaped r → validate_action_resource ps deployment a r = Ok tt →
  or_text (deployment_id r) deployment = deployment.
Proof.
  intros Hw Hq. pose proof (registered_actions _ _ _ Hps Hq) as Ha.
  destruct (well_shaped_cases _ Hw) as [(d & ->)|[(s & ->)|(s & f & e & i & ->)]]; [|done..]. simpl in Ha.
  destruct Ha as [_ [= ->]]. by destruct deployment.
Qed.

Lemma child_rule_covers b q :
  fits b → well_shaped (q_resource q) → validate_action_resource ps deployment (q_action q) (q_resource q) = Ok tt →
  q_action q ∈ ROLE_CHILD_ACTIONS (b_role b) →
  matches (exact_rule (q_resource q) (q_action q)) (child_rule (b_resource b) (q_action q)) ↔
  covers (b_resource b) (q_resource q).
Proof.
  intros [Hb Hs] Hw Hq Hch. pose proof (request_deployment _ _ Hw Hq) as Hd.
  pose proof (registered_actions _ _ _ Hps Hq) as Ha. pose proof (binding_fits_cases _ _ Hps Hb) as Hc.
  unfold matches, covers. simpl. rewrite Hd. destruct (rtype (b_resource b)) eqn:Ht.
  - destruct Hc as [-> _]. simpl. split; [by auto|]. intros _. split_and!; auto. by destruct deployment.
  - destruct Hc as ([|c0 s] & Eb & Hne & Hall); [done|]. rewrite Eb in *. simpl in *.
    assert (Hart : artifact_action (q_action q)) by (rewrite Forall_forall in Hall; by apply Hall).
    destruct (well_shaped_cases _ Hw) as [(d & E)|[(s' & E)|(s' & f & e & i & E)]]; rewrite E in *; simpl in *.
    + split; [|naive_solver]. intros (_ & _ & [?|?] & _); congruence.
    + exfalso. by apply scope_not_artifact in Ha.
    + destruct s' as [|c s']; simpl.
      * split; [intros (_ & _ & [?|?] & _); congruence|naive_solver].
      * split; [|naive_solver]. intros (_ & _ & [?|?] & _); [congruence|]. right. naive_solver.
  - rewrite Hc in Hch. by apply not_elem_of_nil in Hch.
Qed.

Lemma binding_rules_match b q :
  fits b → well_shaped (q_resource q) → validate_action_resource ps deployment (q_action q) (q_resource q) = Ok tt →
  Exists (matches (exact_rule (q_resource q) (q_action q))) (binding_rules b) ↔
  casbin_grants b (q_action q) (q_resource q).
Proof.
  intros Hb Hw Hq. unfold binding_rules, casbin_grants. rewrite Exists_app, !Exists_exists. pose proof Hb as [[Hwb _] _].
  split.
  - intros [(p & (a & -> & Ha)%list_elem_of_fmap & Hm)|(p & (a & -> & Ha)%list_elem_of_fmap & Hm)].
    + apply matches_exact in Hm as [<- <-]; [|done..]. by left.
    + right. assert (q_action q = a) as <- by apply Hm. split; [|done]. by apply child_rule_covers in Hm.
  - intros [[<- Ha]|[Hc Ha]].
    + left. eexists. split; [by apply list_elem_of_fmap_2|]. apply matches_self.
    + right. eexists. split; [by apply list_elem_of_fmap_2|]. by apply child_rule_covers.
Qed.

Lemma casbin_granted st p groups now q :
  Forall fits (bindings st) → well_shaped (q_resource q) →
  validate_action_resource ps deployment (q_action q) (q_resource q) = Ok tt →
  allowed (casbin_decide enforce st p groups now q) = true ↔ q_action q = ACCESS_SELF ∨ granted st p now q.
Proof.
  intros Hb Hw Hq. unfold casbin_decide, granted. destruct (decide (q_action q = ACCESS_SELF)); [by split; [left|]|].
  simpl. rewrite enforce_some. unfold policies. rewrite Exists_app. 
  assert (Hl : Forall fits (filter (active_at now) (bindings st))).
  { rewrite Forall_forall in Hb |- *. intros b [_ Hin]%list_elem_of_filter. by apply Hb. }
  revert Hl. clear Hb. generalize (filter (active_at now) (bindings st)). intros l Hl.
  assert (H1 : Exists (matches (exact_rule (q_resource q) (q_action q))) (l ≫= binding_rules) ↔
    Exists (λ b, binding_grants b (q_action q) (q_resource q)) l).
  { rewrite !Exists_exists. rewrite Forall_forall in Hl. split.
    - intros (r & (b & Hr & Hb)%list_elem_of_bind & Hm). exists b. split; [done|].
      apply casbin_grants_builtin; [by apply Hl|done|]. apply binding_rules_match; [by apply Hl|done..|].
      apply Exists_exists. eauto.
    - intros (b & Hb & Hg). apply casbin_grants_builtin in Hg; [|by apply Hl|done].
      apply binding_rules_match in Hg; [|by apply Hl|done..]. apply Exists_exists in Hg as (r & Hr & Hm).
      exists r. split; [|done]. apply list_elem_of_bind. eauto. }
  rewrite H1. assert (H2 : Exists (matches (exact_rule (q_resource q) (q_action q)))
    (if bool_decide (owner_allows st p q) then exact_rule (q_resource q) <$> ROLE_ACTIONS R_ARTIFACT_OWNER else []) ↔
    owner_allows st p q).
  { case_bool_decide as Ho.
    - split; [done|]. intros _. apply Exists_exists. exists (exact_rule (q_resource q) (q_action q)).
      split; [|apply matches_self]. apply list_elem_of_fmap_2. apply Ho.
    - by rewrite Exists_nil. }
  rewrite H2. tauto.
Qed.

Lemma contextual_revision_valid r groups :
  valid_revision (Some r) → valid_revision (Some (contextual_policy_revision r groups)).
Proof.
  unfold contextual_policy_revision, valid_revision. destruct (decide (groups = [])); [done|]. intros _.
  pose proof (length_take_le (digest (join [0] (sorted_text groups))) 24) as Hm.
  set (m := take 24 _) in *. assert (length m ≤ 24)%nat by (unfold m; rewrite length_take; lia).
  rewrite !length_app, length_take. unfold MAX_POLICY_REVISION_LENGTH in *. simpl. split; [|lia].
  by destruct (take _ r).
Qed.

Lemma validate_ok d :
  valid_reason (reason_code d) → valid_revision (d_revision d) → (matched_subject d ≠ None → allowed d = true) →
  validate_provider_decision d = Ok tt.
Proof.
  intros Hr Hv Hm. unfold validate_provider_decision. rewrite (raise_if_skip (¬ valid_reason _)) by (intros Hn; by apply Hn).
  rewrite (raise_if_skip (¬ valid_revision _)) by (intros Hn; by apply Hn). apply raise_if_skip.
  intros [H Hf]. rewrite Hm in Hf; done.
Qed.

Lemma builtin_valid st p groups now q :
  valid_revision (Some (policy_revision st)) → validate_provider_decision (builtin_decide st p groups now q) = Ok tt.
Proof.
  intros Hr%(contextual_revision_valid _ groups). unfold builtin_decide, binding_decision.
  destruct (decide (q_action q = ACCESS_SELF)); [|destruct (filter _ _); simpl; [destruct (decide (owner_allows st p q))|]];
    (apply validate_ok; [apply (bool_decide_unpack _); vm_compute; done|done|done]).
Qed.

Lemma casbin_valid st p groups now q :
  Forall fits (bindings st) → well_shaped (q_resource q) →
  validate_action_resource ps deployment (q_action q) (q_resource q) = Ok tt →
  valid_revision (Some (policy_revision st)) →
  validate_provider_decision (casbin_decide enforce st p groups now q) = Ok tt.
Proof.
  intros Hb Hw Hq Hr%(contextual_revision_valid _ groups). apply validate_ok.
  - unfold casbin_decide. destruct (decide _); simpl; [|destruct (enforce _ _)]; apply (bool_decide_unpack _); vm_compute; done.
  - unfold casbin_decide. by destruct (decide _).
  - intros Hm. apply casbin_granted; [done..|]. unfold casbin_decide in Hm. destruct (decide (q_action q = ACCESS_SELF)); [by left|].
    right. simpl in Hm. unfold granted. destruct (matching_binding _ _ _) as [b|] eqn:Eb.
    + left. apply Exists_exists. exists b. unfold matching_binding in Eb. apply head_Some_elem_of in Eb.
      apply list_elem_of_filter in Eb as [Hg Hin]. split; [done|]. apply casbin_grants_builtin; [|done..].
      rewrite Forall_forall in Hb. apply Hb. by apply list_elem_of_filter in Hin as [_ ?].
    + right. by case_bool_decide.
Qed.

(** C38: The two authorization providers agree.  On the same relationships, of which
    every one fits the roles the service grants in this deployment and no Scope is
    named by the wildcard, the built-in provider and the Casbin provider give the
    same answer to every valid request, of every principal, with any groups, at any
    time; and the service accepts both answers, so that switching the provider can
    neither open nor close access. *)
Theorem providers_agree st p groups now q :
  Forall fits (bindings st) → well_shaped (q_resource q) →
  validate_action_resource ps deployment (q_action q) (q_resource q) = Ok tt →
  valid_revision (Some (policy_revision st)) →
  let b := builtin_decide st p groups now q in
  let c := casbin_decide enforce st p groups now q in
  allowed b = allowed c ∧ d_revision b = d_revision c ∧
  validate_provider_decision b = Ok tt ∧ validate_provider_decision c = Ok tt.
Proof.
  intros Hb Hw Hq Hr b c. split_and!; [| |by apply builtin_valid|by apply casbin_valid].
  - pose proof (builtin_granted st p groups now q) as H1. pose proof (casbin_granted st p groups now q Hb Hw Hq) as H2.
    rewrite <- H2 in H1. fold b c in H1. destruct (allowed b), (allowed c); naive_solver.
  - unfold b, c, builtin_decide, casbin_decide, binding_decision. destruct (decide (q_action q = ACCESS_SELF)); [done|].
    destruct (filter (λ b, binding_grants b _ _) _); simpl; [|done]. by destruct (decide (owner_allows st p q)).
Qed.

End policy.

(** ** The filter shows what point decisions allow *)

Lemma by_key_snoc l r : by_key (l ++ [r]) = <[key r := r]> (by_key l).
Proof. unfold by_key. by rewrite foldl_app. Qed.

Lemma by_key_lookup l k r :
  Forall well_shaped l → by_key l !! k = Some r ↔ r ∈ l ∧ key r = k.
Proof.
  induction l as [|x l IH] using rev_ind; intros Hw.
  { unfold by_key. simpl. rewrite lookup_empty. split; [done|by intros [?%not_elem_of_nil _]]. }
  apply Forall_app in Hw as [Hw Hx]. apply Forall_cons in Hx as [Hx _]. rewrite by_key_snoc, lookup_insert_Some, IH by done.
  rewrite elem_of_app, list_elem_of_singleton. split; [naive_solver|].
  intros [[Hr| ->] Hk]; [|by left]. destruct (decide (key x = k)) as [E|E]; [|by right].
  left. split; [done|]. rewrite Forall_forall in Hw. apply key_inj; [done|by apply Hw|congruence].
Qed.

Lemma in_key_order_elem m r : r ∈ in_key_order m ↔ ∃ k, m !! k = Some r.
Proof.
  unfold in_key_order. rewrite list_elem_of_omap. split; [by intros (k & _ & ?); eauto|].
  intros (k & Hk). exists k. split; [|done]. apply sorted_text_elem, list_elem_of_fmap. exists (k, r).
  split; [done|]. by apply elem_of_map_to_list.
Qed.

Lemma listed_elem l r : Forall well_shaped l → r ∈ in_key_order (by_key l) ↔ r ∈ l.
Proof.
  intros Hw. rewrite in_key_order_elem. split.
  - by intros (k & [? _]%by_key_lookup).
  - intros Hr. exists (key r). by apply by_key_lookup.
Qed.

Lemma filter_allows l owned q revision r :
  Forall (λ b, well_shaped (b_resource b)) l → Forall well_shaped owned →
  rtype r = s_type q → in_family q r →
  resource_allowed_by_filter r (derive_authorized_resource_filter l owned q revision) ↔
  Exists (λ b, binding_grants b (s_action q) r) l ∨ (owner_search q ∧ r ∈ owned).
Proof.
  intros Hl Ho Ht Hf. rewrite Forall_forall in Hl. rewrite Forall_forall in Ho. unfold resource_allowed_by_filter, derive_authorized_resource_filter.
  cbn [exact_resources parent_constraints]. rewrite Exists_exists. rewrite listed_elem, elem_of_app, list_elem_of_fmap.
  2: { apply Forall_app. split; [|destruct (decide _); [|done]]; apply Forall_forall; intros x Hx.
       - apply list_elem_of_fmap in Hx as (b & -> & [_ Hb]%list_elem_of_filter). by apply Hl.
       - apply list_elem_of_filter in Hx as [_ ?]. by apply Ho. }
  assert (Hpar : ∀ x, x ∈ in_key_order (by_key (b_resource <$> filter (λ b, ¬ exact_grant q b ∧ parent_grant q b) l)) ↔
    ∃ b, x = b_resource b ∧ b ∈ l ∧ ¬ exact_grant q b ∧ parent_grant q b).
  { intros x. rewrite listed_elem.
    - rewrite list_elem_of_fmap. setoid_rewrite list_elem_of_filter. naive_solver.
    - apply Forall_forall. intros y (b & -> & [_ Hb]%list_elem_of_filter)%list_elem_of_fmap. by apply Hl. }
  setoid_rewrite Hpar. rewrite Exists_exists. unfold binding_grants. split.
  - intros [[(b & -> & [(_ & Ha & _) Hb]%list_elem_of_filter)|Hin]|(x & (b & -> & Hb & _ & Hp & Hg) & Hc)].
    + left. exists b. split; [done|]. by rewrite decide_True.
    + destruct (decide (owner_search q)); [|by apply not_elem_of_nil in Hin]. right.
      by apply list_elem_of_filter in Hin as [_ ?].
    + left. exists b. split; [done|]. rewrite <- Ht in *. rewrite decide_False; [done|].
      intros E. rewrite E in Hp. unfold resource_is_parent in Hp. by destruct (rtype r).
  - intros [(b & Hb & Hg)|[Hos Hr]].
    + destruct (decide (b_resource b = r)) as [E|E].
      * left. left. exists b. split; [done|]. apply list_elem_of_filter. split; [|done]. by rewrite <- E in Ht, Hf.
      * destruct Hg as [Hg Hc]. right. exists (b_resource b). split; [|done]. exists b. rewrite Ht in Hg.
        destruct Hg as [Ha Hg]. split_and!; [done|done| |split; [|by split]].
        -- intros (Htb & _ & _). rewrite Htb in Hg. destruct Hc as [?|[Hc|(Hc & Hr & _)]]; [done|..]; rewrite Hc in Htb;
             rewrite <- Htb in Hg; [naive_solver|done].
        -- unfold resource_is_parent. destruct (rtype (b_resource b)); [by destruct Hg as [-> | ->]|done|done].
    + left. right. rewrite decide_True by done. by apply list_elem_of_filter.
Qed.


(** ** Concrete decisions *)

Definition demo_enforce (l : list rule) (r : rule) : bool := bool_decide (Exists (matches r) l).
Lemma demo_enforce_some l r : demo_enforce l r = true ↔ Exists (matches r) l.
Proof. apply bool_decide_eq_true. Qed.

Definition demo_deployment : text := str "powercontext".
Definition demo_principal : principal := mkPrincipal user (str "ada").
Definition demo_binding (i : text) (r : resource) (ro : role) : binding :=
  mkBinding i (PrincipalRef demo_principal) r ro demo_principal None 0 (Some 100) ACTIVE 1 (str "1") (str "key") None None.
Definition demo_context : audit_context := mkContext (str "http") (str "demo") None None [].
Definition demo_request (a : action) (r : resource) : access_request := mkRequest demo_principal a r demo_context.
Definition demo_artifact : resource := artifact_ref (str "s") (str "skill") (str "x") None.
Definition demo_state (l : list binding) : decision_state := mkState (str "1") l ∅ [].

Definition demo_viewer : decision_state := demo_state [demo_binding (str "b") (scope_ref (str "s")) R_SCOPE_VIEWER].

Lemma providers_agree_witness :
  allowed (casbin_decide id demo_deployment demo_enforce demo_viewer demo_principal [] 5 (demo_request ARTIFACT_READ demo_artifact)) = true.
Proof.
  destruct (providers_agree id demo_deployment built_in demo_enforce registered_built_in demo_enforce_some
    demo_viewer demo_principal [] 5 (demo_request ARTIFACT_READ demo_artifact)) as (He & _).
  - constructor; [|constructor]. split; [split; [apply (bool_decide_unpack _); vm_compute; done|vm_compute; reflexivity]|].
    vm_compute. congruence.
  - apply (bool_decide_unpack _). vm_compute. done.
  - vm_compute. reflexivity.
  - apply (bool_decide_unpack _). vm_compute. done.
  - rewrite <- He. vm_compute. reflexivity.
Defined.

(** Where a relationship names another deployment the providers differ: the built-in
    one lets the other deployment's administrator administer every Scope, while the
    Casbin one refuses and yet names a matched subject, an answer the service
    rejects as unavailable. *)
Definition demo_foreign : decision_state :=
  demo_state [demo_binding (str "b") (server_ref (str "elsewhere")) R_SERVER_ADMIN].
Example foreign_deployment_differs :
  let q := demo_request SCOPE_ADMIN (scope_ref (str "s")) in
  let b := builtin_decide id demo_foreign demo_principal [] 5 q in
  let c := casbin_decide id demo_deployment demo_enforce demo_foreign demo_principal [] 5 q in
  allowed b = true ∧ allowed c = false ∧
  validate_provider_decision c = Err (AccessUnavailableError "access_unavailable").
Proof. vm_compute. done. Qed.

(** A Scope named by the wildcard matches every Scope under Casbin, in a state that
    holds a binding on it. *)
Definition demo_wildcard : decision_state :=
  demo_state [demo_binding (str "b") (scope_ref (str "*")) R_SCOPE_VIEWER].
Example wildcard_scope_differs :
  let q := demo_request ARTIFACT_READ demo_artifact in
  allowed (builtin_decide id demo_wildcard demo_principal [] 5 q) = false ∧
  allowed (casbin_decide id demo_deployment demo_enforce demo_wildcard demo_principal [] 5 q) = true.
Proof. vm_compute. done. Qed.
End AccessPolicy.
