(* ===== verification/AccessStore.v ===== *)
(** * The relationship store

    [RelationalAccessRepository] of [server/authz/repository.py]: bindings with
    their single-holder slots, owners, idempotency receipts, the policy revision
    and the audit log.  Every relationship write takes the policy head first, so
    writes run one after another; each is one transaction. *)

From stdpp Require Import pretty.
From S2P Require Import Prelude Access AccessPolicy.
Local Open Scope Z_scope.

Module AccessStore.
Import Access AccessPolicy.

(** ** Tables *)

(** [CandidateOwnerAttestation]. *)
Record attestation := mkAttestation {
  a_scope : text;
  a_candidate : text;
  a_family : text;
  proposed_owner : principal;
  a_target : option resource;
  a_key : text
}.
#[export] Instance attestation_eq_dec : EqDecision attestation.
Proof. solve_decision. Defined.

(** [AccessAuditEvent]; the cursor is its position in the log. *)
Record audit_event := mkEvent {
  event_id : text;
  occurred_at : Z;
  e_context : audit_context;
  e_principal : principal;
  e_action : action;
  e_resource : resource;
  e_allowed : bool;
  e_reason : text;
  e_revision : option text;
  e_matched : option subject;
  e_binding : option text;
  e_target : option subject;
  e_role : option role;
  expected_version : option Z;
  result_version : option Z
}.

Inductive receipt_operation := BINDING_CREATE | BINDING_REVOKE | BINDING_REPLACE.
#[export] Instance receipt_operation_eq_dec : EqDecision receipt_operation.
Proof. solve_decision. Defined.

(** A row of [pc_access_idempotency]. *)
Record receipt := mkReceipt {
  r_operation : receipt_operation;
  payload_hash : text;
  result_binding : text;
  secondary_binding : option text
}.

(** A row of [pc_access_relationships]: the binding with its single-holder slot. *)
Record binding_row := mkRow { row_binding : binding; slot : option text }.

(** The tables; owners are kept by kind and key hash, receipts by actor and key hash. *)
Record adb := mkAdb {
  policy_head : option Z;
  binding_rows : gmap text binding_row;
  owner_rows : gmap text owner_relation;
  candidate_rows : gmap text attestation;
  receipts : gmap (text * text) receipt;
  audits : list audit_event
}.
Definition empty_adb : adb := mkAdb None ∅ ∅ ∅ ∅ [].

Definition set_head (n : Z) (s : adb) : adb :=
  mkAdb (Some n) (binding_rows s) (owner_rows s) (candidate_rows s) (receipts s) (audits s).
Definition set_rows (m : gmap text binding_row) (s : adb) : adb :=
  mkAdb (policy_head s) m (owner_rows s) (candidate_rows s) (receipts s) (audits s).
Definition set_owners (m : gmap text owner_relation) (s : adb) : adb :=
  mkAdb (policy_head s) (binding_rows s) m (candidate_rows s) (receipts s) (audits s).
Definition set_candidates (m : gmap text attestation) (s : adb) : adb :=
  mkAdb (policy_head s) (binding_rows s) (owner_rows s) m (receipts s) (audits s).
Definition set_receipts (m : gmap (text * text) receipt) (s : adb) : adb :=
  mkAdb (policy_head s) (binding_rows s) (owner_rows s) (candidate_rows s) m (audits s).
Definition set_audits (l : list audit_event) (s : adb) : adb :=
  mkAdb (policy_head s) (binding_rows s) (owner_rows s) (candidate_rows s) (receipts s) l.

Definition number (n : Z) : text := str (pretty n).

(** [BindingSearchRequest] and [ReplaceBinding]. *)
Record binding_search := mkBindingSearch {
  management_resource : resource;
  bs_subject : option subject;
  bs_role : option role;
  bs_state : option binding_state;
  bs_cursor : option text;
  bs_limit : nat;
  visible_roles : list role
}.
Record replace_request := mkReplace {
  rp_binding : text;
  rp_version : Z;
  rp_subject : subject;
  rp_key : text;
  rp_reason : option text;
  rp_expires : option Z
}.

Section store.
(** [sha256(...).hexdigest()] and the text of a timestamp. *)
Context (digest : text → text) (timestamp : Z → text).

(** ** Reads *)

Definition revision_of (s : adb) : Z := default 0 (policy_head s).
Definition policy_revision (s : adb) : text := number (revision_of s).

(** The rows of the table, in an order of the database's own. *)
Definition rows (s : adb) : list binding := (λ x : text * binding_row, row_binding x.2) <$> map_to_list (binding_rows s).

Definition active_bindings (subjects : list subject) (now : Z) (s : adb) : list binding :=
  filter (λ b, b_subject b ∈ subjects ∧ state b = ACTIVE ∧ active_at now b) (rows s).

Definition get_binding (i : text) (s : adb) : option binding := row_binding <$> binding_rows s !! i.

(** [_boundary_predicates]. *)
Definition in_boundary (r : resource) (b : binding) : Prop :=
  match rtype r with
  | SERVER => True
  | SCOPE => scope_id (b_resource b) = scope_id r
  | ARTIFACT => b_resource b = r
  end.
#[export] Instance in_boundary_dec r b : Decision (in_boundary r b).
Proof. unfold in_boundary. destruct (rtype r); apply _. Defined.

Definition selected {A} (o : option A) (a : A) : Prop := o = None ∨ o = Some a.
#[export] Instance selected_dec {A} `{EqDecision A} (o : option A) a : Decision (selected o a).
Proof. unfold selected. apply _. Defined.

Definition bs_matches (q : binding_search) (b : binding) : Prop :=
  in_boundary (management_resource q) b ∧ selected (bs_subject q) (b_subject b) ∧ selected (bs_role q) (b_role b) ∧
  selected (bs_state q) (state b) ∧ (visible_roles q = [] ∨ b_role b ∈ visible_roles q) ∧
  match bs_cursor q with None => True | Some c => ¬ text_le (binding_id b) c end.
#[export] Instance bs_matches_dec q b : Decision (bs_matches q b).
Proof. unfold bs_matches. destruct (bs_cursor q); apply _. Defined.

Definition list_bindings (q : binding_search) (s : adb) : list binding :=
  take (bs_limit q) (filter (bs_matches q)
    (omap (λ i, get_binding i s) (sorted_text (map_to_list (binding_rows s)).*1))).

Definition get_artifact_owner (r : resource) (s : adb) : option owner_relation :=
  if decide (rtype r = ARTIFACT) then owner_rows s !! digest (key r) else None.

Definition owners (s : adb) : list owner_relation := (map_to_list (owner_rows s)).*2.
Definition list_owned_resources (p : principal) (s : adb) : list resource :=
  o_resource <$> filter (λ o, owner o = p) (owners s).

Definition candidate_owner_key (scope_id candidate_id : text) : text :=
  digest (json_array [quote scope_id; quote candidate_id]).
Definition get_candidate_owner (scope_id candidate_id : text) (s : adb) : option attestation :=
  candidate_rows s !! candidate_owner_key scope_id candidate_id.

(** [_decision_snapshot]: a point decision names its resources; then only the
    bindings on them, on their Scopes and on the Server are read. *)
Definition relevant (resources : option (list resource)) (b : binding) : Prop :=
  match resources with
  | None => True
  | Some l =>
      let wanted := l ++ omap parent_scope l in
      rtype (b_resource b) = SERVER ∨
      digest (key (b_resource b)) ∈ (λ r, digest (key r)) <$> filter (λ r, rtype r = rtype (b_resource b)) wanted
  end.
#[export] Instance relevant_dec o b : Decision (relevant o b).
Proof. destruct o; apply _. Defined.

Definition decision_snapshot (subjects : list subject) (now : Z) (artifact_resources : list resource)
    (owned_by : option principal) (resources : option (list resource)) (s : adb) : decision_state :=
  mkState (policy_revision s)
    (filter (λ b, b_subject b ∈ subjects ∧ state b = ACTIVE ∧ relevant resources b ∧ active_at now b) (rows s))
    (list_to_map ((λ o, (key (o_resource o), o)) <$>
       omap (λ r, owner_rows s !! digest (key r)) artifact_resources))
    (match owned_by with Some p => list_owned_resources p s | None => [] end).

(** ** Writes *)

(** [_increment_policy_revision]. *)
Definition increment_policy_revision (amount : Z) : M adb Z := λ s,
  let n := match policy_head s with None => amount | Some c => c + amount end in Ok (n, set_head n s).

(** [_idempotent_result] and [_record_idempotency]. *)
Definition idempotent_result (p : principal) (k : text) (op : receipt_operation) (hash : text) (s : adb)
    : result (option (text * option text)) :=
  match receipts s !! (principal_id p, digest k) with
  | None => Ok None
  | Some r =>
      raise_if (r_operation r ≠ op ∨ payload_hash r ≠ hash) (AccessConflictError "idempotency-key") ;;
      Ok (Some (result_binding r, secondary_binding r))
  end.
Definition record_idempotency (p : principal) (k : text) (r : receipt) (e : exn) : M adb unit := λ s,
  match receipts s !! (principal_id p, digest k) with
  | Some _ => Err e
  | None => Ok (tt, set_receipts (<[(principal_id p, digest k) := r]> (receipts s)) s)
  end.

(** [_singleton_key]. *)
Definition slot_of (r : resource) (ro : role) : text :=
  digest (json_array [quote_ascii (key r); quote_ascii (role_value ro)]).
Definition singleton_key (b : binding) : option text :=
  if decide (ONE_PER_RESOURCE (b_role b) ∧ state b = ACTIVE) then Some (slot_of (b_resource b) (b_role b)) else None.

(** [_insert_binding]: an expired holder gives its slot up; the unique key decides
    whether the slot is free. *)
Definition expired_by (now : Z) (b : binding) : Prop := match expires_at b with Some t => t ≤ now | None => False end.
#[export] Instance expired_by_dec now b : Decision (expired_by now b).
Proof. unfold expired_by. destruct (expires_at b); apply _. Defined.
Definition release (k : text) (now : Z) (row : binding_row) : binding_row :=
  if decide (slot row = Some k ∧ expired_by now (row_binding row))
  then mkRow (row_binding row) None else row.
Definition release_slots (o : option text) (now : Z) (m : gmap text binding_row) : gmap text binding_row :=
  match o with None => m | Some k => release k now <$> m end.
Definition holds_slot (m : gmap text binding_row) (o : option text) : Prop :=
  match o with None => False | Some k => ¬ map_Forall (λ _ row, slot row ≠ Some k) m end.
#[export] Instance holds_slot_dec m o : Decision (holds_slot m o).
Proof. destruct o; apply _. Defined.

Definition insert_binding (b : binding) : M adb unit := λ s,
  let m := release_slots (singleton_key b) (created_at b) (binding_rows s) in
  if decide (is_Some (m !! binding_id b) ∨ holds_slot m (singleton_key b)) then
    Err (AccessConflictError (if decide (singleton_key b = None) then "idempotency-key" else "binding_cardinality_conflict"))
  else Ok (tt, set_rows (<[binding_id b := mkRow b (singleton_key b)]> m) s).

(** [_creation_hash]. *)
Definition creation_hash (b : binding) : text :=
  digest (join [0] [subject_type (b_subject b); subject_id (b_subject b); key (b_resource b); role_value (b_role b);
                    default [] (reason b); from_option timestamp [] (expires_at b)]).

Definition with_revision (b : binding) (revision : text) : binding :=
  mkBinding (binding_id b) (b_subject b) (b_resource b) (b_role b) (granted_by b) (reason b) (created_at b)
    (expires_at b) (state b) (version b) revision (idempotency_key b) (revoked_at b) (revoked_by b).
Definition revoked (b : binding) (revision : text) (at_ : Z) (by_ : principal) : binding :=
  mkBinding (binding_id b) (b_subject b) (b_resource b) (b_role b) (granted_by b) (reason b) (created_at b)
    (expires_at b) REVOKED (version b + 1) revision (idempotency_key b) (Some at_) (Some by_).

Definition replayed (i : text) : M adb binding := reads (λ s,
  match get_binding i s with Some b => Ok b | None => Err (AccessConflictError "idempotency-key") end).

Definition create_binding (b : binding) : M adb binding :=
  replay ← reads (idempotent_result (granted_by b) (idempotency_key b) BINDING_CREATE (creation_hash b));
  match replay with
  | Some (i, _) => replayed i
  | None =>
      n ← increment_policy_revision 1;
      let created := with_revision b (number n) in
      insert_binding created ;;
      record_idempotency (granted_by b) (idempotency_key b)
        (mkReceipt BINDING_CREATE (creation_hash b) (binding_id b) None) (AccessConflictError "idempotency-key") ;;
      mret created
  end.

(** The compare and swap that revokes a binding, under the policy head. *)
Definition require_active (i : text) (expected : Z) : M adb binding_row := reads (λ s,
  match binding_rows s !! i with
  | None => Err (AccessConflictError "binding-version")
  | Some row =>
      raise_if (version (row_binding row) ≠ expected ∨ state (row_binding row) ≠ ACTIVE)
        (AccessConflictError "binding-version") ;;
      Ok row
  end).
Definition write_revoked (b : binding) : M adb unit :=
  modifies (λ s, set_rows (<[binding_id b := mkRow b (singleton_key b)]> (binding_rows s)) s).

Definition revoke_binding (i : text) (expected : Z) (k : text) (at_ : Z) (by_ : principal) : M adb binding :=
  let hash := digest (i ++ [0] ++ number expected) in
  replay ← reads (idempotent_result by_ k BINDING_REVOKE hash);
  match replay with
  | Some (j, _) => replayed j
  | None =>
      n ← increment_policy_revision 1;
      row ← require_active i expected;
      let b := revoked (row_binding row) (number n) at_ by_ in
      write_revoked b ;;
      record_idempotency by_ k (mkReceipt BINDING_REVOKE hash i None) (IntegrityError "pc_access_idempotency") ;;
      mret b
  end.

Definition replacement_id (k i : text) : text := str "bind_" ++ take 32 (digest (k ++ str ":" ++ i)).
Definition replacement_hash (q : replace_request) : text :=
  digest (join [0] [rp_binding q; number (rp_version q); subject_type (rp_subject q); subject_id (rp_subject q);
                    default [] (rp_reason q); from_option timestamp [] (rp_expires q)]).
Definition replacement (q : replace_request) (old : binding) (actor : principal) (at_ : Z) (revision : text) : binding :=
  mkBinding (replacement_id (rp_key q) (binding_id old)) (rp_subject q) (b_resource old) (b_role old) actor (rp_reason q)
    at_ (rp_expires q) ACTIVE 1 revision (rp_key q) None None.

Definition replace_binding (q : replace_request) (actor : principal) (at_ : Z) : M adb (binding * binding) :=
  let hash := replacement_hash q in
  replay ← reads (idempotent_result actor (rp_key q) BINDING_REPLACE hash);
  match replay with
  | Some (i, None) => lift (Err (AccessConflictError "idempotency-key"))
  | Some (i, Some j) => old ← replayed i; new ← replayed j; mret (old, new)
  | None =>
      n ← increment_policy_revision 1;
      row ← require_active (rp_binding q) (rp_version q);
      let old := row_binding row in
      lift (raise_if (singleton_key old ≠ slot row) (AccessConflictError "binding_cardinality_conflict")) ;;
      let gone := revoked old (number n) at_ actor in
      let created := replacement q old actor at_ (number n) in
      write_revoked gone ;;
      insert_binding created ;;
      record_idempotency actor (rp_key q)
        (mkReceipt BINDING_REPLACE hash (binding_id old) (Some (binding_id created)))
        (AccessConflictError "idempotency-key") ;;
      mret (gone, created)
  end.

(** [establish_artifact_owners]: known relations are answered, the missing ones are
    inserted with consecutive revisions. *)
Definition with_owner_revision (o : owner_relation) (revision : text) : owner_relation :=
  mkOwner (o_resource o) (owner o) (established_at o) revision (o_key o).
Definition owner_hash (o : owner_relation) : text := digest (key (o_resource o)).

Definition same_claim (known o : owner_relation) : Prop := owner known = owner o ∧ o_key known = o_key o.
#[export] Instance same_claim_dec k o : Decision (same_claim k o).
Proof. unfold same_claim. apply _. Defined.

Definition classify_owners (l : list owner_relation) (s : adb) : result (list (owner_relation + owner_relation)) :=
  map_result (λ o,
    match owner_rows s !! owner_hash o with
    | None => Ok (inr o)
    | Some known => if decide (same_claim known o) then Ok (inl known) else Err (AccessConflictError "artifact-owner")
    end) l.

Definition missing (l : list (owner_relation + owner_relation)) : list owner_relation :=
  omap (λ x : owner_relation + owner_relation, match x with inr o => Some o | inl _ => None end) l.

(** The missing claims take the revisions from [n] on; then each claim has its answer. *)
Fixpoint numbered (n : Z) (l : list owner_relation) : list owner_relation :=
  match l with
  | [] => []
  | o :: l' => with_owner_revision o (number n) :: numbered (n + 1) l'
  end.
Fixpoint answers (l : list (owner_relation + owner_relation)) (created : list owner_relation) : list owner_relation :=
  match l, created with
  | inl known :: l', _ => known :: answers l' created
  | inr _ :: l', o :: created' => o :: answers l' created'
  | _, _ => []
  end.

Definition put_owners (l : list owner_relation) (m : gmap text owner_relation) : gmap text owner_relation :=
  foldl (λ m o, <[owner_hash o := o]> m) m l.

Definition establish_artifact_owners (l : list owner_relation) : M adb (list owner_relation) :=
  if decide (l = []) then mret [] else
    lift (raise_if (Exists (λ o, rtype (o_resource o) ≠ ARTIFACT) l) (AccessInvalidRequestError "artifact-identity")) ;;
    lift (raise_if (¬ NoDup (owner_hash <$> l)) (AccessConflictError "artifact-owner")) ;;
    found ← reads (classify_owners l);
    if decide (missing found = []) then mret (answers found []) else
      let count := Z.of_nat (length (missing found)) in
      n ← increment_policy_revision count;
      let established := numbered (n - count + 1) (missing found) in
      modifies (λ s, set_owners (put_owners established (owner_rows s)) s) ;;
      mret (answers found established).

(** [attest_candidate_owners]: one proposed owner per Candidate. *)
Definition attestation_key (a : attestation) : text := candidate_owner_key (a_scope a) (a_candidate a).

Fixpoint unique_attestations (l : list attestation) (unique : gmap text attestation) : result (gmap text attestation) :=
  match l with
  | [] => Ok unique
  | a :: l' =>
      raise_if (unique !! attestation_key a ≠ None ∧ unique !! attestation_key a ≠ Some a)
        (AccessConflictError "candidate-owner") ;;
      unique_attestations l' (<[attestation_key a := a]> unique)
  end.

(** The row keeps the target's Artifact identity. *)
Definition stored_attestation (a : attestation) : attestation :=
  mkAttestation (a_scope a) (a_candidate a) (a_family a) (proposed_owner a)
    ((λ r, artifact_ref (a_scope a) (a_family a) (from_option artifact_id [] (ridentity r)) None) <$> a_target a)
    (a_key a).

Definition attest_candidate_owners (l : list attestation) : M adb (list attestation) :=
  if decide (l = []) then mret [] else
    unique ← lift (unique_attestations l ∅);
    reads (λ s, raise_if (¬ map_Forall (λ k a, candidate_rows s !! k = None ∨ candidate_rows s !! k = Some a) unique)
                  (AccessConflictError "candidate-owner")) ;;
    modifies (λ s, set_candidates (candidate_rows s ∪ (stored_attestation <$> unique)) s) ;;
    mret l.

(** [delete_legacy_topic_memory_owners]. *)
Definition legacy (o : owner_relation) : Prop := rfamily (o_resource o) = Some (str "topic-memory").
#[export] Instance legacy_dec o : Decision (legacy o).
Proof. unfold legacy. apply _. Defined.

Definition delete_legacy_topic_memory_owners : M adb Z := λ s,
  let stale := filter (λ x : text * owner_relation, legacy x.2) (owner_rows s) in
  if decide (stale = ∅) then Ok (0, s) else
    (n ← increment_policy_revision 1;
     modifies (λ s, set_owners (filter (λ x : text * owner_relation, ¬ legacy x.2) (owner_rows s)) s) ;;
     mret (Z.of_nat (size stale))) s.

(** [append_audit]: the cursor is the position; an event ID is taken once. *)
Definition append_audit (e : audit_event) : M adb Z := λ s,
  if decide (event_id e ∈ event_id <$> audits s) then Err (IntegrityError "pc_access_audit")
  else Ok (Z.of_nat (length (audits s)) + 1, set_audits (audits s ++ [e]) s).

(** [static_scope_initialized]: every key has a receipt whose binding is stored. *)
Definition static_scope_initialized (p : principal) (keys : list text) (s : adb) : bool :=
  let wanted := digest <$> keys in
  bool_decide (length (filter (λ x : text * text * receipt,
      x.1.1 = principal_id p ∧ x.1.2 ∈ wanted ∧ r_operation x.2 = BINDING_CREATE ∧
      is_Some (binding_rows s !! result_binding x.2)) (map_to_list (receipts s))) = length keys).

(** ** Histories

    A state with the latest time any write has carried. *)

Definition fresh (b : binding) : Prop := state b = ACTIVE ∧ version b = 1 ∧ well_shaped (b_resource b).

Inductive step : Z * adb → Z * adb → Prop :=
  | step_create t b s b' s' : fresh b → create_binding b s = Ok (b', s') → step (t, s) (Z.max t (created_at b), s')
  | step_revoke t i expected k at_ by_ s b s' : revoke_binding i expected k at_ by_ s = Ok (b, s') → step (t, s) (t, s')
  | step_replace t q actor at_ s bb s' : replace_binding q actor at_ s = Ok (bb, s') → step (t, s) (Z.max t at_, s')
  | step_establish t l s r s' :
      Forall (λ o, well_shaped (o_resource o)) l → establish_artifact_owners l s = Ok (r, s') → step (t, s) (t, s')
  | step_attest t l s r s' : attest_candidate_owners l s = Ok (r, s') → step (t, s) (t, s')
  | step_legacy t s n s' : delete_legacy_topic_memory_owners s = Ok (n, s') → step (t, s) (t, s')
  | step_audit t e s n s' : append_audit e s = Ok (n, s') → step (t, s) (t, s').

(** ** What the operations do *)

Lemma increment_ok amount s n s' :
  increment_policy_revision amount s = Ok (n, s') ↔ n = revision_of s + amount ∧ s' = set_head n s.
Proof.
  unfold increment_policy_revision, revision_of. destruct (policy_head s); simpl; naive_solver.
Qed.

Lemma idempotent_result_none p k op h s : idempotent_result p k op h s = Ok None ↔ receipts s !! (principal_id p, digest k) = None.
Proof.
  unfold idempotent_result. destruct (receipts s !! _); [|done]. split; [|done].
  by intros ([] & _ & ?)%result_bind_ok.
Qed.

Lemma idempotent_result_some p k op h s x :
  idempotent_result p k op h s = Ok (Some x) ↔
  ∃ r, receipts s !! (principal_id p, digest k) = Some r ∧ r_operation r = op ∧ payload_hash r = h ∧
       x = (result_binding r, secondary_binding r).
Proof.
  unfold idempotent_result. destruct (receipts s !! _) as [r|]; [|naive_solver]. split.
  - intros ([] & Hn%raise_if_ok & [= <-])%result_bind_ok. exists r. split_and!; try done.
    + destruct (decide (r_operation r = op)); tauto.
    + destruct (decide (payload_hash r = h)); tauto.
  - intros (? & [= <-] & Ho & Hh & ->). rewrite raise_if_skip; [done|]. tauto.
Qed.

Lemma replayed_ok i s b s' : replayed i s = Ok (b, s') ↔ get_binding i s = Some b ∧ s' = s.
Proof. unfold replayed. rewrite reads_ok. destruct (get_binding i s); naive_solver. Qed.

Definition inserted (b : binding) (m m' : gmap text binding_row) : Prop :=
  let r := release_slots (singleton_key b) (created_at b) m in
  r !! binding_id b = None ∧ (∀ k, singleton_key b = Some k → ∀ i row, r !! i = Some row → slot row ≠ Some k) ∧
  m' = <[binding_id b := mkRow b (singleton_key b)]> r.

Lemma insert_binding_ok b s u s' :
  insert_binding b s = Ok (u, s') → ∃ m', inserted b (binding_rows s) m' ∧ s' = set_rows m' s.
Proof.
  unfold insert_binding. destruct (decide _) as [|Hn]; [done|]. intros [= _ <-]. eexists. split; [|done].
  split_and!; [|intros k Hk i row Hrow Hs|done].
  - apply eq_None_not_Some. intros H. apply Hn. by left.
  - apply Hn. right. unfold holds_slot. rewrite Hk in *. intros Hall. by apply (Hall i row).
Qed.

Lemma create_binding_ok b s b' s' :
  create_binding b s = Ok (b', s') →
  (∃ r, receipts s !! (principal_id (granted_by b), digest (idempotency_key b)) = Some r ∧
        r_operation r = BINDING_CREATE ∧ payload_hash r = creation_hash b ∧
        get_binding (result_binding r) s = Some b' ∧ s' = s) ∨
  (receipts s !! (principal_id (granted_by b), digest (idempotency_key b)) = None ∧
   b' = with_revision b (number (revision_of s + 1)) ∧
   ∃ m', inserted b' (binding_rows s) m' ∧
     s' = mkAdb (Some (revision_of s + 1)) m' (owner_rows s) (candidate_rows s)
            (<[(principal_id (granted_by b), digest (idempotency_key b)) :=
                 mkReceipt BINDING_CREATE (creation_hash b) (binding_id b) None]> (receipts s)) (audits s)).
Proof.
  unfold create_binding. intros H. apply M_bind_ok in H as (replay & ? & [Hr ->]%reads_ok & H).
  destruct replay as [[i j]|].
  - apply idempotent_result_some in Hr as (r & Hr & Ho & Hh & [= -> ->]). apply replayed_ok in H as [Hb ->].
    left. exists r. done.
  - apply idempotent_result_none in Hr. apply M_bind_ok in H as (n & s1 & [-> ->]%increment_ok & H).
    apply M_bind_ok in H as ([] & s2 & (m' & Hm & ->)%insert_binding_ok & H).
    apply M_bind_ok in H as ([] & s3 & Hrec & H). apply M_ret_ok in H as [-> ->].
    unfold record_idempotency in Hrec. simpl in Hrec. rewrite Hr in Hrec. injection Hrec as <-.
    right. split_and!; [done..|]. exists m'. done.
Qed.

Lemma require_active_ok i expected s row s' :
  require_active i expected s = Ok (row, s') →
  s' = s ∧ binding_rows s !! i = Some row ∧ version (row_binding row) = expected ∧ state (row_binding row) = ACTIVE.
Proof.
  unfold require_active. intros [H ->]%reads_ok. destruct (binding_rows s !! i) as [r|]; [|done].
  apply result_bind_ok in H as ([] & Hn%raise_if_ok & [= ->]). split_and!; try done.
  - destruct (decide (version (row_binding row) = expected)); tauto.
  - destruct (decide (state (row_binding row) = ACTIVE)); tauto.
Qed.

Lemma revoke_binding_ok i expected k at_ by_ s b s' :
  revoke_binding i expected k at_ by_ s = Ok (b, s') →
  (∃ r, receipts s !! (principal_id by_, digest k) = Some r ∧ get_binding (result_binding r) s = Some b ∧ s' = s) ∨
  (receipts s !! (principal_id by_, digest k) = None ∧
   ∃ row hash, binding_rows s !! i = Some row ∧ version (row_binding row) = expected ∧ state (row_binding row) = ACTIVE ∧
     b = revoked (row_binding row) (number (revision_of s + 1)) at_ by_ ∧
     s' = mkAdb (Some (revision_of s + 1)) (<[binding_id b := mkRow b None]> (binding_rows s)) (owner_rows s)
            (candidate_rows s) (<[(principal_id by_, digest k) := mkReceipt BINDING_REVOKE hash i None]> (receipts s))
            (audits s)).
Proof.
  unfold revoke_binding. intros H. apply M_bind_ok in H as (replay & ? & [Hr ->]%reads_ok & H).
  destruct replay as [[j o]|].
  - apply idempotent_result_some in Hr as (r & Hr & _ & _ & [= -> ->]). apply replayed_ok in H as [Hb ->].
    left. exists r. done.
  - apply idempotent_result_none in Hr. apply M_bind_ok in H as (n & s1 & [-> ->]%increment_ok & H).
    apply M_bind_ok in H as (row & s2 & (-> & Hrow & Hv & Hst)%require_active_ok & H).
    apply M_bind_ok in H as ([] & s3 & ->%modifies_ok & H). apply M_bind_ok in H as ([] & s4 & Hrec & H).
    apply M_ret_ok in H as [-> ->]. unfold record_idempotency in Hrec. simpl in *. rewrite Hr in Hrec.
    injection Hrec as <-. right. split; [done|]. eexists row, _. split_and!; try done.
    unfold singleton_key. simpl. rewrite decide_False by naive_solver. done.
Qed.

Lemma replace_binding_ok q actor at_ s old new s' :
  replace_binding q actor at_ s = Ok ((old, new), s') →
  (∃ r j, receipts s !! (principal_id actor, digest (rp_key q)) = Some r ∧ secondary_binding r = Some j ∧
     get_binding (result_binding r) s = Some old ∧ get_binding j s = Some new ∧ s' = s) ∨
  (receipts s !! (principal_id actor, digest (rp_key q)) = None ∧
   ∃ row hash m', binding_rows s !! rp_binding q = Some row ∧ state (row_binding row) = ACTIVE ∧
     version (row_binding row) = rp_version q ∧ slot row = singleton_key (row_binding row) ∧
     old = revoked (row_binding row) (number (revision_of s + 1)) at_ actor ∧
     new = replacement q (row_binding row) actor at_ (number (revision_of s + 1)) ∧
     inserted new (<[binding_id old := mkRow old None]> (binding_rows s)) m' ∧
     s' = mkAdb (Some (revision_of s + 1)) m' (owner_rows s) (candidate_rows s)
            (<[(principal_id actor, digest (rp_key q)) :=
                 mkReceipt BINDING_REPLACE hash (binding_id old) (Some (binding_id new))]> (receipts s)) (audits s)).
Proof.
  unfold replace_binding. intros H. apply M_bind_ok in H as (replay & ? & [Hr ->]%reads_ok & H).
  destruct replay as [[i [j|]]|].
  - apply idempotent_result_some in Hr as (r & Hr & _ & _ & [= -> Ej]).
    apply M_bind_ok in H as (o & ? & [Ho ->]%replayed_ok & H). apply M_bind_ok in H as (n & ? & [Hn ->]%replayed_ok & H).
    apply M_ret_ok in H as [[= -> ->] ->]. left. exists r, j. done.
  - by apply lift_ok in H as [? _].
  - apply idempotent_result_none in Hr. apply M_bind_ok in H as (n & s1 & [-> ->]%increment_ok & H).
    apply M_bind_ok in H as (row & s2 & (-> & Hrow & Hv & Hst)%require_active_ok & H).
    apply M_bind_ok in H as ([] & ? & [Hslot%raise_if_ok ->]%lift_ok & H).
    apply M_bind_ok in H as ([] & s3 & ->%modifies_ok & H).
    apply M_bind_ok in H as ([] & s4 & (m' & Hm & ->)%insert_binding_ok & H).
    apply M_bind_ok in H as ([] & s5 & Hrec & H). apply M_ret_ok in H as [[= -> ->] ->].
    unfold record_idempotency in Hrec. simpl in *. rewrite Hr in Hrec. injection Hrec as <-.
    right. split; [done|]. eexists row, _, m'. split_and!; try done.
    { symmetry. by apply dec_stable. }
    revert Hm. unfold singleton_key at 1. simpl. rewrite decide_False by naive_solver. done.
Qed.

(** ** The invariant *)

Definition row_ok (t : Z) (i : text) (row : binding_row) : Prop :=
  let b := row_binding row in
  binding_id b = i ∧ well_shaped (b_resource b) ∧ 1 ≤ version b ∧
  (slot row = singleton_key b ∨ (slot row = None ∧ expired_by t b)).

Definition slots_unique (m : gmap text binding_row) : Prop :=
  ∀ i j row row' k, m !! i = Some row → m !! j = Some row' → slot row = Some k → slot row' = Some k → i = j.

Definition receipt_ok (m : gmap text binding_row) (r : receipt) : Prop :=
  is_Some (m !! result_binding r) ∧ ∀ j, secondary_binding r = Some j → is_Some (m !! j).

Record invariant (x : Z * adb) : Prop := {
  inv_rows i row : binding_rows x.2 !! i = Some row → row_ok x.1 i row;
  inv_slots : slots_unique (binding_rows x.2);
  inv_owners h o : owner_rows x.2 !! h = Some o → h = owner_hash o ∧ well_shaped (o_resource o) ∧ rtype (o_resource o) = ARTIFACT;
  inv_receipts k r : receipts x.2 !! k = Some r → receipt_ok (binding_rows x.2) r
}.

Lemma empty_invariant t : invariant (t, empty_adb).
Proof.
  split; simpl.
  - by intros i row ?%lookup_empty_Some.
  - by intros i j row row' k ?%lookup_empty_Some.
  - by intros h o ?%lookup_empty_Some.
  - by intros k r ?%lookup_empty_Some.
Qed.

(** A row whose slot at most was given up after its binding had expired. *)
Definition same_row (t : Z) (row row' : binding_row) : Prop :=
  row_binding row' = row_binding row ∧ (slot row' = slot row ∨ (slot row' = None ∧ expired_by t (row_binding row))).

Lemma release_slots_lookup o t m i row' :
  release_slots o t m !! i = Some row' → ∃ row, m !! i = Some row ∧ same_row t row row'.
Proof.
  unfold release_slots. destruct o as [k|]; [|intros H; exists row'; by repeat split; auto].
  rewrite lookup_fmap. destruct (m !! i) as [row|]; [|done]. intros [= <-]. exists row. split; [done|].
  unfold release. case_decide as Hd; [|by split; [|left]]. split; [done|]. right. by destruct Hd.
Qed.

Lemma release_slots_some o t m i row :
  m !! i = Some row → ∃ row', release_slots o t m !! i = Some row' ∧ same_row t row row'.
Proof.
  intros Hi. destruct (release_slots o t m !! i) as [row'|] eqn:E.
  - exists row'. split; [done|]. apply release_slots_lookup in E as (row0 & E0 & Hs). by simplify_eq.
  - unfold release_slots in E. destruct o as [k|]; [by rewrite lookup_fmap, Hi in E|congruence].
Qed.

Lemma inserted_row_lookup b m m' i row' :
  inserted b m m' → m' !! i = Some row' →
  (i = binding_id b ∧ row' = mkRow b (singleton_key b)) ∨
  (i ≠ binding_id b ∧ ∃ row, m !! i = Some row ∧ same_row (created_at b) row row').
Proof.
  intros (_ & _ & ->) [[<- <-]|[Hi H]]%lookup_insert_Some; [by left|right]. split; [done|].
  by apply release_slots_lookup in H.
Qed.

Lemma inserted_some b m m' i row :
  inserted b m m' → m !! i = Some row → ∃ row', m' !! i = Some row' ∧ same_row (created_at b) row row'.
Proof.
  intros (Hnew & _ & ->) Hi. destruct (release_slots_some (singleton_key b) (created_at b) m i row Hi) as (row' & Hr & Hs).
  exists row'. split; [|done]. rewrite lookup_insert_ne; [done|]. intros <-. congruence.
Qed.

Lemma expired_later t t' b : t ≤ t' → expired_by t b → expired_by t' b.
Proof. unfold expired_by. destruct (expires_at b); [lia|done]. Qed.

Lemma row_ok_later t t' i row : t ≤ t' → row_ok t i row → row_ok t' i row.
Proof.
  intros Ht (H1 & H2 & H3 & [H4|[H4 H5]]); split_and!; auto. right. split; [done|]. by eapply expired_later.
Qed.

Lemma same_row_ok t t' i row row' : t ≤ t' → same_row t' row row' → row_ok t i row → row_ok t' i row'.
Proof.
  intros Ht [Eb [Es|[Es He]]] Hr; pose proof (row_ok_later _ _ _ _ Ht Hr) as (H1 & H2 & H3 & H4);
    unfold row_ok; rewrite Eb, Es; split_and!; auto.
Qed.

Lemma inserted_rows t b m m' :
  inserted b m m' → well_shaped (b_resource b) → 1 ≤ version b →
  (∀ i row, m !! i = Some row → row_ok t i row) → ∀ i row, m' !! i = Some row → row_ok (Z.max t (created_at b)) i row.
Proof.
  intros Hm Hw Hv Hr i row' [[-> ->]|(_ & row & Hi & Hs)]%(inserted_row_lookup _ _ _ _ _ Hm).
  - unfold row_ok. simpl. auto.
  - apply (same_row_ok t _ i row); [lia| |by apply Hr]. destruct Hs as [? [?|[? He]]]; split; auto.
    right. split; [done|]. by eapply expired_later; [|done]; lia.
Qed.

Lemma same_row_slot t row row' k : same_row t row row' → slot row' = Some k → slot row = Some k.
Proof. by intros [_ [->|[-> _]]]. Qed.

Lemma inserted_slots b m m' : inserted b m m' → slots_unique m → slots_unique m'.
Proof.
  intros Hm Hu i j row row' k Hi Hj Hs Hs'. pose proof Hm as (_ & Hfree & Em).
  assert (Hother : ∀ l r, m' !! l = Some r → slot r = Some k → singleton_key b = Some k → l = binding_id b).
  { intros l r Hl Hr Hk. rewrite Em in Hl. apply lookup_insert_Some in Hl as [[<- _]|[_ Hl]]; [done|].
    exfalso. by eapply Hfree. }
  apply (inserted_row_lookup _ _ _ _ _ Hm) in Hi as Hi'. apply (inserted_row_lookup _ _ _ _ _ Hm) in Hj as Hj'.
  destruct Hi' as [[-> ->]|(_ & r & Hr & Hsr)]; [symmetry; by eapply Hother|].
  destruct Hj' as [[-> ->]|(_ & r' & Hr' & Hsr')]; [by eapply Hother|].
  eapply Hu; [exact Hr|exact Hr'|by eapply same_row_slot|by eapply same_row_slot].
Qed.

Lemma inserted_receipts b m m' r : inserted b m m' → receipt_ok m r → receipt_ok m' r.
Proof.
  intros Hm. assert (Hk : ∀ i, is_Some (m !! i) → is_Some (m' !! i)).
  { intros i [row Hi]. destruct (inserted_some _ _ _ _ _ Hm Hi) as (row' & ? & _). eauto. }
  intros [H1 H2]. split; [by apply Hk|]. intros j Hj. by apply Hk, H2.
Qed.

Lemma inserted_self b m m' : inserted b m m' → m' !! binding_id b = Some (mkRow b (singleton_key b)).
Proof. intros (_ & _ & ->). apply lookup_insert_eq. Qed.

(** Revoking in place: the slot is free, the rest stays. *)
Definition revoke_row (b : binding) (m : gmap text binding_row) : gmap text binding_row := <[binding_id b := mkRow b None]> m.

Lemma revoke_row_rows t i row revision at_ by_ m :
  m !! i = Some row → (∀ i row, m !! i = Some row → row_ok t i row) →
  ∀ j r, revoke_row (revoked (row_binding row) revision at_ by_) m !! j = Some r → row_ok t j r.
Proof.
  intros Hi Hr j r. unfold revoke_row. intros [[<- <-]|[_ Hj]]%lookup_insert_Some; [|by apply Hr].
  destruct (Hr i row Hi) as (H1 & H2 & H3 & _). unfold row_ok, singleton_key. simpl.
  split_and!; [done|done|lia|]. left. by rewrite decide_False by naive_solver.
Qed.

Lemma revoke_row_slots b m : slots_unique m → slots_unique (revoke_row b m).
Proof.
  unfold revoke_row. intros Hu i j row row' k [[<- <-]|[_ Hi]]%lookup_insert_Some; [done|].
  intros [[<- <-]|[_ Hj]]%lookup_insert_Some; [done|]. by apply Hu.
Qed.

Lemma revoke_row_receipts b m r : receipt_ok m r → receipt_ok (revoke_row b m) r.
Proof.
  assert (Hk : ∀ i, is_Some (m !! i) → is_Some (revoke_row b m !! i)).
  { intros i Hi. unfold revoke_row. rewrite lookup_insert. case_decide; eauto. }
  intros [H1 H2]. split; [by apply Hk|]. intros j Hj. by apply Hk, H2.
Qed.

(** ** Owners *)

Lemma classify_owners_ok l s found :
  classify_owners l s = Ok found →
  ∀ o, o ∈ missing found → o ∈ l ∧ owner_rows s !! owner_hash o = None.
Proof.
  unfold classify_owners. intros H%map_result_ok o Ho. unfold missing in Ho.
  apply list_elem_of_omap in Ho as ([k|o'] & Hx & E); [done|]. injection E as ->.
  apply list_elem_of_lookup in Hx as [n Hn]. destruct (Forall2_lookup_r _ _ _ _ _ H Hn) as (o' & Ho' & E).
  apply list_elem_of_lookup_2 in Ho'. destruct (owner_rows s !! owner_hash o') eqn:Er.
  - by destruct (decide _).
  - by injection E as ->.
Qed.

Lemma numbered_elem n l o : o ∈ numbered n l → ∃ o' m, o' ∈ l ∧ o = with_owner_revision o' (number m).
Proof.
  revert n. induction l as [|x l IH]; intros n; simpl; [by intros ?%not_elem_of_nil|].
  intros [->|(o' & m & ? & ->)%IH]%elem_of_cons; [exists x, n; by split; [left|]|exists o', m; by split; [right|]].
Qed.

Lemma put_owners_lookup l m h o :
  put_owners l m !! h = Some o → (o ∈ l ∧ owner_hash o = h) ∨ m !! h = Some o.
Proof.
  revert m. induction l as [|x l IH]; intros m; simpl; [by right|]. intros [[? ?]|H]%IH; [left; by split; [right|]|].
  apply lookup_insert_Some in H as [[<- ->]|[_ ?]]; [left; by split; [left|]|by right].
Qed.

Lemma put_owners_keeps l m h o :
  (∀ x, x ∈ l → owner_hash x ≠ h) → m !! h = Some o → put_owners l m !! h = Some o.
Proof.
  revert m. induction l as [|x l IH]; intros m Hl Hm; simpl; [done|]. apply IH.
  - intros y Hy. apply Hl. by right.
  - rewrite lookup_insert_ne; [done|]. apply Hl. left.
Qed.

Lemma establish_ok l s r s' :
  establish_artifact_owners l s = Ok (r, s') →
  s' = s ∨ ∃ new, (length new ≠ 0)%nat ∧
    (∀ o, o ∈ new → owner_rows s !! owner_hash o = None ∧
       ∃ o', o' ∈ l ∧ o_resource o = o_resource o' ∧ owner o = owner o' ∧ rtype (o_resource o) = ARTIFACT) ∧
    s' = set_owners (put_owners new (owner_rows s)) (set_head (revision_of s + Z.of_nat (length new)) s).
Proof.
  unfold establish_artifact_owners. destruct (decide (l = [])); [intros [_ ->]%M_ret_ok; by left|]. intros H.
  apply M_bind_ok in H as ([] & ? & [Ht%raise_if_ok ->]%lift_ok & H).
  apply M_bind_ok in H as ([] & ? & [_ ->]%lift_ok & H). apply M_bind_ok in H as (found & ? & [Hf ->]%reads_ok & H).
  destruct (decide (missing found = [])) as [E|E]; [apply M_ret_ok in H as [_ ->]; by left|].
  apply M_bind_ok in H as (n0 & s1 & [-> ->]%increment_ok & H). apply M_bind_ok in H as ([] & s2 & ->%modifies_ok & H).
  apply M_ret_ok in H as [_ ->]. right.
  set (new := numbered _ (missing found)).
  assert (Hlen : length new = length (missing found)).
  { unfold new. generalize (revision_of s + Z.of_nat (length (missing found)) - Z.of_nat (length (missing found)) + 1).
    induction (missing found) as [|x k IH]; intros z; simpl; [done|]. f_equal. destruct k; [done|]. by apply IH. }
  exists new. split_and!.
  - rewrite Hlen. by destruct (missing found).
  - intros o (o' & m & Ho' & ->)%numbered_elem. apply (classify_owners_ok _ _ _ Hf) in Ho' as [Hl Hn].
    split; [done|]. exists o'. split_and!; [done..|]. simpl. rewrite Exists_exists in Ht.
    destruct (decide (rtype (o_resource o') = ARTIFACT)); [done|]. destruct Ht. eauto.
  - by rewrite Hlen.
Qed.

Lemma legacy_ok s n s' :
  delete_legacy_topic_memory_owners s = Ok (n, s') →
  s' = s ∨ s' = set_owners (filter (λ x : text * owner_relation, ¬ legacy x.2) (owner_rows s)) (set_head (revision_of s + 1) s).
Proof.
  unfold delete_legacy_topic_memory_owners. destruct (decide _); [intros [= _ <-]; by left|]. intros H.
  apply M_bind_ok in H as (m & s1 & [-> ->]%increment_ok & H). apply M_bind_ok in H as ([] & s2 & ->%modifies_ok & H).
  apply M_ret_ok in H as [_ ->]. by right.
Qed.

Lemma attest_ok l s r s' : attest_candidate_owners l s = Ok (r, s') → ∃ m, s' = set_candidates m s.
Proof.
  unfold attest_candidate_owners. destruct (decide _); [intros [_ ->]%M_ret_ok; by exists (candidate_rows s); destruct s|].
  intros H. apply M_bind_ok in H as (u & ? & [_ ->]%lift_ok & H). apply M_bind_ok in H as ([] & ? & [_ ->]%reads_ok & H).
  apply M_bind_ok in H as ([] & s2 & ->%modifies_ok & H). apply M_ret_ok in H as [_ ->]. eauto.
Qed.

Lemma audit_ok e s n s' : append_audit e s = Ok (n, s') → s' = set_audits (audits s ++ [e]) s ∧ event_id e ∉ event_id <$> audits s.
Proof. unfold append_audit. destruct (decide _); [done|]. by intros [= _ <-]. Qed.

(** ** What one write changes *)

(** The relationships that decide access are as before, or the revision has moved. *)
Definition same_relations (s s' : adb) : Prop :=
  policy_head s' = policy_head s ∧ binding_rows s' = binding_rows s ∧ owner_rows s' = owner_rows s.

Lemma step_revision x y : step x y → same_relations x.2 y.2 ∨ revision_of x.2 < revision_of y.2.
Proof.
  intros [t b s b' s' _ H|t i v k at_ by_ s b s' H|t q a at_ s [old new] s' H|t l s r s' _ H|t l s r s' H|t s n1 s' H|t e s n2 s' H];
    simpl.
  - apply create_binding_ok in H as [(r & _ & _ & _ & _ & ->)|(_ & _ & m' & _ & ->)]; [by left|right].
    unfold revision_of at 2. simpl. lia.
  - apply revoke_binding_ok in H as [(r & _ & _ & ->)|(_ & row & h & _ & _ & _ & _ & ->)]; [by left|right].
    unfold revision_of at 2. simpl. lia.
  - apply replace_binding_ok in H as [(r & j & _ & _ & _ & _ & ->)|(_ & row & h & m' & _ & _ & _ & _ & _ & _ & _ & ->)]; [by left|right].
    unfold revision_of at 2. simpl. lia.
  - apply establish_ok in H as [->|(new & Hn & _ & ->)]; [by left|right]. unfold revision_of at 2. simpl. lia.
  - apply attest_ok in H as [m ->]. by left.
  - apply legacy_ok in H as [->| ->]; [by left|right]. unfold revision_of at 2. simpl. lia.
  - apply audit_ok in H as [-> _]. by left.
Qed.

Lemma step_invariant x y : step x y → invariant x → invariant y.
Proof.
  intros [t b s b' s' (Hst & Hv & Hw) H|t i v k at_ by_ s b s' H|t q a at_ s [old new] s' H|t l s r s' Hl H|t l s r s' H|t s n1 s' H|t e s n2 s' H]
    [Hr Hs Ho Hc]; simpl in *.
  - apply create_binding_ok in H as [(r & _ & _ & _ & _ & ->)|(_ & -> & m' & Hm & ->)].
    + split; simpl; try done. intros i row Hi. apply (row_ok_later t); [lia|by apply Hr].
    + assert (Hver : 1 ≤ version (with_revision b (number (revision_of s + 1)))) by (simpl; lia).
      pose proof (inserted_rows t _ _ _ Hm Hw Hver Hr) as Hm'. split; simpl; [done|by eapply inserted_slots|done|].
      intros k r [[<- <-]|[_ Hk]]%lookup_insert_Some; [|by eapply inserted_receipts, Hc].
      split; [|done]. simpl. eexists. exact (inserted_self _ _ _ Hm).
  - apply revoke_binding_ok in H as [(r & _ & _ & ->)|(_ & row & h & Hi & _ & _ & -> & ->)]; [by split|].
    split; cbn [fst snd binding_rows owner_rows receipts];
      [by eapply revoke_row_rows|by apply revoke_row_slots|done|].
    intros k' r [[<- <-]|[_ Hk]]%lookup_insert_Some; [|by eapply revoke_row_receipts, Hc].
    split; [|done]. simpl. destruct (Hr _ _ Hi) as (<- & _). rewrite lookup_insert_eq. eauto.
  - apply replace_binding_ok in H as [(r & j & _ & _ & _ & _ & ->)|(_ & row & h & m' & Hi & _ & _ & _ & -> & -> & Hm & ->)].
    + split; simpl; try done. intros i row Hi. apply (row_ok_later t); [lia|by apply Hr].
    + set (gone := revoked _ _ _ _) in *. fold (revoke_row gone (binding_rows s)) in Hm.
      destruct (Hr _ _ Hi) as (Hid & Hw & _).
      split; cbn [fst snd binding_rows owner_rows receipts].
      * refine (inserted_rows t _ _ _ Hm _ _ _); [done|simpl; lia|]. by eapply revoke_row_rows.
      * eapply inserted_slots; [done|]. by apply revoke_row_slots.
      * done.
      * intros k' r [[<- <-]|[_ Hk]]%lookup_insert_Some.
        -- assert (Hg : is_Some (m' !! binding_id (row_binding row))).
           { destruct (inserted_some _ _ _ (binding_id gone) (mkRow gone None) Hm) as (row' & Hr' & _); [apply lookup_insert_eq|].
             simpl in Hr'. eauto. }
           split; [done|]. intros j [= <-]. rewrite (inserted_self _ _ _ Hm : m' !! replacement_id _ _ = _). eauto.
        -- eapply inserted_receipts; [done|]. by eapply revoke_row_receipts, Hc.
  - apply establish_ok in H as [->|(new & _ & Hn & ->)]; [by split|]. split; simpl; try done.
    intros h o [[Hin <-]|Hh]%put_owners_lookup; [|by apply Ho]. destruct (Hn _ Hin) as (_ & o' & Ho' & Er & _ & Ht).
    split_and!; [done| |done]. rewrite Forall_forall in Hl. rewrite Er. by apply Hl.
  - apply attest_ok in H as [m ->]. by split.
  - apply legacy_ok in H as [->| ->]; [by split|]. split; simpl; try done.
    intros h o [Hh _]%map_lookup_filter_Some. by apply Ho.
  - apply audit_ok in H as [-> _]. by split.
Qed.

(** ** Histories from an empty store *)

Definition reachable (x : Z * adb) : Prop := ∃ t, rtc step (t, empty_adb) x.

Lemma reachable_invariant x : reachable x → invariant x.
Proof.
  intros (t & H). assert (H0 : invariant (t, empty_adb)) by apply empty_invariant.
  induction H as [|a b c Hs _ IH]; [done|]. by eapply IH, step_invariant.
Qed.

Lemma reachable_rtc x y : reachable x → rtc step x y → reachable y.
Proof. intros (t & H) Hr. exists t. by etrans. Qed.

(** C39: At most one holder.  In every history of the store, and from the time of its
    latest write on, two bindings in force that assign the same single-holder role
    (Handoff receiver, Artifact owner) on the same resource are one binding: a slot
    is given up only when its holder is revoked, replaced or has expired. *)
Theorem one_holder t s now i j b b' :
  reachable (t, s) → t ≤ now →
  get_binding i s = Some b → get_binding j s = Some b' → active_at now b → active_at now b' →
  b_resource b = b_resource b' → b_role b = b_role b' → ONE_PER_RESOURCE (b_role b) → i = j.
Proof.
  intros [Hr Hs _ _]%reachable_invariant Ht Hi Hj Ha Ha' Eres Erole Hone. simpl in *. unfold get_binding in *.
  destruct (binding_rows s !! i) as [row|] eqn:Ei; [|done]. destruct (binding_rows s !! j) as [row'|] eqn:Ej; [|done].
  simplify_eq/=.
  assert (Hslot : ∀ l r, binding_rows s !! l = Some r → active_at now (row_binding r) → slot r = singleton_key (row_binding r)).
  { intros l r Hl [_ Hx]. destruct (Hr _ _ Hl) as (_ & _ & _ & [?|[_ He]]); [done|]. exfalso. unfold expired_by in He.
    destruct (expires_at (row_binding r)); [lia|done]. }
  assert (Hk : ∀ b, active_at now b → ONE_PER_RESOURCE (b_role b) → singleton_key b = Some (slot_of (b_resource b) (b_role b))).
  { intros b [Hb _] Ho. unfold singleton_key. by rewrite decide_True. }
  eapply (Hs i j); [done|done| |].
  - rewrite (Hslot _ _ Ei Ha). by apply Hk.
  - rewrite (Hslot _ _ Ej Ha'), Hk, Eres, Erole by congruence. done.
Qed.

(** ** The revision *)

Lemma number_inj : Inj (=) (=) number.
Proof. intros n m H%str_inj. by apply (inj pretty). Qed.

Lemma steps_relations x y : rtc step x y → same_relations x.2 y.2 ∨ revision_of x.2 < revision_of y.2.
Proof.
  induction 1 as [|a b c Hs _ IH]; [by left|].
  assert (Hrev : ∀ s s', same_relations s s' → revision_of s' = revision_of s) by (intros ? ? [E _]; unfold revision_of; by rewrite E).
  destruct (step_revision _ _ Hs) as [Hs'|Hs'], IH as [IH|IH]; clear Hs; rename Hs' into Hs.
  - left. destruct Hs as (? & ? & ?), IH as (? & ? & ?). split_and!; congruence.
  - right. apply Hrev in Hs. lia.
  - right. apply Hrev in IH. lia.
  - right. lia.
Qed.

(** C40: The policy revision identifies the policy.  Along any history the revision
    never decreases, and as long as it reads the same, every decision input drawn
    from the store (bindings in force, owners, owned resources, for all subjects and
    at any one time) is the same: a decision recorded with a revision can be compared
    with any other by that revision alone. *)
Theorem revision_identifies_policy x y :
  rtc step x y →
  revision_of x.2 ≤ revision_of y.2 ∧
  (policy_revision x.2 = policy_revision y.2 →
   ∀ subjects now artifact_resources owned_by resources,
     decision_snapshot subjects now artifact_resources owned_by resources x.2 =
     decision_snapshot subjects now artifact_resources owned_by resources y.2).
Proof.
  intros [(Eh & Eb & Eo)|Hlt]%steps_relations.
  - split; [unfold revision_of; rewrite Eh; lia|]. intros _ *. unfold decision_snapshot, policy_revision, revision_of, rows,
      list_owned_resources, owners. by rewrite Eh, Eb, Eo.
  - split; [lia|]. unfold policy_revision. intros E%number_inj. lia.
Qed.

(** ** Bindings *)

Lemma same_row_binding t row row' : same_row t row row' → row_binding row' = row_binding row.
Proof. by intros [? _]. Qed.

(** What a step may make of a stored binding. *)
Definition kept (b b' : binding) : Prop :=
  b' = b ∨ (state b = ACTIVE ∧ ∃ revision at_ by_, b' = revoked b revision at_ by_).

Lemma inserted_binding b m m' i row :
  inserted b m m' → m !! i = Some row → ∃ row', m' !! i = Some row' ∧ row_binding row' = row_binding row.
Proof. intros Hm Hi. destruct (inserted_some _ _ _ _ _ Hm Hi) as (row' & ? & ?%same_row_binding). eauto. Qed.

Lemma revoke_row_kept i row revision at_ by_ m j r :
  m !! i = Some row → binding_id (row_binding row) = i → state (row_binding row) = ACTIVE → m !! j = Some r →
  ∃ r', revoke_row (revoked (row_binding row) revision at_ by_) m !! j = Some r' ∧ kept (row_binding r) (row_binding r').
Proof.
  intros Hi Hid Hact Hj. unfold revoke_row. rewrite lookup_insert. change (binding_id (revoked _ _ _ _)) with (binding_id (row_binding row)).
  case_decide as E; [|exists r; split; [done|by left]]. eexists. split; [done|]. assert (r = row) as -> by congruence.
  right. split; [done|]. eauto.
Qed.

Lemma step_kept x y i row :
  step x y → invariant x → binding_rows x.2 !! i = Some row →
  ∃ row', binding_rows y.2 !! i = Some row' ∧ kept (row_binding row) (row_binding row').
Proof.
  intros Hstep [Hr _ _ _] Hi.
  assert (Hsame : ∃ row', binding_rows x.2 !! i = Some row' ∧ kept (row_binding row) (row_binding row')) by (exists row; by split; [|left]).
  destruct Hstep as [t b s b' s' _ H|t j v k at_ by_ s b s' H|t q a at_ s [old new] s' H|t l s r s' _ H|t l s r s' H|t s n1 s' H|t e s n2 s' H];
    cbn [fst snd] in *.
  - apply create_binding_ok in H as [(r & _ & _ & _ & _ & ->)|(_ & -> & m' & Hm & ->)]; [done|].
    destruct (inserted_binding _ _ _ _ _ Hm Hi) as (row' & Hr' & E). exists row'. split; [done|by left].
  - apply revoke_binding_ok in H as [(r & _ & _ & ->)|(_ & r & h & Hj & _ & Hst & -> & ->)]; [done|].
    apply (revoke_row_kept j); [done|by destruct (Hr _ _ Hj)|done..].
  - apply replace_binding_ok in H as [(r & j & _ & _ & _ & _ & ->)|(_ & r & h & m' & Hj & Hst & _ & _ & -> & -> & Hm & ->)]; [done|].
    destruct (revoke_row_kept _ _ (number (revision_of s + 1)) at_ a _ _ _ Hj ltac:(by destruct (Hr _ _ Hj)) Hst Hi) as (r1 & H1 & Hk).
    destruct (inserted_binding _ _ _ _ _ Hm H1) as (row' & Hr' & E). exists row'. split; [done|]. by rewrite E.
  - apply establish_ok in H as [->|(new & _ & _ & ->)]; done.
  - apply attest_ok in H as [m ->]. done.
  - apply legacy_ok in H as [->| ->]; done.
  - by apply audit_ok in H as [-> _].
Qed.

Lemma kept_trans b b' b'' : kept b b' → kept b' b'' → kept b b''.
Proof. intros [->|(Ha & r & t & p & ->)] [->|(Ha' & ?)]; [by left|by right|by right; eauto|done]. Qed.

Lemma binding_lifecycle_ok x y i b :
  reachable x → rtc step x y → get_binding i x.2 = Some b →
  get_binding i y.2 = Some b ∨
  (state b = ACTIVE ∧ ∃ revision at_ by_, get_binding i y.2 = Some (revoked b revision at_ by_)).
Proof.
  intros Hx%reachable_invariant Hrtc Hb. cut (∃ row, binding_rows y.2 !! i = Some row ∧ kept b (row_binding row)).
  { unfold get_binding. intros (row & -> & [E|(Ha & r & t & p & E)]); simpl; rewrite E; [by left|right; eauto]. }
  unfold get_binding in Hb. apply fmap_Some in Hb as (row & Hi & ->). revert row Hi.
  induction Hrtc as [x|x z y Hs _ IH]; intros row Hi; [exists row; by split; [|left]|].
  destruct (step_kept _ _ _ _ Hs Hx Hi) as (row' & Hi' & Hk). destruct (IH (step_invariant _ _ Hs Hx) _ Hi') as (r & ? & Hk').
  exists r. split; [done|]. by eapply kept_trans.
Qed.

(** The life of a binding.  Once stored, a binding stays stored under its
    identifier for ever; its subject, resource, role, grantor and expiry never
    change; all that can happen to it is to be revoked, once, with its version
    counted up by one, and a revoked binding never comes back into force. *)
Theorem binding_lifecycle x y i b :
  reachable x → rtc step x y → get_binding i x.2 = Some b →
  get_binding i y.2 = Some b ∨
  (state b = ACTIVE ∧ ∃ revision at_ by_, get_binding i y.2 = Some (revoked b revision at_ by_)).
Proof. apply binding_lifecycle_ok. Qed.

(** ** Receipts *)

Lemma step_receipts x y k r : step x y → receipts x.2 !! k = Some r → receipts y.2 !! k = Some r.
Proof.
  intros Hstep Hk.
  assert (Hput : ∀ k' v, receipts x.2 !! k' = None → <[k' := v]> (receipts x.2) !! k = Some r).
  { intros k' v Hn. rewrite lookup_insert_ne; [done|]. intros <-. congruence. }
  destruct Hstep as [t b s b' s' _ H|t j v k0 at_ by_ s b s' H|t q a at_ s [old new] s' H|t l s z s' _ H|t l s z s' H|t s n1 s' H|t e s n2 s' H];
    cbn [fst snd] in *.
  - by apply create_binding_ok in H as [(z & _ & _ & _ & _ & ->)|(Hn & _ & m' & Hm & ->)]; [|apply Hput].
  - by apply revoke_binding_ok in H as [(z & _ & _ & ->)|(Hn & z & h & _ & _ & _ & _ & ->)]; [|apply Hput].
  - by apply replace_binding_ok in H as [(z & j & _ & _ & _ & _ & ->)|(Hn & z & h & m' & _ & _ & _ & _ & _ & _ & _ & ->)]; [|apply Hput].
  - by apply establish_ok in H as [->|(new & _ & _ & ->)].
  - by apply attest_ok in H as [m ->].
  - by apply legacy_ok in H as [->| ->].
  - by apply audit_ok in H as [-> _].
Qed.

Lemma steps_receipts x y k r : rtc step x y → receipts x.2 !! k = Some r → receipts y.2 !! k = Some r.
Proof. induction 1 as [|a b c Hs _ IH]; [done|]. intros Hk. by eapply IH, step_receipts. Qed.

Lemma created_receipt b s b' s' :
  create_binding b s = Ok (b', s') →
  ∃ r, receipts s' !! (principal_id (granted_by b), digest (idempotency_key b)) = Some r ∧
    r_operation r = BINDING_CREATE ∧ payload_hash r = creation_hash b ∧ get_binding (result_binding r) s' = Some b'.
Proof.
  intros [(r & Hr & Ho & Hh & Hb & ->)|(Hn & -> & m' & Hm & ->)]%create_binding_ok; [by exists r|].
  eexists. cbn [receipts]. rewrite lookup_insert_eq. split_and!; [done..|]. unfold get_binding. simpl.
  pose proof (inserted_self _ _ _ Hm) as E. simpl in E. by rewrite E.
Qed.

Lemma create_known b s r :
  receipts s !! (principal_id (granted_by b), digest (idempotency_key b)) = Some r →
  create_binding b s =
    if decide (r_operation r = BINDING_CREATE ∧ payload_hash r = creation_hash b) then replayed (result_binding r) s
    else Err (AccessConflictError "idempotency-key").
Proof.
  intros Hr. assert (Hi : idempotent_result (granted_by b) (idempotency_key b) BINDING_CREATE (creation_hash b) s =
    if decide (r_operation r = BINDING_CREATE ∧ payload_hash r = creation_hash b)
    then Ok (Some (result_binding r, secondary_binding r)) else Err (AccessConflictError "idempotency-key")).
  { unfold idempotent_result, raise_if. rewrite Hr. case_decide as H1; case_decide as H2; [tauto|done|done|].
    destruct (decide (r_operation r = BINDING_CREATE)), (decide (payload_hash r = creation_hash b)); tauto. }
  unfold create_binding, reads, mbind, M_bind. rewrite Hi. by case_decide.
Qed.

(** Creating a binding is idempotent.  Once a grantor has created a binding under
    a key, then at any later time in any history the same request under that key
    changes nothing and answers the binding stored the first time (revoked, if it has
    been revoked since), whatever identifier and time the repeated request carries;
    and any other request of that grantor under that key is refused. *)
Theorem create_replays t s b created s1 x' b2 :
  reachable (t, s) → fresh b → create_binding b s = Ok (created, s1) →
  rtc step (Z.max t (created_at b), s1) x' →
  principal_id (granted_by b2) = principal_id (granted_by b) → idempotency_key b2 = idempotency_key b →
  if decide (creation_hash b2 = creation_hash b) then
    ∃ now, create_binding b2 x'.2 = Ok (now, x'.2) ∧ kept created now
  else create_binding b2 x'.2 = Err (AccessConflictError "idempotency-key").
Proof.
  intros Hx Hf Hc Hrtc Hp Hkey. destruct (created_receipt _ _ _ _ Hc) as (r & Hr & Ho & Hh & Hb).
  pose proof (steps_receipts _ _ _ _ Hrtc Hr) as Hr'. rewrite (create_known b2 _ r) by congruence. rewrite Ho, Hh.
  case_decide as E; [|by rewrite decide_False by naive_solver]. rewrite decide_True by done.
  assert (Hx1 : reachable (Z.max t (created_at b), s1)).
  { eapply reachable_rtc; [exact Hx|]. apply rtc_once. by apply step_create with created. }
  unfold replayed, reads. destruct (binding_lifecycle_ok _ _ _ _ Hx1 Hrtc Hb) as [E'|(Ha & rev & at_ & by_ & E')]; rewrite E';
    eexists; (split; [done|]); [by left|right; eauto].
Qed.

(** ** Owners are settled *)

Lemma step_owner x y h o : step x y → ¬ legacy o → owner_rows x.2 !! h = Some o → owner_rows y.2 !! h = Some o.
Proof.
  intros Hstep Hl Hh.
  destruct Hstep as [t b s b' s' _ H|t j v k0 at_ by_ s b s' H|t q a at_ s [old new] s' H|t l s z s' _ H|t l s z s' H|t s n1 s' H|t e s n2 s' H];
    cbn [fst snd] in *.
  - by apply create_binding_ok in H as [(z & _ & _ & _ & _ & ->)|(Hn & _ & m' & Hm & ->)].
  - by apply revoke_binding_ok in H as [(z & _ & _ & ->)|(Hn & z & h' & _ & _ & _ & _ & ->)].
  - by apply replace_binding_ok in H as [(z & j & _ & _ & _ & _ & ->)|(Hn & z & h' & m' & _ & _ & _ & _ & _ & _ & _ & ->)].
  - apply establish_ok in H as [->|(new & _ & Hn & ->)]; [done|]. apply put_owners_keeps; [|done].
    intros o' [Hnone _]%Hn E. rewrite E in Hnone. congruence.
  - by apply attest_ok in H as [m ->].
  - apply legacy_ok in H as [->| ->]; [done|]. by apply map_lookup_filter_Some.
  - by apply audit_ok in H as [-> _].
Qed.

Lemma steps_owner x y h o : rtc step x y → ¬ legacy o → owner_rows x.2 !! h = Some o → owner_rows y.2 !! h = Some o.
Proof. induction 1 as [|a b c Hs _ IH]; [done|]. intros Hl Hh. by eapply IH, step_owner. Qed.

Lemma establish_known claim s o :
  owner_rows s !! owner_hash claim = Some o → same_claim o claim → rtype (o_resource claim) = ARTIFACT →
  establish_artifact_owners [claim] s = Ok ([o], s).
Proof.
  intros Ho Hsame Ht. unfold establish_artifact_owners. rewrite decide_False by done.
  unfold lift, reads, mbind, M_bind. rewrite raise_if_skip by (intros [? | ?%Exists_nil]%Exists_cons; done).
  rewrite raise_if_skip by (intros Hn; apply Hn, NoDup_singleton). unfold classify_owners. simpl. rewrite Ho.
  by rewrite decide_True by done.
Qed.

(** Ownership is settled once.  An Artifact that has an owner keeps that owner
    relation through every history (only the owners of legacy Topic Memories are ever
    deleted); repeating the claim of the owner under its key answers the stored
    relation and changes nothing, and every batch that claims the Artifact for another
    principal, or under another key, is refused as a whole. *)
Theorem owner_is_settled x y r o claim l :
  rtc step x y → get_artifact_owner r x.2 = Some o → ¬ legacy o → o_resource claim = r →
  get_artifact_owner r y.2 = Some o ∧
  (same_claim o claim → establish_artifact_owners [claim] y.2 = Ok ([o], y.2)) ∧
  (¬ same_claim o claim → claim ∈ l → ∃ e, establish_artifact_owners l y.2 = Err e).
Proof.
  unfold get_artifact_owner. intros Hrtc Ho Hl Hr. destruct (decide (rtype r = ARTIFACT)) as [Ht|]; [|done].
  pose proof (steps_owner _ _ _ _ Hrtc Hl Ho) as Hy. split_and!; [done|..].
  - intros Hs. apply establish_known; [unfold owner_hash; by rewrite Hr|done|by rewrite Hr].
  - intros Hs Hin. destruct (establish_artifact_owners l y.2) as [[z s']|e] eqn:He; [exfalso|eauto].
    unfold establish_artifact_owners in He. rewrite decide_False in He by (intros ->; by apply not_elem_of_nil in Hin).
    apply M_bind_ok in He as ([] & ? & [_ ->]%lift_ok & He). apply M_bind_ok in He as ([] & ? & [_ ->]%lift_ok & He).
    apply M_bind_ok in He as (found & ? & [Hf _]%reads_ok & _). unfold classify_owners in Hf. apply map_result_ok in Hf.
    destruct (Forall2_elem_l _ _ _ _ Hf Hin) as (w & _ & Hw). unfold owner_hash in Hw. rewrite Hr, Hy in Hw.
    by rewrite decide_False in Hw by done.
Qed.
End store.

(** ** A concrete history

    A Handoff has a receiver until time 10, a second one from time 20 on, who is
    revoked; the digest is the text itself. *)

Definition after {A} (r : result (A * adb)) : adb := match r with Ok (_, s) => s | Err _ => empty_adb end.

Definition demo_handoff : resource := artifact_ref (str "s") (str "handoff") (str "h") None.
Definition demo_receiver (i : string) (k : string) (t : Z) (e : option Z) : binding :=
  mkBinding (str i) (PrincipalRef (mkPrincipal user (str i))) demo_handoff R_HANDOFF_RECEIVER demo_principal None t e ACTIVE 1
    (str "pending") (str k) None None.
Definition demo_first : binding := demo_receiver "b1" "k1" 0 (Some 10).
Definition demo_second (t : Z) : binding := demo_receiver "b2" "k2" t None.

Definition demo_s1 : adb := Eval vm_compute in after (create_binding id number demo_first empty_adb).
Definition demo_s2 : adb := Eval vm_compute in after (create_binding id number (demo_second 20) demo_s1).
Definition demo_s3 : adb := Eval vm_compute in after (revoke_binding id (str "b2") 1 (str "k3") 30 demo_principal demo_s2).

(** While the first receiver is in force there is no second one. *)
Example second_receiver_conflicts :
  create_binding id number (demo_second 5) demo_s1 = Err (AccessConflictError "binding_cardinality_conflict").
Proof. vm_compute. done. Qed.

Lemma demo_created_1 : create_binding id number demo_first empty_adb = Ok (with_revision demo_first (str "1"), demo_s1).
Proof. vm_compute. reflexivity. Qed.
Lemma demo_created_2 : create_binding id number (demo_second 20) demo_s1 = Ok (with_revision (demo_second 20) (str "2"), demo_s2).
Proof. vm_compute. reflexivity. Qed.
Lemma demo_revoked :
  revoke_binding id (str "b2") 1 (str "k3") 30 demo_principal demo_s2 =
  Ok (revoked (with_revision (demo_second 20) (str "2")) (str "3") 30 demo_principal, demo_s3).
Proof. vm_compute. reflexivity. Qed.

Lemma demo_fresh i k t e : fresh (demo_receiver i k t e).
Proof. split_and!; [done|done|]. apply (bool_decide_unpack _). vm_compute. done. Qed.

Lemma demo_step_1 : step id number (0, empty_adb) (0, demo_s1).
Proof. exact (step_create _ _ 0 _ _ _ _ (demo_fresh _ _ _ _) demo_created_1). Qed.
Lemma demo_step_2 : step id number (0, demo_s1) (20, demo_s2).
Proof. exact (step_create _ _ 0 _ _ _ _ (demo_fresh _ _ _ _) demo_created_2). Qed.
Lemma demo_step_3 : step id number (20, demo_s2) (20, demo_s3).
Proof. exact (step_revoke _ _ 20 _ _ _ _ _ _ _ _ demo_revoked). Qed.

Lemma demo_reachable_1 : reachable id number (0, demo_s1).
Proof. exists 0. apply rtc_once, demo_step_1. Qed.
Lemma demo_reachable_2 : reachable id number (20, demo_s2).
Proof. apply (reachable_rtc _ _ _ _ demo_reachable_1), rtc_once, demo_step_2. Qed.

Lemma one_holder_witness :
  ∃ b, get_binding (str "b2") demo_s2 = Some b ∧ active_at 25 b ∧ ONE_PER_RESOURCE (b_role b) ∧ str "b2" = str "b2".
Proof.
  exists (with_revision (demo_second 20) (str "2")). split_and!; [vm_compute; reflexivity|by split|by left|].
  eapply (one_holder id number 20 demo_s2 25); [apply demo_reachable_2|lia|vm_compute; reflexivity|
    vm_compute; reflexivity|by split|by split|done|done|by left].
Defined.

Definition demo_attestation : attestation :=
  mkAttestation (str "s") (str "c") (str "skill") demo_principal None (str "k").
Definition demo_attested : adb := Eval vm_compute in after (attest_candidate_owners id [demo_attestation] demo_s1).
Lemma demo_attest : attest_candidate_owners id [demo_attestation] demo_s1 = Ok ([demo_attestation], demo_attested).
Proof. vm_compute. reflexivity. Qed.

Lemma revision_identifies_policy_witness :
  decision_snapshot id [PrincipalRef demo_principal] 5 [] None None demo_s1 =
  decision_snapshot id [PrincipalRef demo_principal] 5 [] None None demo_attested.
Proof.
  apply (revision_identifies_policy id number (0, demo_s1) (0, demo_attested)).
  - apply rtc_once. exact (step_attest _ _ 0 _ _ _ _ demo_attest).
  - reflexivity.
Defined.

Lemma binding_lifecycle_witness :
  get_binding (str "b2") demo_s3 = Some (with_revision (demo_second 20) (str "2")) ∨
  (ACTIVE = ACTIVE ∧ ∃ revision at_ by_,
     get_binding (str "b2") demo_s3 = Some (revoked (with_revision (demo_second 20) (str "2")) revision at_ by_)).
Proof.
  apply (binding_lifecycle id number (20, demo_s2) (20, demo_s3) (str "b2") (with_revision (demo_second 20) (str "2"))).
  - apply demo_reachable_2.
  - apply rtc_once, demo_step_3.
  - vm_compute. reflexivity.
Defined.

(** The creation is repeated after the revocation, under another identifier. *)
Lemma create_replays_witness :
  ∃ now, create_binding id number (mkBinding (str "b9") (b_subject (demo_second 20)) demo_handoff R_HANDOFF_RECEIVER
           demo_principal None 40 None ACTIVE 1 (str "pending") (str "k2") None None) demo_s3 = Ok (now, demo_s3) ∧
         kept (with_revision (demo_second 20) (str "2")) now.
Proof.
  pose proof (create_replays id number 0 demo_s1 (demo_second 20) (with_revision (demo_second 20) (str "2")) demo_s2
    (20, demo_s3) (mkBinding (str "b9") (b_subject (demo_second 20)) demo_handoff R_HANDOFF_RECEIVER
           demo_principal None 40 None ACTIVE 1 (str "pending") (str "k2") None None)
    demo_reachable_1 (demo_fresh _ _ _ _) demo_created_2 (rtc_once _ _ demo_step_3) eq_refl eq_refl) as H.
  rewrite decide_True in H by reflexivity. exact H.
Defined.

Definition demo_owner (p : string) : owner_relation :=
  mkOwner demo_artifact (mkPrincipal user (str p)) 0 (str "pending") (str "k").
Definition demo_owned : adb := Eval vm_compute in after (establish_artifact_owners id [demo_owner "ada"] empty_adb).

Lemma demo_no_legacy : delete_legacy_topic_memory_owners demo_owned = Ok (0, demo_owned).
Proof. vm_compute. reflexivity. Qed.

Lemma owner_is_settled_witness :
  ∃ e, establish_artifact_owners id [demo_owner "bob"] demo_owned = Err e.
Proof.
  apply (owner_is_settled id number (0, demo_owned) (0, demo_owned) demo_artifact
    (with_owner_revision (demo_owner "ada") (str "1")) (demo_owner "bob") [demo_owner "bob"]).
  - apply rtc_once. exact (step_legacy _ _ 0 _ _ _ demo_no_legacy).
  - vm_compute. reflexivity.
  - apply (bool_decide_unpack _). vm_compute. done.
  - done.
  - apply (bool_decide_unpack _). vm_compute. done.
  - left.
Defined.
End AccessStore.
