(* ===== verification/AccessControl.v ===== *)
(** * The access control service

    [AccessControlService] of [server/authz/service.py] over the relationship store
    and a local authorization provider.  A request is a sequence of store calls,
    each a transaction of its own, and other requests may write between them; what
    a call has written stays when a later one raises.  Cursors, batches of prefetched
    decisions, deferred audits and the reading endpoints are not modelled. *)

From S2P Require Import Prelude Access AccessPolicy AccessStore.
Local Open Scope Z_scope.

Module AccessControl.
Import Access AccessPolicy AccessStore.

(** ** Requests as processes *)

Record world := mkWorld { db : adb; tick : nat }.

Definition P (A : Type) : Type := world → result A * world.
#[export] Instance P_ret : MRet P := λ A a w, (Ok a, w).
#[export] Instance P_bind : MBind P := λ A B k m w,
  match m w with (Ok a, w') => k a w' | (Err e, w') => (Err e, w') end.

Definition raising {A} (r : result A) : P A := λ w, (r, w).

Fixpoint for_all {A} (f : A → P unit) (l : list A) : P unit :=
  match l with
  | [] => mret tt
  | x :: l' => f x ;; for_all f l'
  end.
Fixpoint map_all {A B} (f : A → P B) (l : list A) : P (list B) :=
  match l with
  | [] => mret []
  | x :: l' => y ← f x; ys ← map_all f l'; mret (y :: ys)
  end.

(** [_access_call]: what is not an access error makes the service unavailable. *)
Definition access_call (e : exn) : exn :=
  match e with
  | AccessIdentityRequiredError | AccessDeniedError | AccessBindingNotFoundError
  | AccessUnavailableError _ | AccessConflictError _ | AccessInvalidRequestError _ => e
  | _ => AccessUnavailableError "access_unavailable"
  end.

(** ** Requests and capabilities *)

(** [AccessProviderCapabilities]. *)
Record capabilities := mkCapabilities {
  multi_requirement_check : bool;
  relationship_management : bool;
  group_subjects : bool
}.

(** [CreateBinding], and [__post_init__] of it and of [ReplaceBinding]. *)
Record create_request := mkCreate {
  c_subject : subject;
  c_resource : resource;
  c_role : role;
  c_key : text;
  c_reason : option text;
  c_expires : option Z
}.
Definition validate_idempotency_key (k : text) : result unit :=
  raise_if (¬ valid_text k 255) (AccessInvalidRequestError "idempotency-key").
Definition valid_binding_reason (o : option text) : Prop := match o with Some t => len t ≤ 1024 | None => True end.
#[export] Instance valid_binding_reason_dec o : Decision (valid_binding_reason o).
Proof. unfold valid_binding_reason. destruct o; apply _. Defined.
Definition new_create (q : create_request) : result create_request :=
  validate_idempotency_key (c_key q) ;;
  raise_if (¬ valid_binding_reason (c_reason q)) (AccessInvalidRequestError "reason") ;;
  Ok q.
Definition new_replace (q : replace_request) : result replace_request :=
  validate_idempotency_key (rp_key q) ;;
  raise_if (rp_version q < 1) (AccessInvalidRequestError "binding-version") ;;
  raise_if (¬ valid_binding_reason (rp_reason q)) (AccessInvalidRequestError "reason") ;;
  Ok q.

(** [_required_principal]. *)
Definition required_principal (o : option principal) : result principal :=
  match o with Some p => Ok p | None => Err AccessIdentityRequiredError end.

Definition expired (o : option Z) (now : Z) : Prop := match o with Some t => t ≤ now | None => False end.
#[export] Instance expired_dec o now : Decision (expired o now).
Proof. unfold expired. destruct o; apply _. Defined.

Definition is_group (s : subject) : Prop := match s with GroupRef _ => True | PrincipalRef _ => False end.
#[export] Instance is_group_dec s : Decision (is_group s).
Proof. unfold is_group. destruct s; apply _. Defined.

Definition owner_pending : text := str "artifact-owner-pending".

(** ** Providers

    What the service relies on: a provider derives its answers from one snapshot, and
    what it allows is justified by a relationship of that snapshot, read with Scopes as
    patterns if [by_pattern]. *)
Class AuthorizationProvider := {
  point_decision : decision_state → principal → list text → Z → access_request → decision;
  by_pattern : bool;
  point_decision_justified st p groups now q :
    Forall (λ b, well_shaped (b_resource b)) (bindings st) → well_shaped (q_resource q) →
    allowed (point_decision st p groups now q) = true → q_action q = ACCESS_SELF ∨ justified by_pattern st p now q
}.

Definition BuiltinAuthorizationProvider (digest : text → text) (deployment : text) : AuthorizationProvider :=
  {| point_decision := builtin_decide digest;
     by_pattern := false;
     point_decision_justified := λ st p groups now q _ _, builtin_justified digest deployment st p groups now q |}.

Definition CasbinAuthorizationProvider (digest : text → text) (deployment : text) (enforce : list rule → rule → bool)
    (enforce_some : ∀ l r, enforce l r = true ↔ Exists (matches r) l) : AuthorizationProvider :=
  {| point_decision := casbin_decide digest deployment enforce;
     by_pattern := true;
     point_decision_justified := casbin_justified digest deployment enforce enforce_some |}.

(** The store finds the bindings of a resource by the digest of its canonical key, and
    takes SHA-256 to tell keys apart. *)
Definition collision_free (digest : text → text) : Prop := ∀ r r',
  well_shaped r → well_shaped r' → digest (key r) = digest (key r') → r = r'.

Section service.
Context (digest : text → text) (timestamp : Z → text) (ps : profiles) (deployment : text).
Context {provider : AuthorizationProvider} (can : capabilities).
(** The clock, [uuid4] and the writes of others, at every tick. *)
Context (clock : nat → Z) (uuid : nat → text) (meanwhile : nat → adb → adb).

Definition call {A} (m : M adb A) : P A := λ w,
  let s := meanwhile (tick w) (db w) in
  match m s with
  | Ok (a, s') => (Ok a, mkWorld s' (S (tick w)))
  | Err e => (Err (access_call e), mkWorld s (S (tick w)))
  end.
Definition now : P Z := λ w, (Ok (clock (tick w)), mkWorld (db w) (S (tick w))).
Definition uuid4 : P text := λ w, (Ok (uuid (tick w)), mkWorld (db w) (S (tick w))).

Definition management : result unit :=
  raise_if (relationship_management can = false) (AccessUnavailableError "relationship_management_unavailable").

(** ** Decisions *)

(** The snapshot of [prepare_point_decisions]. *)
Definition point_snapshot (p : principal) (groups : list text) (resources : list resource) (t : Z) (s : adb)
    : decision_state :=
  decision_snapshot digest (subjects_of p groups) t (filter (λ r, rtype r = ARTIFACT) resources) None (Some resources) s.

(** [check_batch] of the providers. *)
Definition provider_check_batch (l : list access_request) : P (list decision) :=
  match l with
  | [] => mret []
  | q :: _ =>
      let p := q_subject q in
      let groups := subject_groups (q_context q) in
      raising (raise_if (Exists (λ q', q_subject q' ≠ p) l) (AccessInvalidRequestError "batch-subject")) ;;
      t ← now;
      st ← call (gets (point_snapshot p groups (q_resource <$> l) t));
      mret (point_decision st p groups t <$> l)
  end.

(** [_record_decision]. *)
Definition decision_event (i : text) (t : Z) (p : principal) (a : action) (r : resource) (d : decision)
    (ctx : audit_context) : audit_event :=
  mkEvent i t ctx p a r (allowed d) (reason_code d) (d_revision d) (matched_subject d) (matched_binding_id d) None None
    None None.
Definition record_decision (p : principal) (a : action) (r : resource) (d : decision) (ctx : audit_context) : P unit :=
  i ← uuid4; t ← now; call (append_audit (decision_event i t p a r d ctx)) ;; mret tt.

Definition record_unless_self (p : principal) (ctx : audit_context) (x : action * resource * decision) : P unit :=
  if decide (x.1.1 = ACCESS_SELF) then mret tt else record_decision p x.1.1 x.1.2 x.2 ctx.

Definition check (pr : option principal) (a : action) (r : resource) (ctx : audit_context) : P decision :=
  p ← raising (required_principal pr);
  raising (validate_action_resource ps deployment a r) ;;
  ds ← provider_check_batch [mkRequest p a r ctx];
  d ← raising (match ds with d :: _ => Ok d | [] => Err (AccessUnavailableError "access_unavailable") end);
  raising (validate_provider_decision d) ;;
  record_unless_self p ctx (a, r, d) ;;
  mret d.

(** [_require_allowed] and [require]. *)
Definition require_allowed (d : decision) : result unit :=
  raise_if (allowed d = false ∧ reason_code d = owner_pending) (AccessUnavailableError "artifact_owner_pending") ;;
  raise_if (allowed d = false) AccessDeniedError.
Definition require (pr : option principal) (a : action) (r : resource) (ctx : audit_context) : P decision :=
  d ← check pr a r ctx; raising (require_allowed d) ;; mret d.

Definition check_batch (pr : option principal) (checks : list (action * resource)) (ctx : audit_context)
    : P (list decision) :=
  raising (raise_if (multi_requirement_check can = false)
             (AccessUnavailableError "multi_requirement_check_unavailable")) ;;
  p ← raising (required_principal pr);
  raising (check_each (λ x : action * resource, validate_action_resource ps deployment x.1 x.2) checks) ;;
  ds ← provider_check_batch ((λ x : action * resource, mkRequest p x.1 x.2 ctx) <$> checks);
  raising (raise_if (length ds ≠ length checks) (AccessUnavailableError "access_unavailable")) ;;
  raising (check_each validate_provider_decision ds) ;;
  for_all (record_unless_self p ctx) (zip checks ds) ;;
  mret ds.

Definition require_all (pr : option principal) (checks : list (action * resource)) (ctx : audit_context)
    : P (list decision) :=
  ds ← check_batch pr checks ctx;
  raising (raise_if (Exists (λ d, allowed d = false ∧ reason_code d ≠ owner_pending) ds) AccessDeniedError) ;;
  raising (raise_if (Exists (λ d, allowed d = false) ds) (AccessUnavailableError "artifact_owner_pending")) ;;
  mret ds.
Definition some_allowed (ds : list decision) : result unit :=
  if decide (Exists (λ d, allowed d = true) ds) then Ok tt else
    raise_if (Exists (λ d, reason_code d = owner_pending) ds) (AccessUnavailableError "artifact_owner_pending") ;;
    Err AccessDeniedError.
Definition require_any (pr : option principal) (checks : list (action * resource)) (ctx : audit_context)
    : P (list decision) :=
  ds ← check_batch pr checks ctx; raising (some_allowed ds) ;; mret ds.

(** [_administrative_checks]: any of these lets a principal manage a resource. *)
Definition administrative_checks (r : resource) : result (list (action * resource)) :=
  match rtype r with
  | SERVER => Ok [(SERVER_ADMIN, r)]
  | SCOPE => d ← server deployment; Ok [(SCOPE_ADMIN, r); (SERVER_ADMIN, d)]
  | ARTIFACT =>
      match parent_scope r with
      | None => Err (AccessInvalidRequestError "artifact-identity")
      | Some parent =>
          p ← artifact_family_profile ps r;
          d ← server deployment;
          Ok ([(ARTIFACT_SHARE, r); (SCOPE_ADMIN, parent)] ++
              (if decide (profile_family p = str "handoff") then [(SCOPE_DELEGATE, parent)] else []) ++
              [(SERVER_ADMIN, d)])
      end
  end.

(** ** Relationships *)

(** [_record_relationship]. *)
Definition administrative_action (r : resource) : result action :=
  l ← administrative_checks r;
  match l with (a, _) :: _ => Ok a | [] => Err (AccessUnavailableError "access_unavailable") end.
Definition relationship_event (i : text) (t : Z) (p : principal) (a : action) (b : binding) (expected : option Z)
    (ctx : audit_context) : audit_event :=
  mkEvent i t ctx p a (b_resource b) true
    (str (if decide (state b = ACTIVE) then "binding-created" else "binding-revoked"))
    (Some (b_revision b)) None (Some (binding_id b)) (Some (b_subject b)) (Some (b_role b)) expected (Some (version b)).
Definition record_relationship (b : binding) (p : principal) (expected : option Z) (ctx : audit_context) : P unit :=
  i ← uuid4; t ← now; a ← raising (administrative_action (b_resource b));
  call (append_audit (relationship_event i t p a b expected ctx)) ;; mret tt.

(** The binding [create_binding] asks the store for. *)
Definition candidate_binding (i : text) (t : Z) (p : principal) (q : create_request) : binding :=
  mkBinding i (c_subject q) (c_resource q) (c_role q) p (c_reason q) t (c_expires q) ACTIVE 1 (str "pending") (c_key q)
    None None.

(** [validate_resource] is the caller's check of the resource. *)
Definition create_binding (pr : option principal) (q : create_request) (ctx : audit_context)
    (validate_resource : resource → result unit) : P binding :=
  raising (validate_binding_role ps deployment (c_resource q) (c_role q)) ;;
  raising (validate_binding_subject ps (c_resource q) (c_role q) (c_subject q)) ;;
  raising (raise_if (is_group (c_subject q) ∧ group_subjects can = false)
             (AccessInvalidRequestError "group-subjects-unavailable")) ;;
  t ← now;
  raising (raise_if (expired (c_expires q) t) (AccessInvalidRequestError "binding-expired")) ;;
  p ← raising (required_principal pr);
  checks ← raising (administrative_checks (c_resource q));
  require_any (Some p) checks ctx ;;
  raising (validate_resource (c_resource q)) ;;
  i ← uuid4;
  raising management ;;
  created ← call (AccessStore.create_binding digest timestamp (candidate_binding i t p q));
  record_relationship created p None ctx ;;
  mret created.

(** An unknown binding is told apart only to a Server administrator. *)
Definition not_found {A} (p : principal) (ctx : audit_context) : P A :=
  r ← raising (server deployment);
  d ← check (Some p) SERVER_ADMIN r ctx;
  raising (Err (if allowed d then AccessBindingNotFoundError else AccessDeniedError)).

Definition revoke_binding (pr : option principal) (i : text) (expected : Z) (k : text) (ctx : audit_context)
    (prepare_resource : resource → result unit) : P binding :=
  raising (validate_idempotency_key k) ;;
  p ← raising (required_principal pr);
  raising management ;;
  found ← call (gets (get_binding i));
  match found with
  | None => not_found p ctx
  | Some b =>
      raising (prepare_resource (b_resource b)) ;;
      checks ← raising (administrative_checks (b_resource b));
      require_any (Some p) checks ctx ;;
      t ← now;
      revoked ← call (AccessStore.revoke_binding digest i expected k t p);
      record_relationship revoked p (Some expected) ctx ;;
      mret revoked
  end.

Definition not_yet_expired (o : option Z) : P unit :=
  match o with
  | None => mret tt
  | Some e => t ← now; raising (raise_if (e ≤ t) (AccessInvalidRequestError "binding-expired"))
  end.

Definition replace_binding (pr : option principal) (q : replace_request) (ctx : audit_context)
    (prepare_resource : resource → result unit) : P (binding * binding) :=
  p ← raising (required_principal pr);
  raising management ;;
  found ← call (gets (get_binding (rp_binding q)));
  match found with
  | None => not_found p ctx
  | Some b =>
      raising (prepare_resource (b_resource b)) ;;
      raising (validate_binding_subject ps (b_resource b) (b_role b) (rp_subject q)) ;;
      raising (raise_if (is_group (rp_subject q) ∧ group_subjects can = false)
                 (AccessInvalidRequestError "group-subjects-unavailable")) ;;
      not_yet_expired (rp_expires q) ;;
      checks ← raising (administrative_checks (b_resource b));
      require_any (Some p) checks ctx ;;
      t ← now;
      changed ← call (AccessStore.replace_binding digest timestamp q p t);
      record_relationship changed.1 p (Some (rp_version q)) ctx ;;
      record_relationship changed.2 p None ctx ;;
      mret changed
  end.

(** ** Owners *)

(** [_owner_event]. *)
Definition owner_event (i : text) (t : Z) (p : principal) (ctx : audit_context) (o : owner_relation) : audit_event :=
  mkEvent i t ctx p ARTIFACT_WRITE (o_resource o) true (str "artifact-owner-established") (Some (o_revision o)) None None
    (Some (PrincipalRef (owner o))) (Some R_ARTIFACT_OWNER) None None.
Definition owner_events (n : nat) (p : principal) (ctx : audit_context) (l : list owner_relation) : list audit_event :=
  imap (λ k o, owner_event (uuid (n + k)) (clock (n + k)) p ctx o) l.

(** The claims of [establish_artifact_owners], each with its own time. *)
Definition owner_claim (p : principal) (x : resource * text) : P owner_relation :=
  raising (raise_if (rtype x.1 ≠ ARTIFACT) (AccessInvalidRequestError "artifact-identity")) ;;
  raising (validate_idempotency_key x.2) ;;
  t ← now;
  mret (mkOwner x.1 p t (str "pending") x.2).

(** The next [k] readings of the clock and of [uuid4], for use inside one transaction. *)
Definition reserve (k : nat) : P nat := λ w, (Ok (tick w), mkWorld (db w) (tick w + k)).

(** Relations and their audit events are one transaction. *)
Definition establish_artifact_owners (resources : list (resource * text)) (p : principal) (ctx : audit_context)
    : P (list owner_relation) :=
  if decide (resources = []) then mret [] else
    claims ← map_all (owner_claim p) resources;
    raising management ;;
    n ← reserve (length claims);
    call (established ← AccessStore.establish_artifact_owners digest claims;
          for_each (λ e, append_audit e ;; mret tt) (owner_events n p ctx established) ;;
          mret established).

(** [attest_candidate_owners]. *)
Definition attest_candidate_owners (l : list attestation) : P (list attestation) :=
  if decide (l = []) then mret [] else
    raising (check_each (λ a, validate_idempotency_key (a_key a)) l) ;;
    raising management ;;
    call (AccessStore.attest_candidate_owners digest l).

(** ** The static preset *)

Definition STATIC_SCOPE_ROLES : list role := [R_SCOPE_VIEWER; R_SCOPE_CONTRIBUTOR; R_SCOPE_REVIEWER; R_SCOPE_DELEGATOR].

(** [_static_scope_receipt_keys]. *)
Definition legacy_receipt_key (principal_id scope_id : text) (ro : role) : text :=
  str "static-preset:" ++ deployment ++ [58] ++ principal_id ++ [58] ++ scope_id ++ [58] ++ role_value ro.
Definition receipt_key (principal_id scope_id : text) (ro : role) : text :=
  let legacy := legacy_receipt_key principal_id scope_id ro in
  if decide (len legacy ≤ 255) then legacy else str "static-preset:sha256:" ++ digest legacy.

Definition preset_binding (i : text) (t : Z) (p : principal) (r : resource) (ro : role) (k : text) : binding :=
  mkBinding i (PrincipalRef p) r ro p (Some (str "static bearer preset")) t None ACTIVE 1 (str "pending") k None None.

(** One role of the preset; a receipt under the key of an older release counts. *)
Definition bootstrap_role (t : Z) (p : principal) (scope_id : text) (r : resource) (ctx : audit_context) (ro : role)
    : P unit :=
  let k := receipt_key (principal_id p) scope_id ro in
  let legacy := legacy_receipt_key (principal_id p) scope_id ro in
  old ← (if decide (k ≠ legacy) then call (gets (static_scope_initialized digest p [legacy])) else mret false);
  if decide (old = true) then mret tt else
    i ← uuid4;
    raising management ;;
    created ← call (AccessStore.create_binding digest timestamp (preset_binding i t p r ro k));
    if decide (binding_id created = i) then record_relationship created p None ctx else mret tt.

Definition bootstrap_static_scope (static : option principal) (pr : option principal) (scope_id : text)
    (ctx : audit_context) : P unit :=
  p ← raising (required_principal pr);
  if decide (static ≠ Some p) then mret tt else
    r ← raising (scope scope_id);
    raising management ;;
    done_ ← call (gets (static_scope_initialized digest p (receipt_key (principal_id p) scope_id <$> STATIC_SCOPE_ROLES)));
    if decide (done_ = true) then mret tt else
      t ← now; for_all (bootstrap_role t p scope_id r ctx) STATIC_SCOPE_ROLES.

(** ** Listings *)

(** [resolve_resource_filter]: the code is the same in both providers.  It follows the
    built-in decisions; where those of Casbin differ (a Scope named by the wildcard,
    another deployment, see [AccessPolicy]), Casbin's own listing differs from them too. *)
Definition resolve_resource_filter (q : search_request) (t : Z) (s : adb) : resource_filter :=
  let groups := subject_groups (s_context q) in
  let st := decision_snapshot digest (subjects_of (s_subject q) groups) t []
              (if decide (owner_search q) then Some (s_subject q) else None) None s in
  derive_authorized_resource_filter (bindings st) (owned_resources st) q
    (contextual_policy_revision digest (AccessPolicy.policy_revision st) groups).

(** ** Histories

    What requests leave behind is reached by steps of the store, whatever the time
    of the latest write before them. *)

Definition moves (s s' : adb) : Prop := ∀ t, ∃ t', rtc (step digest timestamp) (t, s) (t', s').

#[export] Instance moves_preorder : PreOrder moves.
Proof.
  split; [intros s t; by exists t|]. intros s1 s2 s3 H12 H23 t. destruct (H12 t) as (t2 & H2).
  destruct (H23 t2) as (t3 & H3). exists t3. by etrans.
Qed.

Lemma moves_step s s' : (∀ t, ∃ t', step digest timestamp (t, s) (t', s')) → moves s s'.
Proof. intros H t. destruct (H t) as (t' & Hs). exists t'. by apply rtc_once. Qed.

Lemma moves_invariant t s s' : moves s s' → reachable digest timestamp (t, s) → ∃ t', reachable digest timestamp (t', s').
Proof. intros Hm Hr. destruct (Hm t) as (t' & Hs). exists t'. by eapply reachable_rtc. Qed.

Lemma step_audits x y : step digest timestamp x y → audits x.2 `prefix_of` audits y.2.
Proof.
  intros [t b s b' s' _ H|t j v k0 at_ by_ s b s' H|t q a at_ s [old new] s' H|t l s z s' _ H|t l s z s' H|t s n1 s' H|t e s n2 s' H];
    cbn [fst snd].
  - by apply create_binding_ok in H as [(z & _ & _ & _ & _ & ->)|(Hn & _ & m' & Hm & ->)].
  - by apply revoke_binding_ok in H as [(z & _ & _ & ->)|(Hn & z & h' & _ & _ & _ & _ & ->)].
  - by apply replace_binding_ok in H as [(z & j & _ & _ & _ & _ & ->)|(Hn & z & h' & m' & _ & _ & _ & _ & _ & _ & _ & ->)].
  - by apply establish_ok in H as [->|(new & _ & Hn & ->)].
  - by apply attest_ok in H as [m ->].
  - by apply legacy_ok in H as [->| ->].
  - apply audit_ok in H as [-> _]. by apply prefix_app_r.
Qed.

Lemma moves_audits s s' e : moves s s' → e ∈ audits s → e ∈ audits s'.
Proof.
  intros Hm. destruct (Hm 0) as (t & Hs). change (e ∈ audits (0, s).2 → e ∈ audits (t, s').2). revert Hs.
  generalize (0, s) (t, s'). induction 1 as [|x y z Hs _ IH]; [done|]. intros He. apply IH.
  destruct (step_audits _ _ Hs) as [l ->]. apply elem_of_app. by left.
Qed.

(** A process that, whatever its outcome, has only moved the store. *)
Definition moving {A} (m : P A) : Prop := ∀ w, moves (db w) (db (m w).2).

(** ** Running a process *)

Lemma P_bind_ok {A B} (m : P A) (k : A → P B) w b w' :
  (m ≫= k) w = (Ok b, w') ↔ ∃ a w1, m w = (Ok a, w1) ∧ k a w1 = (Ok b, w').
Proof. unfold mbind, P_bind. destruct (m w) as [[a|e] w1]; naive_solver. Qed.

Lemma raising_ok {A} (r : result A) w a w' : raising r w = (Ok a, w') ↔ r = Ok a ∧ w' = w.
Proof. unfold raising. naive_solver. Qed.

Lemma P_ret_ok {A} (a b : A) w w' : (mret a : P A) w = (Ok b, w') ↔ b = a ∧ w' = w.
Proof. unfold mret, P_ret. naive_solver. Qed.

Lemma call_ok {A} (m : M adb A) w a w' :
  call m w = (Ok a, w') ↔ ∃ s', m (meanwhile (tick w) (db w)) = Ok (a, s') ∧ w' = mkWorld s' (S (tick w)).
Proof. unfold call. destruct (m _) as [[]|]; naive_solver. Qed.

Lemma moving_ret {A} (a : A) : moving (mret a).
Proof. by intros w. Qed.
Lemma moving_raising {A} (r : result A) : moving (raising r).
Proof. by intros w. Qed.
Lemma moving_now : moving now.
Proof. by intros w. Qed.
Lemma moving_uuid4 : moving uuid4.
Proof. by intros w. Qed.
Lemma moving_bind {A B} (m : P A) (k : A → P B) : moving m → (∀ a, moving (k a)) → moving (m ≫= k).
Proof.
  intros Hm Hk w. specialize (Hm w). unfold mbind, P_bind. destruct (m w) as [[a|e] w1]; [|done].
  simpl in Hm. etrans; [exact Hm|apply Hk].
Qed.
Lemma moving_for_all {A} (f : A → P unit) l : (∀ x, moving (f x)) → moving (for_all f l).
Proof. intros Hf. induction l as [|x l IH]; [apply moving_ret|]. simpl. by apply moving_bind. Qed.

Lemma moving_run {A} (m : P A) w r w' : moving m → m w = (r, w') → moves (db w) (db w').
Proof. intros Hm E. specialize (Hm w). by rewrite E in Hm. Qed.

Lemma for_all_ok {A} (f : A → P unit) l w u w' :
  (∀ x, moving (f x)) → for_all f l w = (Ok u, w') →
  ∀ x, x ∈ l → ∃ w1 u1 w2, f x w1 = (Ok u1, w2) ∧ moves (db w) (db w1) ∧ moves (db w2) (db w').
Proof.
  intros Hf. revert w. induction l as [|y l IH]; intros w H x; [by intros ?%not_elem_of_nil|].
  simpl in H. apply P_bind_ok in H as ([] & w1 & Hy & H). intros [->|Hx]%elem_of_cons.
  - exists w, tt, w1. split_and!; [done|done|]. eapply moving_run; [|exact H]. by apply moving_for_all.
  - destruct (IH _ H _ Hx) as (w2 & u2 & w3 & H2 & Hm & Hm'). exists w2, u2, w3. split_and!; [done| |done].
    etrans; [|exact Hm]. by eapply moving_run.
Qed.

Section histories.
(** The writes of others are steps of the store too. *)
Context (Hmeanwhile : ∀ n s, moves s (meanwhile n s)).
(** Digests tell keys apart, for a provider that compares patterns. *)
Context (Hdigest : by_pattern = true → collision_free digest).

Lemma moving_call {A} (m : M adb A) : (∀ s a s', m s = Ok (a, s') → moves s s') → moving (call m).
Proof.
  intros Hm w. unfold call. destruct (m _) as [[a s']|e] eqn:E; simpl; [|apply Hmeanwhile].
  etrans; [apply Hmeanwhile|by eapply Hm].
Qed.

Lemma moving_read {A} (f : adb → A) : moving (call (gets f)).
Proof. apply moving_call. by intros s a s' [_ ->]%gets_ok. Qed.

Lemma moves_audit e s n s' : append_audit e s = Ok (n, s') → moves s s'.
Proof. intros H. apply moves_step. intros t. exists t. by eapply step_audit. Qed.

Lemma moving_audit e : moving (call (append_audit e)).
Proof. apply moving_call. apply moves_audit. Qed.

#[local] Hint Resolve moving_ret moving_raising moving_now moving_uuid4 moving_bind moving_for_all moving_read moving_audit
  : process.
Ltac moving := repeat (eauto with process; first [apply moving_bind; [|intros ?] | case_match | progress simpl]).

Lemma moving_record_decision p a r d ctx : moving (record_decision p a r d ctx).
Proof. unfold record_decision. moving. Qed.

Lemma moving_record_unless_self p ctx x : moving (record_unless_self p ctx x).
Proof. unfold record_unless_self. case_match; [apply moving_ret|apply moving_record_decision]. Qed.

Lemma moving_provider l : moving (provider_check_batch l).
Proof. unfold provider_check_batch. destruct l; moving. Qed.
#[local] Hint Resolve moving_record_decision moving_record_unless_self moving_provider : process.

Lemma moving_check_batch pr checks ctx : moving (check_batch pr checks ctx).
Proof. unfold check_batch. moving. Qed.
Lemma moving_check pr a r ctx : moving (check pr a r ctx).
Proof. unfold check. moving. Qed.
#[local] Hint Resolve moving_check_batch moving_check : process.

Lemma moving_require_any pr checks ctx : moving (require_any pr checks ctx).
Proof. unfold require_any. moving. Qed.

Lemma moving_record_relationship b p expected ctx : moving (record_relationship b p expected ctx).
Proof. unfold record_relationship. moving. Qed.

(** ** Authority *)

Lemma record_decision_ok p a r d ctx w u w' :
  record_decision p a r d ctx w = (Ok u, w') → ∃ i t, decision_event i t p a r d ctx ∈ audits (db w').
Proof.
  unfold record_decision. intros H. apply P_bind_ok in H as (i & w1 & _ & H). apply P_bind_ok in H as (t & w2 & _ & H).
  apply P_bind_ok in H as (n & w3 & (s' & Ha & ->)%call_ok & H). apply P_ret_ok in H as [_ ->].
  apply audit_ok in Ha as [-> _]. exists i, t. simpl. apply elem_of_app. right. by apply list_elem_of_singleton.
Qed.

(** An allowed decision of the provider in some state on the way, and its record. *)
Definition decided (s s' : adb) (p : principal) (ctx : audit_context) (checks : list (action * resource)) : Prop :=
  ∃ s1 t a r i u d,
    moves s s1 ∧ moves s1 s' ∧ (a, r) ∈ checks ∧ validate_action_resource ps deployment a r = Ok tt ∧
    d = point_decision (point_snapshot p (subject_groups ctx) checks.*2 t s1) p (subject_groups ctx) t (mkRequest p a r ctx) ∧
    allowed d = true ∧ (a ≠ ACCESS_SELF → decision_event i u p a r d ctx ∈ audits s').

(** The answers of the provider to the checks of one principal, in one state. *)
Definition answers_in (s : adb) (p : principal) (ctx : audit_context) (checks : list (action * resource)) (t : Z)
    : list decision :=
  (λ c : action * resource, point_decision (point_snapshot p (subject_groups ctx) checks.*2 t s) p (subject_groups ctx) t
                              (mkRequest p c.1 c.2 ctx)) <$> checks.

Lemma provider_ok p ctx checks w ds w' :
  provider_check_batch ((λ c : action * resource, mkRequest p c.1 c.2 ctx) <$> checks) w = (Ok ds, w') →
  ∃ s1 t, moves (db w) s1 ∧ moves s1 (db w') ∧ ds = answers_in s1 p ctx checks t.
Proof.
  destruct checks as [|c0 checks]; [intros [-> ->]%P_ret_ok; by exists (db w), 0|].
  set (cs := c0 :: checks). assert (Hr : q_resource <$> ((λ c : action * resource, mkRequest p c.1 c.2 ctx) <$> cs) = cs.*2).
  { by rewrite <- list_fmap_compose. }
  revert Hr. unfold answers_in. set (qs := _ <$> cs). intros Hr H.
  change (provider_check_batch qs) with (
    raising (raise_if (Exists (λ q', q_subject q' ≠ p) qs) (AccessInvalidRequestError "batch-subject")) ;;
      t ← now; st ← call (gets (point_snapshot p (subject_groups ctx) (q_resource <$> qs) t));
      mret (point_decision st p (subject_groups ctx) t <$> qs)) in H.
  apply P_bind_ok in H as ([] & ? & [_ ->]%raising_ok & H). apply P_bind_ok in H as (t & w1 & Ht & H).
  apply P_bind_ok in H as (st & w2 & Hst & H). apply P_ret_ok in H as [-> ->].
  apply call_ok in Hst as (s1 & [-> ->]%gets_ok & ->). exists (meanwhile (tick w1) (db w1)), t. split_and!.
  - etrans; [eapply moving_run; [apply moving_now|exact Ht]|apply Hmeanwhile].
  - done.
  - rewrite Hr. unfold qs. by rewrite <- list_fmap_compose.
Qed.

Lemma check_batch_ok p checks ctx w ds w' :
  check_batch (Some p) checks ctx w = (Ok ds, w') →
  ∃ s1 t, moves (db w) s1 ∧ moves s1 (db w') ∧ ds = answers_in s1 p ctx checks t ∧
    (∀ a r, (a, r) ∈ checks → validate_action_resource ps deployment a r = Ok tt) ∧
    (∀ a r d, ((a, r), d) ∈ zip checks ds → a ≠ ACCESS_SELF → ∃ i u, decision_event i u p a r d ctx ∈ audits (db w')).
Proof.
  unfold check_batch. intros H.
  apply P_bind_ok in H as ([] & ? & [_ ->]%raising_ok & H). apply P_bind_ok in H as (p' & ? & [[= <-] ->]%raising_ok & H).
  apply P_bind_ok in H as ([] & ? & [Hval ->]%raising_ok & H). apply P_bind_ok in H as (ds' & w2 & Hp & H).
  apply P_bind_ok in H as ([] & ? & [_ ->]%raising_ok & H). apply P_bind_ok in H as ([] & ? & [_ ->]%raising_ok & H).
  apply P_bind_ok in H as ([] & w3 & Hrec & H). apply P_ret_ok in H as [-> ->].
  apply provider_ok in Hp as (s1 & t & Hm1 & Hm2 & ->). exists s1, t.
  assert (Hm3 : moves (db w2) (db w3)) by (refine (moving_run _ _ _ _ _ Hrec); apply moving_for_all, moving_record_unless_self).
  split_and!; [done|by etrans|done|..].
  - intros a r Hin. apply check_each_ok in Hval. rewrite Forall_forall in Hval. by apply Hval in Hin.
  - intros a r d Hin Hself. eapply for_all_ok in Hrec as (wa & u1 & wb & Hr & _ & Hmb);
      [|apply moving_record_unless_self|exact Hin].
    unfold record_unless_self in Hr. rewrite decide_False in Hr by done. apply record_decision_ok in Hr as (i & u & He).
    exists i, u. by eapply moves_audits.
Qed.

Lemma require_any_ok p checks ctx w ds w' :
  require_any (Some p) checks ctx w = (Ok ds, w') → decided (db w) (db w') p ctx checks.
Proof.
  unfold require_any. intros H. apply P_bind_ok in H as (ds' & w1 & Hc & H).
  apply P_bind_ok in H as ([] & ? & [Hsome ->]%raising_ok & H). apply P_ret_ok in H as [-> ->].
  apply check_batch_ok in Hc as (s1 & t & Hm1 & Hm2 & -> & Hval & Hrec).
  assert (Hex : Exists (λ d, allowed d = true) (answers_in s1 p ctx checks t)).
  { unfold some_allowed in Hsome. case_decide; [done|]. by apply result_bind_ok in Hsome as (? & _ & ?). }
  unfold answers_in in Hex. apply Exists_fmap, Exists_exists in Hex as ([a r] & Hin & Hok).
  assert (Hzip : ((a, r), point_decision (point_snapshot p (subject_groups ctx) checks.*2 t s1) p (subject_groups ctx) t
      (mkRequest p a r ctx)) ∈ zip checks (answers_in s1 p ctx checks t)).
  { unfold answers_in. rewrite zip_with_fmap_r. apply list_elem_of_lookup in Hin as [n Hn].
    apply list_elem_of_lookup. exists n. by rewrite lookup_zip_with, Hn. }
  destruct (decide (a = ACCESS_SELF)) as [E|E].
  - exists s1, t, a, r, [], 0. eexists. split_and!; [done|done|done|by apply Hval|done|done|done].
  - destruct (Hrec _ _ _ Hzip E) as (i & u & He). exists s1, t, a, r, i, u. eexists.
    split_and!; [done|done|done|by apply Hval|done|done|done].
Qed.

(** What an administrator of a resource is, in terms of the relationships alone: he
    holds an administrator's role on the Server, on its Scope or on the resource itself,
    for a Handoff the delegator's role on its Scope, or he owns it. *)
Definition handoff_resource (r : resource) : Prop :=
  ∃ f, artifact_family_profile ps r = Ok f ∧ profile_family f = str "handoff".
Definition at_or_above (parent r : resource) : Prop :=
  rtype parent = SERVER ∨ (rtype parent = SCOPE ∧ scope_id parent = scope_id r) ∨ parent = r.
Definition manager (b : binding) (r : resource) : Prop :=
  ((b_role b = R_SERVER_ADMIN ∨ b_role b = R_SCOPE_ADMIN) ∧ at_or_above (b_resource b) r) ∨
  (b_role b = R_SCOPE_DELEGATOR ∧ (rtype (b_resource b) = SCOPE ∧ scope_id (b_resource b) = scope_id r) ∧
     handoff_resource r) ∨
  (b_role b = R_ARTIFACT_OWNER ∧ b_resource b = r).
Definition manages (s : adb) (p : principal) (groups : list text) (t : Z) (r : resource) : Prop :=
  (∃ b, b ∈ rows s ∧ b_subject b ∈ subjects_of p groups ∧ active_at t b ∧ manager b r) ∨
  (rtype r = ARTIFACT ∧ owner <$> get_artifact_owner digest r s = Some p).

Definition administrative_check (r : resource) (a : action) (r' : resource) : Prop :=
  (a = SERVER_ADMIN ∧ rtype r' = SERVER) ∨
  (a = SCOPE_ADMIN ∧ rtype r' = SCOPE ∧ scope_id r' = scope_id r) ∨
  (a = ARTIFACT_SHARE ∧ r' = r ∧ rtype r = ARTIFACT) ∨
  (a = SCOPE_DELEGATE ∧ rtype r' = SCOPE ∧ scope_id r' = scope_id r ∧ handoff_resource r).

Lemma server_ok d r : server d = Ok r → r = server_ref d ∧ well_shaped r.
Proof. unfold server, new_resource. intros ([] & H%raise_if_ok%dec_stable & [= <-])%result_bind_ok. done. Qed.

Lemma administrative_checks_ok r checks a r' :
  well_shaped r → administrative_checks r = Ok checks → (a, r') ∈ checks →
  administrative_check r a r' ∧ well_shaped r' ∧ a ≠ ACCESS_SELF.
Proof.
  intros Hw. unfold administrative_checks, administrative_check.
  destruct (rtype r) eqn:Et.
  - intros [= <-] [= -> ->]%list_elem_of_singleton. split_and!; [by left|done|done].
  - intros (d & [-> Hd]%server_ok & [= <-])%result_bind_ok. rewrite !elem_of_cons.
    intros [[= -> ->]|[[= -> ->]|[]%not_elem_of_nil]]; (split_and!; [|done|done]); [right; by left|by left].
  - destruct (parent_scope r) as [parent|] eqn:Ep; [|done].
    unfold parent_scope in Ep. apply fmap_Some in Ep as (i & Ei & ->).
    intros (f & Hf & (d & [-> Hd]%server_ok & [= <-])%result_bind_ok)%result_bind_ok.
    assert (Hs : well_shaped (scope_ref i)).
    { unfold well_shaped in Hw |- *. rewrite Et, Ei in Hw. simpl. naive_solver. }
    rewrite !elem_of_cons, elem_of_app.
    intros [[= -> ->]|[[= -> ->]|[H|[= -> ->]%list_elem_of_singleton]]].
    + split_and!; [|done|done]. right. right. by left.
    + split_and!; [|done|done]. right. left. by rewrite Ei.
    + case_decide as Eh; [|by apply not_elem_of_nil in H]. apply list_elem_of_singleton in H as [= -> ->].
      split_and!; [|done|done]. right. right. right. rewrite Ei. split_and!; [done..|]. by exists f.
    + split_and!; [|done|done]. by left.
Qed.

(** The bindings a provider is shown for the administrative checks of a resource are on
    the Server, on the Scope of the resource or on the resource itself. *)
Lemma administrative_relevant r checks b :
  collision_free digest → well_shaped r → well_shaped (b_resource b) → administrative_checks r = Ok checks →
  relevant digest (Some checks.*2) b → at_or_above (b_resource b) r.
Proof.
  intros Hinj Hw Hb Hc [?|Hin]; [by left|]. unfold at_or_above. apply list_elem_of_fmap in Hin as (x & Hk & [Ht Hx]%list_elem_of_filter).
  assert (Hcase : well_shaped x ∧ (rtype x = SERVER ∨ (rtype x = SCOPE ∧ scope_id x = scope_id r) ∨ x = r)).
  { assert (Hall : ∀ y, y ∈ checks.*2 → well_shaped y ∧ (rtype y = SERVER ∨ (rtype y = SCOPE ∧ scope_id y = scope_id r) ∨ y = r)).
    { intros y ([a r'] & -> & Hin)%list_elem_of_fmap. destruct (administrative_checks_ok _ _ _ _ Hw Hc Hin) as (Ha & Hwy & _).
      split; [done|]. unfold administrative_check in Ha. simpl. naive_solver. }
    apply elem_of_app in Hx as [Hx|(y & Hy & Hx)%list_elem_of_omap]; [by apply Hall|]. apply Hall in Hy as [Hwy Hy].
    unfold parent_scope in Hx. apply fmap_Some in Hx as (i & Hi & ->). split.
    - unfold well_shaped in Hwy |- *. rewrite Hi in Hwy. simpl. destruct (rtype y); naive_solver.
    - right. left. split; [done|]. simpl. rewrite <- Hi. destruct Hy as [Hy|[[_ ?]| ->]]; [|done|done].
      unfold well_shaped in Hwy. rewrite Hy in Hwy. destruct Hwy as (_ & Hno & _). congruence. }
  destruct Hcase as [Hwx Hcase]. apply Hinj in Hk; [|done..]. by rewrite Hk.
Qed.

Lemma confers_manager wide b r a r' :
  administrative_check r a r' → (wide = true → at_or_above (b_resource b) r) → confers wide b a r' → manager b r.
Proof.
  intros Ha Hwide [[E Hr]|[Hreach Hc]].
  - unfold administrative_check, manager, at_or_above in *. subst r'.
    destruct Ha as [(-> & Ht)|[(-> & Ht & Hs)|[(-> & -> & Ht)|(-> & Ht & Hs & Hf)]]];
      destruct (b_role b); simpl in *; rewrite ?elem_of_cons, ?elem_of_nil in Hr; intuition congruence.
  - assert (Hadm : (b_role b = R_SERVER_ADMIN ∨ b_role b = R_SCOPE_ADMIN) ∧ a ≠ SERVER_ADMIN).
    { unfold administrative_check in Ha. destruct Ha as [(-> & _)|[(-> & _)|[(-> & _)|(-> & _)]]];
        destruct (b_role b); simpl in *; rewrite ?elem_of_cons, ?elem_of_nil in Hc; intuition congruence. }
    destruct Hadm as [Hadm Hs]. left. split; [done|]. destruct Hreach as [?|[[? E]|[? _]]]; [by left|right; left|by apply Hwide].
    split; [done|]. rewrite E. unfold administrative_check in Ha. naive_solver.
Qed.

Lemma rows_elem b s : b ∈ rows s ↔ ∃ i row, binding_rows s !! i = Some row ∧ row_binding row = b.
Proof.
  unfold rows. rewrite list_elem_of_fmap. split.
  - intros ([i row] & -> & H%elem_of_map_to_list). by exists i, row.
  - intros (i & row & H & <-). exists (i, row). split; [done|]. by apply elem_of_map_to_list.
Qed.

Lemma rows_shaped t0 s b : invariant digest (t0, s) → b ∈ rows s → well_shaped (b_resource b).
Proof. intros [Hr _ _ _] (i & row & Hi & <-)%rows_elem. by destruct (Hr _ _ Hi) as (_ & ? & _). Qed.

(** The owner a point decision reads is the one the store holds. *)
Lemma snapshot_owner t0 p groups resources t s r o :
  invariant digest (t0, s) → rtype r = ARTIFACT →
  artifact_owners (point_snapshot p groups resources t s) !! key r = Some o → get_artifact_owner digest r s = Some o.
Proof.
  intros [_ _ Ho _] Ht. simpl in Ho. unfold get_artifact_owner. rewrite decide_True by done.
  unfold point_snapshot, decision_snapshot. cbn [artifact_owners].
  intros H%elem_of_list_to_map_2. apply list_elem_of_fmap in H as (o' & [= Hk ->] & H).
  apply list_elem_of_omap in H as (r' & _ & Hr'). destruct (Ho _ _ Hr') as (Hh & _ & _).
  rewrite Hh in Hr'. unfold owner_hash in Hr'. by rewrite <- Hk in Hr'.
Qed.

Lemma snapshot_owner_key p groups resources t s k o :
  artifact_owners (point_snapshot p groups resources t s) !! k = Some o → key (o_resource o) = k.
Proof.
  unfold point_snapshot, decision_snapshot. cbn [artifact_owners]. intros H%elem_of_list_to_map_2.
  by apply list_elem_of_fmap in H as (o' & [= -> ->] & _).
Qed.

Lemma snapshot_owned t0 p groups resources t s r o :
  invariant digest (t0, s) → r ∈ resources → rtype r = ARTIFACT → o_resource o = r →
  owner_rows s !! digest (key r) = Some o →
  artifact_owners (point_snapshot p groups resources t s) !! key r = Some o.
Proof.
  intros [_ _ Ho _] Hin Ht Hor Hr. simpl in Ho. unfold point_snapshot, decision_snapshot. cbn [artifact_owners].
  apply elem_of_list_to_map'.
  - intros o' _ H. apply list_elem_of_fmap in H as (o2 & [= Hk ->] & H). apply list_elem_of_omap in H as (r' & _ & Hr').
    destruct (Ho _ _ Hr') as (Hh & _ & _). rewrite Hh in Hr'. unfold owner_hash in Hr'. rewrite <- Hk in Hr'. congruence.
  - apply list_elem_of_fmap. exists o. rewrite Hor. split; [done|]. apply list_elem_of_omap. exists r. split; [|done].
    by apply list_elem_of_filter.
Qed.

Lemma snapshot_bindings p groups resources t s b :
  b ∈ bindings (point_snapshot p groups resources t s) →
  b ∈ rows s ∧ b_subject b ∈ subjects_of p groups ∧ active_at t b.
Proof.
  unfold point_snapshot, decision_snapshot. cbn [bindings]. by intros [(H1 & _ & _ & H2) H3]%list_elem_of_filter.
Qed.

Lemma snapshot_relevant p groups resources t s b :
  b ∈ bindings (point_snapshot p groups resources t s) → relevant digest (Some resources) b.
Proof. unfold point_snapshot, decision_snapshot. cbn [bindings]. by intros [(_ & _ & H & _) _]%list_elem_of_filter. Qed.

(** Whom an administrative check admits manages the resource. *)
Lemma justified_manages wide t0 s p groups checks t q r :
  invariant digest (t0, s) → (wide = true → collision_free digest) → well_shaped r → administrative_checks r = Ok checks →
  administrative_check r (q_action q) (q_resource q) →
  justified wide (point_snapshot p groups checks.*2 t s) p t q → manages s p groups t r.
Proof.
  intros Hinv Hinj Hw Hc Ha [(b & [Hact Hin]%list_elem_of_filter & Hg)%Exists_exists|(Ht & Ho & Hact)].
  - left. exists b. pose proof (snapshot_relevant _ _ _ _ _ _ Hin) as Hrel. apply snapshot_bindings in Hin as (Hr & Hs & _).
    split_and!; [done..|]. eapply confers_manager; [exact Ha| |exact Hg]. intros Hwide.
    eapply administrative_relevant; [by apply Hinj|done|by eapply rows_shaped|done|done].
  - right. apply fmap_Some in Ho as (o & Ho & ->). eapply snapshot_owner in Ho; [|done|done].
    assert (q_resource q = r ∧ rtype r = ARTIFACT) as [<- Hr].
    { destruct Ha as [(_ & ?)|[(_ & ? & _)|[(_ & ? & ?)|(_ & ? & _)]]]; [congruence|congruence|done|congruence]. }
    split; [done|]. by rewrite Ho.
Qed.

(** A principal was admitted to manage a resource in some state between [s] and [s'],
    by the relationships of that state, and the admission is on the audit log. *)
Definition authorised (s s' : adb) (p : principal) (ctx : audit_context) (r : resource) : Prop :=
  ∃ s1 t e,
    moves s s1 ∧ moves s1 s' ∧ manages s1 p (subject_groups ctx) t r ∧
    e ∈ audits s' ∧ e_principal e = p ∧ e_allowed e = true ∧ e_context e = ctx ∧
    administrative_check r (e_action e) (e_resource e).

Lemma require_any_authorised t0 p r checks ctx w ds w' :
  reachable digest timestamp (t0, db w) → well_shaped r → administrative_checks r = Ok checks →
  require_any (Some p) checks ctx w = (Ok ds, w') → authorised (db w) (db w') p ctx r.
Proof.
  intros Hreach Hw Hc (s1 & t & a & r' & i & u & d & Hm1 & Hm2 & Hin & Hv & -> & Hd & Hrec)%require_any_ok.
  destruct (administrative_checks_ok _ _ _ _ Hw Hc Hin) as (Ha & Hw' & Hself).
  destruct (moves_invariant _ _ _ Hm1 Hreach) as (t1 & Hinv%reachable_invariant).
  exists s1, t. eexists. split_and!; [done|done| |by apply Hrec|done|done|done|done].
  apply point_decision_justified in Hd; [|apply Forall_forall; intros b (Hb & _)%snapshot_bindings; by eapply rows_shaped|done].
  destruct Hd as [?|Hg]; [done|]. by refine (justified_manages _ _ _ _ _ _ _ _ _ Hinv Hdigest Hw Hc _ Hg).
Qed.

Lemma moves_created b s b' s' : fresh b → AccessStore.create_binding digest timestamp b s = Ok (b', s') → moves s s'.
Proof. intros Hf H. apply moves_step. intros t. eexists. by eapply step_create. Qed.
Lemma moves_revoked i expected k at_ by_ s b s' : AccessStore.revoke_binding digest i expected k at_ by_ s = Ok (b, s') → moves s s'.
Proof. intros H. apply moves_step. intros t. eexists. by eapply step_revoke. Qed.
Lemma moves_replaced q p at_ s bb s' : AccessStore.replace_binding digest timestamp q p at_ s = Ok (bb, s') → moves s s'.
Proof. intros H. apply moves_step. intros t. eexists. by eapply step_replace. Qed.

(** C34: Nobody grants what he may not administer.  Whatever other requests do in
    between, when [create_binding] answers a binding, then the caller was identified,
    and in some state before the write he managed the resource by the relationships
    then in force: through a binding of his, or of a group of his, with an
    administrator's role on the Server, on the Scope or on the resource itself (for a
    Handoff also the delegator's role on the Scope), or as the owner of the Artifact;
    the admission is on the audit log by the time of the
    write, and what is written is the requested subject, resource and role, granted by
    the caller.  This holds for both providers.  Casbin reads the administrator of a
    Scope named [*] as one of every Scope, but for a management request the relational
    store shows it only the bindings on the Server, on the Scope and on the resource, so
    that this does not reach management; that much rests on digests telling the keys of
    resources apart ([Hdigest]), which the built-in provider does not need. *)
Theorem grant_requires_authority t0 pr q ctx validate_resource w created w' :
  reachable digest timestamp (t0, db w) → well_shaped (c_resource q) →
  create_binding pr q ctx validate_resource w = (Ok created, w') →
  ∃ p i t s2 s3,
    pr = Some p ∧ authorised (db w) s2 p ctx (c_resource q) ∧
    AccessStore.create_binding digest timestamp (candidate_binding i t p q) s2 = Ok (created, s3) ∧
    moves (db w) s2 ∧ moves s3 (db w').
Proof.
  intros Hreach Hw H. unfold create_binding in H.
  do 3 (apply P_bind_ok in H as ([] & ? & [_ ->]%raising_ok & H)).
  apply P_bind_ok in H as (t & w1 & Ht & H). apply P_bind_ok in H as ([] & ? & [_ ->]%raising_ok & H).
  apply P_bind_ok in H as (p & ? & [Hp ->]%raising_ok & H). apply P_bind_ok in H as (checks & ? & [Hc ->]%raising_ok & H).
  apply P_bind_ok in H as (ds & w2 & Hreq & H). apply P_bind_ok in H as ([] & ? & [_ ->]%raising_ok & H).
  apply P_bind_ok in H as (i & w3 & Hi & H). apply P_bind_ok in H as ([] & ? & [_ ->]%raising_ok & H).
  apply P_bind_ok in H as (b & w4 & (s3 & Hcreate & ->)%call_ok & H).
  apply P_bind_ok in H as ([] & w5 & Hrec & H). apply P_ret_ok in H as [-> ->].
  pose proof (moving_run _ _ _ _ moving_now Ht) as Hm1. pose proof (moving_run _ _ _ _ moving_uuid4 Hi) as Hm3.
  assert (E : db w1 = db w) by (unfold now in Ht; by injection Ht as _ <-).
  assert (E3 : db w3 = db w2) by (unfold uuid4 in Hi; by injection Hi as _ <-).
  rewrite <- E in Hreach. destruct (require_any_authorised _ _ _ _ _ _ _ _ Hreach Hw Hc Hreq) as
    (s1 & t1 & e & Ha & Hb & Hman & He & Hrest). rewrite E in Ha.
  assert (Hm : moves (db w2) (meanwhile (tick w3) (db w3))) by (rewrite <- E3; apply Hmeanwhile).
  exists p, i, t, (meanwhile (tick w3) (db w3)), s3. split_and!.
  - destruct pr; [by injection Hp as ->|done].
  - exists s1, t1, e. split_and!; [done|by etrans|done|by eapply moves_audits|apply Hrest..].
  - done.
  - rewrite <- E. etrans; [|exact Hm]. eapply moving_run; [apply moving_require_any|exact Hreq].
  - exact (moving_run _ _ _ _ (moving_record_relationship _ _ _ _) Hrec).
Qed.

(** The binding a request looked up, as it is stored later on: on the same resource,
    and still there. *)
Lemma moves_binding t0 s s' i b :
  reachable digest timestamp (t0, s) → moves s s' → get_binding i s = Some b →
  ∃ b', get_binding i s' = Some b' ∧ b_resource b' = b_resource b.
Proof.
  intros Hr Hm Hb. destruct (Hm t0) as (t1 & Hs).
  destruct (binding_lifecycle_ok _ _ _ _ _ _ Hr Hs Hb) as [H|(_ & rev & at_ & by_ & H)]; eexists; by split; [exact H|].
Qed.

Lemma stored_shaped t0 s i b : reachable digest timestamp (t0, s) → get_binding i s = Some b → well_shaped (b_resource b).
Proof.
  intros [Hr _ _ _]%reachable_invariant Hb. unfold get_binding in Hb. apply fmap_Some in Hb as (row & Hi & ->).
  by destruct (Hr _ _ Hi) as (_ & ? & _).
Qed.

Lemma not_found_never {A} p ctx w (a : A) w' : not_found p ctx w ≠ (Ok a, w').
Proof.
  unfold not_found. intros H. apply P_bind_ok in H as (r & w1 & _ & H). apply P_bind_ok in H as (d & w2 & _ & H).
  by apply raising_ok in H as [? _].
Qed.

(** A caller who was admitted for the resource of the stored binding [i] before [s]. *)
Definition may_change (s0 s : adb) (pr : option principal) (p : principal) (ctx : audit_context) (i : text) : Prop :=
  pr = Some p ∧ ∃ b, get_binding i s = Some b ∧ authorised s0 s p ctx (b_resource b).

Lemma admitted_to_change t0 p ctx w0 w1 w2 i b checks ds :
  reachable digest timestamp (t0, db w0) → moves (db w0) (db w1) → get_binding i (db w1) = Some b →
  administrative_checks (b_resource b) = Ok checks → require_any (Some p) checks ctx w1 = (Ok ds, w2) →
  ∀ s, moves (db w2) s → may_change (db w0) s (Some p) p ctx i.
Proof.
  intros Hreach Hm Hb Hc Hreq s Hs. split; [done|]. destruct (moves_invariant _ _ _ Hm Hreach) as (t1 & Hr1).
  assert (Hm2 : moves (db w1) (db w2)) by (eapply moving_run; [apply moving_require_any|exact Hreq]).
  destruct (moves_binding _ _ s _ _ Hr1 ltac:(by etrans) Hb) as (b' & Hb' & Eres). exists b'. split; [done|]. rewrite Eres.
  destruct (require_any_authorised _ _ _ _ _ _ _ _ Hr1 (stored_shaped _ _ _ _ Hr1 Hb) Hc Hreq) as
    (s1 & t & e & H1 & H2 & Hman & He & Hrest).
  exists s1, t, e. split_and!; [by etrans|by etrans|done|by eapply moves_audits|apply Hrest..].
Qed.

Lemma run_now w t w' : now w = (Ok t, w') → db w' = db w.
Proof. unfold now. by intros [= _ <-]. Qed.

Lemma revoke_authority t0 pr i expected k ctx prepare w b w' :
  reachable digest timestamp (t0, db w) → revoke_binding pr i expected k ctx prepare w = (Ok b, w') →
  ∃ p t s2 s3, may_change (db w) s2 pr p ctx i ∧
    AccessStore.revoke_binding digest i expected k t p s2 = Ok (b, s3) ∧ moves (db w) s2 ∧ moves s3 (db w').
Proof.
  intros Hreach H. unfold revoke_binding in H. apply P_bind_ok in H as ([] & ? & [_ ->]%raising_ok & H).
  apply P_bind_ok in H as (p & ? & [Hp ->]%raising_ok & H). apply P_bind_ok in H as ([] & ? & [_ ->]%raising_ok & H).
  apply P_bind_ok in H as (found & w1 & (s1 & [-> ->]%gets_ok & ->)%call_ok & H).
  destruct (get_binding i _) as [b0|] eqn:Hb0; [|by apply not_found_never in H].
  apply P_bind_ok in H as ([] & ? & [_ ->]%raising_ok & H). apply P_bind_ok in H as (checks & ? & [Hc ->]%raising_ok & H).
  apply P_bind_ok in H as (ds & w2 & Hreq & H). apply P_bind_ok in H as (t & w3 & Ht & H).
  apply P_bind_ok in H as (b1 & w4 & (s3 & Hrev & ->)%call_ok & H). apply P_bind_ok in H as ([] & w5 & Hrec & H).
  apply P_ret_ok in H as [-> ->]. assert (pr = Some p) as -> by (destruct pr; [by injection Hp as ->|done]).
  set (s2 := meanwhile (tick w3) (db w3)) in *. apply run_now in Ht.
  assert (Hm2 : moves (db w2) s2) by (rewrite <- Ht; apply Hmeanwhile). exists p, t, s2, s3. split_and!.
  - refine (admitted_to_change _ _ _ _ _ _ _ _ _ _ Hreach _ _ Hc Hreq _ Hm2); [apply Hmeanwhile|exact Hb0].
  - done.
  - etrans; [apply Hmeanwhile|]. etrans; [|exact Hm2].
    exact (moving_run _ _ _ _ (moving_require_any _ _ _) Hreq).
  - exact (moving_run _ _ _ _ (moving_record_relationship _ _ _ _) Hrec).
Qed.

Lemma moving_not_yet_expired o : moving (not_yet_expired o).
Proof. unfold not_yet_expired. destruct o; moving. Qed.

Lemma replace_authority t0 pr q ctx prepare w bb w' :
  reachable digest timestamp (t0, db w) → replace_binding pr q ctx prepare w = (Ok bb, w') →
  ∃ p t s2 s3, may_change (db w) s2 pr p ctx (rp_binding q) ∧
    AccessStore.replace_binding digest timestamp q p t s2 = Ok (bb, s3) ∧ moves (db w) s2 ∧ moves s3 (db w').
Proof.
  intros Hreach H. unfold replace_binding in H.
  apply P_bind_ok in H as (p & ? & [Hp ->]%raising_ok & H). apply P_bind_ok in H as ([] & ? & [_ ->]%raising_ok & H).
  apply P_bind_ok in H as (found & w1 & (s1 & [-> ->]%gets_ok & ->)%call_ok & H).
  destruct (get_binding (rp_binding q) _) as [b0|] eqn:Hb0; [|by apply not_found_never in H].
  do 3 (apply P_bind_ok in H as ([] & ? & [_ ->]%raising_ok & H)).
  apply P_bind_ok in H as ([] & w1 & Hexp & H). apply P_bind_ok in H as (checks & ? & [Hc ->]%raising_ok & H).
  apply P_bind_ok in H as (ds & w2 & Hreq & H). apply P_bind_ok in H as (t & w3 & Ht & H).
  apply P_bind_ok in H as (b1 & w4 & (s3 & Hrev & ->)%call_ok & H). apply P_bind_ok in H as ([] & w5 & Hrec & H).
  apply P_bind_ok in H as ([] & w6 & Hrec' & H). apply P_ret_ok in H as [-> ->].
  assert (pr = Some p) as -> by (destruct pr; [by injection Hp as ->|done]).
  set (s2 := meanwhile (tick w3) (db w3)) in *. apply run_now in Ht.
  assert (Hm2 : moves (db w2) s2) by (rewrite <- Ht; apply Hmeanwhile).
  assert (Hsame : db w1 = meanwhile (tick w) (db w)).
  { unfold not_yet_expired in Hexp. destruct (rp_expires q); [|by apply P_ret_ok in Hexp as [_ ->]].
    apply P_bind_ok in Hexp as (t1 & wx & Hx%run_now & [_ ->]%raising_ok). by rewrite Hx. }
  assert (Hm1 : moves (db w) (db w1)) by (rewrite Hsame; apply Hmeanwhile).
  exists p, t, s2, s3. split_and!.
  - refine (admitted_to_change _ _ _ _ _ _ _ _ _ _ Hreach Hm1 _ Hc Hreq _ Hm2). by rewrite Hsame.
  - done.
  - etrans; [exact Hm1|]. etrans; [|exact Hm2]. exact (moving_run _ _ _ _ (moving_require_any _ _ _) Hreq).
  - pose proof (moving_run _ _ _ _ (moving_record_relationship _ _ _ _) Hrec).
    pose proof (moving_run _ _ _ _ (moving_record_relationship _ _ _ _) Hrec'). by etrans.
Qed.

(** C35: Nobody takes away what he may not administer.  When [revoke_binding] or
    [replace_binding] succeeds, whatever happened in between, the caller was identified,
    managed the resource of the very binding that is changed in some state before the
    change (the resource of a stored binding never changes, so that looking it up
    before the check and writing after it is safe), and the admission is on the audit
    log by then.  To manage means the same as for a grant, under the same condition for
    the Casbin provider. *)
Theorem change_requires_authority t0 pr w :
  reachable digest timestamp (t0, db w) →
  (∀ i expected k ctx prepare b w',
     revoke_binding pr i expected k ctx prepare w = (Ok b, w') →
     ∃ p t s2 s3, may_change (db w) s2 pr p ctx i ∧
       AccessStore.revoke_binding digest i expected k t p s2 = Ok (b, s3) ∧ moves (db w) s2 ∧ moves s3 (db w')) ∧
  (∀ q ctx prepare bb w',
     replace_binding pr q ctx prepare w = (Ok bb, w') →
     ∃ p t s2 s3, may_change (db w) s2 pr p ctx (rp_binding q) ∧
       AccessStore.replace_binding digest timestamp q p t s2 = Ok (bb, s3) ∧ moves (db w) s2 ∧ moves s3 (db w')).
Proof. intros Hreach. split; intros; [by eapply revoke_authority|by eapply replace_authority]. Qed.
End histories.

(** ** Refusals

    Only the access decision itself denies: no validation, no store operation and no
    audit write does. *)

Definition spared {A} (r : result A) : Prop := r ≠ Err AccessDeniedError.
Definition sparedM {A} (m : M adb A) : Prop := ∀ s, spared (m s).
Definition sparedP {A} (m : P A) : Prop := ∀ w, spared (m w).1.

Lemma spared_ok {A} (a : A) : spared (Ok a).
Proof. done. Qed.
Lemma spared_raise_if (Q : Prop) `{Decision Q} e : e ≠ AccessDeniedError → spared (raise_if Q e).
Proof. intros He. unfold spared, raise_if. case_decide; congruence. Qed.
Lemma spared_bind {A B} (m : result A) (k : A → result B) : spared m → (∀ a, spared (k a)) → spared (m ≫= k).
Proof. intros Hm Hk. destruct m; [apply Hk|]. intros [= ->]. by apply Hm. Qed.
Lemma spared_check_each {A} (f : A → result unit) l : (∀ x, spared (f x)) → spared (check_each f l).
Proof. intros Hf. induction l; [done|]. by apply spared_bind. Qed.
Lemma spared_map_result {A B} (f : A → result B) l : (∀ x, spared (f x)) → spared (map_result f l).
Proof. intros Hf. induction l; [done|]. apply spared_bind; [done|]. intros y. by apply spared_bind. Qed.

Lemma sparedM_ret {A} (a : A) : sparedM (mret a).
Proof. done. Qed.
Lemma sparedM_bind {A B} (m : M adb A) (k : A → M adb B) : sparedM m → (∀ a, sparedM (k a)) → sparedM (m ≫= k).
Proof. intros Hm Hk s. specialize (Hm s). unfold mbind, M_bind. destruct (m s) as [[a s']|e]; [apply Hk|]. intros [= ->]. by apply Hm. Qed.
Lemma sparedM_reads {A} (f : adb → result A) : (∀ s, spared (f s)) → sparedM (reads f).
Proof. intros Hf s. specialize (Hf s). unfold reads. destruct (f s); [done|]. intros [= ->]. by apply Hf. Qed.
Lemma sparedM_lift {A} (r : result A) : spared r → sparedM (lift r).
Proof. intros Hr s. unfold lift. destruct r; [done|]. intros [= ->]. by apply Hr. Qed.

Lemma sparedP_ret {A} (a : A) : sparedP (mret a).
Proof. done. Qed.
Lemma sparedP_bind {A B} (m : P A) (k : A → P B) : sparedP m → (∀ a, sparedP (k a)) → sparedP (m ≫= k).
Proof. intros Hm Hk w. specialize (Hm w). unfold mbind, P_bind. destruct (m w) as [[a|e] w1]; [apply Hk|]. intros [= ->]. by apply Hm. Qed.
Lemma sparedP_raising {A} (r : result A) : spared r → sparedP (raising r).
Proof. by intros Hr w. Qed.
Lemma sparedP_now : sparedP now.
Proof. done. Qed.
Lemma sparedP_uuid4 : sparedP uuid4.
Proof. done. Qed.
Lemma sparedP_call {A} (m : M adb A) : sparedM m → sparedP (call m).
Proof.
  intros Hm w. specialize (Hm (meanwhile (tick w) (db w))). unfold call, spared in *.
  destruct (m _) as [[a s']|e]; [done|]. simpl. intros [= E]. destruct e; try done.
Qed.
Lemma sparedP_for_all {A} (f : A → P unit) l : (∀ x, sparedP (f x)) → sparedP (for_all f l).
Proof. intros Hf. induction l; [done|]. simpl. by apply sparedP_bind. Qed.

#[local] Hint Resolve spared_ok spared_raise_if spared_bind spared_check_each spared_map_result
  sparedM_ret sparedM_bind sparedM_reads sparedM_lift
  sparedP_ret sparedP_bind sparedP_raising sparedP_now sparedP_uuid4 sparedP_call sparedP_for_all : spared.
Ltac spare := repeat (first
  [ discriminate | done | progress intros
  | apply spared_bind | apply spared_raise_if | apply spared_check_each | apply spared_map_result
  | apply sparedM_bind | apply sparedM_ret | apply sparedM_reads | apply sparedM_lift
  | apply sparedP_bind | apply sparedP_ret | apply sparedP_raising | apply sparedP_now | apply sparedP_uuid4
  | apply sparedP_call | apply sparedP_for_all | solve [eauto with spared] | case_match ]).

Lemma spared_profile r : spared (artifact_family_profile ps r).
Proof. unfold artifact_family_profile. spare. Qed.
#[local] Hint Resolve spared_profile : spared.

Lemma spared_validate a r : spared (validate_action_resource ps deployment a r).
Proof. unfold validate_action_resource. spare. Qed.
Lemma spared_role r ro : spared (validate_binding_role ps deployment r ro).
Proof. unfold validate_binding_role. spare. Qed.
Lemma spared_subject r ro b : spared (validate_binding_subject ps r ro b).
Proof. unfold validate_binding_subject. spare. Qed.
Lemma spared_server d : spared (server d).
Proof. unfold server, new_resource. spare. Qed.
#[local] Hint Resolve spared_validate spared_role spared_subject spared_server : spared.
Lemma spared_administrative r : spared (administrative_checks r).
Proof. unfold administrative_checks. spare. Qed.
#[local] Hint Resolve spared_administrative : spared.
Lemma spared_decision d : spared (validate_provider_decision d).
Proof. unfold validate_provider_decision. spare. Qed.
#[local] Hint Resolve spared_decision : spared.

Lemma sparedM_idempotent p k op h s : spared (idempotent_result digest p k op h s).
Proof. unfold idempotent_result. spare. Qed.
Lemma sparedM_increment n : sparedM (increment_policy_revision n).
Proof. by intros s. Qed.
Lemma sparedM_insert b : sparedM (insert_binding digest b).
Proof. intros s. unfold insert_binding. by case_decide. Qed.
Lemma sparedM_record p k r e : e ≠ AccessDeniedError → sparedM (record_idempotency digest p k r e).
Proof. intros He s. unfold record_idempotency, spared. case_match; congruence. Qed.
Lemma sparedM_replayed i : sparedM (replayed i).
Proof. unfold replayed. spare. Qed.
Lemma sparedM_active i v : sparedM (require_active i v).
Proof. unfold require_active. spare. Qed.
Lemma sparedM_audit e : sparedM (append_audit e).
Proof. intros s. unfold append_audit. by case_decide. Qed.
Lemma sparedM_written b : sparedM (write_revoked digest b).
Proof. by intros s. Qed.
Lemma sparedM_gets {A} (f : adb → A) : sparedM (gets f).
Proof. by intros s. Qed.
#[local] Hint Resolve sparedM_idempotent sparedM_increment sparedM_insert sparedM_record sparedM_replayed sparedM_active
  sparedM_audit sparedM_written sparedM_gets : spared.

Lemma sparedM_create b : sparedM (AccessStore.create_binding digest timestamp b).
Proof. unfold AccessStore.create_binding. spare. Qed.
Lemma sparedM_revoke i v k t p : sparedM (AccessStore.revoke_binding digest i v k t p).
Proof. unfold AccessStore.revoke_binding. spare. Qed.
Lemma sparedM_replace q p t : sparedM (AccessStore.replace_binding digest timestamp q p t).
Proof. unfold AccessStore.replace_binding. spare. Qed.
#[local] Hint Resolve sparedM_create sparedM_revoke sparedM_replace : spared.

Lemma sparedP_record_decision p a r d ctx : sparedP (record_decision p a r d ctx).
Proof. unfold record_decision. spare. Qed.
Lemma sparedP_record_unless_self p ctx x : sparedP (record_unless_self p ctx x).
Proof. unfold record_unless_self. case_match; [done|apply sparedP_record_decision]. Qed.
Lemma sparedP_provider l : sparedP (provider_check_batch l).
Proof. unfold provider_check_batch. spare. Qed.
Lemma sparedP_record_relationship b p v ctx : sparedP (record_relationship b p v ctx).
Proof. unfold record_relationship, administrative_action. spare. Qed.
#[local] Hint Resolve sparedP_record_decision sparedP_record_unless_self sparedP_provider sparedP_record_relationship : spared.
Lemma sparedP_check_batch p checks ctx : sparedP (check_batch (Some p) checks ctx).
Proof. unfold check_batch. spare. Qed.
Lemma sparedP_check p a r ctx : sparedP (check (Some p) a r ctx).
Proof. unfold check. spare. Qed.

Lemma P_bind_err {A B} (m : P A) (k : A → P B) w e w' :
  (m ≫= k) w = (Err e, w') ↔ m w = (Err e, w') ∨ ∃ a w1, m w = (Ok a, w1) ∧ k a w1 = (Err e, w').
Proof. unfold mbind, P_bind. destruct (m w) as [[a|e'] w1]; split; naive_solver. Qed.

(** A denial of [m ≫= k] where [m] denies nothing comes from [k]. *)
Lemma denied_later {A B} (m : P A) (k : A → P B) w w' :
  sparedP m → (m ≫= k) w = (Err AccessDeniedError, w') → ∃ a w1, m w = (Ok a, w1) ∧ k a w1 = (Err AccessDeniedError, w').
Proof. intros Hm [H|H]%P_bind_err; [|done]. specialize (Hm w). by rewrite H in Hm. Qed.
Lemma denied_not {A} (m : P A) w w' : sparedP m → m w ≠ (Err AccessDeniedError, w').
Proof. intros Hm H. specialize (Hm w). by rewrite H in Hm. Qed.

(** All that a refusal leaves: events of the log that record it. *)
Definition refused (s s' : adb) (p : principal) (n : nat) : Prop :=
  ∃ new, length new = n ∧ s' = set_audits (audits s ++ new) s ∧
         Forall (λ e, e_principal e = p ∧ e_allowed e = false) new.

Section alone.
Context (Halone : ∀ n s, meanwhile n s = s).

Lemma call_alone {A} (m : M adb A) w a w' : call m w = (Ok a, w') ↔ ∃ s', m (db w) = Ok (a, s') ∧ w' = mkWorld s' (S (tick w)).
Proof. rewrite call_ok. by rewrite Halone. Qed.

Lemma refused_refl s p : refused s s p 0.
Proof. exists []. split_and!; [done| |done]. rewrite app_nil_r. by destruct s. Qed.

Lemma refused_trans s1 s2 s3 p n m : refused s1 s2 p n → refused s2 s3 p m → refused s1 s3 p (n + m).
Proof.
  intros (l & <- & -> & Hl) (k & <- & -> & Hk). exists (l ++ k). split_and!; [apply length_app| |by apply Forall_app].
  simpl. by rewrite app_assoc.
Qed.

Lemma record_refused p a r d ctx w u w' :
  allowed d = false → record_decision p a r d ctx w = (Ok u, w') → refused (db w) (db w') p 1.
Proof.
  intros Hd H. unfold record_decision in H. apply P_bind_ok in H as (i & w1 & [= _ <-] & H).
  apply P_bind_ok in H as (t & w2 & [= <- <-] & H). apply P_bind_ok in H as (n & w3 & (s' & Ha & ->)%call_alone & H).
  apply P_ret_ok in H as [_ ->]. apply audit_ok in Ha as [-> _]. simpl. eexists [_]. split_and!; [done|done|].
  by constructor.
Qed.

Lemma records_refused p ctx l w u w' :
  Forall (λ x : action * resource * decision, x.1.1 ≠ ACCESS_SELF ∧ allowed x.2 = false) l →
  for_all (record_unless_self p ctx) l w = (Ok u, w') → refused (db w) (db w') p (length l).
Proof.
  intros Hl. revert w. induction Hl as [|x l [Hs Hd] _ IH]; intros w H.
  - apply P_ret_ok in H as [_ ->]. apply refused_refl.
  - simpl in H. apply P_bind_ok in H as ([] & w1 & Hx & H). unfold record_unless_self in Hx. rewrite decide_False in Hx by done.
    apply (refused_trans _ (db w1) _ _ 1); [by eapply record_refused|by apply IH].
Qed.

Lemma provider_alone l w ds w' : provider_check_batch l w = (Ok ds, w') → db w' = db w.
Proof.
  destruct l as [|q l]; [by intros [_ ->]%P_ret_ok|]. unfold provider_check_batch. intros H.
  apply P_bind_ok in H as ([] & ? & [_ ->]%raising_ok & H). apply P_bind_ok in H as (t & w1 & [= <- <-] & H).
  apply P_bind_ok in H as (st & w2 & (s & [_ ->]%gets_ok & ->)%call_alone & H). by apply P_ret_ok in H as [_ ->].
Qed.

Lemma require_any_refused p checks ctx w w' :
  (∀ a r, (a, r) ∈ checks → a ≠ ACCESS_SELF) →
  require_any (Some p) checks ctx w = (Err AccessDeniedError, w') → refused (db w) (db w') p (length checks).
Proof.
  intros Hself H. unfold require_any in H. apply denied_later in H as (ds & w1 & Hc & H); [|apply sparedP_check_batch].
  apply P_bind_err in H as [H|(? & ? & _ & H)]; [|done]. unfold raising in H. injection H as Hd <-.
  assert (Hall : Forall (λ d, allowed d = false) ds).
  { unfold some_allowed in Hd. case_decide as He; [done|]. apply Forall_forall. intros d Hin.
    destruct (allowed d) eqn:E; [|done]. destruct He. apply Exists_exists. eauto. }
  unfold check_batch in Hc. apply P_bind_ok in Hc as ([] & ? & [_ ->]%raising_ok & Hc).
  apply P_bind_ok in Hc as (p' & ? & [[= <-] ->]%raising_ok & Hc). apply P_bind_ok in Hc as ([] & ? & [_ ->]%raising_ok & Hc).
  apply P_bind_ok in Hc as (ds' & w2 & Hp%provider_alone & Hc).
  apply P_bind_ok in Hc as ([] & ? & [Hlen%raise_if_ok%dec_stable ->]%raising_ok & Hc).
  apply P_bind_ok in Hc as ([] & ? & [_ ->]%raising_ok & Hc). apply P_bind_ok in Hc as ([] & w3 & Hrec & Hc).
  apply P_ret_ok in Hc as [-> ->]. rewrite <- Hp. replace (length checks) with (length (zip checks ds')).
  - eapply records_refused; [|exact Hrec]. apply Forall_forall. intros [[a r] d] Hin. split.
    + apply elem_of_zip_l in Hin. by eapply Hself.
    + apply elem_of_zip_r in Hin. rewrite Forall_forall in Hall. by apply Hall.
  - rewrite length_zip_with. lia.
Qed.

Lemma check_refused p a r ctx w d w' :
  a ≠ ACCESS_SELF → check (Some p) a r ctx w = (Ok d, w') → allowed d = false → refused (db w) (db w') p 1.
Proof.
  intros Hself H Hd. unfold check in H. apply P_bind_ok in H as (p' & ? & [[= <-] ->]%raising_ok & H).
  apply P_bind_ok in H as ([] & ? & [_ ->]%raising_ok & H). apply P_bind_ok in H as (ds & w2 & Hp%provider_alone & H).
  apply P_bind_ok in H as (d' & ? & [_ ->]%raising_ok & H). apply P_bind_ok in H as ([] & ? & [_ ->]%raising_ok & H).
  apply P_bind_ok in H as ([] & w3 & Hrec & H). apply P_ret_ok in H as [-> ->].
  unfold record_unless_self in Hrec. rewrite decide_False in Hrec by done. rewrite <- Hp. by eapply record_refused.
Qed.

Lemma sparedP_required pr : sparedP (raising (required_principal pr)).
Proof. destruct pr; by intros w. Qed.

Lemma not_found_refused {A} p ctx w w' :
  not_found (A := A) p ctx w = (Err AccessDeniedError, w') → refused (db w) (db w') p 1.
Proof.
  unfold not_found. intros H. apply denied_later in H as (r & w1 & [_ ->]%raising_ok & H); [|spare].
  apply denied_later in H as (d & w2 & Hc & H); [|apply sparedP_check]. unfold raising in H. injection H as Hd <-.
  eapply check_refused; [|exact Hc|]; [done|]. by destruct (allowed d).
Qed.

(** The administrative checks of a shaped resource: some, and none of the caller himself. *)
Lemma administrative_checks_some r checks :
  administrative_checks r = Ok checks → (0 < length checks)%nat ∧ ∀ a r', (a, r') ∈ checks → a ≠ ACCESS_SELF.
Proof.
  unfold administrative_checks. intros H. assert (Hc : checks ≠ [] ∧ ACCESS_SELF ∉ checks.*1).
  { destruct (rtype r).
    - injection H as <-. simpl. rewrite !elem_of_cons, elem_of_nil. split; [done|]. intros [|]; done.
    - apply result_bind_ok in H as (d & _ & [= <-]). simpl. rewrite !elem_of_cons, elem_of_nil. split; [done|].
      intros [|[|]]; done.
    - destruct (parent_scope r); [|done]. apply result_bind_ok in H as (f & _ & (d & _ & [= <-])%result_bind_ok).
      split; [done|]. destruct (decide _); simpl; rewrite !elem_of_cons, elem_of_nil; intros Hin;
        repeat (destruct Hin as [Hin|Hin]; [done|]); done. }
  destruct Hc as [Hne Hin]. split; [by destruct checks; [|simpl; lia]|]. intros a r' Ha ->. apply Hin.
  by apply (list_elem_of_fmap_2 fst) in Ha.
Qed.

(** The end of every management request: once admitted, it is not denied. *)
Lemma admission_refused {A} p r checks ctx (k : list decision → P A) w w' :
  administrative_checks r = Ok checks → (∀ ds, sparedP (k ds)) →
  (require_any (Some p) checks ctx ≫= k) w = (Err AccessDeniedError, w') → ∃ n, (0 < n)%nat ∧ refused (db w) (db w') p n.
Proof.
  intros Hc Hk H. destruct (administrative_checks_some _ _ Hc) as [Hn Hself]. exists (length checks). split; [done|].
  apply P_bind_err in H as [H|(ds & w1 & _ & H)]; [by eapply require_any_refused|].
  by apply denied_not in H.
Qed.

Lemma create_refused pr q ctx validate_resource w w' :
  (∀ r, validate_resource r ≠ Err AccessDeniedError) →
  create_binding pr q ctx validate_resource w = (Err AccessDeniedError, w') →
  ∃ p n, pr = Some p ∧ (0 < n)%nat ∧ refused (db w) (db w') p n.
Proof.
  intros Hval H. unfold create_binding in H.
  do 3 (apply denied_later in H as ([] & ? & [_ ->]%raising_ok & H); [|spare]).
  apply denied_later in H as (t & w1 & [= _ <-] & H); [|spare].
  apply denied_later in H as ([] & ? & [_ ->]%raising_ok & H); [|spare].
  apply denied_later in H as (p & ? & [Hp ->]%raising_ok & H); [|apply sparedP_required].
  apply denied_later in H as (checks & ? & [Hc ->]%raising_ok & H); [|spare].
  assert (pr = Some p) as -> by (destruct pr; [by injection Hp as ->|done]). exists p.
  apply (admission_refused _ _ _ _ _ _ _ Hc) in H as (n & Hn & H); [by exists n|].
  intros ds. spare. apply Hval.
Qed.

Lemma revoke_refused pr i expected k ctx prepare w w' :
  (∀ r, prepare r ≠ Err AccessDeniedError) →
  revoke_binding pr i expected k ctx prepare w = (Err AccessDeniedError, w') →
  ∃ p n, pr = Some p ∧ (0 < n)%nat ∧ refused (db w) (db w') p n.
Proof.
  intros Hprep H. unfold revoke_binding in H. apply denied_later in H as ([] & ? & [_ ->]%raising_ok & H); [|spare].
  apply denied_later in H as (p & ? & [Hp ->]%raising_ok & H); [|apply sparedP_required].
  apply denied_later in H as ([] & ? & [_ ->]%raising_ok & H); [|spare].
  apply denied_later in H as (found & w1 & (s1 & [-> ->]%gets_ok & ->)%call_alone & H); [|spare].
  assert (pr = Some p) as -> by (destruct pr; [by injection Hp as ->|done]). exists p.
  destruct (get_binding i (db w)) as [b|]; [|apply not_found_refused in H; exists 1%nat; auto].
  apply denied_later in H as ([] & ? & [_ ->]%raising_ok & H); [|apply sparedP_raising, Hprep].
  apply denied_later in H as (checks & ? & [Hc ->]%raising_ok & H); [|spare].
  apply (admission_refused _ _ _ _ _ _ _ Hc) in H as (n & Hn & H); [by exists n|]. intros ds. spare.
Qed.

Lemma replace_refused pr q ctx prepare w w' :
  (∀ r, prepare r ≠ Err AccessDeniedError) →
  replace_binding pr q ctx prepare w = (Err AccessDeniedError, w') →
  ∃ p n, pr = Some p ∧ (0 < n)%nat ∧ refused (db w) (db w') p n.
Proof.
  intros Hprep H. unfold replace_binding in H.
  apply denied_later in H as (p & ? & [Hp ->]%raising_ok & H); [|apply sparedP_required].
  apply denied_later in H as ([] & ? & [_ ->]%raising_ok & H); [|spare].
  apply denied_later in H as (found & w1 & (s1 & [-> ->]%gets_ok & ->)%call_alone & H); [|spare].
  assert (pr = Some p) as -> by (destruct pr; [by injection Hp as ->|done]). exists p.
  destruct (get_binding _ (db w)) as [b|]; [|apply not_found_refused in H; exists 1%nat; auto].
  apply denied_later in H as ([] & ? & [_ ->]%raising_ok & H); [|apply sparedP_raising, Hprep].
  do 2 (apply denied_later in H as ([] & ? & [_ ->]%raising_ok & H); [|spare]).
  apply denied_later in H as ([] & w2 & Hexp & H); [|unfold not_yet_expired; spare].
  assert (db w2 = db w) as <-.
  { unfold not_yet_expired in Hexp. destruct (rp_expires q); [|by apply P_ret_ok in Hexp as [_ ->]].
    by apply P_bind_ok in Hexp as (t1 & wx & [= _ <-] & [_ ->]%raising_ok). }
  apply denied_later in H as (checks & ? & [Hc ->]%raising_ok & H); [|spare].
  apply (admission_refused _ _ _ _ _ _ _ Hc) in H as (n & Hn & H); [by exists n|]. intros ds. spare.
Qed.

End alone.

(** ** Listings and point decisions *)

(** A point decision leaves out no binding that could grant the request. *)
Lemma grants_relevant b a r l :
  well_shaped (b_resource b) → r ∈ l → binding_grants b a r → relevant digest (Some l) b.
Proof.
  intros Hw Hr Hg. unfold relevant, binding_grants in *.
  assert (Hin : ∀ x, x ∈ l ++ omap parent_scope l → x = b_resource b →
    digest (key (b_resource b)) ∈ (λ r, digest (key r)) <$> filter (λ r, rtype r = rtype (b_resource b)) (l ++ omap parent_scope l)).
  { intros x Hx ->. apply list_elem_of_fmap. exists (b_resource b). split; [done|]. by apply list_elem_of_filter. }
  case_decide as E.
  - right. apply (Hin r); [apply elem_of_app; by left|done].
  - destruct Hg as [_ [E'|[Hs|(Hs & Ha & Hid)]]]; [done|by left|right]. unfold well_shaped in Hw. rewrite Hs in Hw.
    destruct (b_resource b) as [ty d i id sel] eqn:Eb. simpl in *. destruct Hw as (-> & Hi & -> & ->). subst ty.
    destruct i as [i|]; [|done]. apply (Hin (scope_ref i)); [|done]. apply elem_of_app. right.
    apply list_elem_of_omap. exists r. split; [done|]. unfold parent_scope. by rewrite <- Hid.
Qed.

Lemma point_bindings t0 s p groups l t b a r :
  invariant digest (t0, s) → r ∈ l → binding_grants b a r →
  b ∈ filter (active_at t) (bindings (point_snapshot p groups l t s)) ↔
  b ∈ rows s ∧ b_subject b ∈ subjects_of p groups ∧ active_at t b.
Proof.
  intros [Hrows _ _ _] Hr Hg. rewrite list_elem_of_filter. split; [by intros [_ H%snapshot_bindings]|].
  intros (Hb & Hs & Ha). split; [done|]. unfold point_snapshot, decision_snapshot. cbn [bindings].
  apply list_elem_of_filter. split; [|done]. split_and!; [done|apply Ha| |done].
  apply rows_elem in Hb as (i & row & Hi & <-). eapply grants_relevant; [|done|done].
  by destruct (Hrows _ _ Hi) as (_ & ? & _).
Qed.

Lemma owned_elem t0 s p r :
  invariant digest (t0, s) →
  r ∈ list_owned_resources p s ↔ ∃ o, owner_rows s !! digest (key r) = Some o ∧ o_resource o = r ∧ owner o = p.
Proof.
  intros [_ _ Ho _]. simpl in Ho. unfold list_owned_resources, owners. rewrite list_elem_of_fmap. split.
  - intros (o & -> & [Hp ([h o'] & -> & Hin%elem_of_map_to_list)%list_elem_of_fmap]%list_elem_of_filter).
    simpl in *. destruct (Ho _ _ Hin) as (-> & _ & _). by exists o'.
  - intros (o & Hr & <- & Hp). exists o. split; [done|]. apply list_elem_of_filter. split; [done|].
    apply list_elem_of_fmap. exists (digest (key (o_resource o)), o). split; [done|]. by apply elem_of_map_to_list.
Qed.

(** C37: A listing shows exactly what may be opened.  In every state the store can
    reach, a resource of the asked type and Family passes the filter that
    [resolve_resource_filter] derives for a principal, his groups and an action if and
    only if the point decision for that principal, action and resource, taken at the
    same time from the restricted snapshot that point decisions read, allows it:
    exact grants, inherited grants and ownership alike. *)
Theorem listing_matches_decisions t0 s q r l t :
  reachable digest timestamp (t0, s) → rtype r = s_type q → in_family q r → well_shaped r → r ∈ l →
  s_action q ≠ ACCESS_SELF →
  let p := s_subject q in
  let groups := subject_groups (s_context q) in
  resource_allowed_by_filter r (resolve_resource_filter q t s) ↔
  allowed (builtin_decide digest (point_snapshot p groups l t s) p groups t (mkRequest p (s_action q) r (s_context q))) = true.
Proof.
  intros Hinv%reachable_invariant Ht Hf Hwr Hr Hself p groups. rewrite (builtin_granted digest deployment).
  unfold resolve_resource_filter. rewrite filter_allows; [|..|done|done].
  2: { apply Forall_forall. intros b [_ Hb]%list_elem_of_filter. apply rows_elem in Hb as (i & row & Hi & <-).
       destruct Hinv as [Hrows _ _ _]. by destruct (Hrows _ _ Hi) as (_ & ? & _). }
  2: { apply Forall_forall. intros x Hx. unfold decision_snapshot in Hx. cbn [owned_resources] in Hx.
       case_decide; [|by apply not_elem_of_nil in Hx]. apply (owned_elem _ _ _ _ Hinv) in Hx as (o & Ho & <- & _).
       destruct Hinv as [_ _ Hown _]. by destruct (Hown _ _ Ho) as (_ & ? & _). }
  unfold granted. cbn [q_action q_resource]. fold p groups.
  assert (H1 : Exists (λ b, binding_grants b (s_action q) r)
      (bindings (decision_snapshot digest (subjects_of p groups) t [] (if decide (owner_search q) then Some p else None) None s)) ↔
    Exists (λ b, binding_grants b (s_action q) r) (filter (active_at t) (bindings (point_snapshot p groups l t s)))).
  { rewrite !Exists_exists. apply exist_proper. intros b. split; intros [Hb Hg]; (split; [|done]).
    - apply (point_bindings _ _ _ _ _ _ _ _ _ Hinv Hr Hg). unfold decision_snapshot in Hb. cbn [bindings] in Hb.
      apply list_elem_of_filter in Hb as ((Hs & _ & _ & Ha) & Hb). done.
    - apply (point_bindings _ _ _ _ _ _ _ _ _ Hinv Hr Hg) in Hb as (Hb & Hs & Ha). unfold decision_snapshot. cbn [bindings].
      apply list_elem_of_filter. split; [|done]. split_and!; [done|apply Ha|done|done]. }
  rewrite H1. clear H1.
  assert (H2 : owner_search q ∧ r ∈ owned_resources (decision_snapshot digest (subjects_of p groups) t []
      (if decide (owner_search q) then Some p else None) None s) ↔
    owner_allows (point_snapshot p groups l t s) p (mkRequest p (s_action q) r (s_context q))).
  { unfold owner_allows. cbn [q_action q_resource]. unfold decision_snapshot at 1. cbn [owned_resources]. split.
    - intros [Hos Hin]. rewrite decide_True in Hin by done. destruct Hos as [Hart Hact]. rewrite Hart in Ht.
      apply (owned_elem _ _ _ _ Hinv) in Hin as (o & Ho & Hor & Hown). split_and!; [done| |done].
      rewrite (snapshot_owned _ _ _ _ _ _ _ _ Hinv Hr Ht Hor Ho). simpl. by rewrite Hown.
    - intros (Hart & Ho & Hact). assert (Hos : owner_search q) by (split; [congruence|done]). split; [done|].
      rewrite decide_True by done. apply fmap_Some in Ho as (o & Ho & Hown). apply (owned_elem _ _ _ _ Hinv). exists o.
      pose proof (snapshot_owner_key _ _ _ _ _ _ _ Ho) as Hk.
      apply (snapshot_owner _ _ _ _ _ _ _ _ Hinv Hart) in Ho. unfold get_artifact_owner in Ho. rewrite decide_True in Ho by done.
      split_and!; [done| |done]. apply key_inj; [|done|done]. destruct Hinv as [_ _ Hrel _]. by destruct (Hrel _ _ Ho) as (_ & ? & _). }
  rewrite H2. tauto.
Qed.

(** ** The preset is final *)

Definition has_receipt (p : principal) (k : text) (s : adb) : Prop :=
  ∃ r b, receipts s !! (principal_id p, digest k) = Some r ∧ r_operation r = BINDING_CREATE ∧
         binding_rows s !! result_binding r = Some b.

(** [static_scope_initialized] answers that every key has its receipt: the digests of
    the receipts it counts are distinct, and as many as the keys. *)
Lemma initialized_receipts p keys s :
  static_scope_initialized digest p keys s = true → ∀ k, k ∈ keys → has_receipt p k s.
Proof.
  unfold static_scope_initialized. intros H%bool_decide_eq_true k Hk.
  set (found := filter _ (map_to_list (receipts s))) in H.
  assert (Hf : ∀ x, x ∈ found → x.1.1 = principal_id p ∧ x.1.2 ∈ digest <$> keys ∧ r_operation x.2 = BINDING_CREATE ∧
    is_Some (binding_rows s !! result_binding x.2) ∧ receipts s !! x.1 = Some x.2).
  { intros [hk r] [(? & ? & ? & ?) Hx%elem_of_map_to_list]%list_elem_of_filter. done. }
  assert (Hnd : NoDup ((λ x : text * text * receipt, x.1.2) <$> found)).
  { assert (Hkeys : NoDup found.*1).
    { eapply sublist_NoDup; [apply (NoDup_fst_map_to_list (receipts s))|]. apply fmap_sublist, sublist_filter. }
    revert Hf Hkeys. clear. induction found as [|[[u h] r] l IH]; intros Hf Hkeys; simpl; [constructor|].
    apply NoDup_cons in Hkeys as [Hn Hkeys]. constructor.
    - intros ([[u' h'] r'] & Heq & Hx)%list_elem_of_fmap. simpl in Heq. subst h'. apply Hn.
      apply list_elem_of_fmap. exists ((u', h), r'). split; [|done]. simpl. f_equal.
      destruct (Hf ((u, h), r)) as [E _]; [left|]. destruct (Hf ((u', h), r')) as [E' _]; [by right|]. simpl in *. congruence.
    - apply IH; [|done]. intros x Hx. apply Hf. by right. }
  assert (Hperm : (λ x : text * text * receipt, x.1.2) <$> found ≡ₚ digest <$> keys).
  { apply submseteq_length_Permutation.
    - apply NoDup_submseteq; [done|]. intros h (x & -> & Hx)%list_elem_of_fmap. by apply Hf in Hx as (_ & ? & _).
    - rewrite !length_fmap. lia. }
  assert (Hin : digest k ∈ (λ x : text * text * receipt, x.1.2) <$> found) by (rewrite Hperm; by apply list_elem_of_fmap_2).
  apply list_elem_of_fmap in Hin as ([[u h] r] & Heq & Hx). apply Hf in Hx as (Hu & _ & Ho & [b Hb] & Hr). simpl in *. subst u h.
  by exists r, b.
Qed.

Lemma initialized_one p k s : static_scope_initialized digest p [k] s = true ↔ has_receipt p k s.
Proof.
  split; [intros H; apply (initialized_receipts _ _ _ H); left|]. intros (r & b & Hr & Ho & Hb).
  unfold static_scope_initialized. apply bool_decide_eq_true.
  set (Q := λ x : text * text * receipt, _). assert (Hp : filter Q (map_to_list (receipts s)) ≡ₚ [((principal_id p, digest k), r)]).
  { apply NoDup_Permutation.
    - apply NoDup_filter, NoDup_map_to_list.
    - apply NoDup_singleton.
    - intros [[u h] r']. rewrite list_elem_of_filter, elem_of_map_to_list, list_elem_of_singleton. unfold Q. simpl.
      rewrite list_elem_of_singleton. split.
      + intros [(-> & -> & _ & _) Hx]. congruence.
      + intros [= -> -> ->]. split_and!; [done|done|done|by eexists|done]. }
  by rewrite Hp.
Qed.

Lemma moves_receipt t0 p k s s' : reachable digest timestamp (t0, s) → moves s s' → has_receipt p k s → has_receipt p k s'.
Proof.
  intros Hr Hm (r & b & Hk & Ho & Hb). destruct (Hm t0) as (t1 & Hs).
  destruct (moves_binding _ _ _ (result_binding r) (row_binding b) Hr Hm) as (b' & Hb' & _); [unfold get_binding; by rewrite Hb|].
  unfold get_binding in Hb'. apply fmap_Some in Hb' as (row & Hrow & _). exists r, row. split_and!; [|done|done].
  exact (steps_receipts _ _ _ _ _ _ Hs Hk).
Qed.

(** A role of the preset that has been granted once, under the present or the old key. *)
Definition settled (p : principal) (scope_id : text) (ro : role) (s : adb) : Prop :=
  has_receipt p (receipt_key (principal_id p) scope_id ro) s ∨
  has_receipt p (legacy_receipt_key (principal_id p) scope_id ro) s.

Lemma moves_settled t0 p i ro s s' : reachable digest timestamp (t0, s) → moves s s' → settled p i ro s → settled p i ro s'.
Proof. intros Hr Hm [H|H]; [left|right]; by eapply moves_receipt. Qed.

Lemma created_has_receipt b s b' s' p k :
  AccessStore.create_binding digest timestamp b s = Ok (b', s') → granted_by b = p → idempotency_key b = k → has_receipt p k s'.
Proof.
  intros Hc <- <-. destruct (created_receipt _ _ _ _ _ _ Hc) as (r & Hr & Ho & _ & Hb).
  unfold get_binding in Hb. apply fmap_Some in Hb as (row & Hrow & _). by exists r, row.
Qed.

Section preset.
Context (Hmeanwhile : ∀ n s, moves s (meanwhile n s)).

(** [moving_bind] with what the first part is known to answer. *)
Lemma moving_bind_ok {A B} (m : P A) (k : A → P B) :
  moving m → (∀ w a w', m w = (Ok a, w') → moving (k a)) → moving (m ≫= k).
Proof.
  intros Hm Hk w. specialize (Hm w). specialize (Hk w). unfold mbind, P_bind. destruct (m w) as [[a|e] w1]; [|done].
  simpl in Hm. etrans; [exact Hm|]. by apply (Hk a w1).
Qed.

Lemma claims_shaped p l w claims w' :
  Forall (λ x : resource * text, well_shaped x.1) l → map_all (owner_claim p) l w = (Ok claims, w') →
  Forall (λ o, well_shaped (o_resource o)) claims.
Proof.
  intros Hl. revert w claims. induction Hl as [|x l Hx _ IH]; intros w claims H; simpl in H.
  - by apply P_ret_ok in H as [-> _].
  - apply P_bind_ok in H as (o & w1 & Ho & H). apply P_bind_ok in H as (os & w2 & Hos & H). apply P_ret_ok in H as [-> ->].
    constructor; [|by eapply IH]. unfold owner_claim in Ho. apply P_bind_ok in Ho as ([] & ? & _ & Ho).
    apply P_bind_ok in Ho as ([] & ? & _ & Ho). apply P_bind_ok in Ho as (t & ? & _ & Ho). by apply P_ret_ok in Ho as [-> _].
Qed.

Lemma moving_claims p l : moving (map_all (owner_claim p) l).
Proof.
  induction l as [|x l IH]; [apply moving_ret|]. simpl. apply moving_bind.
  - unfold owner_claim. do 2 (apply moving_bind; [apply moving_raising|intros []]).
    apply moving_bind; [apply moving_now|]. intros t. apply moving_ret.
  - intros o. apply moving_bind; [done|]. intros os. apply moving_ret.
Qed.

Lemma moves_audits_all l s u s' : for_each (λ e, append_audit e ;; mret tt) l s = Ok (u, s') → moves s s'.
Proof.
  revert s. induction l as [|e l IH]; intros s H; simpl in H; [by apply M_ret_ok in H as [_ ->]|].
  apply M_bind_ok in H as ([] & s1 & Ha & H). apply M_bind_ok in Ha as (n & s2 & Ha & [_ ->]%M_ret_ok).
  etrans; [by eapply moves_audit|by apply IH].
Qed.

Lemma moving_establish resources p ctx :
  Forall (λ x : resource * text, well_shaped x.1) resources → moving (establish_artifact_owners resources p ctx).
Proof.
  intros Hr. unfold establish_artifact_owners. case_decide; [apply moving_ret|].
  apply moving_bind_ok; [apply moving_claims|]. intros w claims w' Hc%(claims_shaped _ _ _ _ _ Hr).
  apply moving_bind; [apply moving_raising|]. intros []. apply moving_bind; [by intros w0|]. intros n.
  apply moving_call; [done|]. intros s a s' H2. apply M_bind_ok in H2 as (est & s1 & He & H2).
  apply M_bind_ok in H2 as (u & s2 & Ha & [_ ->]%M_ret_ok). trans s1; [|by eapply moves_audits_all].
  apply moves_step. intros t. exists t. by eapply step_establish.
Qed.

Lemma moving_attest l : moving (attest_candidate_owners l).
Proof.
  unfold attest_candidate_owners. case_decide; [apply moving_ret|].
  apply moving_bind; [apply moving_raising|]. intros []. apply moving_bind; [apply moving_raising|]. intros [].
  apply moving_call; [done|]. intros s a s' H2. apply moves_step. intros t. exists t. by eapply step_attest.
Qed.

Lemma preset_fresh i t p r ro k : well_shaped r → fresh (preset_binding i t p r ro k).
Proof. done. Qed.

Lemma moving_create b : fresh b → moving (call (AccessStore.create_binding digest timestamp b)).
Proof. intros Hf. apply moving_call; [done|]. intros s b' s' H. by eapply moves_created. Qed.

Lemma moving_bootstrap_role t p i r ctx ro : well_shaped r → moving (bootstrap_role t p i r ctx ro).
Proof.
  intros Hw. unfold bootstrap_role. apply moving_bind; [case_decide; [by apply moving_read|apply moving_ret]|].
  intros old. case_decide; [apply moving_ret|]. apply moving_bind; [apply moving_uuid4|]. intros j.
  apply moving_bind; [apply moving_raising|]. intros []. apply moving_bind; [by apply moving_create|]. intros b.
  case_decide; [by apply moving_record_relationship|apply moving_ret].
Qed.

Lemma moving_bootstrap st pr i ctx : moving (bootstrap_static_scope st pr i ctx).
Proof.
  unfold bootstrap_static_scope. apply moving_bind; [apply moving_raising|]. intros p. case_decide; [apply moving_ret|].
  intros w. unfold mbind at 1, P_bind at 1, raising at 1. destruct (scope i) as [r|] eqn:Hr; [|done]. revert w.
  change (moving (raising management ;; call (gets (static_scope_initialized digest p
    (receipt_key (principal_id p) i <$> STATIC_SCOPE_ROLES))) ≫= λ done_, if decide (done_ = true) then mret tt else
      now ≫= λ t, for_all (bootstrap_role t p i r ctx) STATIC_SCOPE_ROLES)).
  assert (Hw : well_shaped r).
  { unfold scope, new_resource in Hr. by apply result_bind_ok in Hr as ([] & ?%raise_if_ok%dec_stable & [= <-]). }
  apply moving_bind; [apply moving_raising|]. intros []. apply moving_bind; [by apply moving_read|]. intros b.
  case_decide; [apply moving_ret|]. apply moving_bind; [apply moving_now|]. intros t.
  apply moving_for_all. intros ro. by apply moving_bootstrap_role.
Qed.

Ltac walk := repeat first
  [ apply moving_ret | apply moving_raising | apply moving_now | apply moving_uuid4 | (by apply moving_read)
  | (by apply moving_require_any) | (by apply moving_check) | (by apply moving_record_relationship)
  | (apply moving_bind; [|intros ?]) ].

Lemma moving_create_binding pr q ctx v : well_shaped (c_resource q) → moving (create_binding pr q ctx v).
Proof. intros Hw. unfold create_binding. walk. by apply moving_create. Qed.

Lemma moving_not_found {A} p ctx : moving (not_found (A := A) p ctx).
Proof. unfold not_found. walk. Qed.

Lemma moving_revoke_binding pr i expected k ctx v : moving (revoke_binding pr i expected k ctx v).
Proof.
  unfold revoke_binding. walk. case_match; [|apply moving_not_found]. walk.
  apply moving_call; [done|]. intros s b' s' H'. by eapply moves_revoked.
Qed.

Lemma moving_replace_binding pr q ctx v : moving (replace_binding pr q ctx v).
Proof.
  unfold replace_binding. walk. case_match; [|apply moving_not_found]. walk; [by apply moving_not_yet_expired|].
  apply moving_call; [done|]. intros s b' s' H'. by eapply moves_replaced.
Qed.

(** The service refines the store.  Every request of the service, whatever it
    answers and whatever other requests write in between, takes the store from one
    state of a history to a later one by the store's own steps: no request writes a
    table behind the back of those steps, so everything proved of histories holds of
    a serving system. *)
Theorem service_refines_store :
  (∀ pr q ctx v, well_shaped (c_resource q) → moving (create_binding pr q ctx v)) ∧
  (∀ pr i expected k ctx v, moving (revoke_binding pr i expected k ctx v)) ∧
  (∀ pr q ctx v, moving (replace_binding pr q ctx v)) ∧
  (∀ resources p ctx, Forall (λ x : resource * text, well_shaped x.1) resources →
     moving (establish_artifact_owners resources p ctx)) ∧
  (∀ l, moving (attest_candidate_owners l)) ∧
  (∀ static pr i ctx, moving (bootstrap_static_scope static pr i ctx)) ∧
  (∀ pr checks ctx, moving (require_any pr checks ctx)).
Proof.
  split_and!; intros; [by apply moving_create_binding|apply moving_revoke_binding|apply moving_replace_binding|
    by apply moving_establish|apply moving_attest|apply moving_bootstrap|by apply moving_require_any].
Qed.

Lemma bootstrap_role_settles t0 t p i r ctx ro w u w' :
  reachable digest timestamp (t0, db w) → well_shaped r → bootstrap_role t p i r ctx ro w = (Ok u, w') → settled p i ro (db w').
Proof.
  intros Hreach Hw H. unfold bootstrap_role in H. apply P_bind_ok in H as (old & w1 & Hold & H).
  destruct (decide (old = true)) as [->|].
  - apply P_ret_ok in H as [_ ->]. right. case_decide; [|by apply P_ret_ok in Hold as [? _]].
    apply call_ok in Hold as (s' & [Hi ->]%gets_ok & ->). by apply initialized_one.
  - assert (Hm1 : moves (db w) (db w1)).
    { refine (moving_run _ _ _ _ _ Hold). case_decide; [by apply moving_read|apply moving_ret]. }
    apply P_bind_ok in H as (j & w2 & [= _ <-] & H). apply P_bind_ok in H as ([] & w3 & [_ ->]%raising_ok & H).
    apply P_bind_ok in H as (b & w4 & (s' & Hc & ->)%call_ok & H). left. cbn [db] in Hc.
    assert (Hm2 : moves (db w) s').
    { etrans; [exact Hm1|]. etrans; [apply Hmeanwhile|]. refine (moves_created _ _ _ _ _ Hc). by apply preset_fresh. }
    assert (Hm3 : moves s' (db w')).
    { case_decide; [|by apply P_ret_ok in H as [_ ->]].
      exact (moving_run _ _ _ _ (moving_record_relationship Hmeanwhile _ _ _ _) H). }
    destruct (moves_invariant _ _ _ Hm2 Hreach) as (t1 & Hr1). eapply moves_receipt; [exact Hr1|exact Hm3|].
    by eapply created_has_receipt.
Qed.

Lemma bootstrap_settles t0 p i ctx w u w' ro :
  reachable digest timestamp (t0, db w) →
  bootstrap_static_scope (Some p) (Some p) i ctx w = (Ok u, w') → ro ∈ STATIC_SCOPE_ROLES → settled p i ro (db w').
Proof.
  intros Hreach H Hro. unfold bootstrap_static_scope in H. apply P_bind_ok in H as (p' & ? & [[= <-] ->]%raising_ok & H).
  rewrite decide_False in H by auto. apply P_bind_ok in H as (r & ? & [Hr ->]%raising_ok & H).
  apply P_bind_ok in H as ([] & ? & [_ ->]%raising_ok & H).
  apply P_bind_ok in H as (all & w1 & (s1 & [Hall ->]%gets_ok & ->)%call_ok & H).
  destruct (decide (all = true)) as [->|].
  - apply P_ret_ok in H as [_ ->]. left. eapply initialized_receipts; [by symmetry|]. by apply list_elem_of_fmap_2.
  - assert (Hw : well_shaped r) by (unfold scope, new_resource in Hr; by apply result_bind_ok in Hr as ([] & ?%raise_if_ok%dec_stable & [= <-])).
    apply P_bind_ok in H as (t & w2 & [= <- <-] & H). set (s1 := meanwhile (tick w) (db w)) in *.
    eapply for_all_ok in H as (wa & ua & wb & Hrun & Hma & Hmb); [|by intros; apply moving_bootstrap_role|exact Hro].
    assert (Hm1 : moves (db w) (db wa)) by (etrans; [apply (Hmeanwhile (tick w))|exact Hma]).
    destruct (moves_invariant _ _ _ Hm1 Hreach) as (t1 & Hr1).
    pose proof (bootstrap_role_settles _ _ _ _ _ _ _ _ _ _ Hr1 Hw Hrun) as Hs.
    pose proof (moving_run _ _ _ _ (moving_bootstrap_role _ _ _ _ _ _ Hw) Hrun) as Hm2.
    destruct (moves_invariant _ _ _ Hm2 Hr1) as (t2 & Hr2). by eapply moves_settled.
Qed.
End preset.

(** A settled role is not granted again. *)
Section preset_alone.
Context (Halone : ∀ n s, meanwhile n s = s).

Lemma create_settled b s b' s' : has_receipt (granted_by b) (idempotency_key b) s →
  AccessStore.create_binding digest timestamp b s = Ok (b', s') → s' = s.
Proof.
  intros (r & row & Hr & Ho & Hrow). rewrite (create_known _ _ _ _ _ Hr). case_decide; [|done].
  by intros [_ ->]%replayed_ok.
Qed.

Lemma record_relations b p v ctx w : same_relations (db w) (db (record_relationship b p v ctx w).2).
Proof.
  unfold record_relationship, mbind, P_bind, uuid4, now. simpl. destruct (administrative_action _) as [a|e]; simpl; [|done].
  unfold call. simpl. rewrite Halone. destruct (append_audit _ _) as [[n s']|e] eqn:E; simpl; [|done].
  by apply audit_ok in E as [-> _].
Qed.

Lemma bootstrap_role_settled t p i r ctx ro w :
  settled p i ro (db w) → same_relations (db w) (db (bootstrap_role t p i r ctx ro w).2).
Proof.
  intros Hs. unfold bootstrap_role.
  destruct ((if decide (receipt_key (principal_id p) i ro ≠ legacy_receipt_key (principal_id p) i ro)
    then call (gets (static_scope_initialized digest p [legacy_receipt_key (principal_id p) i ro])) else mret false) w)
    as [[old|e] w1] eqn:Hold.
  - assert (Hw1 : db w1 = db w ∧ (old = true ∨ has_receipt p (receipt_key (principal_id p) i ro) (db w))).
    { destruct (decide _) as [Hne|He] in Hold.
      - apply call_ok in Hold as (s' & [-> ->]%gets_ok & ->). rewrite Halone. split; [done|].
        destruct Hs as [Hs|Hs]; [by right|left]. by apply initialized_one.
      - apply P_ret_ok in Hold as [-> ->]. split; [done|right]. destruct Hs as [Hs|Hs]; [done|].
        by rewrite (dec_stable He). }
    destruct Hw1 as [Hw1 Hold']. unfold mbind at 1, P_bind at 1. rewrite Hold. rewrite <- Hw1 in *.
    destruct (decide (old = true)); [done|]. destruct Hold' as [?|Hr]; [done|]. clear Hold. 
    unfold mbind at 1, P_bind at 1. simpl. unfold mbind at 1, P_bind at 1. unfold raising. destruct management as [[]|e]; [|done].
    unfold mbind at 1, P_bind at 1. unfold call at 1. cbn [tick db]. rewrite Halone.
    destruct (AccessStore.create_binding _ _ _ _) as [[b s']|e] eqn:E; [|done].
    apply create_settled in E as ->; [|done]. destruct (decide (binding_id b = _)); [|done].
    exact (record_relations _ _ _ _ (mkWorld (db w1) _)).
  - exfalso. destruct (decide _) in Hold; [|done]. unfold call in Hold. done.
Qed.

Lemma alone_moves : ∀ n s, moves s (meanwhile n s).
Proof. intros n s. by rewrite Halone. Qed.

Lemma same_relations_trans s1 s2 s3 : same_relations s1 s2 → same_relations s2 s3 → same_relations s1 s3.
Proof. intros (? & ? & ?) (? & ? & ?). split_and!; congruence. Qed.

Lemma bootstrap_roles_settled t0 t p i r ctx l w :
  reachable digest timestamp (t0, db w) → well_shaped r → (∀ ro, ro ∈ l → settled p i ro (db w)) →
  same_relations (db w) (db (for_all (bootstrap_role t p i r ctx) l w).2).
Proof.
  intros Hreach Hw. revert t0 w Hreach. induction l as [|ro l IH]; intros t0 w Hreach Hs; [done|].
  assert (H1 := bootstrap_role_settled t p i r ctx ro w ltac:(apply Hs; left)).
  assert (Hm := moving_bootstrap_role alone_moves t p i r ctx ro Hw w).
  cbn [for_all]. unfold mbind, P_bind. destruct (bootstrap_role t p i r ctx ro w) as [[[]|e] w1]; [|done]. cbn [snd] in H1, Hm.
  destruct (moves_invariant _ _ _ Hm Hreach) as (t1 & Hr1). eapply same_relations_trans; [exact H1|].
  apply (IH t1); [done|]. intros ro' Hin. eapply moves_settled; [exact Hreach|exact Hm|]. apply Hs. by right.
Qed.

(** The preset is granted once.  After the fixed preset of a Scope has been
    materialised for the static principal, running the bootstrap again, after any
    history at all, leaves bindings, owners and the policy revision exactly as they
    are: what has been revoked since stays revoked. *)
Theorem preset_is_final t0 p i ctx ctx' w u w1 w2 :
  reachable digest timestamp (t0, db w) →
  bootstrap_static_scope (Some p) (Some p) i ctx w = (Ok u, w1) → moves (db w1) (db w2) →
  same_relations (db w2) (db (bootstrap_static_scope (Some p) (Some p) i ctx' w2).2).
Proof.
  intros Hreach H Hm. assert (Hs : ∀ ro, ro ∈ STATIC_SCOPE_ROLES → settled p i ro (db w1)).
  { intros ro. by apply (bootstrap_settles alone_moves _ _ _ _ _ _ _ _ Hreach H). }
  assert (Hm1 : moves (db w) (db w1)) by exact (moving_run _ _ _ _ (moving_bootstrap alone_moves _ _ _ _) H).
  destruct (moves_invariant _ _ _ Hm1 Hreach) as (t1 & Hr1). destruct (moves_invariant _ _ _ Hm Hr1) as (t2 & Hr2).
  assert (Hs2 : ∀ ro, ro ∈ STATIC_SCOPE_ROLES → settled p i ro (db w2)) by (intros ro Hro; by eapply moves_settled, Hs).
  unfold bootstrap_static_scope, mbind, P_bind, raising. cbn [required_principal]. rewrite decide_False by auto.
  destruct (scope i) as [r|] eqn:Hr; [|done]. assert (Hw : well_shaped r).
  { unfold scope, new_resource in Hr. by apply result_bind_ok in Hr as ([] & ?%raise_if_ok%dec_stable & [= <-]). }
  destruct management as [[]|]; [|done]. cbv beta iota. unfold call, gets. cbn [tick db].
  rewrite Halone. destruct (decide (_ = true)); [done|].
  exact (bootstrap_roles_settled t2 (clock (S (tick w2))) p i r ctx' STATIC_SCOPE_ROLES (mkWorld (db w2) _) Hr2 Hw Hs2).
Qed.
End preset_alone.
End service.

(** ** A concrete service

    One Server administrator, the built-in provider, no interference; a short digest. *)

Definition demo_digest (t : text) : text := t.

#[local] Instance demo_provider : AuthorizationProvider :=
  CasbinAuthorizationProvider demo_digest demo_deployment demo_enforce demo_enforce_some.
Lemma demo_collision_free : by_pattern = true → collision_free demo_digest.
Proof. intros _ r r'. apply key_inj. Qed.
Definition demo_can : capabilities := mkCapabilities true true true.
Definition demo_clock (n : nat) : Z := Z.of_nat n.
Definition demo_uuid (n : nat) : text := str "id" ++ number (Z.of_nat n).
Definition demo_alone (n : nat) (s : adb) : adb := s.

Definition demo_root : binding :=
  mkBinding (str "root") (PrincipalRef demo_principal) (server_ref demo_deployment) R_SERVER_ADMIN demo_principal None 0 None
    ACTIVE 1 (str "pending") (str "root") None None.
Definition demo_admin : adb := Eval vm_compute in after (AccessStore.create_binding demo_digest number demo_root empty_adb).
Definition demo_world (s : adb) : world := mkWorld s 0.
Definition world_of {A} (x : result A * world) : world := x.2.

Lemma demo_admin_created : AccessStore.create_binding demo_digest number demo_root empty_adb = Ok (with_revision demo_root (str "1"), demo_admin).
Proof. vm_compute. reflexivity. Qed.
Lemma demo_admin_reachable : reachable demo_digest number (0, demo_admin).
Proof.
  exists 0. apply rtc_once. refine (step_create _ _ 0 _ _ _ _ _ demo_admin_created). split_and!; [done|done|].
  apply (bool_decide_unpack _). vm_compute. done.
Qed.
Lemma demo_alone_moves n s : moves demo_digest number s (demo_alone n s).
Proof. done. Qed.

Definition demo_bob : principal := mkPrincipal user (str "bob").
Definition demo_create : create_request :=
  mkCreate (PrincipalRef demo_bob) (scope_ref (str "s")) R_SCOPE_VIEWER (str "k") None None.
Definition demo_accept (r : resource) : result unit := Ok tt.

Lemma demo_scope_shaped : well_shaped (c_resource demo_create).
Proof. apply (bool_decide_unpack _). vm_compute. done. Qed.

Definition demo_granting := create_binding demo_digest number built_in demo_deployment demo_can demo_clock demo_uuid demo_alone
  (Some demo_principal) demo_create demo_context demo_accept (demo_world demo_admin).
Definition demo_granted : binding := Eval vm_compute in
  match demo_granting.1 with Ok b => b | Err _ => demo_root end.
Definition demo_after_grant : world := Eval vm_compute in world_of demo_granting.
Lemma demo_grant : demo_granting = (Ok demo_granted, demo_after_grant).
Proof. vm_compute. reflexivity. Qed.

Lemma grant_requires_authority_witness :
  ∃ p i t s2 s3,
    Some demo_principal = Some p ∧
    authorised demo_digest number built_in demo_admin s2 p demo_context (scope_ref (str "s")) ∧
    AccessStore.create_binding demo_digest number (candidate_binding i t p demo_create) s2 = Ok (demo_granted, s3) ∧
    moves demo_digest number demo_admin s2 ∧ moves demo_digest number s3 (db demo_after_grant).
Proof.
  exact (grant_requires_authority demo_digest number built_in demo_deployment demo_can demo_clock demo_uuid demo_alone demo_alone_moves demo_collision_free
    0 (Some demo_principal) demo_create demo_context demo_accept (demo_world demo_admin) demo_granted demo_after_grant
    demo_admin_reachable demo_scope_shaped demo_grant).
Defined.

(** Asked about another Scope's Artifact together with the Scope named [*], Casbin lets
    the administrator of [*] share the Artifact; a management request asks about the
    Artifact and what is above it only, and is refused. *)
Definition demo_star : binding :=
  mkBinding (str "star") (PrincipalRef demo_principal) (scope_ref (str "*")) R_SCOPE_ADMIN demo_principal None 0 None
    ACTIVE 1 (str "pending") (str "star") None None.
Definition demo_star_admin : adb := Eval vm_compute in after (AccessStore.create_binding demo_digest number demo_star empty_adb).
Definition demo_share : create_request := mkCreate (PrincipalRef demo_bob) demo_artifact R_ARTIFACT_VIEWER (str "k") None None.
Example wildcard_scope_manages_nothing_else :
  (create_binding demo_digest number built_in demo_deployment demo_can demo_clock demo_uuid demo_alone
    (Some demo_principal) demo_share demo_context demo_accept (demo_world demo_star_admin)).1 = Err AccessDeniedError ∧
  match (check_batch demo_digest built_in demo_deployment demo_can demo_clock demo_uuid demo_alone
    (Some demo_principal) [(ARTIFACT_SHARE, demo_artifact); (SCOPE_ADMIN, scope_ref (str "*"))] demo_context
    (demo_world demo_star_admin)).1 with Ok ds => map allowed ds = [true; true] | Err _ => False end.
Proof. vm_compute. done. Qed.

Definition demo_revoking := revoke_binding demo_digest built_in demo_deployment demo_can demo_clock demo_uuid demo_alone
  (Some demo_principal) (str "root") 1 (str "k2") demo_context demo_accept (demo_world demo_admin).
Definition demo_gone : binding := Eval vm_compute in match demo_revoking.1 with Ok b => b | Err _ => demo_root end.
Definition demo_after_revoke : world := Eval vm_compute in world_of demo_revoking.
Lemma demo_revocation :
  revoke_binding demo_digest built_in demo_deployment demo_can demo_clock demo_uuid demo_alone
  (Some demo_principal) (str "root") 1 (str "k2") demo_context demo_accept (demo_world demo_admin) =
  (Ok demo_gone, demo_after_revoke).
Proof. vm_compute. reflexivity. Qed.

Lemma change_requires_authority_witness :
  ∃ p t s2 s3, may_change demo_digest number built_in demo_admin s2 (Some demo_principal) p demo_context (str "root") ∧
    AccessStore.revoke_binding demo_digest (str "root") 1 (str "k2") t p s2 = Ok (demo_gone, s3) ∧
    moves demo_digest number demo_admin s2 ∧ moves demo_digest number s3 (db demo_after_revoke).
Proof.
  exact (proj1 (change_requires_authority demo_digest number built_in demo_deployment demo_can demo_clock demo_uuid demo_alone
    demo_alone_moves demo_collision_free 0 (Some demo_principal) (demo_world demo_admin) demo_admin_reachable)
    (str "root") 1 (str "k2") demo_context demo_accept demo_gone demo_after_revoke demo_revocation).
Defined.

(** Repeating a creation after the binding was revoked revokes nothing, yet the log
    then says that the grantor revoked the binding. *)
Definition demo_take_back : world := Eval vm_compute in world_of (revoke_binding demo_digest built_in demo_deployment demo_can
  demo_clock demo_uuid demo_alone (Some demo_principal) (binding_id demo_granted) 1 (str "k3") demo_context demo_accept
  demo_after_grant).
Definition demo_repeat : world := Eval vm_compute in world_of (create_binding demo_digest number built_in demo_deployment
  demo_can demo_clock demo_uuid demo_alone (Some demo_principal) demo_create demo_context demo_accept demo_take_back).
Example repeated_creation_logged_as_revocation :
  map_to_list (binding_rows (db demo_repeat)) = map_to_list (binding_rows (db demo_take_back)) ∧
  (e_reason <$> audits (db demo_take_back)) =
    str <$> ["casbin-policy"; "casbin-policy"; "binding-created"; "casbin-policy"; "casbin-policy"; "binding-revoked"] ∧
  (e_reason <$> audits (db demo_repeat)) =
    (e_reason <$> audits (db demo_take_back)) ++ (str <$> ["casbin-policy"; "casbin-policy"; "binding-revoked"]).
Proof. vm_compute. done. Qed.

(** Bob, who has nothing, may not grant. *)
Definition demo_denying := create_binding demo_digest number built_in demo_deployment demo_can demo_clock demo_uuid demo_alone
  (Some demo_bob) demo_create demo_context demo_accept (demo_world demo_admin).
Definition demo_after_denial : world := Eval vm_compute in world_of demo_denying.
Lemma demo_denied : demo_denying = (Err AccessDeniedError, demo_after_denial).
Proof. vm_compute. reflexivity. Qed.


Lemma service_refines_store_witness : moves demo_digest number demo_admin (db demo_after_revoke).
Proof.
  exact (eq_ind _ (λ x : result binding * world, moves demo_digest number demo_admin (db x.2))
    (proj1 (proj2 (service_refines_store demo_digest number built_in demo_deployment demo_can demo_clock demo_uuid demo_alone
      demo_alone_moves)) (Some demo_principal) (str "root") 1 (str "k2") demo_context demo_accept (demo_world demo_admin))
    _ demo_revocation).
Defined.

Definition demo_search : search_request := mkSearch demo_principal ARTIFACT_SHARE ARTIFACT None demo_context.
Lemma listing_matches_decisions_witness :
  allowed (builtin_decide demo_digest (point_snapshot demo_digest demo_principal [] [demo_artifact] 5 demo_admin) demo_principal [] 5
    (mkRequest demo_principal ARTIFACT_SHARE demo_artifact demo_context)) = true.
Proof.
  apply (listing_matches_decisions demo_digest number demo_deployment 0 demo_admin demo_search demo_artifact [demo_artifact] 5
    demo_admin_reachable).
  - done.
  - by left.
  - apply (bool_decide_unpack _). vm_compute. done.
  - left.
  - done.
  - apply (bool_decide_unpack _). vm_compute. done.
Defined.

Definition demo_boot (w : world) := bootstrap_static_scope demo_digest number built_in demo_deployment demo_can demo_clock demo_uuid
  demo_alone (Some demo_bob) (Some demo_bob) (str "s") demo_context w.
Definition demo_booted : world := Eval vm_compute in world_of (demo_boot (demo_world demo_admin)).
Lemma demo_boots : demo_boot (demo_world demo_admin) = (Ok tt, demo_booted).
Proof. vm_cast_no_check (eq_refl (Ok tt : result unit, demo_booted)). Qed.

Lemma preset_is_final_witness : same_relations (db demo_booted) (db (demo_boot demo_booted).2).
Proof.
  apply (preset_is_final demo_digest number built_in demo_deployment demo_can demo_clock demo_uuid demo_alone ltac:(done)
    0 demo_bob (str "s") demo_context demo_context (demo_world demo_admin) tt demo_booted demo_booted demo_admin_reachable
    demo_boots).
  done.
Defined.
End AccessControl.
